(* ===== verification/_CoqProject ===== *)
-Q . S2P
Prelude.v
Wp.v
Bytes.v
Float.v
LogRecord.v
Logger.v
Format.v
Bloom.v
Index.v
SSTable.v
SSTableSpec.v
Heap.v
Merge.v
MergeSpec.v
Database.v
DatabaseSpec.v
DatabaseRefine.v
RaftTypes.v
LogStore.v
RaftNode.v
Protocol.v
RaftSim.v
Journal.v
Runtime.v
NodeSpec.v
Persist.v
Network.v
Service.v
Cluster.v
Fault.v
Simulator.v
SimulatorSpec.v
SimulatorSafe.v
ChaosSafe.v
RaftSafety.v
ReplicatedStore.v
Tcp.v
TcpSpec.v
TcpStore.v
TestCluster.v
MapStore.v
Progress.v
Rounds.v
Healthy.v
Liveness.v
TestClusterSpec.v
Text.v
NodeMain.v
Client.v
ClientSpec.v
ClientNode.v
Bench.v
BenchSpec.v
Concurrent.v
ConcurrentInv.v
ConcurrentStep.v
ConcurrentSpec.v
ConcurrentCrash.v
