(* ===== verification/Prelude.v ===== *)
(** * KVRaft: a replicated key-value store

    The program is a key-value database (an LSM tree) and a Raft node that
    replicates it. A request comes in through one of two services, one for
    lines of JSON and one for gRPC; both put it into the queue of the runtime,
    which runs one Raft node: it takes a message of a peer, a request or a tick
    at a time, lets the node handle it and sends what the node has put into its
    outbox. A write becomes an entry of the Raft log, is copied to the other
    nodes and, once a majority has it, is applied to the database of each node,
    which appends it to a write-ahead log, keeps it in a memtable, flushes the
    memtable to sorted tables and merges those. Reads are answered from the
    local database. A simulator runs several nodes with an artificial clock and
    network and injects faults.

    ** Files

    The definitions have the names of the source where they can; a handler is
    one definition, a loop inside of it one more. [src/lsm], [src/database],
    [src/raft] and [src/runtime] stand for the directories under [src/src].

    - [Prelude] (this file), [Wp]: the results of Rust code, programs on a
      state ([M]), their updates, tactics and hints; total correctness of
      programs.
    - [Bytes], [Float]: bytes, integers of a fixed width, UTF-8, decimal text;
      [f64] as bit patterns.
    - [LogRecord], [Logger]: [lsm/wal/log_record.rs], [lsm/wal/logger.rs].
      [Logger] is a record of the bytes of the file and the number of records.
    - [Format], [Bloom], [Index], [SSTable]: [lsm/sstable/*.rs]. A directory is
      a map from file names to contents. [SSTableSpec] describes what is in the
      files and relates every writer and reader to it.
    - [Heap], [Merge]: [BinaryHeap] and the k-way merge of
      [database/compact.rs]; [MergeSpec] is its specification.
    - [Database]: [database/{mod,flush,compact,recovery}.rs]. [DatabaseSpec]
      is the invariant of a database and what every operation does to it;
      [DatabaseRefine] states it as a refinement of a finite map, with
      restarts and crashes.
    - [Concurrent]: the same operations under several threads, as steps between
      taking and releasing the locks, and every interleaving of them.
      [ConcurrentInv] is the invariant with what a step guarantees to the other
      threads, [ConcurrentStep] that every step keeps it, [ConcurrentSpec] what
      threads can count on, and schedules on which something goes wrong;
      [ConcurrentCrash] what is left when the program is stopped among them.
    - [RaftTypes], [LogStore], [RaftNode]: the data of Raft, the two files of a
      node, and every handler of a node ([raft/{message,request,node,election,
      replication,log_store}.rs]). The database of a node is an instance of the
      class [KvStore].
    - [Protocol]: an abstract protocol with history variables, its invariant
      and the safety properties. [RaftSim]: every handler of [RaftNode] is a
      sequence of its steps. [NodeSpec]: what single handlers decide. [Persist]:
      the metadata file is up to date at the end of every turn.
    - [Runtime]: one turn of the loop of [runtime/runtime.rs]. [Cluster]: nodes
      that run turns over a network which may lose, repeat, delay and reorder
      messages. [RaftSafety]: what follows for the real nodes.
      [ReplicatedStore]: the nodes with [Database] as their [KvStore].
    - [Network]: [raft/network.rs], the frames on the bytes of a connection and
      the table of connections. [Tcp]: several nodes with the tasks that
      [start_with_api] spawns (the runtime, the listener, the reconnection
      loop, a writer and a reader for each end of a connection) and the
      connections between them, as steps in any order. [TcpSpec]: its invariant,
      and that these nodes are those of [Cluster]; [TcpStore]: with [Database]
      under them.
    - [Service]: [runtime/service.rs], [runtime/grpc_service.rs].
    - [Fault], [Simulator]: [runtime/fault.rs], [runtime/simulator.rs].
      [SimulatorSpec], [SimulatorSafe] and [ChaosSafe] are their properties.
    - [TestCluster]: [testing/cluster.rs], the cluster of the integration
      tests. [MapStore] is the interface through which a client may take a
      database for a finite map, with [Database] and [Journal] as instances.
      [Progress] says what each handler does when nothing goes wrong, [Rounds]
      puts the handlers together to elections, commands and heartbeats,
      [Healthy] runs them in the simulator; [Liveness] and [TestClusterSpec]
      are the results.
    - [Text]: the functions on strings that the programs use. [NodeMain]:
      [bin/node.rs], from the arguments to the node, and [cluster_init.sh].
      [Client]: [bin/client.rs], the prompt, the requests and the connection;
      [ClientSpec] is about a session of it, [ClientNode] about the client and
      a node together. [Bench], [BenchSpec]: [bin/bench.rs], the workloads, their
      statistics and the tables, and that all of it runs to the end.
    - [Journal]: a database that is the list of its commands, for examples.

    ** How the code is modelled

    A function with [&mut self] is a program [M S A]: a function of the state
    to a result and a new state. [io::Result] is [res]; a panic is a result
    too, so that "does not panic" is a statement. Strings are their bytes,
    [u64] and [usize] are [Z] or [nat] with the wrapping or the check of the
    source written out where one can matter, an [f64] is its bit pattern, time
    is in milliseconds. A [HashMap] whose order shows is iterated in an order
    that the model fixes; theorems about it do not depend on the order. Tasks
    that share a lock are sequences of the operations that hold it. In
    [Database] an operation is one program; [Concurrent] cuts it at its locks.

    A TCP connection is two pipes of bytes: what is written is read in its order,
    and when a direction breaks any number of the last bytes is lost. A task
    that waits for bytes, for a message or for a connection has no step until
    it can go on; other programs may connect and write anything but messages of nodes: what
    [bincode] reads in it is from a client. In [Tcp] a turn of the runtime is one
    step, and so is one message written or read.

    A [BinaryHeap] is the list of its elements, from which [pop] removes a
    greatest one; a [BufWriter] is its flushed effect.

    The parameters are code outside of the repository: [bincode] ([Bincode],
    [MessageBincode]), [serde_json] ([Json]), the hash function of
    [xxhash_rust] ([Xxh3]), the text and the arithmetic of [f64] ([F64Text]
    and the other classes of [Float]), the random timeouts ([RandomMillis]),
    the derived [Debug] of a payload ([DebugPayload]), and whether a dialed
    address answers. What is assumed of them is in the classes named [...Laws]
    (decoding gives back what was encoded; [BenchSpec.PercentLaws]: [f64] computes
    the indices of the percentiles exactly), in [Bloom.BloomDims] (the filter of
    a table has a size that fits its file) and in the hypotheses of the theorems
    that name it; [RaftSim.KvPure] is what a client assumes of a database:
    that reading does not change it.

    ** What is shown

    - Storage. Every file format is read back as it was written, and torn files
      are described exactly ([LogRecord], [Logger], [Bloom], [Index],
      [SSTableSpec], [LogStore]); the merge leaves the newest version of every
      key ([MergeSpec.merge_newest_wins]); the database is a map through
      flushes, compactions, restarts and crashes ([DatabaseRefine]).
    - Threads. One thread alone does what [Database] says
      ([ConcurrentSpec.alone_is_sequential]); together they see one map, with
      every call at one moment between its call and its return
      ([database_linearizable]); every call ends ([calls_terminate]); a thread
      reads what it wrote ([own_write_is_read]). A restart keeps none of this:
      the log and the memtable are locked one after the other, and ids of
      tables are not in the order of their publication
      ([ConcurrentSpec.Example]); but if the program is stopped between two
      sections, every table file is complete, the directory opens again, and
      nothing is read that was not written ([ConcurrentCrash]). The runtime calls its database from one task
      only, so that its nodes are on the safe side.
    - Consensus. [Protocol.reachable_inv] is the invariant of the protocol;
      [RaftSim] carries it over to the handlers; [RaftSafety] states election
      safety, log matching, leader completeness and state machine safety.
      [Persist] and [RaftSafety.vote_survives_crash] are about a crash between
      two turns, [RaftSafety.restart_shifts_log] and
      [removed_entry_stays_in_file] about what the file of the log then gives.
    - The whole: [TcpStore.store_over_tcp], on [ReplicatedStore.replicated_map]:
      the nodes with their databases, tasks and connections are one map. A turn
      of a node can only fail with its database ([RaftSim.store_panics]), and the
      [Database] of a node does not fail while it has room
      ([ReplicatedStore.turn_total]). A read is answered from what the node has
      applied itself ([ReplicatedStore.reads_are_local]).
    - The network: what arrives, and the table of connections ([Network]);
      whatever the tasks do and wherever connections break, a node finds in its
      queue only what was sent to it ([TcpSpec.tcp_refines_network]), so that
      the theorems on [Cluster] hold for nodes over TCP; a silent connection
      keeps a node from accepting any other
      ([TcpSpec.silent_connection_blocks_listener]).
    - The services: one answer for each line, up to one whose answer stays
      outstanding (a write whose majority is gone) or that is not text, on a
      connection that may have a capacity after which it breaks; what reaches
      the runtime ([Service]).
    - The simulator: what its safety check looks for, exactly
      ([SimulatorSpec.check_invariants_exact]); faults never break the check,
      and the chaos test never reports a violation ([SimulatorSafe],
      [ChaosSafe]), for commands without a float that is not a number.
    - Progress: without faults an election elects its candidate, every command
      given to the leader is committed and applied everywhere ([Liveness]), and
      the integration test passes for any size and workload
      ([TestClusterSpec]).
    - The programs: the start script starts a system over TCP for which the
      safety theorems hold ([NodeMain.script_starts_cluster]); the client and a node
      read each other's frames, and what the client shows belongs to the
      responses that have arrived ([ClientSpec.client_session]); the client on
      a node without peers is a map ([ClientNode.client_on_node]); the
      benchmark program runs to its end and prints the throughput and the
      percentiles of what it has measured ([BenchSpec.benchmark_completes]).
    - Where the code does not do what it means to, a theorem says so, in general
      ([DatabaseRefine.torn_flush_blocks_restart] for every unfinished table
      file, [RaftSafety.restart_shifts_log], [TcpSpec.silent_connection_blocks_listener])
      or on a concrete run ([ConcurrentSpec.Example], [ClientNode.Late] and
      others).

    ** Fuel and bounds

    The loops that the code runs until the end of its input have as fuel the
    number of bytes or items of that input, plus one: each round takes at least
    one. The theorems about them are about the function with its fuel, so that
    it is enough is a part of what is proved. [run_until_idle] has the limit
    of 10000 steps of the source; the theorems of [Liveness] are about clusters
    whose longest round of messages stays below it, 4(n - 1) for n nodes, and
    whose events can be numbered in 64 bits. Terms stay below 2^64: the theorems on
    clusters have a bound on the terms that are left, which a turn lowers by
    one at most. Lengths of keys, values and files below 2^32 or 2^64 are
    hypotheses where the code casts.

    ** What is not modelled

    - The sockets of the operating system, beyond what is said above, and the
      listeners of [runtime/service.rs] and [runtime/grpc_service.rs]; what
      they run for each connection or call is modelled. Binding the ports of
      the listeners is not: [NodeMain.start_node] is about a start at which the
      three ports of the node are free. The task of
      [handle_peer_changes] is no step of [Tcp]: nothing ever sends to it
      (its handler is in [Network]).
    - Changes of the membership as a protocol: the handlers have them and are
      modelled with them, but the theorems on clusters are about a fixed set of
      nodes ([static]). The code has no joint consensus, and the findings name
      cases in which a change goes wrong.
    - Crashes within a step of [Concurrent], which writes its table file whole (a
      file that is cut short is the subject of
      [DatabaseRefine.torn_flush_blocks_restart]), and a lock that a
      panicking thread has poisoned (no thread panics there). The flush lock and
      the write lock of the memtable are one lock in it: the second is taken
      right after the first, and both are held to the end.
    - Failures of the disk other than a crash: a failed write of the Raft log
      is only printed by the source, and [RaftNode.new_in_dir] is about files
      that can be opened. [Cluster.net_restart] is the restart of the simulator,
      which keeps the log in memory.
    - The text that [bin/node.rs] and [bin/client.rs] print: it is a value of a
      type, or left out. The times and the memory that [bin/bench.rs] measures
      are parameters. *)

From stdpp Require Export base gmap sets list strings sorting.

(** * Results of Rust code

    [io::Result] has the two first constructors; a panic ([unwrap], [expect],
    [assert!], an index out of range) is the third: no caller of the source
    catches one, so it propagates through every [?] and every [match]. *)
Inductive ErrorKind : Type :=
  | UnexpectedEof
  | InvalidData
  | InvalidInput
  | NotFound
  | BrokenPipe.

Record io_error : Type := IoError { kind : ErrorKind; message : string }.

Inductive res (A : Type) : Type :=
  | Ok (a : A)
  | Err (e : io_error)
  | Panic (msg : string).
Arguments Ok {A} a.
Arguments Err {A} e.
Arguments Panic {A} msg.

#[export] Instance ErrorKind_eq_dec : EqDecision ErrorKind.
Proof. solve_decision. Defined.
#[export] Instance io_error_eq_dec : EqDecision io_error.
Proof. solve_decision. Defined.

(** [is_Ok r]: the computation returned normally. *)
Definition is_Ok {A} (r : res A) : bool :=
  match r with Ok _ => true | _ => false end.

#[export] Instance res_ret : MRet res := λ A a, Ok a.
#[export] Instance res_bind : MBind res := λ A B k r,
  match r with Ok a => k a | Err e => Err e | Panic p => Panic p end.
#[export] Instance res_fmap : FMap res := λ A B f r,
  match r with Ok a => Ok (f a) | Err e => Err e | Panic p => Panic p end.

(** [Option::ok_or_else]. *)
Definition ok_or {A} (e : io_error) (o : option A) : res A :=
  match o with Some a => Ok a | None => Err e end.

(** [Option::expect] and indexing: [None] is a panic. *)
Definition expect {A} (msg : string) (o : option A) : res A :=
  match o with Some a => Ok a | None => Panic msg end.

(** * State-passing programs

    [M S A] is code that reads and changes an [S] and may fail; the changes
    made before a failure stay, as they do for [&mut self] in Rust. *)
Definition M (S A : Type) : Type := S → res A * S.

#[export] Instance M_ret {S} : MRet (M S) := λ A a s, (Ok a, s).
#[export] Instance M_bind {S} : MBind (M S) := λ A B k m s,
  match m s with
  | (Ok a, s') => k a s'
  | (Err e, s') => (Err e, s')
  | (Panic p, s') => (Panic p, s')
  end.

Definition get {S} : M S S := λ s, (Ok s, s).
Definition gets {S A} (f : S → A) : M S A := λ s, (Ok (f s), s).
Definition modify {S} (f : S → S) : M S () := λ s, (Ok (), f s).
Definition lift {S A} (r : res A) : M S A := λ s, (r, s).
Definition fail {S A} (e : io_error) : M S A := λ s, (Err e, s).
Definition panic {S A} (msg : string) : M S A := λ s, (Panic msg, s).

(** [match m { Ok(a) => .., Err(e) => .. }]: the error becomes a value. *)
Definition attempt {S A} (m : M S A) : M S (A + io_error) := λ s,
  match m s with
  | (Ok a, s') => (Ok (inl a), s')
  | (Err e, s') => (Ok (inr e), s')
  | (Panic p, s') => (Panic p, s')
  end.

(** [if c { m }]. *)
Definition when {S} (c : bool) (m : M S ()) : M S () :=
  if c then m else mret ().

(** [for x in l { f(x) }]. *)
Fixpoint for_each {S A} (l : list A) (f : A → M S ()) : M S () :=
  match l with
  | [] => mret ()
  | x :: l' => f x ;; for_each l' f
  end.

(** * Record update: [r <| field := v |>] *)
Class Eta (R : Type) : Type := eta : R → R.
Class Upd {R T : Type} (proj : R → T) : Type := upd : (T → T) → R → R.

Ltac derive_upd :=
  lazymatch goal with
  | |- @Upd ?R ?T ?proj =>
      let e := constr:(_ : Eta R) in
      let f := fresh "f" in let r := fresh "r" in intros f r;
      let t := eval hnf in (@eta R e r) in
      let t := eval pattern (proj r) in t in
      lazymatch t with
      | ?h _ => let u := eval cbv beta in (h (f (proj r))) in exact u
      end
  end.

Notation "r <| p := v |>" := (upd (proj := p) (λ _, v) r)
  (at level 1, left associativity, p constr at level 10, v at level 200,
   format "r  <| p  :=  v |>").

(** [zoom p m] runs [m] on the field [p] of the state. *)
Definition zoom {S T} (p : S → T) `{!Upd p} {A} (m : M T A) : M S A := λ s,
  let '(r, t) := m (p s) in (r, s <| p := t |>).

(** * Machine integers

    A [w]-bit unsigned integer is a [Z] in [0, 2^w); arithmetic that wraps in
    the source is written with [wrap w]. [usize] is 64 bits wide; lengths and
    indices of in-memory vectors are [nat]. *)
Definition wrap (w z : Z) : Z := (z `mod` 2 ^ w)%Z.
Definition u32_max : Z := (2 ^ 32 - 1)%Z.
Definition u64_max : Z := (2 ^ 64 - 1)%Z.
Definition in_u (w z : Z) : Prop := (0 ≤ z < 2 ^ w)%Z.
Definition in_u8 := in_u 8.
Definition in_u32 := in_u 32.
Definition in_u64 := in_u 64.

(** [a.checked_add(b)] on [u64]. *)
Definition checked_add_u64 (a b : Z) : option Z :=
  if decide (a + b ≤ u64_max)%Z then Some (a + b)%Z else None.

(** [u32::try_from(n)] and [n as u32] for [n : usize]. *)
Definition u32_try_from (n : nat) : option Z :=
  if decide (Z.of_nat n ≤ u32_max)%Z then Some (Z.of_nat n) else None.
Definition u32_as (n : nat) : Z := wrap 32 (Z.of_nat n).

(** * Automation of the development *)
Create HintDb kvraft discriminated.
Create Rewrite HintDb kvraft.

(** Unfold one monadic step of a program applied to a state. *)
Lemma bind_eq {S A B} (m : M S A) (k : A → M S B) s :
  (m ≫= k) s = match m s with
               | (Ok a, s') => k a s'
               | (Err e, s') => (Err e, s')
               | (Panic p, s') => (Panic p, s')
               end.
Proof. reflexivity. Qed.

Lemma bind_Ok {S A B} (m : M S A) (k : A → M S B) s s' a :
  m s = (Ok a, s') → (m ≫= k) s = k a s'.
Proof. intros H. by rewrite bind_eq, H. Qed.

Lemma bind_Err {S A B} (m : M S A) (k : A → M S B) s s' e :
  m s = (Err e, s') → (m ≫= k) s = (Err e, s').
Proof. intros H. by rewrite bind_eq, H. Qed.

(** A program that ended well ended each of its steps well. *)
Lemma bind_inv {S A B} (m : M S A) (k : A → M S B) s s' b :
  (m ≫= k) s = (Ok b, s') →
  ∃ a s1, m s = (Ok a, s1) ∧ k a s1 = (Ok b, s').
Proof. rewrite bind_eq. destruct (m s) as [[a|e|p] s1]; naive_solver. Qed.

Lemma for_each_app {S A} (l l' : list A) (f : A → M S ()) s :
  for_each (l ++ l') f s = (for_each l f;; for_each l' f) s.
Proof.
  revert s. induction l as [|x l IH]; intros s; [done|].
  cbn [app for_each]. rewrite !bind_eq. destruct (f x s) as [[a|e|p] s1]; [|done..].
  by rewrite IH, bind_eq.
Qed.

(** Run the next step of a program whose result a hint or a hypothesis knows. *)
Ltac run :=
  erewrite bind_Ok; [| solve [eauto with kvraft nocore]].
Ltac runs := repeat (run; cbn beta iota).

(** Execute the primitives of [M] that occur in the goal. *)
Ltac exec :=
  unfold mbind, M_bind, mret, M_ret;
  cbv beta iota zeta delta [get gets modify lift fail panic when attempt].

Lemma wrap_small w z : in_u w z → wrap w z = z.
Proof. unfold in_u, wrap. intros. by apply Z.mod_small. Qed.

Lemma wrap_range w z : (0 ≤ w)%Z → in_u w (wrap w z).
Proof.
  unfold in_u, wrap. intros. apply Z.mod_pos_bound.
  apply Z.pow_pos_nonneg; lia.
Qed.

Lemma checked_add_u64_Some a b :
  (a + b ≤ u64_max)%Z → checked_add_u64 a b = Some (a + b)%Z.
Proof. unfold checked_add_u64. intros. by rewrite decide_True. Qed.

Lemma u32_try_from_Some n :
  in_u32 (Z.of_nat n) → u32_try_from n = Some (Z.of_nat n).
Proof.
  unfold in_u32, in_u, u32_try_from, u32_max. intros.
  rewrite decide_True; [done | lia].
Qed.

Lemma u32_as_small n : in_u32 (Z.of_nat n) → u32_as n = Z.of_nat n.
Proof. apply wrap_small. Qed.

#[export] Hint Rewrite @wrap_small u32_try_from_Some u32_as_small
  checked_add_u64_Some using assumption : kvraft.
