(* ===== verification/Wp.v ===== *)
(** Total correctness of the programs of [Prelude.v]: a program run in a state
    ends without an error, and in a state that satisfies the postcondition. *)

From S2P Require Import Prelude.

Section wp.
Context {S : Type} (may_panic : string → S → Prop).

(** [m], run in [s], returns normally and [Q] holds of the result and the state;
    it may panic instead, with a message and in a state that [may_panic] allows. *)
Definition wp {A} (m : M S A) (Q : A → S → Prop) (s : S) : Prop :=
  match m s with
  | (Ok a, s') => Q a s'
  | (Err _, _) => False
  | (Panic p, s') => may_panic p s'
  end.

Lemma wp_bind {A B} (m : M S A) (k : A → M S B) Q s :
  wp m (λ a, wp (k a) Q) s → wp (m ≫= k) Q s.
Proof using Type. unfold wp. rewrite bind_eq. by destruct (m s) as [[]]. Qed.

Lemma wp_mono {A} (m : M S A) (Q Q' : A → S → Prop) s :
  wp m Q s → (∀ a s', Q a s' → Q' a s') → wp m Q' s.
Proof using Type. unfold wp. destruct (m s) as [[]]; auto. Qed.

Lemma wp_ret {A} (a : A) (Q : A → S → Prop) s : Q a s → wp (mret a) Q s.
Proof using Type. done. Qed.

Lemma wp_get (Q : S → S → Prop) s : Q s s → wp get Q s.
Proof using Type. done. Qed.

Lemma wp_gets {A} (f : S → A) (Q : A → S → Prop) s : Q (f s) s → wp (gets f) Q s.
Proof using Type. done. Qed.

Lemma wp_modify (f : S → S) (Q : () → S → Prop) s : Q () (f s) → wp (modify f) Q s.
Proof using Type. done. Qed.

Lemma wp_lift_Some {A} msg (o : option A) a (Q : A → S → Prop) s :
  o = Some a → Q a s → wp (lift (expect msg o)) Q s.
Proof using Type. by intros ->. Qed.

Lemma wp_when (b : bool) (m : M S ()) (Q : () → S → Prop) s :
  (b = true → wp m Q s) → (b = false → Q () s) → wp (when b m) Q s.
Proof using Type. destruct b; cbn; auto. Qed.

Lemma wp_for_each {A} (I : list A → S → Prop) (l : list A) (f : A → M S ()) s :
  I l s →
  (∀ x l' s', x ∈ l → I (x :: l') s' → wp (f x) (λ _, I l') s') →
  wp (for_each l f) (λ _, I []) s.
Proof using Type.
  intros HI Hf. revert s HI. induction l as [|x l IH]; intros s HI; [done|].
  cbn [for_each]. apply wp_bind. eapply wp_mono; [apply Hf; [by left|done]|].
  intros u s1 HI1. by apply IH; [intros y l2 s2 Hy; apply Hf; right|].
Qed.

(** Errors are values for [attempt]. *)
Lemma wp_attempt {A} (m : M S A) (Q : A + io_error → S → Prop) s :
  (match m s with
   | (Ok a, s') => Q (inl a) s'
   | (Err e, s') => Q (inr e) s'
   | (Panic p, s') => may_panic p s'
   end) → wp (attempt m) Q s.
Proof using Type. unfold wp, attempt. by destruct (m s) as [[]]. Qed.

Lemma wp_result {A} (m : M S A) Q s :
  wp m Q s →
  (∃ a s', m s = (Ok a, s') ∧ Q a s') ∨ (∃ p s', m s = (Panic p, s') ∧ may_panic p s').
Proof using Type. unfold wp. destruct (m s) as [[] s']; [left|done|right]; eauto. Qed.

End wp.
