(* ===== verification/Bytes.v ===== *)
(** Bytes, little-endian integers, UTF-8, decimal text and byte readers: what
    the storage code uses of [core] and [std::io]. *)

From S2P Require Import Prelude.
From coqutil Require Export Word.LittleEndianList.

Abbreviation u8 := Init.Byte.byte.

#[export] Instance u8_eq_dec : EqDecision u8 := Stdlib.Strings.Byte.byte_eq_dec.
#[export] Program Instance u8_countable : Countable u8 :=
  inj_countable Stdlib.Strings.Byte.to_N Stdlib.Strings.Byte.of_N _.
Next Obligation. intros b. apply Stdlib.Strings.Byte.of_to_N. Qed.

(** A Rust [String]/[&str] is its UTF-8 bytes. *)
Abbreviation bytes := (list u8).
Abbreviation str := (list u8).

Definition u8_z (b : u8) : Z := coqutil.Byte.byte.unsigned b.
Definition z_u8 (z : Z) : u8 := coqutil.Byte.byte.of_Z z.
Definition u8_xor (a b : u8) : u8 := coqutil.Byte.byte.xor a b.
Definition u8_or (a b : u8) : u8 := z_u8 (Z.lor (u8_z a) (u8_z b)).

(** An ASCII literal of the source. *)
Definition lit (s : string) : bytes := String.list_byte_of_string s.

(** [to_le_bytes] and [from_le_bytes]. *)
Definition u32_to_le (z : Z) : bytes := le_split 4 z.
Definition u64_to_le (z : Z) : bytes := le_split 8 z.
Definition from_le (b : bytes) : Z := le_combine b.

(** [str::from_utf8]: the well-formed byte sequences of the Unicode standard
    (table 3-7), as [core::str::validations] accepts them. *)
Definition in_range (lo hi : Z) (b : u8) : bool :=
  bool_decide (lo ≤ u8_z b ∧ u8_z b ≤ hi)%Z.
Definition cont (b : u8) : bool := in_range 128 191 b.

Fixpoint utf8_valid (s : bytes) : bool :=
  match s with
  | [] => true
  | b0 :: s1 =>
      if in_range 0 127 b0 then utf8_valid s1 else
      match s1 with
      | [] => false
      | b1 :: s2 =>
          if in_range 194 223 b0 then cont b1 && utf8_valid s2 else
          match s2 with
          | [] => false
          | b2 :: s3 =>
              if in_range 224 239 b0 then
                (if in_range 224 224 b0 then in_range 160 191 b1
                 else if in_range 237 237 b0 then in_range 128 159 b1
                 else cont b1)
                && cont b2 && utf8_valid s3
              else
              match s3 with
              | [] => false
              | b3 :: s4 =>
                  in_range 240 244 b0 &&
                  (if in_range 240 240 b0 then in_range 144 191 b1
                   else if in_range 244 244 b0 then in_range 128 143 b1
                   else cont b1)
                  && cont b2 && cont b3 && utf8_valid s4
              end
          end
      end
  end.

(** [String::from_utf8]. *)
Definition from_utf8 (b : bytes) : option str :=
  if utf8_valid b then Some b else None.

(** ** Decimal text: [to_string] and [str::parse] on integers *)

Definition digit (d : Z) : u8 := z_u8 (48 + d).
Definition digit_value (b : u8) : option Z :=
  if in_range 48 57 b then Some (u8_z b - 48)%Z else None.

(** The digits of [n], pushed in front of [acc], least significant first. *)
Fixpoint dec_digits (fuel : nat) (n : Z) (acc : bytes) : bytes :=
  match fuel with
  | O => acc
  | S fuel' =>
      let acc' := digit (n `mod` 10) :: acc in
      if bool_decide (n < 10)%Z then acc' else dec_digits fuel' (n / 10) acc'
  end.

(** Twenty digits hold every 64-bit integer. *)
Definition int_to_string (z : Z) : str :=
  if bool_decide (0 ≤ z)%Z then dec_digits 20 z []
  else z_u8 45 :: dec_digits 20 (- z) [].

(** [from_str_radix(_, 10)]: each step checks the multiplication and the
    addition against the bounds [lo, hi] of the type. *)
Fixpoint parse_digits (lo hi sgn acc : Z) (s : bytes) : option Z :=
  match s with
  | [] => Some acc
  | b :: s' =>
      d ← digit_value b;
      let m := (acc * 10)%Z in
      if bool_decide (lo ≤ m ∧ m ≤ hi)%Z then
        let a := (m + sgn * d)%Z in
        if bool_decide (lo ≤ a ∧ a ≤ hi)%Z then parse_digits lo hi sgn a s'
        else None
      else None
  end.

Definition parse_int (signed : bool) (lo hi : Z) (s : str) : option Z :=
  match s with
  | [] => None
  | b :: s' =>
      if bool_decide (u8_z b = 43)%Z then
        match s' with [] => None | _ => parse_digits lo hi 1 0 s' end
      else if bool_decide (u8_z b = 45)%Z && signed then
        match s' with [] => None | _ => parse_digits lo hi (-1) 0 s' end
      else parse_digits lo hi 1 0 s
  end.

Definition i64_min : Z := (- 2 ^ 63)%Z.
Definition i64_max : Z := (2 ^ 63 - 1)%Z.
Definition in_i64 (z : Z) : Prop := (i64_min ≤ z ≤ i64_max)%Z.
Definition parse_i64 : str → option Z := parse_int true i64_min i64_max.
Definition parse_u32 : str → option Z := parse_int false 0 u32_max.

(** [<str as Ord>::cmp]: lexicographic on the bytes. *)
Fixpoint str_cmp (a b : str) : comparison :=
  match a, b with
  | [], [] => Eq
  | [], _ :: _ => Lt
  | _ :: _, [] => Gt
  | x :: a', y :: b' =>
      match Z.compare (u8_z x) (u8_z y) with
      | Eq => str_cmp a' b'
      | c => c
      end
  end.
Definition str_lt (a b : str) : Prop := str_cmp a b = Lt.
Definition str_le (a b : str) : Prop := str_cmp a b ≠ Gt.
#[export] Instance str_lt_dec : RelDecision str_lt.
Proof. intros a b. unfold str_lt. apply _. Defined.
#[export] Instance str_le_dec : RelDecision str_le.
Proof. intros a b. unfold str_le. apply _. Defined.

(** ** Readers: [std::io::Read] over the bytes that are left *)

Definition eof : io_error := IoError UnexpectedEof "failed to fill whole buffer".
Definition invalid_data (msg : string) : io_error := IoError InvalidData msg.
Definition invalid_input (msg : string) : io_error := IoError InvalidInput msg.

(** [read_exact] into a buffer of [n] bytes. *)
Definition read_exact (n : nat) : M bytes bytes := λ s,
  if decide (n ≤ length s) then (Ok (take n s), drop n s) else (Err eof, []).

(** The same with the length as the [u32]/[u64] that was read from the file. *)
Definition read_exact_z (n : Z) : M bytes bytes := λ s,
  if decide (n ≤ Z.of_nat (length s))%Z
  then (Ok (take (Z.to_nat n) s), drop (Z.to_nat n) s) else (Err eof, []).

(** A string that a [u32] can measure: valid UTF-8, shorter than 2^32 bytes. *)
Definition key_ok (k : str) : Prop :=
  utf8_valid k = true ∧ in_u32 (Z.of_nat (length k)).

(** * Lemmas *)

Lemma u8_z_range b : (0 ≤ u8_z b < 256)%Z.
Proof. apply coqutil.Byte.byte.unsigned_range. Qed.

Lemma u8_z_inj b1 b2 : u8_z b1 = u8_z b2 → b1 = b2.
Proof. apply coqutil.Byte.byte.unsigned_inj. Qed.

Lemma u8_z_of z : (0 ≤ z < 256)%Z → u8_z (z_u8 z) = z.
Proof.
  intros. unfold u8_z, z_u8. rewrite coqutil.Byte.byte.unsigned_of_Z.
  by apply Z.mod_small.
Qed.

Lemma z_u8_z b : z_u8 (u8_z b) = b.
Proof. apply coqutil.Byte.byte.of_Z_unsigned. Qed.

Lemma length_u32_to_le z : length (u32_to_le z) = 4.
Proof. apply length_le_split. Qed.
Lemma length_u64_to_le z : length (u64_to_le z) = 8.
Proof. apply length_le_split. Qed.

Lemma from_u32_to_le z : in_u32 z → from_le (u32_to_le z) = z.
Proof.
  intros. unfold from_le, u32_to_le. rewrite le_combine_split.
  by apply Z.mod_small.
Qed.
Lemma from_u64_to_le z : in_u64 z → from_le (u64_to_le z) = z.
Proof.
  intros. unfold from_le, u64_to_le. rewrite le_combine_split.
  by apply Z.mod_small.
Qed.

Lemma from_le_range b : (0 ≤ from_le b < 2 ^ (8 * Z.of_nat (length b)))%Z.
Proof. apply le_combine_bound. Qed.

Lemma from_le_cons b s : from_le (b :: s) = (u8_z b + 256 * from_le s)%Z.
Proof.
  unfold from_le. change (le_combine (b :: s)) with (Z.lor (u8_z b) (Z.shiftl (le_combine s) 8)).
  pose proof (u8_z_range b). rewrite Z.shiftl_mul_pow2 by lia.
  pose proof (Z.add_lor_land (u8_z b) (le_combine s * 2 ^ 8)) as E.
  replace (Z.land (u8_z b) (le_combine s * 2 ^ 8)) with 0%Z in E; [lia|].
  symmetry. apply Z.bits_inj'. intros n Hn. rewrite Z.land_spec, Z.bits_0.
  destruct (decide (n < 8)%Z).
  - by rewrite Z.mul_pow2_bits_low, andb_false_r by lia.
  - rewrite <-(Z.mod_small (u8_z b) (2 ^ 8)) by lia. by rewrite Z.mod_pow2_bits_high by lia.
Qed.

#[export] Hint Rewrite length_u32_to_le length_u64_to_le : kvraft.
#[export] Hint Rewrite from_u32_to_le from_u64_to_le using assumption : kvraft.

(** ** Readers *)

Lemma read_exact_app a b n :
  n = length a → read_exact n (a ++ b) = (Ok a, b).
Proof.
  intros ->. unfold read_exact.
  rewrite decide_True by (rewrite length_app; lia).
  by rewrite take_app_length, drop_app_length.
Qed.

Lemma read_exact_short n s : length s < n → read_exact n s = (Err eof, []).
Proof. intros. unfold read_exact. rewrite decide_False; [done | lia]. Qed.

Lemma read_exact_z_app a b n :
  n = Z.of_nat (length a) → read_exact_z n (a ++ b) = (Ok a, b).
Proof.
  intros ->. unfold read_exact_z.
  rewrite decide_True by (rewrite length_app; lia).
  by rewrite Nat2Z.id, take_app_length, drop_app_length.
Qed.

Lemma read_exact_z_short n s :
  (Z.of_nat (length s) < n)%Z → read_exact_z n s = (Err eof, []).
Proof. intros. unfold read_exact_z. rewrite decide_False; [done | lia]. Qed.

(** A successful read takes its bytes off the front. *)
Lemma read_exact_Ok n s a s' :
  read_exact n s = (Ok a, s') → s = a ++ s' ∧ length a = n.
Proof.
  unfold read_exact. case_decide; [|done]. intros [= <- <-].
  rewrite take_drop, length_take. split; [done | lia].
Qed.

Lemma read_exact_z_Ok n s a s' :
  read_exact_z n s = (Ok a, s') → s = a ++ s' ∧ length a = Z.to_nat n.
Proof.
  unfold read_exact_z. case_decide; [|done]. intros [= <- <-].
  rewrite take_drop, length_take. split; [done | lia].
Qed.

(** ** UTF-8 of ASCII text *)

Lemma utf8_valid_ascii s :
  Forall (λ b, in_range 0 127 b = true) s → utf8_valid s = true.
Proof. induction 1 as [|b s Hb _ IH]; [done|]. cbn. by rewrite Hb. Qed.

Lemma digit_value_digit d : (0 ≤ d < 10)%Z → digit_value (digit d) = Some d.
Proof.
  intros. unfold digit_value, digit, in_range. rewrite u8_z_of by lia.
  rewrite bool_decide_true by lia. f_equal. lia.
Qed.

Lemma digit_ascii d : (0 ≤ d < 10)%Z → in_range 0 127 (digit d) = true.
Proof.
  intros. unfold digit, in_range. rewrite u8_z_of by lia.
  apply bool_decide_eq_true. lia.
Qed.

Lemma dec_digits_ascii fuel n acc :
  (0 ≤ n)%Z → Forall (λ b, in_range 0 127 b = true) acc →
  Forall (λ b, in_range 0 127 b = true) (dec_digits fuel n acc).
Proof.
  revert n acc. induction fuel as [|fuel IH]; intros n acc Hn Hacc; [done|].
  cbn. pose proof (Z.mod_pos_bound n 10 ltac:(lia)).
  case_bool_decide; [|apply IH; [apply Z.div_pos; lia|]];
    constructor; auto using digit_ascii.
Qed.

Lemma int_to_string_utf8 z : utf8_valid (int_to_string z) = true.
Proof.
  apply utf8_valid_ascii. unfold int_to_string.
  case_bool_decide; [|constructor; [done|]]; apply dec_digits_ascii; auto; lia.
Qed.

Lemma length_dec_digits fuel n acc :
  length (dec_digits fuel n acc) ≤ fuel + length acc.
Proof.
  revert n acc. induction fuel as [|fuel IH]; intros n acc; cbn; [lia|].
  case_bool_decide; [cbn; lia|]. etrans; [apply IH | cbn; lia].
Qed.

Lemma length_int_to_string z : length (int_to_string z) ≤ 21.
Proof.
  unfold int_to_string. case_bool_decide; cbn [length];
    [pose proof (length_dec_digits 20 z []) |
     pose proof (length_dec_digits 20 (- z) [])]; cbn in *; lia.
Qed.

(** ** Printing then parsing an integer *)

Section decimal.
Context (lo hi : Z) (Hlo : (lo ≤ 0)%Z) (Hhi : (0 ≤ hi)%Z).

(** Parsing the digits of [n] from the left amounts to starting at [n]. *)
Lemma parse_dec_digits fuel sgn n acc :
  sgn = 1%Z ∨ sgn = (-1)%Z →
  (0 ≤ n < 10 ^ Z.of_nat fuel)%Z → (lo ≤ sgn * n ≤ hi)%Z → fuel ≠ 0 →
  parse_digits lo hi sgn 0 (dec_digits fuel n acc)
  = parse_digits lo hi sgn (sgn * n) acc.
Proof using Hlo Hhi.
  intros Hsgn. revert n acc.
  induction fuel as [|fuel IH]; intros n acc Hn Hr Hf; [done|].
  cbn [dec_digits]. pose proof (Z.mod_pos_bound n 10 ltac:(lia)) as Hm.
  pose proof (Z.div_mod n 10 ltac:(lia)) as Hdm.
  case_bool_decide as Hlt.
  - cbn [parse_digits]. rewrite digit_value_digit by done. cbn.
    rewrite !bool_decide_true by lia.
    f_equal. rewrite Z.mod_small by lia. lia.
  - assert (1 ≤ n / 10)%Z by (apply Z.div_le_lower_bound; lia).
    rewrite Nat2Z.inj_succ, Z.pow_succ_r in Hn by lia.
    rewrite IH.
    + cbn [parse_digits]. rewrite digit_value_digit by done. cbn.
      rewrite !bool_decide_true by (destruct Hsgn; subst sgn; lia).
      f_equal. lia.
    + split; [lia|]. apply Z.div_lt_upper_bound; lia.
    + destruct Hsgn; subst sgn; lia.
    + destruct fuel; [|done]. change (10 ^ Z.of_nat 0)%Z with 1%Z in Hn. lia.
Qed.
End decimal.

Lemma dec_digits_head fuel n acc :
  (0 ≤ n)%Z → fuel ≠ 0 →
  ∃ d s, (0 ≤ d < 10)%Z ∧ dec_digits fuel n acc = digit d :: s.
Proof.
  revert n acc. induction fuel as [|fuel IH]; intros n acc Hn Hf; [done|].
  cbn. pose proof (Z.mod_pos_bound n 10 ltac:(lia)).
  case_bool_decide; [eauto|].
  destruct fuel as [|fuel]; [cbn; eauto|].
  apply IH; [apply Z.div_pos; lia | done].
Qed.

Lemma dec_digits_not_sign fuel n acc :
  (0 ≤ n)%Z → fuel ≠ 0 →
  ∃ b s, dec_digits fuel n acc = b :: s ∧ u8_z b ≠ 43%Z ∧ u8_z b ≠ 45%Z.
Proof.
  intros Hn Hf. destruct (dec_digits_head fuel n acc Hn Hf) as (d & s & Hd & ->).
  exists (digit d), s. unfold digit. rewrite u8_z_of by lia.
  split; [done | lia].
Qed.

Lemma parse_int_unsigned signed lo hi z :
  (lo ≤ 0)%Z → (0 ≤ z ≤ hi)%Z → (hi < 10 ^ 20)%Z →
  parse_int signed lo hi (int_to_string z) = Some z.
Proof.
  intros Hlo Hz Hhi. unfold int_to_string. rewrite bool_decide_true by lia.
  destruct (dec_digits_not_sign 20 z []) as (b & s & E & H1 & H2); [lia..|].
  unfold parse_int. rewrite E, !bool_decide_false by done.
  cbn [andb]. rewrite <-E. rewrite parse_dec_digits by (auto; lia).
  cbn. f_equal. lia.
Qed.

Lemma parse_i64_to_string z : in_i64 z → parse_i64 (int_to_string z) = Some z.
Proof.
  unfold in_i64, parse_i64, i64_min, i64_max. intros Hz.
  destruct (decide (0 ≤ z)%Z) as [Hp|Hn].
  { apply parse_int_unsigned; lia. }
  unfold int_to_string. rewrite bool_decide_false by lia.
  destruct (dec_digits_not_sign 20 (- z) []) as (b & s & E & _); [lia..|].
  unfold parse_int. rewrite bool_decide_false, bool_decide_true by done.
  cbn [andb]. rewrite E, <-E.
  rewrite parse_dec_digits by (auto; lia). cbn. f_equal. lia.
Qed.

Lemma parse_u32_to_string z : in_u32 z → parse_u32 (int_to_string z) = Some z.
Proof.
  unfold in_u32, in_u, parse_u32, u32_max. intros. apply parse_int_unsigned; lia.
Qed.

(** ** The order of strings *)

Lemma str_cmp_refl a : str_cmp a a = Eq.
Proof. induction a as [|x a IH]; [done|]. cbn. by rewrite Z.compare_refl. Qed.

Lemma str_cmp_eq a b : str_cmp a b = Eq ↔ a = b.
Proof.
  split; [|intros ->; apply str_cmp_refl].
  revert b. induction a as [|x a IH]; intros [|y b]; try done. cbn.
  destruct (Z.compare_spec (u8_z x) (u8_z y)) as [E| |]; try done.
  apply u8_z_inj in E as ->. intros ?%IH. by subst.
Qed.

Lemma str_cmp_antisym a b : str_cmp b a = CompOpp (str_cmp a b).
Proof.
  revert b. induction a as [|x a IH]; intros [|y b]; try done. cbn.
  rewrite (Z.compare_antisym (u8_z x)).
  destruct (Z.compare (u8_z x) (u8_z y)); cbn; auto.
Qed.

Lemma str_lt_trans a b c : str_lt a b → str_lt b c → str_lt a c.
Proof.
  unfold str_lt. revert b c.
  induction a as [|x a IH]; intros [|y b] [|z c]; try done. cbn.
  destruct (Z.compare_spec (u8_z x) (u8_z y)),
    (Z.compare_spec (u8_z y) (u8_z z)), (Z.compare_spec (u8_z x) (u8_z z));
    try done; try lia; eauto.
Qed.

Lemma str_lt_irrefl a : ¬ str_lt a a.
Proof. unfold str_lt. by rewrite str_cmp_refl. Qed.

#[export] Instance str_lt_strict : StrictOrder str_lt.
Proof.
  split; [exact str_lt_irrefl | exact str_lt_trans].
Qed.

Lemma str_cmp_Gt a b : str_cmp a b = Gt ↔ str_lt b a.
Proof.
  unfold str_lt. rewrite (str_cmp_antisym a b). by destruct (str_cmp a b).
Qed.

Lemma str_lt_ne a b : str_lt a b → a ≠ b.
Proof. intros H ->. by apply str_lt_irrefl in H. Qed.

Lemma str_le_lt_or_eq a b : str_le a b ↔ str_lt a b ∨ a = b.
Proof.
  unfold str_le, str_lt. rewrite <-str_cmp_eq.
  destruct (str_cmp a b); naive_solver.
Qed.

Lemma str_le_not_lt a b : str_le a b ↔ ¬ str_lt b a.
Proof. unfold str_le. by rewrite str_cmp_Gt. Qed.

Lemma str_trichotomy a b : str_lt a b ∨ a = b ∨ str_lt b a.
Proof.
  destruct (str_cmp a b) eqn:E.
  - right; left. by apply str_cmp_eq.
  - by left.
  - right; right. by apply str_cmp_Gt.
Qed.

#[export] Instance str_le_total : Total str_le.
Proof.
  intros a b. rewrite !str_le_lt_or_eq.
  destruct (str_trichotomy a b) as [|[->|]]; auto.
Qed.

#[export] Instance str_le_trans : Transitive str_le.
Proof.
  intros a b c. rewrite !str_le_lt_or_eq.
  intros [?| ->] [?| ->]; eauto using str_lt_trans.
Qed.

#[export] Hint Resolve str_lt_ne int_to_string_utf8 : kvraft.

(** ** Well-behaved readers

    A reader that succeeds consumed a prefix of its input and does the same
    when more bytes follow; it never panics. *)
Class ReaderOk {A} (m : M bytes A) : Prop := {
  reader_extend s a s' q : m s = (Ok a, s') → m (s ++ q) = (Ok a, s' ++ q);
  reader_shrink s a s' : m s = (Ok a, s') → length s' ≤ length s;
  reader_no_panic s p s' : m s ≠ (Panic p, s');
}.

(** Pure code that returns an error rather than panicking. *)
Class NoPanic {A} (r : res A) : Prop := no_panic p : r ≠ Panic p.

#[export] Instance no_panic_Ok {A} (a : A) : NoPanic (Ok a).
Proof. done. Qed.
#[export] Instance no_panic_Err {A} e : NoPanic (@Err A e).
Proof. done. Qed.
#[export] Instance no_panic_ok_or {A} e (o : option A) : NoPanic (ok_or e o).
Proof. by destruct o. Qed.
#[export] Instance no_panic_fmap {A B} (f : A → B) (r : res A) :
  NoPanic r → NoPanic (f <$> r).
Proof. intros H p. specialize (H p). by destruct r; cbn; try congruence. Qed.
#[export] Instance no_panic_bind {A B} (f : A → res B) (r : res A) :
  NoPanic r → (∀ a, NoPanic (f a)) → NoPanic (r ≫= f).
Proof.
  intros Hr Hf p. specialize (Hr p). destruct r; cbn; [apply Hf|done|congruence].
Qed.

#[export] Instance reader_ok_ret {A} (a : A) : ReaderOk (mret a).
Proof. split; unfold mret, M_ret; naive_solver. Qed.
#[export] Instance reader_ok_fail {A} e : ReaderOk (@fail bytes A e).
Proof. split; unfold fail; naive_solver. Qed.
#[export] Instance reader_ok_lift {A} (r : res A) : NoPanic r → ReaderOk (lift r).
Proof.
  intros Hr. split; unfold lift; [naive_solver..|].
  intros s p s' [= E _]. by apply Hr in E.
Qed.
#[export] Instance reader_ok_read_exact n : ReaderOk (read_exact n).
Proof.
  split.
  - intros s a s' q [-> <-]%read_exact_Ok. rewrite <-app_assoc. by apply read_exact_app.
  - intros s a s' [-> _]%read_exact_Ok. rewrite length_app. lia.
  - intros s p s'. unfold read_exact. by case_decide.
Qed.
#[export] Instance reader_ok_read_exact_z n : ReaderOk (read_exact_z n).
Proof.
  split.
  - intros s a s' q. unfold read_exact_z. case_decide; [|done]. intros [= <- <-].
    rewrite decide_True by (rewrite length_app; lia).
    rewrite take_app_le, drop_app_le by lia. done.
  - intros s a s' [-> _]%read_exact_z_Ok. rewrite length_app. lia.
  - intros s p s'. unfold read_exact_z. by case_decide.
Qed.
#[export] Instance reader_ok_bind {A B} (m : M bytes A) (k : A → M bytes B) :
  ReaderOk m → (∀ a, ReaderOk (k a)) → ReaderOk (m ≫= k).
Proof.
  intros Hm Hk. split.
  - intros s b s' q (a & s1 & H1 & H2)%bind_inv.
    erewrite bind_Ok by (by apply reader_extend). by apply reader_extend.
  - intros s b s' (a & s1 & H1 & H2)%bind_inv.
    apply reader_shrink in H1, H2. lia.
  - intros s p s'. rewrite bind_eq. destruct (m s) as [[a|e|p'] s1] eqn:E;
      [apply reader_no_panic | done | by apply reader_no_panic in E].
Qed.
