(* ===== verification/Float.v ===== *)
(** [f64]: values as their bit patterns, comparison and classification as
    IEEE 754 defines them, and the interface of the standard library's text
    conversions and arithmetic, which the development takes as parameters. *)

From S2P Require Import Prelude Bytes.

(** A 64-bit pattern: sign, eleven bits of exponent, 52 of fraction. *)
Definition f64 : Type := Z.
Definition f64_exponent (x : f64) : Z := Z.land (Z.shiftr x 52) 2047.
Definition f64_fraction (x : f64) : Z := Z.land x (2 ^ 52 - 1).
Definition f64_is_nan (x : f64) : bool :=
  bool_decide (f64_exponent x = 2047 ∧ f64_fraction x ≠ 0)%Z.
Definition f64_is_finite (x : f64) : bool :=
  bool_decide (f64_exponent x ≠ 2047)%Z.
Definition f64_is_zero (x : f64) : bool :=
  bool_decide (f64_exponent x = 0 ∧ f64_fraction x = 0)%Z.

(** [PartialEq]: NaN differs from itself, the two zeros are equal. *)
Definition f64_eqb (x y : f64) : bool :=
  negb (f64_is_nan x) && negb (f64_is_nan y) &&
  (bool_decide (x = y) || (f64_is_zero x && f64_is_zero y)).

(** [Display] and [FromStr] of [f64]. *)
Class F64Text : Type := {
  f64_to_string : f64 → str;
  f64_parse : str → option f64;
}.

(** What the standard library documents of them: the text is ASCII, short,
    and parses back to the number that was printed. *)
Class F64TextLaws (T : F64Text) : Prop := {
  f64_text_utf8 x : utf8_valid (f64_to_string x) = true;
  f64_text_length x : length (f64_to_string x) ≤ 2048;
  f64_text_round_trip x :
    in_u64 x → f64_is_nan x = false → f64_parse (f64_to_string x) = Some x;
}.

(** The floating-point operations that size a Bloom filter. *)
Class F64Math : Type := {
  f64_of_usize : Z → f64;
  f64_of_decimal : Z → Z → f64; (** [m * 10^e], a literal *)
  f64_neg : f64 → f64;
  f64_mul : f64 → f64 → f64;
  f64_div : f64 → f64 → f64;
  f64_ln : f64 → f64;
  f64_powi : f64 → Z → f64;
  f64_ceil : f64 → f64;
  f64_round : f64 → f64;
  f64_max : f64 → f64 → f64;
  f64_ltb : f64 → f64 → bool;
  f64_as_usize : f64 → Z; (** [x as usize], which saturates *)
}.

(** [f64::max] never returns less than a number it was given, [as usize]
    stays in range, and the literals compare as the decimals they denote. *)
Class F64MathLaws (T : F64Math) : Prop := {
  f64_max_8 x : (8 ≤ f64_as_usize (f64_max x (f64_of_decimal 8 0)))%Z;
  f64_as_usize_range x : in_u64 (f64_as_usize x);
  f64_ltb_0_001 : f64_ltb (f64_of_decimal 0 0) (f64_of_decimal 1 (-2)) = true;
  f64_ltb_001_1 : f64_ltb (f64_of_decimal 1 (-2)) (f64_of_decimal 1 0) = true;
}.

(** ** Concrete instances, which show that the laws can hold *)

(** Text: the bit pattern in decimal. *)
Definition bits_text : F64Text := {|
  f64_to_string x := int_to_string (wrap 64 x);
  f64_parse s := parse_int false 0 u64_max s;
|}.

Lemma bits_text_laws : F64TextLaws bits_text.
Proof.
  split; cbn; intros x.
  - apply int_to_string_utf8.
  - pose proof (length_int_to_string (wrap 64 x)). lia.
  - intros Hx _. rewrite wrap_small by done.
    unfold in_u64, in_u in Hx. apply parse_int_unsigned; unfold u64_max; lia.
Qed.

(** Arithmetic: micro-units on [Z], with the two logarithms the code takes. *)
Definition micro_math : F64Math := {|
  f64_of_usize n := (n * 1000000)%Z;
  f64_of_decimal m e :=
    if bool_decide (0 ≤ e)%Z then (m * 10 ^ e * 1000000)%Z
    else (m * 1000000 / 10 ^ (- e))%Z;
  f64_neg x := (- x)%Z;
  f64_mul x y := (x * y / 1000000)%Z;
  f64_div x y := (x * 1000000 / y)%Z;
  f64_ln x := if bool_decide (x = 10000)%Z then (-4605170)%Z else 693147%Z;
  f64_powi x n := (x ^ n / 1000000 ^ (n - 1))%Z;
  f64_ceil x := (- ((- x) / 1000000) * 1000000)%Z;
  f64_round x := ((x + 500000) / 1000000 * 1000000)%Z;
  f64_max := Z.max;
  f64_ltb := Z.ltb;
  f64_as_usize x := Z.max 0 (Z.min u64_max (x / 1000000))%Z;
|}.

Lemma micro_math_laws : F64MathLaws micro_math.
Proof.
  split; cbn.
  - intros x. rewrite bool_decide_true by lia. change (10 ^ 0)%Z with 1%Z.
    assert (8 ≤ Z.max x (8 * 1 * 1000000) / 1000000)%Z
      by (apply Z.div_le_lower_bound; lia).
    unfold u64_max. lia.
  - intros x. unfold in_u64, in_u, u64_max. lia.
  - reflexivity.
  - reflexivity.
Qed.
