(* ===== verification/LogRecord.v ===== *)
(** [src/lsm/wal/log_record.rs]: the record of the write-ahead log, its values
    and its binary format. *)

From S2P Require Import Prelude Bytes Float.

Inductive DataType : Type := DInt | DFloat | DString.

Inductive Value : Type :=
  | Int (v : Z)
  | Float (v : f64)
  | String (v : str).

Inductive Command : Type :=
  | Set_ (key : str) (value : Value)
  | Delete (key : str).

Record LogRecord : Type := MkLogRecord {
  id : Z;
  command : Command;
  checksum : u8;
}.

#[export] Instance DataType_eq_dec : EqDecision DataType.
Proof. solve_decision. Defined.
#[export] Instance Value_eq_dec : EqDecision Value.
Proof. unfold f64. solve_decision. Defined.
#[export] Instance Command_eq_dec : EqDecision Command.
Proof. solve_decision. Defined.
#[export] Instance LogRecord_eq_dec : EqDecision LogRecord.
Proof. solve_decision. Defined.

(** ** [DataType] *)

Definition code (t : DataType) : u8 :=
  z_u8 match t with DInt => 1 | DFloat => 2 | DString => 3 end.

Definition from_code (c : u8) : res DataType :=
  match u8_z c with
  | 1%Z => Ok DInt
  | 2%Z => Ok DFloat
  | 3%Z => Ok DString
  | _ => Err (invalid_data "invalid data type")
  end.

(** [self as u8], the discriminant. *)
Definition as_u8 (t : DataType) : u8 :=
  z_u8 match t with DInt => 0 | DFloat => 1 | DString => 2 end.

Definition from_u8 (c : u8) : res DataType :=
  match u8_z c with
  | 0%Z => Ok DInt
  | 1%Z => Ok DFloat
  | 2%Z => Ok DString
  | _ => Err (invalid_data "invalid SSTable value type")
  end.

(** ** [Value] *)

Definition data_type (v : Value) : DataType :=
  match v with Int _ => DInt | Float _ => DFloat | String _ => DString end.

(** [PartialEq], derived: floats compare as [f64] does. *)
Definition value_eqb (a b : Value) : bool :=
  match a, b with
  | Int x, Int y => bool_decide (x = y)
  | Float x, Float y => f64_eqb x y
  | String x, String y => bool_decide (x = y)
  | _, _ => false
  end.

Definition command_eqb (a b : Command) : bool :=
  match a, b with
  | Set_ k v, Set_ k' v' => bool_decide (k = k') && value_eqb v v'
  | Delete k, Delete k' => bool_decide (k = k')
  | _, _ => false
  end.

Definition record_eqb (a b : LogRecord) : bool :=
  bool_decide (id a = id b) && command_eqb (command a) (command b)
  && bool_decide (checksum a = checksum b).

Section text.
Context `{F64Text}.

Definition as_bytes (v : Value) : bytes :=
  match v with
  | Int i => int_to_string i
  | Float f => f64_to_string f
  | String s => s
  end.

Definition from_bytes (t : DataType) (b : bytes) : res Value :=
  match t with
  | DInt =>
      s ← ok_or (invalid_data "invalid UTF-8 integer value") (from_utf8 b);
      Int <$> ok_or (invalid_data "invalid integer value") (parse_i64 s)
  | DFloat =>
      s ← ok_or (invalid_data "invalid UTF-8 float value") (from_utf8 b);
      Float <$> ok_or (invalid_data "invalid float value") (f64_parse s)
  | DString =>
      String <$> ok_or (invalid_data "invalid UTF-8 string value") (from_utf8 b)
  end.

(** ** [Command] *)

Definition command_key (c : Command) : str :=
  match c with Set_ key _ => key | Delete key => key end.

Definition command_value (c : Command) : option Value :=
  match c with Set_ _ value => Some value | Delete _ => None end.

Definition key_len (c : Command) : Z := u32_as (length (command_key c)).

Definition value_len (c : Command) : Z :=
  match c with
  | Set_ _ value => u32_as (length (as_bytes value))
  | Delete _ => 0
  end.

Definition command_data_type (c : Command) : option DataType :=
  data_type <$> command_value c.

Definition command_code (c : Command) : u8 :=
  z_u8 match c with Set_ _ _ => 1 | Delete _ => 2 end.

(** ** [LogRecord] *)

(** [for byte in b { checksum ^= byte }]. *)
Definition xor_bytes (acc : u8) (b : bytes) : u8 := foldl u8_xor acc b.

Definition calculate_checksum (r : LogRecord) : u8 :=
  let c := command r in
  let sum := xor_bytes (z_u8 0) (u64_to_le (id r)) in
  let sum := u8_xor sum (command_code c) in
  let sum := match command_data_type c with
             | Some t => u8_xor sum (code t)
             | None => sum
             end in
  let sum := xor_bytes sum (u32_to_le (key_len c)) in
  let sum := xor_bytes sum (u32_to_le (value_len c)) in
  let sum := xor_bytes sum (command_key c) in
  match command_value c with
  | Some v => xor_bytes sum (as_bytes v)
  | None => sum
  end.

(** [LogRecord::new]. *)
Definition new_record (i : Z) (c : Command) : LogRecord :=
  let record := {| id := i; command := c; checksum := z_u8 0 |} in
  {| id := i; command := c; checksum := calculate_checksum record |}.

(** The bytes [write_to] hands to its writer. *)
Definition write_to (r : LogRecord) : bytes :=
  u64_to_le (id r) ++ [command_code (command r)] ++
  match command r with
  | Set_ key value =>
      [code (data_type value)] ++
      u32_to_le (u32_as (length key)) ++
      u32_to_le (u32_as (length (as_bytes value))) ++
      key ++ as_bytes value
  | Delete key =>
      [z_u8 0] ++ u32_to_le (u32_as (length key)) ++ u32_to_le 0 ++ key
  end ++ [checksum r].

Definition read_u8 : M bytes u8 :=
  b ← read_exact 1;
  lift (expect "index out of bounds" (b !! 0)).

Definition read_u32 : M bytes Z :=
  b ← read_exact 4; mret (from_le b).

Definition read_u64 : M bytes (option Z) := λ s,
  match read_exact 8 s with
  | (Ok b, s') => (Ok (Some (from_le b)), s')
  | (Err e, s') =>
      if decide (kind e = UnexpectedEof) then (Ok None, s') else (Err e, s')
  | (Panic p, s') => (Panic p, s')
  end.

Definition read_bytes (len : Z) : M bytes bytes := read_exact_z len.

Definition read_utf8 (b : bytes) (field : string) : res str :=
  ok_or (invalid_data (String.append "invalid UTF-8 " field)) (from_utf8 b).

Definition read_string (len : Z) (field : string) : M bytes str :=
  b ← read_bytes len; lift (read_utf8 b field).

Definition read_set : M bytes Command :=
  c ← read_u8;
  t ← lift (from_code c);
  klen ← read_u32;
  vlen ← read_u32;
  key ← read_string klen "key";
  vbytes ← read_bytes vlen;
  value ← lift match t with
    | DInt => s ← read_utf8 vbytes "value";
              Int <$> ok_or (invalid_data "invalid integer value") (parse_i64 s)
    | DFloat => s ← read_utf8 vbytes "value";
                Float <$> ok_or (invalid_data "invalid float value") (f64_parse s)
    | DString => String <$> read_utf8 vbytes "value"
    end;
  mret (Set_ key value).

Definition read_delete : M bytes Command :=
  t ← read_u8;
  if negb (bool_decide (u8_z t = 0%Z))
  then fail (invalid_data "invalid delete data type") else
  klen ← read_u32;
  _ ← read_u32;
  key ← read_string klen "key";
  mret (Delete key).

(** [LogRecord::read_from]. *)
Definition read_from : M bytes (option LogRecord) :=
  oid ← read_u64;
  match oid with
  | None => mret None
  | Some i =>
      cc ← read_u8;
      c ← match u8_z cc with
          | 1%Z => read_set
          | 2%Z => read_delete
          | _ => fail (invalid_data "invalid command")
          end;
      sum ← read_u8;
      let record := {| id := i; command := c; checksum := sum |} in
      if decide (calculate_checksum record = sum) then mret (Some record)
      else fail (invalid_data "checksum mismatch")
  end.

End text.

(** * Well-formed records

    What Rust's types guarantee ([String] is UTF-8, [i64] is in range), and
    the two sizes the format relies on: the text of a value and a key are
    shorter than 2^32 bytes. A NaN is left out: it does not equal itself. *)

Definition value_ok (v : Value) : Prop :=
  match v with
  | Int i => in_i64 i
  | Float f => in_u64 f ∧ f64_is_nan f = false
  | String s => utf8_valid s = true
  end.

Section wf.
Context `{F64Text}.

Definition value_fits (v : Value) : Prop := in_u32 (Z.of_nat (length (as_bytes v))).

Definition command_ok (c : Command) : Prop :=
  key_ok (command_key c) ∧
  match command_value c with
  | Some v => value_ok v ∧ value_fits v
  | None => True
  end.

Definition record_ok (r : LogRecord) : Prop :=
  in_u64 (id r) ∧ command_ok (command r) ∧ checksum r = calculate_checksum r.

End wf.

(** * Reading back what was written *)

Lemma from_code_code t : from_code (code t) = Ok t.
Proof. by destruct t. Qed.

Lemma from_u8_as_u8 t : from_u8 (as_u8 t) = Ok t.
Proof. by destruct t. Qed.

Lemma read_u8_cons b s : read_u8 (b :: s) = (Ok b, s).
Proof.
  unfold read_u8. by erewrite bind_Ok by (apply (read_exact_app [b] s 1); done).
Qed.

Lemma read_u32_le z s : in_u32 z → read_u32 (u32_to_le z ++ s) = (Ok z, s).
Proof.
  intros Hz. unfold read_u32.
  erewrite bind_Ok by (apply read_exact_app; by rewrite length_u32_to_le).
  by rewrite from_u32_to_le.
Qed.

Lemma read_u64_le z s : in_u64 z → read_u64 (u64_to_le z ++ s) = (Ok (Some z), s).
Proof.
  intros Hz. unfold read_u64.
  rewrite read_exact_app by (by rewrite length_u64_to_le).
  by rewrite from_u64_to_le.
Qed.

Lemma read_u64_short s : length s < 8 → read_u64 s = (Ok None, []).
Proof. intros Hs. unfold read_u64. by rewrite read_exact_short. Qed.

Lemma read_bytes_app b s :
  read_bytes (Z.of_nat (length b)) (b ++ s) = (Ok b, s).
Proof. by apply read_exact_z_app. Qed.

Lemma read_string_app k s f :
  utf8_valid k = true →
  read_string (Z.of_nat (length k)) f (k ++ s) = (Ok k, s).
Proof.
  intros Hk. unfold read_string.
  erewrite bind_Ok by (by apply read_bytes_app).
  unfold lift, read_utf8, from_utf8. by rewrite Hk.
Qed.

#[export] Hint Resolve read_u8_cons read_u32_le read_u64_le read_bytes_app
  read_string_app : kvraft.

Section round_trip.
Context `{HT : F64Text} `{!F64TextLaws HT}.

Lemma as_bytes_utf8 v : value_ok v → utf8_valid (as_bytes v) = true.
Proof using All.
  destruct v; cbn; auto using int_to_string_utf8, f64_text_utf8.
Qed.

(** [Value::from_bytes] undoes [Value::as_bytes]. *)
Lemma from_bytes_as_bytes v :
  value_ok v → from_bytes (data_type v) (as_bytes v) = Ok v.
Proof using All.
  intros Hv. pose proof (as_bytes_utf8 v Hv) as Hu.
  destruct v as [i|f|s]; cbn in *; unfold from_utf8; rewrite Hu; cbn;
    [rewrite parse_i64_to_string by done | | done]; [done|].
  destruct Hv. by rewrite f64_text_round_trip.
Qed.

Lemma read_set_app key v s :
  command_ok (Set_ key v) →
  read_set ([code (data_type v)] ++ u32_to_le (u32_as (length key)) ++
            u32_to_le (u32_as (length (as_bytes v))) ++ key ++ as_bytes v ++ s)
  = (Ok (Set_ key v), s).
Proof using All.
  intros [[Hk Hkl] [Hv Hvl]]. cbn in *. unfold value_fits in Hvl.
  rewrite !u32_as_small by done. unfold read_set.
  run. erewrite bind_Ok by (unfold lift; by rewrite from_code_code).
  run. run. run. run.
  unfold read_utf8, from_utf8. rewrite as_bytes_utf8 by done.
  destruct v as [i|f|t]; cbn in *.
  - by rewrite parse_i64_to_string.
  - destruct Hv. by rewrite f64_text_round_trip.
  - done.
Qed.

Lemma read_delete_app key s :
  command_ok (Delete key) →
  read_delete ([z_u8 0] ++ u32_to_le (u32_as (length key)) ++ u32_to_le 0 ++ key ++ s)
  = (Ok (Delete key), s).
Proof using All.
  intros [[Hk Hkl] _]. cbn in Hk, Hkl. rewrite u32_as_small by done.
  unfold read_delete. run.
  change (bool_decide (u8_z (z_u8 0) = 0%Z)) with true. cbn [negb].
  run. erewrite bind_Ok by (apply read_u32_le; done). by run.
Qed.

Lemma read_from_write_to r s :
  record_ok r → read_from (write_to r ++ s) = (Ok (Some r), s).
Proof using All.
  destruct r as [i c sum]. intros (Hi & Hc & Hs). cbn in *.
  unfold read_from, write_to. cbn [id command checksum].
  destruct c as [key v|key]; rewrite <-!app_assoc; run; cbn [app]; run;
    cbn [command_code].
  - change (u8_z (z_u8 1)) with 1%Z. cbn iota.
    erewrite bind_Ok by (by apply (read_set_app key v (sum :: s))).
    run. by rewrite decide_True.
  - change (u8_z (z_u8 2)) with 2%Z. cbn iota.
    erewrite bind_Ok by (by apply (read_delete_app key (sum :: s))).
    run. by rewrite decide_True.
Qed.

Lemma new_record_ok i c : in_u64 i → command_ok c → record_ok (new_record i c).
Proof using HT. intros Hi Hc. split; [done|]. by split. Qed.

End round_trip.

(** * The readers are well behaved *)

#[export] Instance reader_ok_u8 : ReaderOk read_u8.
Proof.
  unfold read_u8. split.
  - intros s a s' q (b & s1 & H1 & H2)%bind_inv.
    erewrite bind_Ok by (by apply reader_extend).
    unfold lift in *. by injection H2 as -> ->.
  - intros s a s' (b & s1 & H1 & H2)%bind_inv. apply reader_shrink in H1.
    unfold lift in H2. by injection H2 as _ ->.
  - intros s p s'. rewrite bind_eq.
    destruct (read_exact 1 s) as [[b|e|p'] s1] eqn:E; [|done|].
    + apply read_exact_Ok in E as [_ E]. unfold lift.
      by destruct b as [|b0 [|]].
    + by apply reader_no_panic in E.
Qed.
#[export] Instance reader_ok_u32 : ReaderOk read_u32.
Proof. unfold read_u32. apply _. Qed.
#[export] Instance reader_ok_bytes n : ReaderOk (read_bytes n).
Proof. unfold read_bytes. apply _. Qed.
#[export] Instance reader_ok_string n f : ReaderOk (read_string n f).
Proof. unfold read_string, read_utf8. apply _. Qed.

#[export] Instance no_panic_from_code c : NoPanic (from_code c).
Proof. intros p. unfold from_code. by repeat case_match. Qed.

Section readers.
Context `{F64Text}.

#[export] Instance reader_ok_set : ReaderOk read_set.
Proof.
  unfold read_set, read_utf8. repeat (apply _ || apply reader_ok_bind || intro).
  apply reader_ok_lift. case_match; apply _.
Qed.

#[export] Instance reader_ok_delete : ReaderOk read_delete.
Proof.
  unfold read_delete. apply reader_ok_bind; [apply _|]. intros t.
  case_match; apply _.
Qed.

(** What [read_from] does after the id. *)
Definition read_rest (i : Z) : M bytes (option LogRecord) :=
  cc ← read_u8;
  c ← match u8_z cc with
      | 1%Z => read_set
      | 2%Z => read_delete
      | _ => fail (invalid_data "invalid command")
      end;
  sum ← read_u8;
  let record := {| id := i; command := c; checksum := sum |} in
  if decide (calculate_checksum record = sum) then mret (Some record)
  else fail (invalid_data "checksum mismatch").

#[local] Instance reader_ok_rest i : ReaderOk (read_rest i).
Proof.
  unfold read_rest. apply reader_ok_bind; [apply _|]. intros cc.
  apply reader_ok_bind; [repeat case_match; apply _|]. intros c.
  apply reader_ok_bind; [apply _|]. intros sum. case_decide; apply _.
Qed.

Lemma read_from_long s :
  8 ≤ length s → read_from s = read_rest (from_le (take 8 s)) (drop 8 s).
Proof.
  intros Hs. unfold read_from. erewrite bind_Ok.
  2: { unfold read_u64, read_exact. by rewrite decide_True. }
  done.
Qed.

Lemma read_from_short s : length s < 8 → read_from s = (Ok None, []).
Proof. intros Hs. unfold read_from. by erewrite bind_Ok by (by apply read_u64_short). Qed.

Lemma read_rest_Some i s x s' : read_rest i s = (Ok x, s') → is_Some x.
Proof.
  unfold read_rest. intros (? & ? & ? & (? & ? & ? & (? & ? & ? & H')%bind_inv)%bind_inv)%bind_inv.
  unfold fail, mret, M_ret in H'. case_decide; naive_solver.
Qed.

(** A record takes at least the eight bytes of its id. *)
Lemma read_from_shrink s r s' :
  read_from s = (Ok (Some r), s') → length s' < length s.
Proof.
  destruct (decide (8 ≤ length s)) as [Hs|Hs].
  - rewrite read_from_long by done. intros H'%reader_shrink.
    rewrite length_drop in H'. lia.
  - rewrite read_from_short by lia. done.
Qed.

Lemma read_from_no_panic s p s' : read_from s ≠ (Panic p, s').
Proof.
  destruct (decide (8 ≤ length s)) as [Hs|Hs].
  - rewrite read_from_long by done. apply reader_no_panic.
  - rewrite read_from_short by lia. done.
Qed.

Lemma length_write_to r : 8 ≤ length (write_to r).
Proof.
  unfold write_to. rewrite length_app. autorewrite with kvraft. lia.
Qed.

End readers.

(** A record cut short anywhere after its id is reported, not skipped. *)
Lemma read_from_torn `{HT : F64Text} `{!F64TextLaws HT} r p q :
  record_ok r → write_to r = p ++ q → q ≠ [] → 8 ≤ length p →
  ∃ e s', read_from p = (Err e, s').
Proof.
  intros Hr Hpq Hq Hp.
  destruct (read_from p) as [[x|e|m] s'] eqn:E; [|eauto|].
  - rewrite read_from_long in E by done.
    pose proof E as (r' & ->)%read_rest_Some.
    apply (reader_extend (ReaderOk := reader_ok_rest _) _ _ _ q) in E.
    pose proof (read_from_write_to r [] Hr) as H'.
    rewrite app_nil_r, Hpq, read_from_long in H' by (rewrite length_app; lia).
    rewrite take_app_le, drop_app_le in H' by lia. rewrite E in H'.
    destruct q; [done|]. by destruct s'.
  - by apply read_from_no_panic in E.
Qed.

(** * Property *)

(** Reading back the bytes of a record that [LogRecord::new] made gives
    exactly that record and leaves the bytes that follow it, for every command
    whose key and value have fewer than 2^32 bytes. *)
Theorem log_record_round_trip `{HT : F64Text} `{!F64TextLaws HT} i c s :
  in_u64 i → command_ok c →
  read_from (write_to (new_record i c) ++ s) = (Ok (Some (new_record i c)), s).
Proof. intros Hi Hc. apply read_from_write_to. by apply new_record_ok. Qed.

Lemma log_record_round_trip_witness :
  let _ := bits_text in
  let c := Set_ (lit "k") (Int (-7)) in
  read_from (write_to (new_record 3 c) ++ lit "tail")
  = (Ok (Some (new_record 3 c)), lit "tail").
Proof.
  apply (log_record_round_trip (HT := bits_text)
           (F64TextLaws0 := bits_text_laws) 3 (Set_ (lit "k") (Int (-7))));
    vm_compute; intuition congruence.
Defined.
