(* ===== verification/Logger.v ===== *)
(** [src/lsm/wal/logger.rs]: the write-ahead log.

    A [Logger] holds the bytes of its file, which is opened in append mode,
    and the number of records it counts. The loops over the file take as fuel
    one more than its length in bytes: a record takes at least eight. *)

From S2P Require Import Prelude Bytes Float LogRecord.

Record Logger : Type := MkLogger { file : bytes; len : Z }.

#[export] Instance eta_Logger : Eta Logger := λ l, MkLogger (file l) (len l).
#[export] Instance upd_file : Upd file. Proof. derive_upd. Defined.
#[export] Instance upd_len : Upd len. Proof. derive_upd. Defined.

Section logger.
Context `{F64Text}.

(** The loop of [Logger::new]; [record_start] is the position of [reader]. *)
Fixpoint new_loop (fuel : nat) (contents reader : bytes) (n : Z) : res Logger :=
  match fuel with
  | O => Panic "out of fuel"
  | S fuel' =>
      let record_start := length contents - length reader in
      match read_from reader with
      | (Ok (Some record), reader') =>
          new_loop fuel' contents reader' (wrap 64 (id record + 1))
      | (Ok None, _) => Ok {| file := contents; len := n |}
      | (Err _, _) => Ok {| file := take record_start contents; len := n |}
      | (Panic p, _) => Panic p
      end
  end.

(** [Logger::new] on a file with these contents. *)
Definition new (contents : bytes) : res Logger :=
  new_loop (S (length contents)) contents contents 0.

(** [Logger::log]. *)
Definition log (c : Command) : M Logger () :=
  l ← get;
  let record := new_record (len l) c in
  modify (λ l, l <| file := file l ++ write_to record |>);;
  modify (λ l, l <| len := wrap 64 (len l + 1) |>).

(** The loop of [Logger::read_records]. *)
Fixpoint read_loop (fuel : nat) (reader : bytes) (records : list LogRecord) :
    M Logger (list LogRecord) :=
  match fuel with
  | O => panic "out of fuel"
  | S fuel' =>
      l ← get;
      let record_start := length (file l) - length reader in
      match read_from reader with
      | (Ok (Some record), reader') => read_loop fuel' reader' (records ++ [record])
      | (Ok None, _) => mret records
      | (Err _, _) =>
          modify (λ l, l <| file := take record_start (file l) |>);;
          mret records
      | (Panic p, _) => panic p
      end
  end.

Definition read_records : M Logger (list LogRecord) :=
  l ← get;
  read_loop (S (length (file l))) (file l) [].

(** [Logger::truncate]. *)
Definition truncate : M Logger () :=
  modify (λ l, l <| file := [] |>);;
  modify (λ l, l <| len := 0%Z |>).

(** * What the log holds *)

(** The records that logging [cs] from record number [i] on writes. *)
Fixpoint records (i : Z) (cs : list Command) : list LogRecord :=
  match cs with
  | [] => []
  | c :: cs' => new_record i c :: records (i + 1) cs'
  end.

(** The bytes of these records, back to back. *)
Definition encode (i : Z) (cs : list Command) : bytes :=
  mjoin (write_to <$> records i cs).

(** The logger [l] holds the commands [cs], oldest first. *)
Definition wal_ok (l : Logger) (cs : list Command) : Prop :=
  file l = encode 0 cs ∧ len l = Z.of_nat (length cs) ∧
  Forall command_ok cs ∧ (Z.of_nat (length cs) ≤ u64_max)%Z.

Lemma records_app i cs cs' :
  records i (cs ++ cs') = records i cs ++ records (i + Z.of_nat (length cs)) cs'.
Proof.
  revert i. induction cs as [|c cs IH]; intros i; cbn.
  - f_equal. lia.
  - rewrite IH. do 2 f_equal. f_equal. lia.
Qed.

Lemma encode_app i cs cs' :
  encode i (cs ++ cs') = encode i cs ++ encode (i + Z.of_nat (length cs)) cs'.
Proof. unfold encode. by rewrite records_app, fmap_app, join_app. Qed.

Lemma encode_cons i c cs :
  encode i (c :: cs) = write_to (new_record i c) ++ encode (i + 1) cs.
Proof. reflexivity. Qed.

Lemma command_records i cs : command <$> records i cs = cs.
Proof.
  revert i. induction cs as [|c cs IH]; intros i; [done|]. cbn. by rewrite IH.
Qed.

Lemma length_encode i cs : length cs ≤ length (encode i cs).
Proof.
  revert i. induction cs as [|c cs IH]; intros i; [done|].
  rewrite encode_cons, length_app. specialize (IH (i + 1)%Z).
  pose proof (length_write_to (new_record i c)). cbn. lia.
Qed.

End logger.

Section recovery.
Context `{HT : F64Text} `{!F64TextLaws HT}.

Lemma read_from_encode i c cs tail :
  in_u64 i → command_ok c →
  read_from (encode i (c :: cs) ++ tail)
  = (Ok (Some (new_record i c)), encode (i + 1) cs ++ tail).
Proof using All.
  intros Hi Hc. rewrite encode_cons, <-app_assoc.
  apply read_from_write_to. by apply new_record_ok.
Qed.

(** [new_loop] reads past well-formed records, counting them. *)
Lemma new_loop_encode fuel contents i cs tail :
  Forall command_ok cs → (0 ≤ i)%Z → (i + Z.of_nat (length cs) ≤ u64_max)%Z →
  length cs < fuel →
  new_loop fuel contents (encode i cs ++ tail) i
  = new_loop (fuel - length cs) contents tail (i + Z.of_nat (length cs)).
Proof using All.
  intros Hcs. revert fuel i. induction Hcs as [|c cs Hc _ IH];
    intros fuel i Hi Hn Hf; cbn [length] in *.
  - rewrite Nat.sub_0_r. cbn. f_equal. lia.
  - destruct fuel as [|fuel]; [lia|]. cbn [new_loop Nat.sub].
    unfold u64_max in *.
    rewrite read_from_encode by (done || unfold in_u64, in_u; lia).
    cbn [id new_record]. rewrite wrap_small by (unfold in_u; lia).
    rewrite IH by lia. f_equal. lia.
Qed.

Lemma read_loop_encode fuel i cs tail acc l :
  Forall command_ok cs → (0 ≤ i)%Z → (i + Z.of_nat (length cs) ≤ u64_max)%Z →
  length cs < fuel →
  read_loop fuel (encode i cs ++ tail) acc l
  = read_loop (fuel - length cs) tail (acc ++ records i cs) l.
Proof using All.
  intros Hcs. revert fuel i acc. induction Hcs as [|c cs Hc _ IH];
    intros fuel i acc Hi Hn Hf; cbn [length] in *.
  - by rewrite Nat.sub_0_r, app_nil_r.
  - destruct fuel as [|fuel]; [lia|]. cbn [read_loop Nat.sub].
    erewrite bind_Ok by done. unfold u64_max in *.
    rewrite read_from_encode by (done || unfold in_u64, in_u; lia).
    rewrite IH by lia. by rewrite <-app_assoc.
Qed.

(** Opening a log that holds [cs] followed by [tail]. *)
Lemma new_encode_app cs tail :
  Forall command_ok cs → (Z.of_nat (length cs) ≤ u64_max)%Z →
  new (encode 0 cs ++ tail)
  = match read_from tail with
    | (Ok (Some record), rest) =>
        new_loop (S (length (encode 0 cs ++ tail)) - length cs - 1)
          (encode 0 cs ++ tail) rest (wrap 64 (id record + 1))
    | (Ok None, _) =>
        Ok {| file := encode 0 cs ++ tail; len := Z.of_nat (length cs) |}
    | (Err _, _) => Ok {| file := encode 0 cs; len := Z.of_nat (length cs) |}
    | (Panic p, _) => Panic p
    end.
Proof using All.
  intros Hcs Hn. pose proof (length_encode 0 cs). unfold new.
  rewrite new_loop_encode by (done || rewrite ?length_app; lia).
  remember (S (length (encode 0 cs ++ tail)) - length cs) as fuel eqn:Hf.
  destruct fuel as [|fuel]; [rewrite length_app in Hf; lia|]. cbn [new_loop].
  replace (length (encode 0 cs ++ tail) - length tail)
    with (length (encode 0 cs)) by (rewrite length_app; lia).
  rewrite take_app_length, Z.add_0_l. cbn [Nat.sub]. by rewrite Nat.sub_0_r.
Qed.

(** ** The operations keep [wal_ok] *)

Lemma wal_ok_nil : wal_ok {| file := []; len := 0 |} [].
Proof using HT. repeat split; [by constructor|done]. Qed.

Lemma log_ok c cs l :
  wal_ok l cs → command_ok c → (Z.of_nat (length cs) < u64_max)%Z →
  ∃ l', log c l = (Ok (), l') ∧ wal_ok l' (cs ++ [c]).
Proof using HT.
  intros (Hf & Hl & Hcs & Hn) Hc Hlt. unfold log. exec. eexists. split; [reflexivity|]. cbn.
  rewrite Hf, Hl. unfold u64_max in *.
  rewrite wrap_small by (unfold in_u; lia).
  repeat split; cbn.
  - rewrite encode_app, encode_cons. unfold encode at 2. cbn. by rewrite app_nil_r.
  - rewrite length_app. cbn. lia.
  - apply Forall_app; auto.
  - rewrite length_app. cbn. unfold u64_max. lia.
Qed.

Lemma truncate_ok l : ∃ l', truncate l = (Ok (), l') ∧ wal_ok l' [].
Proof using HT. unfold truncate. exec. eexists. split; [reflexivity|]. apply wal_ok_nil. Qed.

Lemma new_ok l cs : wal_ok l cs → new (file l) = Ok l.
Proof using All.
  intros (Hf & Hl & Hcs & Hn). rewrite Hf, <-(app_nil_r (encode 0 cs)).
  rewrite new_encode_app, read_from_short by (done || cbn; lia).
  rewrite app_nil_r, <-Hf, <-Hl. by destruct l.
Qed.

Lemma read_records_ok l cs :
  wal_ok l cs → read_records l = (Ok (records 0 cs), l).
Proof using All.
  intros (Hf & Hl & Hcs & Hn). unfold read_records. erewrite bind_Ok by done.
  pose proof (length_encode 0 cs). rewrite Hf.
  rewrite <-(app_nil_r (encode 0 cs)) at 2.
  rewrite read_loop_encode by (done || lia).
  remember (S (length (encode 0 cs)) - length cs) as fuel eqn:Hfu.
  destruct fuel as [|fuel]; [lia|]. cbn [read_loop].
  erewrite bind_Ok by done. by rewrite read_from_short by (cbn; lia).
Qed.

End recovery.

(** * Properties *)

(** Log every command of a list. *)
Definition log_all `{F64Text} (cs : list Command) : M Logger () := for_each cs log.

Lemma log_all_ok `{HT : F64Text} cs l cs0 :
  wal_ok l cs0 → Forall command_ok cs →
  (Z.of_nat (length cs0 + length cs) ≤ u64_max)%Z →
  ∃ l', log_all cs l = (Ok (), l') ∧ wal_ok l' (cs0 ++ cs).
Proof.
  intros Hl Hcs. revert l cs0 Hl.
  induction Hcs as [|c cs Hc _ IH]; intros l cs0 Hl Hn.
  - exists l. by rewrite app_nil_r.
  - cbn [length] in Hn.
    destruct (log_ok c cs0 l Hl Hc) as (l1 & E1 & H1); [lia|].
    destruct (IH l1 _ H1) as (l2 & E2 & H2); [rewrite length_app; cbn; lia|].
    exists l2. split; [|by rewrite <-app_assoc in H2].
    unfold log_all. cbn [for_each]. by erewrite bind_Ok by exact E1.
Qed.

(** C29: After any sequence of writes to a fresh log, reopening its file gives
    back the same logger, and replaying it returns exactly the commands that
    were logged, in order. *)
Theorem reopen_after_log `{HT : F64Text} `{!F64TextLaws HT} cs :
  Forall command_ok cs → (Z.of_nat (length cs) ≤ u64_max)%Z →
  ∃ l rs, log_all cs {| file := []; len := 0 |} = (Ok (), l) ∧
    new (file l) = Ok l ∧ read_records l = (Ok rs, l) ∧ command <$> rs = cs.
Proof.
  intros Hcs Hn.
  destruct (log_all_ok cs _ [] wal_ok_nil Hcs) as (l & E & Hl); [done|].
  exists l, (records 0 cs). split_and!; [done| | |apply command_records].
  - by eapply new_ok.
  - by apply read_records_ok.
Qed.

Lemma reopen_after_log_witness :
  let _ := bits_text in
  let cs := [Set_ (lit "k") (Int 5); Delete (lit "k")] in
  ∃ l rs, log_all cs {| file := []; len := 0 |} = (Ok (), l) ∧
    new (file l) = Ok l ∧ read_records l = (Ok rs, l) ∧ command <$> rs = cs.
Proof.
  apply (reopen_after_log (HT := bits_text) (F64TextLaws0 := bits_text_laws)
           [Set_ (lit "k") (Int 5); Delete (lit "k")]).
  - repeat constructor; vm_compute; intuition congruence.
  - vm_compute. congruence.
Defined.

(** A write cut short by a crash anywhere after the record's eight-byte id
    is dropped when the log is reopened: the file is cut back to the records
    written before it, all of which survive. *)
Theorem torn_record_is_truncated `{HT : F64Text} `{!F64TextLaws HT} cs c p q :
  Forall command_ok (cs ++ [c]) → (Z.of_nat (length cs) < u64_max)%Z →
  write_to (new_record (Z.of_nat (length cs)) c) = p ++ q →
  q ≠ [] → 8 ≤ length p →
  ∃ l, new (encode 0 cs ++ p) = Ok l ∧ wal_ok l cs.
Proof.
  intros [Hcs Hc]%Forall_app Hn Hpq Hq Hp. inversion_clear Hc.
  unfold u64_max in *.
  destruct (read_from_torn (new_record (Z.of_nat (length cs)) c) p q)
    as (e & s' & E); [apply new_record_ok; [unfold in_u64, in_u; lia|done]|done..|].
  eexists. rewrite new_encode_app, E by (done || unfold u64_max; lia).
  split; [done|]. repeat split; cbn; [done|]. unfold u64_max. lia.
Qed.

Lemma torn_record_is_truncated_witness :
  let _ := bits_text in
  let c := Set_ (lit "k") (Int 5) in
  ∃ l, new (encode 0 [c] ++ take 15 (write_to (new_record 1 c))) = Ok l ∧
    wal_ok l [c].
Proof.
  apply (torn_record_is_truncated (HT := bits_text)
           (F64TextLaws0 := bits_text_laws) [Set_ (lit "k") (Int 5)]
           (Set_ (lit "k") (Int 5))
           (take 15 (write_to (H := bits_text) (new_record (H := bits_text) 1 (Set_ (lit "k") (Int 5)))))
           (drop 15 (write_to (H := bits_text) (new_record (H := bits_text) 1 (Set_ (lit "k") (Int 5)))))).
  - repeat constructor; vm_compute; intuition congruence.
  - vm_compute. congruence.
  - by rewrite take_drop.
  - vm_compute. congruence.
  - vm_compute. lia.
Defined.

Lemma u64_to_le_small n :
  (0 ≤ n < 256)%Z → u64_to_le n = z_u8 n :: replicate 7 (z_u8 0).
Proof.
  intros Hn. change (u64_to_le n) with (z_u8 n :: le_split 7 (Z.shiftr n 8)).
  rewrite Z.shiftr_div_pow2 by lia. change (2 ^ 8)%Z with 256%Z.
  by rewrite Z.div_small by lia.
Qed.

(** With one to seven bytes of garbage in front, the command code that is read
    is one of the zero bytes of a small id. *)
Lemma read_from_misframed `{F64Text} p n c :
  (0 ≤ n < 256)%Z → 0 < length p < 8 →
  ∃ s, read_from (p ++ write_to (new_record n c)) = (Err (invalid_data "invalid command"), s).
Proof.
  intros Hn Hp. unfold write_to. cbn [id new_record]. rewrite u64_to_le_small by done.
  rewrite read_from_long by (rewrite !length_app; cbn; lia).
  destruct p as [|b0 [|b1 [|b2 [|b3 [|b4 [|b5 [|b6 [|b7 p]]]]]]]]; cbn in Hp; try lia;
    eexists; unfold read_rest; cbn [drop app replicate];
    (erewrite bind_Ok by apply read_u8_cons); reflexivity.
Qed.

(** A write cut short within the eight bytes of the id is taken for the end
    of the file but left in it; the next write lands behind those bytes, is
    acknowledged, and is discarded when the log is reopened. *)
Theorem torn_id_loses_next_write `{HT : F64Text} `{!F64TextLaws HT} cs p c :
  Forall command_ok cs → length cs < 256 → 0 < length p < 8 →
  ∃ l l', new (encode 0 cs ++ p) = Ok l ∧ log c l = (Ok (), l') ∧
    new (file l') = Ok {| file := encode 0 cs; len := Z.of_nat (length cs) |}.
Proof.
  intros Hcs Hn Hp. do 2 eexists.
  rewrite new_encode_app, read_from_short by (done || unfold u64_max; lia).
  split; [done|]. unfold log. exec. split; [done|].
  cbn [file len upd upd_file upd_len].
  destruct (read_from_misframed p (Z.of_nat (length cs)) c) as (s & E); [lia..|].
  rewrite <-app_assoc, new_encode_app by (done || unfold u64_max; lia).
  by rewrite E.
Qed.

Lemma torn_id_loses_next_write_witness :
  let _ := bits_text in
  ∃ l l', new (encode 0 [] ++ [z_u8 0]) = Ok l ∧
    log (Set_ (lit "k") (Int 5)) l = (Ok (), l') ∧
    new (file l') = Ok {| file := encode 0 []; len := Z.of_nat 0 |}.
Proof.
  apply (torn_id_loses_next_write (HT := bits_text)
           (F64TextLaws0 := bits_text_laws) [] [z_u8 0] (Set_ (lit "k") (Int 5)));
    [constructor | cbn; lia | cbn; lia].
Defined.
