(* ===== verification/Format.v ===== *)
(** [src/lsm/sstable/format.rs]: the header and the records of an SSTable
    file. *)

From S2P Require Import Prelude Bytes Float LogRecord.

Definition MAGIC : bytes := lit "SST1".
Definition VERSION : u8 := z_u8 2.
Definition HEADER_SIZE : Z := 45.

Inductive Entry : Type :=
  | ESet (v : Value)
  | EDelete.

#[export] Instance Entry_eq_dec : EqDecision Entry.
Proof. solve_decision. Defined.

Record Header : Type := MkHeader {
  index_offset : Z;
  index_len : Z;
  entry_count : Z;
  bloom_offset : Z;
  bloom_len : Z;
}.

Definition write_header (h : Header) : bytes :=
  MAGIC ++ [VERSION] ++
  u64_to_le (index_offset h) ++ u64_to_le (index_len h) ++
  u64_to_le (entry_count h) ++ u64_to_le (bloom_offset h) ++
  u64_to_le (bloom_len h).

(** [read_exact] into the eight-byte buffer, then [u64::from_le_bytes]. *)
Definition read_le_u64 : M bytes Z :=
  b ← read_exact 8; mret (from_le b).

Definition read_header : M bytes Header :=
  magic ← read_exact 4;
  if decide (magic ≠ MAGIC)
  then fail (invalid_data "invalid SSTable magic") else
  version ← read_exact 1;
  if decide (version ≠ [VERSION])
  then fail (invalid_data "unsupported SSTable version") else
  index_offset ← read_le_u64;
  index_len ← read_le_u64;
  entry_count ← read_le_u64;
  bloom_offset ← read_le_u64;
  bloom_len ← read_le_u64;
  mret {| index_offset := index_offset; index_len := index_len;
          entry_count := entry_count; bloom_offset := bloom_offset;
          bloom_len := bloom_len |}.

Section format.
Context `{F64Text}.

(** [(entry_type, value_type, value_bytes)] of [write_record]. *)
Definition entry_parts (e : Entry) : u8 * u8 * bytes :=
  match e with
  | ESet value => (z_u8 0, as_u8 (data_type value), as_bytes value)
  | EDelete => (z_u8 1, z_u8 0, [])
  end.

(** [write_record]: the bytes written and the length returned. *)
Definition write_record (key : str) (entry : Entry) : res (bytes * Z) :=
  let '(entry_type, value_type, value_bytes) := entry_parts entry in
  key_len ← ok_or (invalid_input "key is too large") (u32_try_from (length key));
  value_len ← ok_or (invalid_input "value is too large")
                    (u32_try_from (length value_bytes));
  let record_len :=
    (10 + Z.of_nat (length key) + Z.of_nat (length value_bytes))%Z in
  let header :=
    [entry_type] ++ [value_type] ++ u32_to_le key_len ++ u32_to_le value_len in
  mret (header ++ key ++ value_bytes, record_len).

Definition sst_read_string (n : Z) (field : string) : M bytes str :=
  b ← read_exact_z n;
  lift (ok_or (invalid_data (String.append "invalid UTF-8 "
                 (String.append field " in SSTable"))) (from_utf8 b)).

(** What [read_record] does once the ten bytes of the header are there. *)
Definition read_body (header : bytes) : M bytes (option (str * Entry)) :=
  entry_type ← lift (expect "index out of bounds" (header !! 0));
  value_type ← lift (expect "index out of bounds" (header !! 1));
  let key_len := from_le (take 4 (drop 2 header)) in
  let value_len := from_le (take 4 (drop 6 header)) in
  key ← sst_read_string key_len "key";
  entry ← match u8_z entry_type with
    | 0%Z =>
        value_bytes ← read_exact_z value_len;
        t ← lift (from_u8 value_type);
        lift (ESet <$> from_bytes t value_bytes)
    | 1%Z =>
        if negb (bool_decide (value_len = 0%Z))
        then fail (invalid_data "delete record contains a value")
        else mret EDelete
    | _ => fail (invalid_data "invalid SSTable entry type")
    end;
  mret (Some (key, entry)).

(** [read_record]: the end of the input is [None]. *)
Definition read_record : M bytes (option (str * Entry)) := λ s,
  match read_exact 10 s with
  | (Ok header, s') => read_body header s'
  | (Err e, s') =>
      if decide (kind e = UnexpectedEof) then (Ok None, s') else (Err e, s')
  | (Panic p, s') => (Panic p, s')
  end.

(** * Well-formed entries *)

Definition entry_ok (e : Entry) : Prop :=
  match e with
  | ESet v => value_ok v ∧ value_fits v
  | EDelete => True
  end.

(** The bytes of a record that fits the format. *)
Definition record_bytes (key : str) (e : Entry) : bytes :=
  let '(entry_type, value_type, value_bytes) := entry_parts e in
  [entry_type] ++ [value_type] ++ u32_to_le (Z.of_nat (length key)) ++
  u32_to_le (Z.of_nat (length value_bytes)) ++ key ++ value_bytes.

End format.

(** * Headers *)

Definition header_ok (h : Header) : Prop :=
  in_u64 (index_offset h) ∧ in_u64 (index_len h) ∧ in_u64 (entry_count h) ∧
  in_u64 (bloom_offset h) ∧ in_u64 (bloom_len h).

Lemma length_write_header h : length (write_header h) = 45.
Proof. unfold write_header. rewrite !length_app. by autorewrite with kvraft. Qed.

Lemma read_exact_app_hint a s : read_exact (length a) (a ++ s) = (Ok a, s).
Proof. by apply read_exact_app. Qed.

Lemma read_le_u64_app z s : in_u64 z → read_le_u64 (u64_to_le z ++ s) = (Ok z, s).
Proof.
  intros Hz. unfold read_le_u64.
  erewrite bind_Ok by (apply read_exact_app; by rewrite length_u64_to_le).
  by rewrite from_u64_to_le.
Qed.

#[export] Hint Resolve read_le_u64_app : kvraft.

Lemma read_write_header h s :
  header_ok h → read_header (write_header h ++ s) = (Ok h, s).
Proof.
  intros (H1 & H2 & H3 & H4 & H5). unfold read_header, write_header.
  rewrite <-!app_assoc.
  erewrite bind_Ok by (by apply (read_exact_app MAGIC)).
  rewrite decide_False by naive_solver.
  erewrite bind_Ok by (by apply (read_exact_app [VERSION])).
  rewrite decide_False by naive_solver.
  runs. by destruct h.
Qed.

#[export] Instance reader_ok_header : ReaderOk read_header.
Proof.
  unfold read_header, read_le_u64.
  repeat (apply _ || (apply reader_ok_bind; [apply _|intro]) || case_decide).
Qed.

(** * Records *)

Section records.
Context `{HT : F64Text} `{!F64TextLaws HT}.

Lemma write_record_ok key e :
  key_ok key → entry_ok e →
  write_record key e =
  Ok (record_bytes key e, Z.of_nat (length (record_bytes key e))).
Proof using HT.
  intros [Hk Hkl] He. unfold write_record, record_bytes.
  destruct e as [v|]; cbn [entry_parts] in *.
  - destruct He as [_ Hvl]. unfold value_fits in Hvl.
    rewrite !u32_try_from_Some by done. cbn.
    repeat f_equal. autorewrite with kvraft. rewrite !length_app.
    autorewrite with kvraft. lia.
  - rewrite !u32_try_from_Some by done. cbn.
    repeat f_equal. autorewrite with kvraft. rewrite !length_app.
    autorewrite with kvraft. cbn. lia.
Qed.

Lemma length_record_bytes key e : 10 ≤ length (record_bytes key e).
Proof using HT.
  unfold record_bytes. destruct (entry_parts e) as [[a b] c]. cbn.
  rewrite !length_app. autorewrite with kvraft. lia.
Qed.

Lemma sst_read_string_app k s f :
  utf8_valid k = true →
  sst_read_string (Z.of_nat (length k)) f (k ++ s) = (Ok k, s).
Proof using HT.
  intros Hk. unfold sst_read_string.
  erewrite bind_Ok by (by apply read_exact_z_app).
  unfold lift, from_utf8. by rewrite Hk.
Qed.

(** The ten header bytes, as [read_body] takes them apart. *)
Lemma header_fields a b (k v : Z) :
  in_u32 k → in_u32 v →
  let header := [a] ++ [b] ++ u32_to_le k ++ u32_to_le v in
  header !! 0 = Some a ∧ header !! 1 = Some b ∧
  from_le (take 4 (drop 2 header)) = k ∧ from_le (take 4 (drop 6 header)) = v.
Proof using Type.
  intros Hk Hv header. split_and!; [done|done|..]; subst header; cbn [app skipn].
  - rewrite drop_0, take_app_le, take_ge by (autorewrite with kvraft; lia).
    by apply from_u32_to_le.
  - rewrite drop_app_ge by (autorewrite with kvraft; lia).
    rewrite length_u32_to_le, Nat.sub_diag, drop_0.
    rewrite take_ge by (autorewrite with kvraft; lia). by apply from_u32_to_le.
Qed.

Lemma read_write_record key e s :
  key_ok key → entry_ok e →
  read_record (record_bytes key e ++ s) = (Ok (Some (key, e)), s).
Proof using All.
  intros [Hk Hkl] He. unfold record_bytes, read_record.
  destruct (entry_parts e) as [[et vt] vb] eqn:E.
  set (h := [et] ++ [vt] ++ u32_to_le (Z.of_nat (length key)) ++
            u32_to_le (Z.of_nat (length vb))).
  assert (Hvb : in_u32 (Z.of_nat (length vb))).
  { destruct e as [v|]; cbn in E; simplify_eq; [by destruct He | by split]. }
  destruct (header_fields et vt _ _ Hkl Hvb) as (H0 & H1 & H2 & H3).
  fold h in H0, H1, H2, H3.
  replace (([et] ++ [vt] ++ u32_to_le (Z.of_nat (length key)) ++
    u32_to_le (Z.of_nat (length vb)) ++ key ++ vb) ++ s) with (h ++ key ++ vb ++ s)
    by (unfold h; by rewrite <-!app_assoc).
  rewrite read_exact_app by (unfold h; rewrite !length_app; by autorewrite with kvraft).
  unfold read_body.
  erewrite bind_Ok by (unfold lift; by rewrite H0).
  erewrite bind_Ok by (unfold lift; by rewrite H1).
  rewrite H2, H3.
  erewrite bind_Ok by (by apply sst_read_string_app).
  destruct e as [v|]; cbn in E; simplify_eq.
  - change (u8_z (z_u8 0)) with 0%Z. cbn iota. destruct He as [Hv _].
    erewrite (bind_Ok (_ ≫= _)); [done|].
    erewrite bind_Ok by (by apply read_exact_z_app).
    erewrite bind_Ok by (unfold lift; by rewrite from_u8_as_u8).
    unfold lift. by rewrite from_bytes_as_bytes.
  - done.
Qed.

Lemma read_record_short s : length s < 10 → read_record s = (Ok None, []).
Proof using Type. intros Hs. unfold read_record. by rewrite read_exact_short. Qed.

End records.

(** * Properties *)

(** The 45-byte header that closes an SSTable is read back field by
    field. *)
Theorem header_round_trip h s :
  header_ok h → read_header (write_header h ++ s) = (Ok h, s).
Proof. apply read_write_header. Qed.

Lemma header_round_trip_witness :
  let h := {| index_offset := 100; index_len := 20; entry_count := 1;
              bloom_offset := 60; bloom_len := 40 |} in
  read_header (write_header h ++ []) = (Ok h, []).
Proof. apply header_round_trip. vm_compute. intuition congruence. Defined.

(** A record that [write_record] accepts is read back as the same key and
    entry, and the length it returns is the number of bytes it wrote. *)
Theorem sst_record_round_trip `{HT : F64Text} `{!F64TextLaws HT} key e s :
  key_ok key → entry_ok e →
  ∃ b, write_record key e = Ok (b, Z.of_nat (length b)) ∧
       read_record (b ++ s) = (Ok (Some (key, e)), s).
Proof.
  intros. exists (record_bytes key e).
  eauto using write_record_ok, read_write_record.
Qed.

Lemma sst_record_round_trip_witness :
  let _ := bits_text in
  ∃ b, write_record (lit "k") (ESet (Int 12)) = Ok (b, Z.of_nat (length b)) ∧
       read_record (b ++ []) = (Ok (Some (lit "k", ESet (Int 12))), []).
Proof.
  apply (sst_record_round_trip (HT := bits_text)
           (F64TextLaws0 := bits_text_laws));
    vm_compute; intuition congruence.
Defined.
