(* ===== verification/Bloom.v ===== *)
(** [src/lsm/sstable/bloom.rs]: the Bloom filter of an SSTable. *)

From S2P Require Import Prelude Bytes Float.

(** [xxhash_rust::xxh3::xxh3_128], a [u128]. *)
Class Xxh3 : Type := xxh3_128 : bytes → Z.

Definition HASH_ALGORITHM_XXH3_128 : u8 := z_u8 1.
Definition BLOOM_HEADER_SIZE : Z := 25.

Record BloomFilter : Type := MkBloom {
  bits : bytes;
  num_bits : Z;
  num_hashes : Z;
}.

#[export] Instance eta_Bloom : Eta BloomFilter := λ f,
  MkBloom (bits f) (num_bits f) (num_hashes f).
#[export] Instance upd_bits : Upd bits. Proof. derive_upd. Defined.

(** [usize::div_ceil]. *)
Definition div_ceil (a b : Z) : Z :=
  if bool_decide (a `mod` b = 0)%Z then (a / b)%Z else (a / b + 1)%Z.

Section dimensions.
Context `{F64Math}.

(** The two sizes that [BloomFilter::new] computes. *)
Definition bits_for (expected_items : nat) (p : f64) : Z :=
  let n := f64_of_usize (Z.max (Z.of_nat expected_items) 1) in
  let two := f64_of_decimal 2 0 in
  f64_as_usize
    (f64_max
       (f64_ceil (f64_div (f64_mul (f64_neg n) (f64_ln p))
                          (f64_powi (f64_ln two) 2)))
       (f64_of_decimal 8 0)).

Definition hashes_for (expected_items : nat) (nbits : Z) : Z :=
  let n := f64_of_usize (Z.max (Z.of_nat expected_items) 1) in
  let two := f64_of_decimal 2 0 in
  Z.max
    (f64_as_usize
       (f64_round (f64_mul (f64_div (f64_of_usize nbits) n) (f64_ln two))))
    1.

(** [BloomFilter::new]. *)
Definition bloom_new (expected_items : nat) (false_positive_rate : f64) :
    res BloomFilter :=
  if negb (f64_ltb (f64_of_decimal 0 0) false_positive_rate &&
           f64_ltb false_positive_rate (f64_of_decimal 1 0))
  then Panic "false-positive rate must be between 0 and 1" else
  let nbits := bits_for expected_items false_positive_rate in
  let nhashes := hashes_for expected_items nbits in
  Ok {| bits := replicate (Z.to_nat (div_ceil nbits 8)) (z_u8 0);
        num_bits := nbits; num_hashes := nhashes |}.

End dimensions.

Section filter.
Context `{Xxh3}.

Definition hash_pair (key : str) : Z * Z :=
  let hash := xxh3_128 key in
  let h1 := wrap 64 hash in
  let h2 := Z.lor (wrap 64 (Z.shiftr hash 64)) 1 in
  (h1, h2).

(** The bit of probe [i]: [h1.wrapping_add(i.wrapping_mul(h2)) % num_bits]. *)
Definition probe (nbits h1 h2 i : Z) : res Z :=
  if decide (nbits = 0)%Z
  then Panic "attempt to calculate the remainder with a divisor of zero"
  else Ok (wrap 64 (h1 + wrap 64 (i * h2)) `mod` nbits)%Z.

(** [self.bits[bit / 8] |= 1 << (bit % 8)]. *)
Definition set_bit (bit : Z) : M BloomFilter () :=
  f ← get;
  b ← lift (expect "index out of bounds" (bits f !! Z.to_nat (bit / 8)));
  modify (λ f, f <| bits :=
    <[Z.to_nat (bit / 8) := u8_or b (z_u8 (Z.shiftl 1 (bit `mod` 8)))]> (bits f) |>).

(** [BloomFilter::insert]. *)
Definition bloom_insert (key : str) : M BloomFilter () :=
  let '(h1, h2) := hash_pair key in
  f ← get;
  for_each (seqZ 0 (num_hashes f)) (λ i,
    bit ← lift (probe (num_bits f) h1 h2 i);
    set_bit bit).

(** The loop of [may_contain] over the probes that are left. *)
Fixpoint check_probes (f : BloomFilter) (h1 h2 : Z) (l : list Z) : res bool :=
  match l with
  | [] => Ok true
  | i :: l' =>
      bit ← probe (num_bits f) h1 h2 i;
      b ← expect "index out of bounds" (bits f !! Z.to_nat (bit / 8));
      if bool_decide (Z.land (u8_z b) (Z.shiftl 1 (bit `mod` 8)) = 0)%Z
      then Ok false
      else check_probes f h1 h2 l'
  end.

(** [BloomFilter::may_contain]. *)
Definition may_contain (f : BloomFilter) (key : str) : res bool :=
  let '(h1, h2) := hash_pair key in
  check_probes f h1 h2 (seqZ 0 (num_hashes f)).

End filter.

(** [BloomFilter::to_bytes]. *)
Definition to_bytes (f : BloomFilter) : bytes :=
  [HASH_ALGORITHM_XXH3_128] ++ u64_to_le (num_bits f) ++
  u64_to_le (num_hashes f) ++ u64_to_le (Z.of_nat (length (bits f))) ++ bits f.

(** [bytes[a..b]] of the source, within bounds. *)
Definition slice (a b : nat) (s : bytes) : bytes := take (b - a) (drop a s).

(** [BloomFilter::from_bytes]. *)
Definition bloom_from_bytes (s : bytes) : res BloomFilter :=
  if decide (Z.of_nat (length s) < BLOOM_HEADER_SIZE)%Z
  then Err (invalid_data "truncated Bloom filter header") else
  alg ← expect "index out of bounds" (s !! 0);
  if decide (alg ≠ HASH_ALGORITHM_XXH3_128)
  then Err (invalid_data "unsupported Bloom filter hash algorithm") else
  let nbits := from_le (slice 1 9 s) in
  let nhashes := from_le (slice 9 17 s) in
  let bits_len := from_le (slice 17 25 s) in
  if decide (nbits = 0 ∨ nhashes = 0)%Z
  then Err (invalid_data "Bloom filter dimensions must be nonzero") else
  if decide (100 < nhashes)%Z
  then Err (invalid_data "Bloom filter hash count exceeds limit") else
  if decide (bits_len ≠ div_ceil nbits 8)
  then Err (invalid_data "Bloom filter bit and byte counts disagree") else
  expected_len ← ok_or (invalid_data "Bloom filter length overflow")
                       (checked_add_u64 BLOOM_HEADER_SIZE bits_len);
  if decide (Z.of_nat (length s) ≠ expected_len)
  then Err (invalid_data "Bloom filter payload length mismatch") else
  Ok {| bits := drop 25 s; num_bits := nbits; num_hashes := nhashes |}.

(** * Well-formed filters *)

Definition bloom_wf (f : BloomFilter) : Prop :=
  (0 < num_bits f)%Z ∧ in_u64 (num_bits f) ∧
  (0 < num_hashes f ≤ 100)%Z ∧
  Z.of_nat (length (bits f)) = div_ceil (num_bits f) 8.

(** The sizes for the rate the writers pass stay within the file format: true
    of IEEE arithmetic, where they are near [9.59 n] bits and 7 hashes. *)
Class BloomDims `{F64Math} : Prop := {
  bits_bound n :
    (bits_for n (f64_of_decimal 1 (-2)) ≤ 16 * Z.max (Z.of_nat n) 1)%Z;
  hashes_bound n :
    (hashes_for n (bits_for n (f64_of_decimal 1 (-2))) ≤ 100)%Z;
}.

(** Bit [i] is set. *)
Definition bit_set (f : BloomFilter) (i : Z) : Prop :=
  ∃ b, bits f !! Z.to_nat (i / 8) = Some b ∧ Z.testbit (u8_z b) (i `mod` 8) = true.

(** Every probe of [key] hits a set bit. *)
Definition bloom_has `{Xxh3} (f : BloomFilter) (key : str) : Prop :=
  let '(h1, h2) := hash_pair key in
  ∀ i, (0 ≤ i < num_hashes f)%Z →
    ∃ bit, probe (num_bits f) h1 h2 i = Ok bit ∧ bit_set f bit.

(** * Lemmas *)

Lemma div_ceil_bound a b :
  (0 < b)%Z → (0 ≤ a)%Z → (a ≤ b * div_ceil a b ∧ b * div_ceil a b < a + b)%Z.
Proof.
  intros Hb Ha. unfold div_ceil. pose proof (Z.div_mod a b ltac:(lia)).
  pose proof (Z.mod_pos_bound a b Hb). case_bool_decide; lia.
Qed.

Lemma probe_Ok f h1 h2 i :
  bloom_wf f → ∃ bit, probe (num_bits f) h1 h2 i = Ok bit ∧
    (0 ≤ bit < num_bits f)%Z.
Proof.
  intros (Hn & _). unfold probe. rewrite decide_False by lia.
  eexists. split; [done|]. by apply Z.mod_pos_bound.
Qed.

(** A bit of the filter lies in its vector. *)
Lemma bit_in_bounds f bit :
  bloom_wf f → (0 ≤ bit < num_bits f)%Z → Z.to_nat (bit / 8) < length (bits f).
Proof.
  intros (Hn & _ & _ & Hl) Hb.
  pose proof (div_ceil_bound (num_bits f) 8 ltac:(lia) ltac:(lia)) as [H1 _].
  assert (bit / 8 < div_ceil (num_bits f) 8)%Z; [|lia].
  apply Z.div_lt_upper_bound; lia.
Qed.

Lemma u8_or_testbit a k i :
  (0 ≤ k < 8)%Z → (0 ≤ i)%Z →
  Z.testbit (u8_z (u8_or a (z_u8 (Z.shiftl 1 k)))) i
  = Z.testbit (u8_z a) i || bool_decide (i = k).
Proof.
  intros Hk Hi. unfold u8_or. pose proof (u8_z_range a) as Ha.
  assert (Hs : (0 ≤ Z.shiftl 1 k < 256)%Z).
  { rewrite Z.shiftl_mul_pow2, Z.mul_1_l by lia. split; [apply Z.pow_nonneg; lia|].
    change 256%Z with (2 ^ 8)%Z. apply Z.pow_lt_mono_r; lia. }
  rewrite (u8_z_of (Z.shiftl 1 k)) by done.
  rewrite u8_z_of.
  - rewrite Z.lor_spec. f_equal. rewrite Z.shiftl_spec by lia.
    case_bool_decide as E; [subst; by rewrite Z.sub_diag|].
    destruct (Z.testbit 1 (i - k)) eqn:T; [|done].
    destruct (decide (i < k)%Z); [by rewrite Z.testbit_neg_r in T by lia|].
    change 1%Z with (2 ^ 0)%Z in T. rewrite Z.pow2_bits_false in T by lia. done.
  - split; [apply Z.lor_nonneg; lia|]. change 256%Z with (2 ^ 8)%Z.
    destruct (decide (Z.lor (u8_z a) (Z.shiftl 1 k) = 0)%Z) as [->|Hne]; [lia|].
    apply Z.log2_lt_pow2; [pose proof (Z.lor_nonneg (u8_z a) (Z.shiftl 1 k)); lia|].
    rewrite Z.log2_lor by lia.
    apply Z.max_lub_lt; [destruct (decide (u8_z a = 0)%Z) as [->|]; [done|] |
      destruct (decide (Z.shiftl 1 k = 0)%Z) as [->|]; [done|]];
      apply Z.log2_lt_pow2; change (2 ^ 8)%Z with 256%Z; lia.
Qed.

Lemma land_shiftl_1 z k :
  (0 ≤ k)%Z → Z.land z (Z.shiftl 1 k) = 0%Z ↔ Z.testbit z k = false.
Proof.
  intros Hk. rewrite Z.shiftl_mul_pow2, Z.mul_1_l by lia. split.
  - intros E. apply (f_equal (λ x, Z.testbit x k)) in E.
    rewrite Z.land_spec, Z.pow2_bits_true, Z.bits_0, andb_true_r in E by lia. done.
  - intros E. apply Z.bits_inj. intros i. rewrite Z.land_spec, Z.bits_0.
    destruct (decide (i = k)) as [->|]; [by rewrite E|].
    rewrite Z.pow2_bits_false by lia. apply andb_false_r.
Qed.

(** Setting a bit sets that bit, keeps the others and the dimensions. *)
Lemma set_bit_spec f bit :
  bloom_wf f → (0 ≤ bit < num_bits f)%Z →
  ∃ f', set_bit bit f = (Ok (), f') ∧ bloom_wf f' ∧
    num_bits f' = num_bits f ∧ num_hashes f' = num_hashes f ∧
    bit_set f' bit ∧ (∀ j, (0 ≤ j)%Z → bit_set f j → bit_set f' j).
Proof.
  intros Hwf Hb. pose proof (bit_in_bounds f bit Hwf Hb) as Hin.
  destruct (lookup_lt_is_Some_2 _ _ Hin) as [b Eb].
  unfold set_bit. exec. rewrite Eb. cbn. eexists. split; [done|].
  pose proof (Z.mod_pos_bound bit 8 ltac:(lia)) as Hm.
  split_and!; [|done|done| |].
  - destruct Hwf as (?&?&?&Hl). split_and!; cbn; try done; try lia.
    by rewrite length_insert.
  - eexists. cbn. split; [by apply list_lookup_insert_eq|].
    rewrite u8_or_testbit by lia. rewrite (bool_decide_true (_ = _)) by done.
    apply orb_true_r.
  - intros j Hj (b' & E' & T). unfold bit_set. cbn.
    pose proof (Z.mod_pos_bound j 8 ltac:(lia)).
    destruct (decide (Z.to_nat (j / 8) = Z.to_nat (bit / 8))) as [E|Hne].
    + rewrite E in *. rewrite Eb in E'. injection E' as <-.
      eexists. split; [by apply list_lookup_insert_eq|].
      rewrite u8_or_testbit by lia. by rewrite T.
    + exists b'. by rewrite list_lookup_insert_ne.
Qed.

(** ** Insertion and lookup *)

(** [f'] has the dimensions of [f] and at least its bits. *)
Definition bloom_le (f f' : BloomFilter) : Prop :=
  num_bits f' = num_bits f ∧ num_hashes f' = num_hashes f ∧
  (∀ j, (0 ≤ j)%Z → bit_set f j → bit_set f' j).

#[export] Instance bloom_le_preorder : PreOrder bloom_le.
Proof.
  split; [by repeat split|].
  intros f1 f2 f3 (A1 & B1 & C1) (A2 & B2 & C2).
  split_and!; [congruence..|eauto].
Qed.

Lemma insert_loop_spec f nb h1 h2 l :
  bloom_wf f → nb = num_bits f →
  ∃ f', for_each l (λ i, bit ← lift (probe nb h1 h2 i); set_bit bit) f
        = (Ok (), f') ∧ bloom_wf f' ∧ bloom_le f f' ∧
    (∀ i, i ∈ l → ∃ bit, probe nb h1 h2 i = Ok bit ∧ bit_set f' bit).
Proof.
  intros Hwf ->. remember (num_bits f) as nb eqn:Hnb.
  revert f Hwf Hnb. induction l as [|i l IH]; intros f Hwf ->.
  - exists f. split_and!; [done..|set_solver].
  - destruct (probe_Ok f h1 h2 i Hwf) as (bit & Ep & Hb).
    destruct (set_bit_spec f bit Hwf Hb) as (f1 & E1 & Hwf1 & N1 & K1 & S1 & M1).
    destruct (IH f1 Hwf1 (eq_sym N1)) as (f2 & E2 & Hwf2 & L2 & S2).
    exists f2. split_and!; [|done| |].
    + cbn [for_each]. erewrite bind_Ok; [exact E2|].
      erewrite bind_Ok; [exact E1|]. unfold lift. by rewrite Ep.
    + etrans; [|exact L2]. by split_and!.
    + intros j [->|Hj]%elem_of_cons; [|by apply S2].
      exists bit. split; [done|]. destruct L2 as (_ & _ & M2). apply M2; [lia|done].
Qed.

Lemma bloom_insert_spec `{Xxh3} f key :
  bloom_wf f →
  ∃ f', bloom_insert key f = (Ok (), f') ∧ bloom_wf f' ∧ bloom_le f f' ∧
    bloom_has f' key.
Proof.
  intros Hwf. unfold bloom_insert, bloom_has.
  destruct (hash_pair key) as [h1 h2].
  destruct (insert_loop_spec f (num_bits f) h1 h2 (seqZ 0 (num_hashes f)) Hwf)
    as (f' & E & Hwf' & L & S); [done|].
  exists f'. split_and!; [exact E|done|done|]. destruct L as (N & K & _).
  intros i Hi. rewrite N. apply S. apply elem_of_seqZ. lia.
Qed.

Lemma bloom_has_le `{Xxh3} f f' key :
  bloom_wf f → bloom_le f f' → bloom_has f key → bloom_has f' key.
Proof.
  unfold bloom_has. destruct (hash_pair key) as [h1 h2].
  intros Hwf (N & K & Mo) Hh i Hi. rewrite K in Hi. rewrite N.
  destruct (Hh i Hi) as (bit & E & Hb). exists bit. split; [done|].
  apply Mo; [|done]. destruct (probe_Ok f h1 h2 i Hwf) as (? & E' & ?).
  rewrite E in E'. injection E' as <-. lia.
Qed.

Lemma check_probes_has f h1 h2 l :
  bloom_wf f →
  (∀ i, i ∈ l → ∃ bit, probe (num_bits f) h1 h2 i = Ok bit ∧ bit_set f bit) →
  check_probes f h1 h2 l = Ok true.
Proof.
  intros Hwf. induction l as [|i l IH]; intros Hl; [done|]. cbn [check_probes].
  destruct (Hl i) as (bit & -> & b & E & T); [by left|]. cbn. rewrite E. cbn.
  pose proof (Z.mod_pos_bound bit 8 ltac:(lia)).
  rewrite bool_decide_false by (rewrite land_shiftl_1, T by lia; done).
  apply IH. intros j Hj. apply Hl. by right.
Qed.

Lemma may_contain_has `{Xxh3} f key :
  bloom_wf f → bloom_has f key → may_contain f key = Ok true.
Proof.
  unfold may_contain, bloom_has. destruct (hash_pair key) as [h1 h2].
  intros Hwf Hh. apply check_probes_has; [done|].
  intros i Hi%elem_of_seqZ. apply Hh. lia.
Qed.

(** A lookup never panics on a well-formed filter. *)
Lemma may_contain_total `{Xxh3} f key :
  bloom_wf f → ∃ b, may_contain f key = Ok b.
Proof.
  unfold may_contain. destruct (hash_pair key) as [h1 h2]. intros Hwf.
  induction (seqZ 0 (num_hashes f)) as [|i l IH]; [by eexists|]. cbn [check_probes].
  destruct (probe_Ok f h1 h2 i Hwf) as (bit & -> & Hb). cbn.
  destruct (lookup_lt_is_Some_2 _ _ (bit_in_bounds f bit Hwf Hb)) as [b ->]. cbn.
  case_bool_decide; eauto.
Qed.

(** ** New filters *)

Lemma bloom_new_ok `{HM : F64Math} `{!F64MathLaws HM} `{!BloomDims} n :
  ∃ f, bloom_new n (f64_of_decimal 1 (-2)) = Ok f ∧ bloom_wf f ∧
    num_bits f = bits_for n (f64_of_decimal 1 (-2)).
Proof.
  unfold bloom_new. rewrite f64_ltb_0_001, f64_ltb_001_1. cbn.
  eexists. split; [done|]. unfold bloom_wf. cbn.
  pose proof (hashes_bound n) as Hh.
  assert (8 ≤ bits_for n (f64_of_decimal 1 (-2)))%Z by apply f64_max_8.
  destruct (div_ceil_bound (bits_for n (f64_of_decimal 1 (-2))) 8); [lia..|].
  assert (1 ≤ hashes_for n (bits_for n (f64_of_decimal 1 (-2))))%Z
    by (unfold hashes_for; lia).
  rewrite length_replicate, Z2Nat.id by lia.
  split_and!; try lia; try done; apply f64_as_usize_range.
Qed.

(** ** The file format *)

Lemma bloom_round_trip_bytes f :
  bloom_wf f → (25 + Z.of_nat (length (bits f)) ≤ u64_max)%Z →
  bloom_from_bytes (to_bytes f) = Ok f.
Proof.
  intros (Hn & Hn64 & Hh & Hl) Hlen. unfold u64_max in *.
  assert (Hh64 : in_u64 (num_hashes f)) by (unfold in_u64, in_u; lia).
  assert (Hl64 : in_u64 (Z.of_nat (length (bits f)))) by (unfold in_u64, in_u; lia).
  assert (Ht : length (to_bytes f) = 25 + length (bits f)).
  { unfold to_bytes. rewrite !length_app. autorewrite with kvraft. done. }
  unfold bloom_from_bytes. rewrite Ht.
  rewrite decide_False by (unfold BLOOM_HEADER_SIZE; lia).
  change (to_bytes f !! 0) with (Some HASH_ALGORITHM_XXH3_128). cbn [expect mbind res_bind].
  rewrite decide_False by naive_solver.
  assert (S1 : slice 1 9 (to_bytes f) = u64_to_le (num_bits f)).
  { unfold slice, to_bytes. cbn [app skipn]. rewrite drop_0.
    rewrite take_app_le, take_ge by (autorewrite with kvraft; lia). done. }
  assert (S2 : slice 9 17 (to_bytes f) = u64_to_le (num_hashes f)).
  { unfold slice, to_bytes. cbn [app skipn].
    rewrite drop_app_ge, length_u64_to_le by (autorewrite with kvraft; lia).
    cbn [Nat.sub]. rewrite drop_0.
    rewrite take_app_le, take_ge by (autorewrite with kvraft; lia). done. }
  assert (S3 : slice 17 25 (to_bytes f) = u64_to_le (Z.of_nat (length (bits f)))).
  { unfold slice, to_bytes. cbn [app skipn].
    do 2 (rewrite drop_app_ge, length_u64_to_le by (autorewrite with kvraft; lia);
          cbn [Nat.sub]). rewrite drop_0.
    rewrite take_app_le, take_ge by (autorewrite with kvraft; lia). done. }
  assert (S4 : drop 25 (to_bytes f) = bits f).
  { unfold to_bytes. cbn [app skipn].
    do 3 (rewrite drop_app_ge, length_u64_to_le by (autorewrite with kvraft; lia);
          cbn [Nat.sub]). done. }
  rewrite S1, S2, S3, S4, !from_u64_to_le by done.
  rewrite !decide_False by lia.
  unfold BLOOM_HEADER_SIZE. rewrite checked_add_u64_Some by (unfold u64_max; lia).
  cbn. rewrite decide_False by lia. by destruct f.
Qed.

(** The dimensions of the concrete arithmetic are in range. *)
Lemma micro_bits n :
  bits_for (H := micro_math) n (f64_of_decimal (F64Math := micro_math) 1 (-2))
  = Z.max 0 (Z.min u64_max
      (Z.max (- (- (- (Z.max (Z.of_nat n) 1 * 1000000) * -4605170 / 1000000 * 1000000
                    / 480452) / 1000000) * 1000000) 8000000 / 1000000))%Z.
Proof. reflexivity. Qed.

Lemma micro_bits_bound n :
  (0 ≤ bits_for (H := micro_math) n (f64_of_decimal (F64Math := micro_math) 1 (-2)) ≤ 16 * Z.max (Z.of_nat n) 1)%Z.
Proof.
  rewrite micro_bits. generalize (Z.max (Z.of_nat n) 1) (Z.le_max_r (Z.of_nat n) 1).
  intros m Hm. unfold u64_max. Z.div_mod_to_equations. nia.
Qed.

Lemma micro_dims : BloomDims (H := micro_math).
Proof.
  split; intros n; pose proof (micro_bits_bound n) as [H0 H1]; [done|].
  revert H0 H1. unfold hashes_for. generalize (bits_for (H := micro_math) n (f64_of_decimal (F64Math := micro_math) 1 (-2))).
  intros b H0 H1. cbn in *. revert H1.
  generalize (Z.max (Z.of_nat n) 1) (Z.le_max_r (Z.of_nat n) 1). intros m Hm Hb.
  assert (b * 1000000 * 1000000 / (m * 1000000) ≤ 16000000)%Z.
  { apply Z.div_le_upper_bound; nia. }
  assert (0 ≤ b * 1000000 * 1000000 / (m * 1000000))%Z.
  { apply Z.div_pos; nia. }
  generalize dependent (b * 1000000 * 1000000 / (m * 1000000))%Z. intros q Hq1 Hq2.
  rewrite (bool_decide_true (0 ≤ 0)%Z), bool_decide_false by lia.
  unfold u64_max. Z.div_mod_to_equations. lia.
Qed.

(** Whatever [from_bytes] accepts is a well-formed filter, and the bytes are
    the ones [to_bytes] writes for it. *)
Lemma bloom_from_bytes_inv s f :
  bloom_from_bytes s = Ok f →
  bloom_wf f ∧ s = to_bytes f ∧ (25 + Z.of_nat (length (bits f)) ≤ u64_max)%Z.
Proof.
  unfold bloom_from_bytes, BLOOM_HEADER_SIZE.
  case_decide as H1; [done|]. destruct s as [|b s]; [done|].
  change ((b :: s) !! 0) with (Some b). cbn [expect mbind res_bind].
  case_decide as H2; [done|]. subst b.
  set (x := slice 1 9 _). set (y := slice 9 17 _). set (z := slice 17 25 _).
  case_decide as H3; [done|]. case_decide as H4; [done|].
  case_decide as H5; [done|].
  unfold checked_add_u64. case_decide as H6; [|done]. cbn [ok_or mbind res_bind].
  case_decide as H7; [done|]. intros [= <-].
  cbn [length] in *.
  assert (Hx : length x = 8) by (unfold x, slice; rewrite length_take, length_drop; cbn [length]; lia).
  assert (Hy : length y = 8) by (unfold y, slice; rewrite length_take, length_drop; cbn [length]; lia).
  assert (Hz : length z = 8) by (unfold z, slice; rewrite length_take, length_drop; cbn [length]; lia).
  assert (Hr : ∀ t : bytes, length t = 8 → in_u64 (from_le t)).
  { intros t Ht. pose proof (from_le_range t) as Hr. rewrite Ht in Hr. exact Hr. }
  pose proof (Hr x Hx) as Rx. pose proof (Hr y Hy) as Ry. pose proof (Hr z Hz) as Rz.
  unfold in_u64, in_u in Rx, Ry, Rz.
  change (drop 25 (HASH_ALGORITHM_XXH3_128 :: s)) with (drop 24 s).
  assert (Hd : Z.of_nat (length (drop 24 s)) = from_le z) by (rewrite length_drop; lia).
  split_and!; cbn [bits num_bits num_hashes]; try lia.
  - split_and!; cbn [bits num_bits num_hashes]; try lia. done.
  - unfold to_bytes. cbn [bits num_bits num_hashes]. rewrite Hd.
    unfold u64_to_le, from_le. rewrite !split_le_combine' by done.
    unfold x, y, z, slice. cbn [app Nat.sub skipn]. f_equal.
    rewrite drop_0. rewrite <-(take_drop 8 s) at 1. f_equal.
    rewrite <-(take_drop 8 (drop 8 s)) at 1. rewrite drop_drop. f_equal.
    change (8 + 8) with 16. rewrite <-(take_drop 8 (drop 16 s)) at 1.
    by rewrite drop_drop.
Qed.

(** * Properties *)

(** C34: A filter built by inserting keys answers [true] for every one of them:
    no false negatives, whatever the hash function and the sizes computed. *)
Theorem bloom_no_false_negatives `{Xxh3} `{HM : F64Math} `{!F64MathLaws HM}
    `{!BloomDims} n keys :
  ∃ f f', bloom_new n (f64_of_decimal 1 (-2)) = Ok f ∧
    for_each keys bloom_insert f = (Ok (), f') ∧
    (∀ key, key ∈ keys → may_contain f' key = Ok true).
Proof.
  destruct (bloom_new_ok n) as (f & E & Hwf & _). exists f.
  assert (∃ f', for_each keys bloom_insert f = (Ok (), f') ∧ bloom_wf f' ∧
            bloom_le f f' ∧ ∀ key, key ∈ keys → bloom_has f' key)
    as (f' & E' & Hwf' & _ & Hall).
  { clear E. revert f Hwf. induction keys as [|k keys IH]; intros f Hwf.
    - exists f. split_and!; [done..|set_solver].
    - destruct (bloom_insert_spec f k Hwf) as (f1 & E1 & W1 & L1 & B1).
      destruct (IH f1 W1) as (f2 & E2 & W2 & L2 & B2).
      exists f2. split_and!; [|done|by transitivity f1|].
      + cbn [for_each]. by erewrite bind_Ok by exact E1.
      + intros key [->|Hk]%elem_of_cons; [|auto].
        exact (bloom_has_le f1 f2 k W1 L2 B1). }
  exists f'. split_and!; [done..|]. eauto using may_contain_has.
Qed.

Lemma bloom_no_false_negatives_witness :
  let _ : Xxh3 := from_le in let _ := micro_math in
  ∃ f f', bloom_new 2 (f64_of_decimal 1 (-2)) = Ok f ∧
    for_each [lit "a"; lit "b"] bloom_insert f = (Ok (), f') ∧
    (∀ key, key ∈ [lit "a"; lit "b"] → may_contain f' key = Ok true).
Proof.
  apply (bloom_no_false_negatives (H := from_le) (HM := micro_math)
    (F64MathLaws0 := micro_math_laws) (H0 := micro_dims) 2).
Defined.

(** [from_bytes] accepts exactly the bytes [to_bytes] writes for a
    well-formed filter, and gives that filter back. *)
Theorem bloom_bytes_exact s f :
  bloom_from_bytes s = Ok f ↔
  bloom_wf f ∧ s = to_bytes f ∧ (25 + Z.of_nat (length (bits f)) ≤ u64_max)%Z.
Proof.
  split; [apply bloom_from_bytes_inv|].
  intros (Hwf & -> & Hl). by apply bloom_round_trip_bytes.
Qed.
