(* ===== verification/Index.v ===== *)
(** [src/lsm/sstable/index.rs]: the sorted index of an SSTable, and its
    serialization ([write_index] of [writer.rs]). *)

From S2P Require Import Prelude Bytes.

Record IndexEntry : Type := MkIndexEntry { key : str; offset : Z }.

(** [Index]: its entries, in the order they were added. *)
Abbreviation Index := (list IndexEntry).

#[export] Instance IndexEntry_eq_dec : EqDecision IndexEntry.
Proof. solve_decision. Defined.

Definition index_add (index : Index) (k : str) (o : Z) : Index :=
  index ++ [{| key := k; offset := o |}].

(** [<[T]>::binary_search_by] of the standard library: halve the window
    [base, base + size) until one element is left. *)
Fixpoint bs_loop {A} (fuel : nat) (l : list A) (f : A → comparison)
    (base size : nat) : nat :=
  match fuel with
  | O => base
  | S fuel' =>
      if decide (size ≤ 1) then base else
      let half := Nat.div2 size in
      let mid := base + half in
      let base' := match f <$> l !! mid with Some Gt => base | _ => mid end in
      bs_loop fuel' l f base' (size - half)
  end.

Definition binary_search_by {A} (l : list A) (f : A → comparison) : option nat :=
  if decide (length l = 0) then None else
  let base := bs_loop (length l) l f 0 (length l) in
  match f <$> l !! base with Some Eq => Some base | _ => None end.

(** [Index::find]. *)
Definition index_find (index : Index) (k : str) : res (option Z) :=
  match binary_search_by index (λ entry, str_cmp (key entry) k) with
  | None => Ok None
  | Some position =>
      entry ← expect "index out of bounds" (index !! position);
      Ok (Some (offset entry))
  end.

(** [write_index] of [writer.rs]: the bytes and [bytes_written]. *)
Fixpoint write_index (index : Index) : res (bytes * Z) :=
  match index with
  | [] => Ok ([], 0%Z)
  | entry :: index' =>
      key_len ← ok_or (invalid_input "key is too large")
                      (u32_try_from (length (key entry)));
      '(b, n) ← write_index index';
      Ok (u32_to_le key_len ++ key entry ++ u64_to_le (offset entry) ++ b,
          4 + Z.of_nat (length (key entry)) + 8 + n)%Z
  end.

(** One turn of the loop of [read_index]. *)
Definition read_index_entry : M bytes IndexEntry :=
  buffer ← read_exact 4;
  let key_len := from_le buffer in
  key_bytes ← read_exact_z key_len;
  k ← lift (ok_or (invalid_data "invalid UTF-8 key in SSTable index")
                  (from_utf8 key_bytes));
  buffer ← read_exact 8;
  mret {| key := k; offset := from_le buffer |}.

(** [for _ in 0..entry_count]; every turn takes at least twelve bytes, so the
    length of the input is fuel enough. *)
Fixpoint read_index_entries (fuel : nat) (count : Z) (index : Index) :
    M bytes Index :=
  if decide (count ≤ 0)%Z then mret index else
  match fuel with
  | O => panic "out of fuel"
  | S fuel' =>
      entry ← read_index_entry;
      read_index_entries fuel' (count - 1) (index_add index (key entry) (offset entry))
  end.

(** [index.entries.windows(2)]: no two neighbours out of order. *)
Fixpoint index_sorted (index : Index) : bool :=
  match index with
  | e1 :: (e2 :: _) as index' =>
      bool_decide (str_lt (key e1) (key e2)) && index_sorted index'
  | _ => true
  end.

(** [Vec::with_capacity] panics beyond [isize::MAX] bytes; an [IndexEntry] is
    a [String] and a [u64], 32 bytes. *)
Definition with_capacity_ok (capacity : Z) : bool :=
  bool_decide (capacity * 32 ≤ i64_max)%Z.

(** [read_index] on a file whose position is [start]. *)
Definition read_index (start index_len entry_count : Z) : M bytes Index :=
  file ← get;
  end_ ← lift (ok_or (invalid_data "invalid index length")
                     (checked_add_u64 start index_len));
  if negb (with_capacity_ok entry_count) then panic "capacity overflow" else
  index ← read_index_entries (length file) entry_count [];
  rest ← get;
  let position := (start + Z.of_nat (length file - length rest))%Z in
  if decide (position ≠ end_)
  then fail (invalid_data "SSTable index length mismatch") else
  if negb (index_sorted index)
  then fail (invalid_data "SSTable index is not sorted")
  else mret index.

(** * Sorted indices *)

(** Keys strictly increasing. *)
Definition sorted (index : Index) : Prop :=
  StronglySorted (λ a b, str_lt (key a) (key b)) index.

(** What [find] promises: the offset stored for the key. *)
Fixpoint assoc (index : Index) (k : str) : option Z :=
  match index with
  | [] => None
  | e :: index' => if decide (key e = k) then Some (offset e) else assoc index' k
  end.

Lemma assoc_Some index k o :
  sorted index →
  assoc index k = Some o ↔ {| key := k; offset := o |} ∈ index.
Proof.
  induction 1 as [|e index Hs IH Hall]; [set_solver|]. cbn.
  rewrite elem_of_cons. case_decide as E.
  - subst. split; [intros [= <-]; left; by destruct e|].
    intros [<-|Hin]; [done|]. rewrite Forall_forall in Hall.
    by apply Hall, str_lt_irrefl in Hin.
  - rewrite IH. split; [auto|]. intros [<-|]; [done|done].
Qed.

(** ** Binary search *)

Lemma div2_bounds n :
  ¬ n ≤ 1 → 0 < Nat.div2 n < n ∧ Nat.div2 n + Nat.div2 n ≤ n.
Proof.
  intros Hn. pose proof (Nat.div2_odd n) as H.
  destruct (Nat.odd n); cbn [Nat.b2n] in H; lia.
Qed.

Section search.
Context {A : Type} (l : list A) (f : A → comparison).

(** [f] decreases along the list: the elements before the one looked for
    answer [Lt], those after it [Gt]. *)
Definition monotone : Prop := ∀ i j a b,
  i < j → l !! i = Some a → l !! j = Some b →
  (f b ≠ Gt → f a = Lt).

Context (Hmono : monotone).

Lemma bs_loop_spec fuel base size p a :
  size ≤ fuel → 0 < size → base + size ≤ length l →
  l !! p = Some a → f a = Eq → base ≤ p < base + size →
  bs_loop fuel l f base size = p.
Proof using Hmono.
  revert base size. induction fuel as [|fuel IH]; intros base size Hf H0 Hl Hp Ha Hr;
    [lia|]. cbn [bs_loop]. case_decide as Hs; [lia|].
  assert (Hh : 0 < Nat.div2 size < size ∧ Nat.div2 size + Nat.div2 size ≤ size).
  { by apply div2_bounds. }
  destruct (lookup_lt_is_Some_2 l (base + Nat.div2 size)) as [m Em]; [lia|].
  rewrite Em. cbn.
  assert (Hcase : (f m = Gt ∧ p < base + Nat.div2 size) ∨
                  (f m ≠ Gt ∧ base + Nat.div2 size ≤ p)).
  { destruct (Nat.lt_trichotomy p (base + Nat.div2 size)) as [Hlt|[He|Hlt]].
    - left. split; [|done]. destruct (f m) eqn:Em'; [| |done];
        pose proof (Hmono _ _ _ _ Hlt Hp Em ltac:(congruence)); congruence.
    - right. subst p. rewrite Em in Hp. injection Hp as <-. split; [congruence|lia].
    - right. pose proof (Hmono _ _ _ _ Hlt Em Hp ltac:(congruence)).
      split; [congruence|lia]. }
  destruct Hcase as [[-> Hlt]|[Hne Hge]].
  - apply IH; try lia; done.
  - destruct (f m); [| |done]; (apply IH; try lia; done).
Qed.

Lemma bs_loop_range fuel base size :
  0 < size → size ≤ fuel → bs_loop fuel l f base size < base + size.
Proof using Type.
  revert base size. induction fuel as [|fuel IH]; intros base size H0 Hf; [lia|].
  cbn [bs_loop]. case_decide as Hs; [lia|].
  assert (Hh : 0 < Nat.div2 size < size ∧ Nat.div2 size + Nat.div2 size ≤ size).
  { by apply div2_bounds. }
  set (base' := match f <$> l !! _ with Some Gt => base | _ => _ end).
  assert (base' = base ∨ base' = base + Nat.div2 size) as [->| ->].
  { unfold base'. destruct (f <$> _) as [[]|]; auto. }
  - specialize (IH base (size - Nat.div2 size)). lia.
  - specialize (IH (base + Nat.div2 size) (size - Nat.div2 size)). lia.
Qed.

(** The search finds the element that answers [Eq], wherever it is. *)
Lemma binary_search_Some p a :
  l !! p = Some a → f a = Eq → binary_search_by l f = Some p.
Proof using Hmono.
  intros Hp Ha. pose proof (lookup_lt_Some _ _ _ Hp). unfold binary_search_by.
  rewrite decide_False by lia.
  rewrite (bs_loop_spec _ _ _ p a) by (lia || done). rewrite Hp. cbn. by rewrite Ha.
Qed.

Lemma binary_search_None :
  (∀ a, a ∈ l → f a ≠ Eq) → binary_search_by l f = None.
Proof using Type.
  intros Hno. unfold binary_search_by. case_decide; [done|].
  destruct (lookup_lt_is_Some_2 l (bs_loop (length l) l f 0 (length l))) as [m Em].
  { pose proof (bs_loop_range (length l) 0 (length l)). lia. }
  rewrite Em. cbn. destruct (f m) eqn:E; try done.
  exfalso. apply (Hno m); [by eapply list_elem_of_lookup_2|done].
Qed.
End search.

Lemma sorted_lookup index i j a b :
  sorted index → i < j → index !! i = Some a → index !! j = Some b →
  str_lt (key a) (key b).
Proof.
  intros Hs. revert i j. induction Hs as [|e index Hs IH Hall]; intros i j Hij Hi Hj; [done|].
  destruct j as [|j]; [lia|]. destruct i as [|i]; cbn in Hi, Hj.
  - injection Hi as <-. rewrite Forall_forall in Hall. apply Hall.
    by eapply list_elem_of_lookup_2.
  - apply (IH i j); [lia|done..].
Qed.

Lemma sorted_monotone index k :
  sorted index → monotone index (λ entry, str_cmp (key entry) k).
Proof.
  intros Hs i j a b Hij Hi Hj Hb.
  pose proof (sorted_lookup _ _ _ _ _ Hs Hij Hi Hj) as Hlt.
  destruct (str_cmp (key b) k) eqn:E; [| |done].
  - apply str_cmp_eq in E. by subst.
  - by eapply str_lt_trans.
Qed.

(** On a sorted index, [find] is the association it stores. *)
Lemma index_find_assoc index k :
  sorted index → index_find index k = Ok (assoc index k).
Proof.
  intros Hs. unfold index_find. destruct (assoc index k) as [o|] eqn:E.
  - apply assoc_Some in E; [|done].
    apply list_elem_of_lookup in E as [p Hp].
    rewrite (binary_search_Some _ _ (sorted_monotone index k Hs) p _ Hp)
      by apply str_cmp_refl. cbn. by rewrite Hp.
  - rewrite binary_search_None; [done|]. intros a Ha Heq%str_cmp_eq.
    assert (assoc index k = Some (offset a)) as E'; [|congruence].
    apply assoc_Some; [done|]. subst k. by destruct a.
Qed.

(** ** Serialization *)

Definition index_entry_ok (e : IndexEntry) : Prop :=
  key_ok (key e) ∧ in_u64 (offset e).

Definition index_entry_bytes (e : IndexEntry) : bytes :=
  u32_to_le (Z.of_nat (length (key e))) ++ key e ++ u64_to_le (offset e).

Definition index_bytes (index : Index) : bytes :=
  mjoin (index_entry_bytes <$> index).

Lemma length_index_entry_bytes e :
  length (index_entry_bytes e) = 4 + length (key e) + 8.
Proof.
  unfold index_entry_bytes. rewrite !length_app. autorewrite with kvraft. lia.
Qed.

Lemma index_bytes_cons e index :
  index_bytes (e :: index) = index_entry_bytes e ++ index_bytes index.
Proof. reflexivity. Qed.

Lemma length_index_bytes index : 12 * length index ≤ length (index_bytes index).
Proof.
  induction index as [|e index IH]; [done|].
  rewrite index_bytes_cons, length_app, length_index_entry_bytes. cbn [length]. lia.
Qed.

Lemma write_index_ok index :
  Forall index_entry_ok index →
  write_index index = Ok (index_bytes index, Z.of_nat (length (index_bytes index))).
Proof.
  induction 1 as [|e index [[_ Hk] _] _ IH]; [done|]. cbn [write_index].
  rewrite u32_try_from_Some by done. cbn [ok_or mbind res_bind]. rewrite IH.
  cbn [mbind res_bind].
  rewrite index_bytes_cons, length_app, length_index_entry_bytes.
  f_equal. f_equal; [|lia]. unfold index_entry_bytes. by rewrite <-!app_assoc.
Qed.

Lemma read_index_entry_app e s :
  index_entry_ok e → read_index_entry (index_entry_bytes e ++ s) = (Ok e, s).
Proof.
  intros [[Hu Hk] Ho]. unfold read_index_entry, index_entry_bytes.
  rewrite <-!app_assoc.
  erewrite bind_Ok by (apply read_exact_app; by rewrite length_u32_to_le).
  rewrite from_u32_to_le by done.
  erewrite bind_Ok by (by apply read_exact_z_app).
  unfold from_utf8. rewrite Hu. erewrite bind_Ok by done.
  erewrite bind_Ok by (apply read_exact_app; by rewrite length_u64_to_le).
  rewrite from_u64_to_le by done. by destruct e.
Qed.

Lemma read_index_entries_app fuel index acc s :
  Forall index_entry_ok index → length index ≤ fuel →
  read_index_entries fuel (Z.of_nat (length index)) acc (index_bytes index ++ s)
  = (Ok (acc ++ index), s).
Proof.
  intros Hok. revert fuel acc.
  induction Hok as [|e index He _ IH]; intros fuel acc Hf; cbn [length] in *.
  - rewrite app_nil_r. by destruct fuel.
  - destruct fuel as [|fuel]; [lia|]. cbn [read_index_entries].
    rewrite decide_False by lia. rewrite index_bytes_cons, <-app_assoc.
    erewrite bind_Ok by (by apply read_index_entry_app).
    replace (Z.of_nat (S (length index)) - 1)%Z with (Z.of_nat (length index)) by lia.
    rewrite IH by lia. unfold index_add. rewrite <-app_assoc. by destruct e.
Qed.

Lemma index_sorted_sorted index : sorted index → index_sorted index = true.
Proof.
  induction 1 as [|e index Hs IH Hall]; [done|].
  destruct index as [|e' index]; [done|]. change (bool_decide (str_lt (key e) (key e')) &&
    index_sorted (e' :: index) = true). rewrite IH, andb_true_r.
  apply bool_decide_eq_true. by inversion Hall.
Qed.

Lemma index_sorted_spec index : index_sorted index = true → sorted index.
Proof.
  intros H. apply Sorted_StronglySorted.
  { intros a b c. apply str_lt_trans. }
  induction index as [|e index IH]; [constructor|].
  destruct index as [|e' index]; [repeat constructor|].
  change (bool_decide (str_lt (key e) (key e')) &&
    index_sorted (e' :: index) = true) in H.
  apply andb_true_iff in H as [H1%bool_decide_eq_true H2].
  constructor; [auto|by constructor].
Qed.

Lemma read_index_app start index s :
  Forall index_entry_ok index → sorted index →
  (0 ≤ start)%Z → (start + Z.of_nat (length (index_bytes index)) ≤ u64_max)%Z →
  (Z.of_nat (length index) * 32 ≤ i64_max)%Z →
  read_index start (Z.of_nat (length (index_bytes index)))
    (Z.of_nat (length index)) (index_bytes index ++ s) = (Ok index, s).
Proof.
  intros Hok Hs H0 Hl Hc. unfold read_index. erewrite bind_Ok by done.
  rewrite checked_add_u64_Some by done. erewrite bind_Ok by done.
  unfold with_capacity_ok. rewrite bool_decide_true by done. cbn [negb].
  pose proof (length_index_bytes index).
  erewrite bind_Ok by (apply read_index_entries_app; [done|rewrite length_app; lia]).
  erewrite bind_Ok by done. cbn [app].
  rewrite decide_False by (rewrite length_app; lia).
  by rewrite index_sorted_sorted.
Qed.

(** * Properties *)

(** The binary search of a sorted index returns the offset stored for the
    key when the key is there, and nothing otherwise. *)
Theorem index_find_correct index k :
  sorted index →
  ∃ o, index_find index k = Ok o ∧
    ∀ x, o = Some x ↔ {| key := k; offset := x |} ∈ index.
Proof.
  intros Hs. exists (assoc index k). split; [by apply index_find_assoc|].
  intros x. by apply assoc_Some.
Qed.

Lemma index_find_correct_witness :
  let index := [{| key := lit "a"; offset := 45 |}; {| key := lit "b"; offset := 70 |};
                {| key := lit "d"; offset := 90 |}] in
  ∃ o, index_find index (lit "b") = Ok o ∧
    ∀ x, o = Some x ↔ {| key := lit "b"; offset := x |} ∈ index.
Proof. apply index_find_correct. apply index_sorted_spec. vm_compute. reflexivity. Defined.

(** The index section is read back entry by entry, and the reader
    accepts it wherever it lies in the file. *)
Theorem index_round_trip start index s :
  Forall index_entry_ok index → sorted index →
  (0 ≤ start)%Z → (start + Z.of_nat (length (index_bytes index)) ≤ u64_max)%Z →
  (Z.of_nat (length index) * 32 ≤ i64_max)%Z →
  ∃ b, write_index index = Ok (b, Z.of_nat (length b)) ∧
    read_index start (Z.of_nat (length b)) (Z.of_nat (length index)) (b ++ s)
    = (Ok index, s).
Proof.
  intros Hok Hs H0 Hl Hc. exists (index_bytes index).
  eauto using write_index_ok, read_index_app.
Qed.

Lemma index_round_trip_witness :
  let index := [{| key := lit "a"; offset := 45 |}; {| key := lit "b"; offset := 70 |}] in
  ∃ b, write_index index = Ok (b, Z.of_nat (length b)) ∧
    read_index 100 (Z.of_nat (length b)) (Z.of_nat (length index)) (b ++ [])
    = (Ok index, []).
Proof.
  apply index_round_trip.
  - repeat constructor; vm_compute; intuition congruence.
  - apply index_sorted_spec. vm_compute. reflexivity.
  - lia.
  - vm_compute. congruence.
  - vm_compute. congruence.
Defined.
