(* ===== verification/SSTable.v ===== *)
(** [src/lsm/sstable/{writer,reader,mod}.rs]: SSTable files.

    The directory of a database is a map from file names to contents. A
    [BufWriter] is modelled by its flushed effect: it writes to the file in
    order, also when it is dropped after an error. *)

From S2P Require Import Prelude Bytes Float LogRecord Format Bloom Index.

(** * Files *)

Abbreviation FS := (gmap bytes bytes).

Definition not_found : io_error := IoError NotFound "entity not found".

(** [File::create]: an empty file, whatever was there. *)
Definition fs_create (path : bytes) : M FS () := modify (λ fs, <[path := []]> fs).

(** [write_all] at the end of the file. *)
Definition fs_append (path b : bytes) : M FS () :=
  modify (λ fs, alter (λ c, c ++ b) path fs).

(** [seek(SeekFrom::Start(0))] and [write_all]. *)
Definition fs_overwrite (path b : bytes) : M FS () :=
  modify (λ fs, alter (λ c, b ++ drop (length b) c) path fs).

(** [File::open], giving the contents. *)
Definition fs_open (path : bytes) : M FS bytes :=
  fs ← get; lift (ok_or not_found (fs !! path)).

(** [fs::remove_file]. *)
Definition fs_remove (path : bytes) : M FS () :=
  fs_open path;; modify (λ fs, delete path fs).

(** Run a program on a value of its own, such as a reader or a filter. *)
Definition run_on {S A} (m : M S A) (s : S) : res (A * S) :=
  match m s with
  | (Ok a, s') => Ok (a, s')
  | (Err e, _) => Err e
  | (Panic p, _) => Panic p
  end.

(** * [writer.rs] *)

Definition BLOOM_FALSE_POSITIVE_RATE `{F64Math} : f64 := f64_of_decimal 1 (-2).
Definition STREAMING_EXPECTED_ITEMS : nat := 1024.

Definition empty_header : Header :=
  {| index_offset := 0; index_len := 0; entry_count := 0;
     bloom_offset := 0; bloom_len := 0 |}.

Definition offset_overflow : io_error := invalid_data "SSTable offset overflow".

(** [writer::create]. *)
Definition writer_create (path : bytes) : M FS () :=
  fs_create path;; fs_append path (write_header empty_header).

Section writer.
Context `{F64Text} `{F64Math} `{Xxh3}.

(** The loop of [write] over the entries. *)
Fixpoint write_loop (path : bytes) (entries : list (str * Entry))
    (index : Index) (bloom : BloomFilter) (offset : Z) :
    M FS (Index * BloomFilter * Z) :=
  match entries with
  | [] => mret (index, bloom, offset)
  | (key, entry) :: entries' =>
      '(b, record_len) ← lift (write_record key entry);
      fs_append path b;;
      let index := index_add index key offset in
      '(_, bloom) ← lift (run_on (bloom_insert key) bloom);
      offset ← lift (ok_or offset_overflow (checked_add_u64 offset record_len));
      write_loop path entries' index bloom offset
  end.

(** What [write] and [StreamingWriter::finish] do after the records: the
    filter, the index, then the header over the placeholder. *)
Definition write_tail (path : bytes) (index : Index) (bloom : BloomFilter)
    (offset : Z) : M FS Index :=
  let bloom_offset := offset in
  let bloom_bytes := to_bytes bloom in
  fs_append path bloom_bytes;;
  offset ← lift (ok_or offset_overflow
                  (checked_add_u64 offset (Z.of_nat (length bloom_bytes))));
  let index_offset := offset in
  '(b, index_len) ← lift (write_index index);
  fs_append path b;;
  _ ← lift (ok_or offset_overflow (checked_add_u64 offset index_len));
  let header :=
    {| index_offset := index_offset; index_len := index_len;
       entry_count := Z.of_nat (length index); bloom_offset := bloom_offset;
       bloom_len := Z.of_nat (length bloom_bytes) |} in
  fs_overwrite path (write_header header);;
  mret index.

(** [writer::write]. *)
Definition writer_write (path : bytes) (entries : list (str * Entry)) : M FS Index :=
  fs_create path;;
  bloom ← lift (bloom_new (length entries) BLOOM_FALSE_POSITIVE_RATE);
  fs_append path (write_header empty_header);;
  '(index, bloom, offset) ← write_loop path entries [] bloom HEADER_SIZE;
  write_tail path index bloom offset.

Record StreamingWriter : Type := MkStreamingWriter {
  sw_path : bytes;
  sw_index : Index;
  sw_bloom_filter : BloomFilter;
  sw_offset : Z;
}.

(** [StreamingWriter::create]. *)
Definition streaming_create (path : bytes) : M FS StreamingWriter :=
  fs_create path;;
  fs_append path (write_header empty_header);;
  bloom ← lift (bloom_new STREAMING_EXPECTED_ITEMS BLOOM_FALSE_POSITIVE_RATE);
  mret {| sw_path := path; sw_index := []; sw_bloom_filter := bloom;
          sw_offset := HEADER_SIZE |}.

(** [StreamingWriter::write_entry]. *)
Definition streaming_write_entry (w : StreamingWriter) (k : str) (entry : Entry) :
    M FS StreamingWriter :=
  if match last (sw_index w) with
     | Some e => bool_decide (str_le k (key e))
     | None => false
     end
  then fail (invalid_input "SSTable entries must be sorted") else
  '(b, record_len) ← lift (write_record k entry);
  fs_append (sw_path w) b;;
  let index := index_add (sw_index w) k (sw_offset w) in
  '(_, bloom) ← lift (run_on (bloom_insert k) (sw_bloom_filter w));
  offset ← lift (ok_or offset_overflow (checked_add_u64 (sw_offset w) record_len));
  mret {| sw_path := sw_path w; sw_index := index; sw_bloom_filter := bloom;
          sw_offset := offset |}.

(** [StreamingWriter::finish]. *)
Definition streaming_finish (w : StreamingWriter) : M FS Index :=
  write_tail (sw_path w) (sw_index w) (sw_bloom_filter w) (sw_offset w).

End writer.

(** * [reader.rs] *)

(** [validate_header] on a file of [file_len] bytes. *)
Definition validate_header (file_len : Z) (header : Header) : res () :=
  index_end ← ok_or (invalid_data "SSTable index range overflows")
                    (checked_add_u64 (index_offset header) (index_len header));
  if decide (index_offset header < HEADER_SIZE)%Z
  then Err (invalid_data "invalid SSTable index offset") else
  if decide (file_len < index_end)%Z
  then Err (invalid_data "SSTable index exceeds file size")
  else Ok ().

Record SequentialReader : Type := MkSequentialReader {
  sr_rest : bytes; (** the file from the position of the reader on *)
  entries_read : Z;
  sr_entry_count : Z;
}.

(** [SequentialReader::open]. *)
Definition sequential_open (path : bytes) : M FS SequentialReader :=
  file ← fs_open path;
  '(header, _) ← lift (run_on read_header file);
  lift (validate_header (Z.of_nat (length file)) header);;
  mret {| sr_rest := drop (Z.to_nat HEADER_SIZE) file; entries_read := 0;
          sr_entry_count := entry_count header |}.

(** [load_index]. *)
Definition load_index (path : bytes) : M FS Index :=
  file ← fs_open path;
  '(header, _) ← lift (run_on read_header file);
  lift (validate_header (Z.of_nat (length file)) header);;
  '(index, _) ← lift (run_on
    (read_index (index_offset header) (index_len header) (entry_count header))
    (drop (Z.to_nat (index_offset header)) file));
  mret index.

(** [load_bloom_filter]. *)
Definition load_bloom_filter (path : bytes) : M FS BloomFilter :=
  file ← fs_open path;
  '(header, _) ← lift (run_on read_header file);
  if decide (bloom_len header = 0)%Z
  then fail (invalid_data "SSTable does not contain a persisted Bloom filter") else
  bloom_end ← lift (ok_or (invalid_data "Bloom filter offset overflow")
    (checked_add_u64 (bloom_offset header) (bloom_len header)));
  if decide (bloom_offset header < HEADER_SIZE ∨ Z.of_nat (length file) < bloom_end)%Z
  then fail (invalid_data "Bloom filter points outside the SSTable") else
  '(b, _) ← lift (run_on (read_exact_z (bloom_len header))
                         (drop (Z.to_nat (bloom_offset header)) file));
  lift (bloom_from_bytes b).

Section reader.
Context `{F64Text} `{F64Math} `{Xxh3}.

(** [SequentialReader::next]. *)
Definition sequential_next : M SequentialReader (option (str * Entry)) := λ r,
  if decide (sr_entry_count r ≤ entries_read r)%Z then (Ok None, r) else
  match read_record (sr_rest r) with
  | (Ok (Some record), rest) =>
      (Ok (Some record),
       {| sr_rest := rest; entries_read := entries_read r + 1;
          sr_entry_count := sr_entry_count r |})
  | (Ok None, _) =>
      (Err (IoError UnexpectedEof "SSTable data ended before entry_count"), r)
  | (Err e, _) => (Err e, r)
  | (Panic p, _) => (Panic p, r)
  end.

(** [read_entry] of [reader.rs]. *)
Definition reader_read_entry (path : bytes) (index : Index) (k : str) :
    M FS (option Entry) :=
  o ← lift (index_find index k);
  match o with
  | None => mret None
  | Some offset =>
      file ← fs_open path;
      '(record, _) ← lift (run_on read_record (drop (Z.to_nat offset) file));
      match record with
      | Some (_, entry) => mret (Some entry)
      | None => mret None
      end
  end.

(** The loop of [load_entries_sequential]. *)
Fixpoint load_loop (fuel : nat) (acc : list (str * Entry)) :
    M SequentialReader (list (str * Entry)) :=
  match fuel with
  | O => panic "out of fuel"
  | S fuel' =>
      o ← sequential_next;
      match o with
      | None => mret acc
      | Some entry => load_loop fuel' (acc ++ [entry])
      end
  end.

Definition load_entries_sequential (path : bytes) : M FS (list (str * Entry)) :=
  reader ← sequential_open path;
  '(entries, _) ← lift (run_on (load_loop (S (length (sr_rest reader))) []) reader);
  mret entries.

(** * [mod.rs] *)

Record SSTable : Type := MkSSTable {
  file_name : bytes;
  index : Index;
  bloom_filter : BloomFilter;
}.

(** [SSTable::new]. *)
Definition sstable_new (path : bytes) : M FS SSTable :=
  writer_create path;;
  _ ← fs_open path;
  bloom ← lift (bloom_new 1 BLOOM_FALSE_POSITIVE_RATE);
  mret {| file_name := path; index := []; bloom_filter := bloom |}.

(** [SSTable::from_parts]. *)
Definition sstable_from_parts (path : bytes) (i : Index) : M FS SSTable :=
  bloom ← load_bloom_filter path;
  _ ← fs_open path;
  mret {| file_name := path; index := i; bloom_filter := bloom |}.

(** [SSTable::open]. *)
Definition sstable_open (path : bytes) : M FS SSTable :=
  bloom ← load_bloom_filter path;
  i ← load_index path;
  _ ← fs_open path;
  mret {| file_name := path; index := i; bloom_filter := bloom |}.

(** [SSTable::write_entries]. *)
Definition sstable_write_entries (t : SSTable) (entries : list (str * Entry)) :
    M FS SSTable :=
  i ← writer_write (file_name t) entries;
  bloom ← load_bloom_filter (file_name t);
  mret {| file_name := file_name t; index := i; bloom_filter := bloom |}.

(** [SSTable::read_entry]. *)
Definition sstable_read_entry (t : SSTable) (k : str) : M FS (option Entry) :=
  b ← lift (may_contain (bloom_filter t) k);
  if negb b then mret None else reader_read_entry (file_name t) (index t) k.

(** [SSTable::load_entries]: the pairs collected in a map, later ones win. *)
Definition sstable_load_entries (t : SSTable) : M FS (gmap str Entry) :=
  entries ← load_entries_sequential (file_name t);
  mret (foldl (λ m '(k, e), <[k := e]> m) ∅ entries).

End reader.
