(* ===== verification/SSTableSpec.v ===== *)
(** What SSTable files hold: the layout that both writers produce and that
    every reader of [SSTable.v] takes apart again. *)

From S2P Require Import Prelude Bytes Float LogRecord Format Bloom Index SSTable.

(** * Layout *)

Section layout.
Context `{F64Text}.

Abbreviation Entries := (list (str * Entry)).

Definition data_bytes (es : Entries) : bytes :=
  mjoin ((λ p, record_bytes p.1 p.2) <$> es).

(** The index of [es] when the first record is at [off]. *)
Fixpoint index_of (off : Z) (es : Entries) : Index :=
  match es with
  | [] => []
  | (k, e) :: es' =>
      {| key := k; offset := off |} ::
      index_of (off + Z.of_nat (length (record_bytes k e))) es'
  end.

Definition layout_header (es : Entries) (bloom : BloomFilter) : Header :=
  let boff := (HEADER_SIZE + Z.of_nat (length (data_bytes es)))%Z in
  let blen := Z.of_nat (length (to_bytes bloom)) in
  {| index_offset := boff + blen;
     index_len := Z.of_nat (length (index_bytes (index_of HEADER_SIZE es)));
     entry_count := Z.of_nat (length es);
     bloom_offset := boff; bloom_len := blen |}.

Definition file_of (es : Entries) (bloom : BloomFilter) : bytes :=
  write_header (layout_header es bloom) ++ data_bytes es ++ to_bytes bloom ++
  index_bytes (index_of HEADER_SIZE es).

(** * Tables *)

Definition entries_ok (es : Entries) : Prop :=
  Forall (λ p, key_ok p.1 ∧ entry_ok p.2) es.

Definition es_sorted (es : Entries) : Prop :=
  StronglySorted (λ a b, str_lt a.1 b.1) es.

(** The bytes an entry takes: its record and its index entry. *)
Definition entry_weight (p : str * Entry) : nat :=
  length (record_bytes p.1 p.2) + 12 + length p.1.
Definition weight (es : Entries) : nat := sum_list_with entry_weight es.

(** Far from the end of [u64], so that no offset overflows. *)
Definition fits (es : Entries) : Prop := (Z.of_nat (weight es) ≤ 2 ^ 60)%Z.

(** The entry stored under a key. *)
Fixpoint es_lookup (es : Entries) (k : str) : option Entry :=
  match es with
  | [] => None
  | (k', e) :: es' => if decide (k' = k) then Some e else es_lookup es' k
  end.

End layout.

Abbreviation Entries := (list (str * Entry)).

Section table.
Context `{F64Text} `{Xxh3}.

Record table_file (c : bytes) (es : Entries) (bloom : BloomFilter) : Prop := {
  tf_layout : c = file_of es bloom;
  tf_ok : entries_ok es;
  tf_sorted : es_sorted es;
  tf_fits : fits es;
  tf_bloom : bloom_wf bloom;
  tf_bits : (Z.of_nat (length (bits bloom)) ≤ 2 ^ 60)%Z;
  tf_covers p : p ∈ es → bloom_has bloom p.1;
}.

(** [t] is an open table whose file holds the entries [es]. *)
Definition sstable_ok (fs : FS) (t : SSTable) (es : Entries) : Prop :=
  ∃ c, fs !! file_name t = Some c ∧ table_file c es (bloom_filter t) ∧
    index t = index_of HEADER_SIZE es.

End table.

(** * Sizes *)

Section sizes.
Context `{F64Text}.

Lemma data_bytes_cons k e es :
  data_bytes ((k, e) :: es) = record_bytes k e ++ data_bytes es.
Proof. reflexivity. Qed.

Lemma data_bytes_app es es' :
  data_bytes (es ++ es') = data_bytes es ++ data_bytes es'.
Proof. unfold data_bytes. by rewrite fmap_app, join_app. Qed.

Lemma length_index_of off es : length (index_of off es) = length es.
Proof. revert off. induction es as [|[k e] es IH]; intros off; cbn; auto. Qed.

Lemma length_index_bytes_of off es :
  length (index_bytes (index_of off es)) + length (data_bytes es) = weight es.
Proof.
  revert off. induction es as [|[k e] es IH]; intros off; [done|].
  cbn [index_of]. rewrite index_bytes_cons, length_app, length_index_entry_bytes.
  rewrite data_bytes_cons, length_app. cbn [Index.key].
  change (weight ((k, e) :: es)) with (entry_weight (k, e) + weight es).
  unfold entry_weight. cbn [fst snd]. specialize (IH (off + Z.of_nat (length (record_bytes k e)))%Z). lia.
Qed.

Lemma weight_length es : 22 * length es ≤ weight es.
Proof.
  induction es as [|[k e] es IH]; [done|].
  change (weight ((k, e) :: es)) with (entry_weight (k, e) + weight es).
  unfold entry_weight. cbn [fst snd length].
  assert (10 ≤ length (record_bytes k e)); [|lia].
  unfold record_bytes. destruct (entry_parts e) as [[a b] c]. cbn.
  rewrite !length_app. autorewrite with kvraft. lia.
Qed.

Lemma length_to_bytes bloom : length (to_bytes bloom) = 25 + length (bits bloom).
Proof. unfold to_bytes. rewrite !length_app. by autorewrite with kvraft. Qed.

Lemma length_file_of es bloom :
  length (file_of es bloom) = 70 + weight es + length (bits bloom).
Proof.
  unfold file_of. rewrite !length_app, length_write_header, length_to_bytes.
  pose proof (length_index_bytes_of HEADER_SIZE es). lia.
Qed.

Lemma index_of_app off es es' :
  index_of off (es ++ es') =
  index_of off es ++ index_of (off + Z.of_nat (length (data_bytes es))) es'.
Proof.
  revert off. induction es as [|[k e] es IH]; intros off; cbn [app index_of].
  - f_equal. unfold data_bytes. cbn. lia.
  - rewrite IH, data_bytes_cons, length_app. do 3 f_equal. lia.
Qed.

Lemma entries_ok_app es es' :
  entries_ok (es ++ es') ↔ entries_ok es ∧ entries_ok es'.
Proof. apply Forall_app. Qed.

(** The keys of the index are those of the entries. *)
Lemma index_of_keys off es : Index.key <$> index_of off es = es.*1.
Proof. revert off. induction es as [|[k e] es IH]; intros; [done|]. cbn. by rewrite IH. Qed.

Lemma index_of_sorted off es : es_sorted es → sorted (index_of off es).
Proof.
  intros Hs. revert off. induction Hs as [|[k e] es Hs IH Hall]; intros off; [constructor|].
  cbn. constructor; [apply IH|].
  rewrite <-Forall_fmap with (f := Index.key) (P := λ k', str_lt k k').
  rewrite index_of_keys, Forall_fmap. exact Hall.
Qed.

Lemma index_of_ok off es :
  entries_ok es → (0 ≤ off)%Z →
  (off + Z.of_nat (length (data_bytes es)) ≤ u64_max)%Z →
  Forall index_entry_ok (index_of off es).
Proof.
  intros Hok. revert off. induction Hok as [|[k e] es [Hk _] _ IH]; intros off H0 Hl;
    [constructor|].
  rewrite data_bytes_cons, length_app in Hl. unfold u64_max in *. cbn [index_of].
  constructor; [|apply IH; lia].
  split; [done|]. unfold in_u64, in_u. cbn. lia.
Qed.

(** The offset the index gives for a key is that of its record. *)
Lemma assoc_index_of off es k o :
  assoc (index_of off es) k = Some o →
  ∃ es1 e es2, es = es1 ++ (k, e) :: es2 ∧
    o = (off + Z.of_nat (length (data_bytes es1)))%Z ∧
    es_lookup es k = Some e.
Proof.
  revert off. induction es as [|[k' e'] es IH]; intros off; [done|]. cbn.
  case_decide as E.
  - intros [= <-]. subst k'. exists [], e', es. split_and!; [done| |done].
    unfold data_bytes. cbn. lia.
  - intros (es1 & e & es2 & -> & -> & Hl)%IH.
    exists ((k', e') :: es1), e, es2. split_and!; [done| |done].
    rewrite data_bytes_cons, length_app. lia.
Qed.

Lemma assoc_index_of_None off es k :
  assoc (index_of off es) k = None → es_lookup es k = None.
Proof.
  revert off. induction es as [|[k' e'] es IH]; intros off; [done|]. cbn.
  case_decide; [done|]. apply IH.
Qed.

End sizes.

Lemma es_lookup_elem es k e : es_lookup es k = Some e → (k, e) ∈ es.
Proof.
  induction es as [|[k' e'] es IH]; [done|]. cbn. case_decide; [|set_solver].
  intros [= <-]. subst. by left.
Qed.

Lemma es_lookup_sorted es k e :
  es_sorted es → es_lookup es k = Some e ↔ (k, e) ∈ es.
Proof.
  intros Hs. split; [apply es_lookup_elem|].
  induction Hs as [|[k' e'] es Hs IH Hall]; [set_solver|].
  rewrite elem_of_cons. cbn. intros [[= -> ->]|Hin]; [by rewrite decide_True|].
  rewrite decide_False; [auto|]. intros ->.
  rewrite Forall_forall in Hall. by apply Hall, str_lt_irrefl in Hin.
Qed.

(** * The writers *)

Lemma fs_append_at (fs : FS) path c b :
  fs !! path = Some c → fs_append path b fs = (Ok (), <[path := c ++ b]> fs).
Proof.
  intros E. unfold fs_append. exec. f_equal. apply map_eq. intros p.
  rewrite lookup_alter. case_decide as D.
  - subst. by rewrite E, lookup_insert_eq.
  - by rewrite lookup_insert_ne.
Qed.

Lemma fs_overwrite_at (fs : FS) path c b :
  fs !! path = Some c →
  fs_overwrite path b fs = (Ok (), <[path := b ++ drop (length b) c]> fs).
Proof.
  intros E. unfold fs_overwrite. exec. f_equal. apply map_eq. intros p.
  rewrite lookup_alter. case_decide as D.
  - subst. by rewrite E, lookup_insert_eq.
  - by rewrite lookup_insert_ne.
Qed.

Lemma fs_open_at (fs : FS) path c : fs !! path = Some c → fs_open path fs = (Ok c, fs).
Proof. intros E. unfold fs_open. exec. by rewrite E. Qed.

Section writers.
Context `{HT : F64Text} `{HM : F64Math} `{HX : Xxh3}
  `{!F64TextLaws HT} `{!F64MathLaws HM} `{!BloomDims}.

Definition covers (bloom : BloomFilter) (es : Entries) : Prop :=
  ∀ p, p ∈ es → bloom_has bloom p.1.

(** One more entry: what both writers do. *)
Lemma write_step k e bloom off :
  key_ok k → entry_ok e → bloom_wf bloom →
  (off + Z.of_nat (length (record_bytes k e)) ≤ u64_max)%Z →
  ∃ bloom', write_record k e =
      Ok (record_bytes k e, Z.of_nat (length (record_bytes k e))) ∧
    run_on (bloom_insert k) bloom = Ok ((), bloom') ∧
    checked_add_u64 off (Z.of_nat (length (record_bytes k e))) =
      Some (off + Z.of_nat (length (record_bytes k e)))%Z ∧
    bloom_wf bloom' ∧ bloom_le bloom bloom' ∧ bloom_has bloom' k.
Proof using All.
  intros Hk He Hb Ho.
  destruct (bloom_insert_spec bloom k Hb) as (bloom' & E & Hb' & L & Hh).
  exists bloom'. split_and!; auto using write_record_ok, checked_add_u64_Some.
  unfold run_on. by rewrite E.
Qed.

Lemma write_loop_spec path es idx bloom off fs c :
  entries_ok es → bloom_wf bloom → fs !! path = Some c →
  (off + Z.of_nat (length (data_bytes es)) ≤ u64_max)%Z →
  ∃ bloom',
    write_loop path es idx bloom off fs =
      (Ok (idx ++ index_of off es, bloom',
           off + Z.of_nat (length (data_bytes es)))%Z,
       <[path := c ++ data_bytes es]> fs) ∧
    bloom_wf bloom' ∧ bloom_le bloom bloom' ∧ covers bloom' es.
Proof using All.
  intros Hok. revert idx bloom off fs c.
  induction Hok as [|[k e] es [Hk He] _ IH]; intros idx bloom off fs c Hb Hc Ho.
  - exists bloom. cbn [write_loop index_of]. unfold data_bytes. cbn.
    rewrite !app_nil_r, Z.add_0_r, insert_id by done.
    split_and!; [done..|]. intros p Hp. by apply not_elem_of_nil in Hp.
  - cbn [fst snd] in Hk, He. rewrite data_bytes_cons, length_app in *.
    destruct (write_step k e bloom off Hk He Hb) as (b1 & E1 & E2 & E3 & W1 & L1 & H1);
      [unfold u64_max in *; lia|].
    destruct (IH (index_add idx k off) b1 (off + Z.of_nat (length (record_bytes k e)))%Z
      (<[path := c ++ record_bytes k e]> fs) (c ++ record_bytes k e) W1)
      as (b2 & E4 & W2 & L2 & C2); [by rewrite lookup_insert_eq|lia|].
    exists b2. split_and!; [|done|by transitivity b1|].
    + cbn [write_loop]. erewrite bind_Ok by (unfold lift; by rewrite E1). cbn beta iota.
      erewrite bind_Ok by (by apply fs_append_at).
      erewrite bind_Ok by (unfold lift; by rewrite E2). cbn beta iota.
      erewrite bind_Ok by (unfold lift; by rewrite E3).
      rewrite E4. rewrite insert_insert_eq. unfold index_add.
      rewrite <-!app_assoc. cbn [index_of app].
      do 3 f_equal. lia.
    + intros p [->|Hp]%elem_of_cons; [|by apply C2].
      exact (bloom_has_le b1 b2 k W1 L2 H1).
Qed.

(** Closing a file whose placeholder header and records are written. *)
Lemma write_tail_spec path es bloom fs :
  entries_ok es → fits es → bloom_wf bloom →
  (Z.of_nat (length (bits bloom)) ≤ 2 ^ 60)%Z →
  fs !! path = Some (write_header empty_header ++ data_bytes es) →
  write_tail path (index_of HEADER_SIZE es) bloom
    (HEADER_SIZE + Z.of_nat (length (data_bytes es))) fs
  = (Ok (index_of HEADER_SIZE es), <[path := file_of es bloom]> fs).
Proof using All.
  intros Hok Hf Hb Hl Hc. unfold fits in Hf.
  pose proof (length_index_bytes_of HEADER_SIZE es) as Hw.
  pose proof (length_to_bytes bloom) as Ht.
  unfold write_tail.
  erewrite bind_Ok by (by apply fs_append_at).
  rewrite checked_add_u64_Some by (unfold u64_max, HEADER_SIZE in *; lia).
  erewrite bind_Ok by done.
  rewrite write_index_ok
    by (apply index_of_ok; unfold u64_max, HEADER_SIZE in *; done || lia).
  erewrite bind_Ok by done. cbn beta iota.
  erewrite bind_Ok by (apply fs_append_at; apply lookup_insert_eq).
  rewrite checked_add_u64_Some by (unfold u64_max, HEADER_SIZE in *; lia).
  erewrite bind_Ok by done.
  erewrite bind_Ok by (apply fs_overwrite_at; apply lookup_insert_eq).
  rewrite !insert_insert_eq. unfold mret, M_ret. do 3 f_equal.
  unfold file_of, layout_header. rewrite length_index_of, <-Z.add_assoc.
  rewrite length_write_header, <-!app_assoc.
  by rewrite drop_app_length' by (by rewrite length_write_header).
Qed.

Lemma bloom_size_bound n bloom :
  bloom_wf bloom → (num_bits bloom ≤ 16 * Z.max (Z.of_nat n) 1)%Z →
  (Z.of_nat (length (bits bloom)) ≤ 2 * Z.max (Z.of_nat n) 1 + 1)%Z.
Proof using Type.
  intros (Hn & _ & _ & ->) Hb.
  destruct (div_ceil_bound (num_bits bloom) 8); lia.
Qed.

(** [writer::write]: the whole file, its index, and a filter that covers it. *)
Lemma writer_write_spec path es fs :
  entries_ok es → es_sorted es → fits es →
  ∃ bloom, writer_write path es fs =
      (Ok (index_of HEADER_SIZE es), <[path := file_of es bloom]> fs) ∧
    table_file (file_of es bloom) es bloom.
Proof using All.
  intros Hok Hs Hf. pose proof (weight_length es) as Hw.
  destruct (bloom_new_ok (length es)) as (b0 & E0 & W0 & N0).
  set (c0 := write_header empty_header).
  pose proof (length_index_bytes_of HEADER_SIZE es) as Hlen. unfold fits in Hf.
  destruct (write_loop_spec path es [] b0 HEADER_SIZE (<[path := c0]> fs) c0 Hok W0)
    as (b & E1 & W & L & C); [apply lookup_insert_eq|unfold u64_max, HEADER_SIZE in *; lia|].
  assert (Hbits : (Z.of_nat (length (bits b)) ≤ 2 ^ 60)%Z).
  { pose proof (bits_bound (length es)) as Hb. destruct L as (Lb & _ & _).
    pose proof (bloom_size_bound (length es) b W) as Hs'. rewrite Lb, N0 in Hs'. lia. }
  exists b. split; [|by split].
  unfold writer_write. erewrite bind_Ok by done.
  unfold BLOOM_FALSE_POSITIVE_RATE. rewrite E0. erewrite bind_Ok by done.
  erewrite bind_Ok by (apply fs_append_at; apply lookup_insert_eq).
  rewrite insert_insert_eq. cbn [app]. fold c0.
  erewrite bind_Ok by exact E1. cbn beta iota.
  rewrite app_nil_l. rewrite write_tail_spec by
    (done || rewrite insert_insert_eq; apply lookup_insert_eq).
  by rewrite !insert_insert_eq.
Qed.

End writers.

(** * The readers *)

Section readers.
Context `{HT : F64Text} `{HM : F64Math} `{HX : Xxh3} `{!F64TextLaws HT}.

Lemma layout_header_ok es bloom :
  fits es → (Z.of_nat (length (bits bloom)) ≤ 2 ^ 60)%Z →
  header_ok (layout_header es bloom).
Proof using HT.
  intros Hf Hl. unfold fits in Hf.
  pose proof (length_index_bytes_of HEADER_SIZE es).
  pose proof (weight_length es). pose proof (length_to_bytes bloom).
  unfold header_ok, layout_header, in_u64, in_u, HEADER_SIZE in *.
  cbn [index_offset index_len entry_count bloom_offset bloom_len]. lia.
Qed.

Section one_table.
Context (c : bytes) (es : Entries) (bloom : BloomFilter).
Hypothesis (Htf : table_file c es bloom).

Lemma read_header_table :
  ∃ s, run_on read_header c = Ok (layout_header es bloom, s).
Proof using All.
  destruct Htf as [-> ? ? ? ? ? ?]. unfold run_on, file_of. eexists.
  by rewrite read_write_header by (by apply layout_header_ok).
Qed.

Lemma validate_header_table :
  validate_header (Z.of_nat (length c)) (layout_header es bloom) = Ok ().
Proof using All.
  destruct Htf as [-> ? ? Hf ? ? ?]. unfold validate_header, layout_header.
  cbn [index_offset index_len].
  unfold fits in Hf. pose proof (length_index_bytes_of HEADER_SIZE es).
  pose proof (length_to_bytes bloom).
  rewrite length_file_of, checked_add_u64_Some
    by (unfold u64_max, HEADER_SIZE in *; lia).
  cbn [ok_or mbind res_bind].
  rewrite !decide_False by (unfold HEADER_SIZE in *; lia). done.
Qed.

(** The file from the first record on, and from the index on. *)
Lemma drop_header_table :
  drop (Z.to_nat HEADER_SIZE) c =
  data_bytes es ++ to_bytes bloom ++ index_bytes (index_of HEADER_SIZE es).
Proof using All.
  destruct Htf as [-> ? ? ? ? ? ?]. unfold file_of.
  by rewrite drop_app_length' by (by rewrite length_write_header).
Qed.

Lemma drop_bloom_table :
  drop (Z.to_nat (bloom_offset (layout_header es bloom))) c =
  to_bytes bloom ++ index_bytes (index_of HEADER_SIZE es).
Proof using All.
  destruct Htf as [-> ? ? ? ? ? ?]. unfold file_of. rewrite app_assoc.
  rewrite drop_app_length'; [done|].
  rewrite length_app, length_write_header.
  cbn [bloom_offset layout_header]. unfold HEADER_SIZE. lia.
Qed.

Lemma drop_index_table :
  drop (Z.to_nat (index_offset (layout_header es bloom))) c =
  index_bytes (index_of HEADER_SIZE es).
Proof using All.
  destruct Htf as [-> ? ? ? ? ? ?]. unfold file_of. rewrite !app_assoc.
  rewrite drop_app_length'; [done|].
  rewrite !length_app, length_write_header.
  cbn [index_offset layout_header]. unfold HEADER_SIZE. lia.
Qed.

Context (fs : FS) (path : bytes).
Hypothesis (Hc : fs !! path = Some c).

Lemma load_bloom_filter_table : load_bloom_filter path fs = (Ok bloom, fs).
Proof using All.
  unfold load_bloom_filter. erewrite bind_Ok by (by apply fs_open_at).
  destruct read_header_table as (s & E). rewrite E. erewrite bind_Ok by done. cbn beta iota.
  destruct Htf as [El ? ? Hf Hw Hl ?]. unfold fits in Hf.
  pose proof (length_index_bytes_of HEADER_SIZE es).
  pose proof (length_to_bytes bloom) as Ht.
  rewrite drop_bloom_table. cbn [bloom_offset bloom_len layout_header].
  rewrite decide_False by lia.
  rewrite checked_add_u64_Some by (unfold u64_max, HEADER_SIZE in *; lia).
  erewrite bind_Ok by done.
  rewrite decide_False
    by (rewrite El, length_file_of; unfold HEADER_SIZE in *; lia). unfold run_on.
  rewrite read_exact_z_app by done. erewrite bind_Ok by done. cbn beta iota.
  unfold lift. rewrite bloom_round_trip_bytes by (done || unfold u64_max; lia). done.
Qed.

Lemma load_index_table : load_index path fs = (Ok (index_of HEADER_SIZE es), fs).
Proof using All.
  unfold load_index. erewrite bind_Ok by (by apply fs_open_at).
  destruct read_header_table as (s & E). rewrite E. erewrite bind_Ok by done. cbn beta iota.
  erewrite bind_Ok by (unfold lift; by rewrite validate_header_table).
  rewrite drop_index_table.
  destruct Htf as [El ? ? Hf Hw Hl ?]. unfold fits in Hf.
  pose proof (length_index_bytes_of HEADER_SIZE es).
  pose proof (length_to_bytes bloom) as Ht. pose proof (weight_length es).
  unfold run_on. cbn [index_offset index_len entry_count layout_header].
  rewrite <-(length_index_of HEADER_SIZE es) at 1.
  rewrite <-(app_nil_r (index_bytes (index_of HEADER_SIZE es))) at 2.
  rewrite read_index_app; [done|..].
  - apply index_of_ok; unfold u64_max, HEADER_SIZE in *; done || lia.
  - by apply index_of_sorted.
  - unfold HEADER_SIZE. lia.
  - unfold u64_max, HEADER_SIZE in *. lia.
  - rewrite length_index_of. unfold i64_max. lia.
Qed.

Lemma sequential_open_table :
  sequential_open path fs =
  (Ok {| sr_rest := data_bytes es ++ to_bytes bloom ++
                    index_bytes (index_of HEADER_SIZE es);
         entries_read := 0; sr_entry_count := Z.of_nat (length es) |}, fs).
Proof using All.
  unfold sequential_open. erewrite bind_Ok by (by apply fs_open_at).
  destruct read_header_table as (s & E). rewrite E. erewrite bind_Ok by done. cbn beta iota.
  erewrite bind_Ok by (unfold lift; by rewrite validate_header_table).
  by rewrite drop_header_table.
Qed.

(** A point read through the index alone. *)
Lemma reader_read_entry_table k :
  reader_read_entry path (index_of HEADER_SIZE es) k fs = (Ok (es_lookup es k), fs).
Proof using All.
  unfold reader_read_entry.
  pose proof (tf_sorted _ _ _ Htf) as Hs.
  rewrite index_find_assoc by (by apply index_of_sorted).
  destruct (assoc (index_of HEADER_SIZE es) k) as [o|] eqn:E.
  - erewrite bind_Ok by done. cbn beta iota. erewrite bind_Ok by (by apply fs_open_at).
    pose proof (tf_ok _ _ _ Htf) as Hok.
    apply assoc_index_of in E as (es1 & e & es2 & Ees & -> & ->).
    assert (Hd : drop (Z.to_nat (HEADER_SIZE + Z.of_nat (length (data_bytes es1)))) c =
      record_bytes k e ++ data_bytes es2 ++ to_bytes bloom ++
      index_bytes (index_of HEADER_SIZE es)).
    { rewrite Z2Nat.inj_add, Nat2Z.id, <-drop_drop by (unfold HEADER_SIZE; lia).
      rewrite drop_header_table, Ees at 1.
      rewrite data_bytes_app, data_bytes_cons, <-!app_assoc.
      by rewrite drop_app_length. }
    rewrite Hd. rewrite Ees in Hok. apply entries_ok_app in Hok as [_ Hok].
    inversion_clear Hok as [|? ? [Hk He] _]. unfold run_on.
    rewrite read_write_record by done. by erewrite bind_Ok by done.
  - erewrite bind_Ok by done. by rewrite (assoc_index_of_None _ _ _ E).
Qed.

End one_table.

(** One step of a sequential read over the records that are left. *)
Lemma sequential_next_cons k e s n m :
  key_ok k → entry_ok e → (n < m)%Z →
  sequential_next {| sr_rest := record_bytes k e ++ s; entries_read := n;
                     sr_entry_count := m |}
  = (Ok (Some (k, e)),
     {| sr_rest := s; entries_read := n + 1; sr_entry_count := m |}).
Proof using All.
  intros Hk He Hn. unfold sequential_next. cbn.
  rewrite decide_False by lia. by rewrite read_write_record.
Qed.

Lemma sequential_next_end s n m :
  (m ≤ n)%Z →
  sequential_next {| sr_rest := s; entries_read := n; sr_entry_count := m |}
  = (Ok None, {| sr_rest := s; entries_read := n; sr_entry_count := m |}).
Proof using Type. intros Hn. unfold sequential_next. cbn. by rewrite decide_True. Qed.

(** [SSTable::read_entry] answers exactly what the table holds: the filter
    never hides a key, and a false positive finds nothing. *)
Lemma sstable_read_entry_ok fs t es k :
  sstable_ok fs t es → sstable_read_entry t k fs = (Ok (es_lookup es k), fs).
Proof using All.
  intros (c & Hc & Htf & Hi). unfold sstable_read_entry.
  destruct (es_lookup es k) as [e|] eqn:E.
  - rewrite may_contain_has; [|by apply Htf|].
    + erewrite bind_Ok by done. cbn [negb]. rewrite Hi, <-E.
      by eapply reader_read_entry_table.
    + apply es_lookup_elem in E. exact (tf_covers _ _ _ Htf _ E).
  - destruct (may_contain_total (bloom_filter t) k) as (b & ->); [by apply Htf|].
    erewrite bind_Ok by done. destruct b; [|done]. cbn [negb].
    rewrite Hi, <-E. by eapply reader_read_entry_table.
Qed.

Lemma sstable_open_ok fs path c es bloom :
  fs !! path = Some c → table_file c es bloom →
  ∃ t, sstable_open path fs = (Ok t, fs) ∧ file_name t = path ∧
    bloom_filter t = bloom ∧ sstable_ok fs t es.
Proof using All.
  intros Hc Htf. eexists. unfold sstable_open.
  erewrite bind_Ok by (by eapply load_bloom_filter_table).
  erewrite bind_Ok by (by eapply load_index_table).
  erewrite bind_Ok by (by apply fs_open_at). split; [done|].
  split_and!; [done..|]. by exists c.
Qed.

End readers.

(** * Writing, reopening and scanning a whole table *)

Section whole.
Context `{HT : F64Text} `{HM : F64Math} `{HX : Xxh3}
  `{!F64TextLaws HT} `{!F64MathLaws HM} `{!BloomDims}.

Lemma sstable_new_ok path fs :
  ∃ t, sstable_new path fs = (Ok t, <[path := write_header empty_header]> fs) ∧
    file_name t = path.
Proof using All.
  destruct (bloom_new_ok 1) as (b0 & E0 & _).
  exists {| file_name := path; index := []; bloom_filter := b0 |}.
  split; [|reflexivity]. unfold sstable_new.
  erewrite bind_Ok; cycle 1.
  { unfold writer_create. erewrite bind_Ok by done.
    erewrite fs_append_at by apply lookup_insert_eq. by rewrite insert_insert_eq. }
  erewrite bind_Ok by (apply fs_open_at; apply lookup_insert_eq).
  unfold BLOOM_FALSE_POSITIVE_RATE. rewrite E0. by erewrite bind_Ok by done.
Qed.

Lemma sstable_write_entries_ok t es fs :
  entries_ok es → es_sorted es → fits es →
  ∃ t' c, sstable_write_entries t es fs = (Ok t', <[file_name t := c]> fs) ∧
    file_name t' = file_name t ∧
    sstable_ok (<[file_name t := c]> fs) t' es.
Proof using All.
  intros Hok Hs Hf.
  destruct (writer_write_spec (file_name t) es fs Hok Hs Hf) as (b & E & Htf).
  eexists _, (file_of es b). unfold sstable_write_entries.
  erewrite bind_Ok by exact E.
  erewrite bind_Ok by (eapply load_bloom_filter_table; [exact Htf|apply lookup_insert_eq]).
  split; [reflexivity|]. split; [done|]. eexists. split_and!; [|exact Htf|done].
  cbn. apply lookup_insert_eq.
Qed.

(** A table file is untouched by changes to other files. *)
Lemma sstable_ok_frame fs fs' t es :
  sstable_ok fs t es → fs' !! file_name t = fs !! file_name t → sstable_ok fs' t es.
Proof using Type. intros (c & Hc & Hr) E. exists c. by rewrite E. Qed.

Lemma load_loop_table es s n m acc fuel :
  entries_ok es → (m = n + Z.of_nat (length es))%Z → length es < fuel →
  load_loop fuel acc
    {| sr_rest := data_bytes es ++ s; entries_read := n; sr_entry_count := m |}
  = (Ok (acc ++ es), {| sr_rest := s; entries_read := m; sr_entry_count := m |}).
Proof using All.
  intros Hok. revert n acc fuel.
  induction Hok as [|[k e] es [Hk He] _ IH]; intros n acc fuel -> Hf;
    (destruct fuel as [|fuel]; [lia|]); cbn [load_loop].
  - erewrite bind_Ok by (apply sequential_next_end; cbn; lia).
    rewrite app_nil_r. cbn. by rewrite Z.add_0_r.
  - cbn [length] in *. rewrite data_bytes_cons, <-app_assoc.
    erewrite bind_Ok by (apply sequential_next_cons; [done..|lia]). cbn beta iota.
    rewrite IH by lia. rewrite <-app_assoc. cbn. repeat f_equal; lia.
Qed.

Lemma load_entries_ok fs path c es bloom :
  fs !! path = Some c → table_file c es bloom →
  load_entries_sequential path fs = (Ok es, fs).
Proof using All.
  intros Hc Htf. unfold load_entries_sequential.
  erewrite bind_Ok by (by eapply sequential_open_table). unfold run_on.
  rewrite load_loop_table; [done|by apply Htf|done|].
  cbn [sr_rest]. rewrite length_app.
  pose proof (length_index_bytes_of HEADER_SIZE es). pose proof (weight_length es).
  assert (10 * length es ≤ length (data_bytes es)); [|lia].
  clear. induction es as [|[k e] es IH]; [done|].
  rewrite data_bytes_cons, length_app. pose proof (length_record_bytes k e). cbn. lia.
Qed.

(** ** Properties *)

(** C28: After [SSTable::new] and [write_entries] on sorted entries, a point
    read returns exactly what was written under the key (and nothing for a
    key that was not), reopening the file gives the same table, a sequential
    scan gives the entries back in order, and no other file changes. *)
Theorem sstable_write_read path es fs :
  entries_ok es → es_sorted es → fits es →
  ∃ t fs', (t0 ← sstable_new path; sstable_write_entries t0 es) fs = (Ok t, fs') ∧
    (∀ k, sstable_read_entry t k fs' = (Ok (es_lookup es k), fs')) ∧
    sstable_open path fs' = (Ok t, fs') ∧
    load_entries_sequential path fs' = (Ok es, fs') ∧
    (∀ p, p ≠ path → fs' !! p = fs !! p).
Proof using All.
  intros Hok Hs Hf. destruct (sstable_new_ok path fs) as (t0 & E0 & N0).
  destruct (sstable_write_entries_ok t0 es (<[path := write_header empty_header]> fs)
    Hok Hs Hf) as (t & c & E1 & N1 & Ht).
  eexists t, _. split; [erewrite bind_Ok by exact E0; exact E1|].
  rewrite N0 in *. split_and!.
  - intros k. by apply sstable_read_entry_ok.
  - destruct Ht as (c' & Hc & Htf & Hi). rewrite N1 in Hc.
    destruct (sstable_open_ok _ path c' es (bloom_filter t) Hc Htf)
      as (t' & E' & N' & B' & (c'' & _ & _ & I')).
    rewrite E'. do 2 f_equal. destruct t, t'. cbn in *. congruence.
  - destruct Ht as (c' & Hc & Htf & Hi). rewrite N1 in Hc. by eapply load_entries_ok.
  - intros p Hp. by rewrite !lookup_insert_ne.
Qed.

End whole.

Lemma sstable_write_read_witness :
  let _ := bits_text in let _ := micro_math in let _ : Xxh3 := from_le in
  let es := [(lit "a", ESet (Int 1)); (lit "b", EDelete)] in
  ∃ t fs', (t0 ← sstable_new (lit "t"); sstable_write_entries t0 es) ∅ = (Ok t, fs') ∧
    (∀ k, sstable_read_entry t k fs' = (Ok (es_lookup es k), fs')) ∧
    sstable_open (lit "t") fs' = (Ok t, fs') ∧
    load_entries_sequential (lit "t") fs' = (Ok es, fs') ∧
    (∀ p, p ≠ lit "t" → fs' !! p = (∅ : FS) !! p).
Proof.
  apply (sstable_write_read (HT := bits_text) (HM := micro_math) (HX := from_le)
    (F64TextLaws0 := bits_text_laws) (F64MathLaws0 := micro_math_laws)
    (H := micro_dims)).
  - repeat constructor; vm_compute; intuition congruence.
  - repeat constructor.
  - vm_compute. congruence.
Defined.

(** The placeholder header names no filter. *)
Lemma unfinished_table_err `{HT : F64Text} `{HM : F64Math} `{HX : Xxh3}
    (fs : FS) path rest :
  fs !! path = Some (write_header empty_header ++ rest) →
  sstable_open path fs =
  (Err (invalid_data "SSTable does not contain a persisted Bloom filter"), fs).
Proof.
  intros Hc. unfold sstable_open, load_bloom_filter.
  apply bind_Err. erewrite bind_Ok by (by apply fs_open_at).
  unfold run_on. rewrite read_write_header by (unfold header_ok, in_u64, in_u; cbn; lia).
  by erewrite bind_Ok by done.
Qed.

(** The placeholder header cannot be read when it is not complete. *)
Lemma short_header_err k :
  k < length (write_header empty_header) →
  ∃ e s, read_header (take k (write_header empty_header)) = (Err e, s).
Proof.
  intros Hk. assert (match read_header (take k (write_header empty_header)) with
    | (Err _, _) => true | _ => false end = true) as E.
  { assert (Forall (λ k, match read_header (take k (write_header empty_header)) with
      | (Err _, _) => true | _ => false end = true) (seq 0 (length (write_header empty_header)))) as Hf
      by (apply (bool_decide_unpack _); by vm_compute).
    rewrite Forall_forall in Hf. apply Hf, elem_of_seq. lia. }
  destruct (read_header _) as [[h|e|p] s]; [done|by exists e, s|done].
Qed.

(** What a writer has put into a file before the final header: any part, from
    the first byte on, of the placeholder and what comes after it. *)
Definition unfinished (c : bytes) : Prop :=
  ∃ k rest, c = take k (write_header empty_header ++ rest).

Lemma unfinished_err `{HT : F64Text} `{HM : F64Math} `{HX : Xxh3} (fs : FS) path c :
  fs !! path = Some c → unfinished c → ∃ e, sstable_open path fs = (Err e, fs).
Proof.
  intros Hc (k & rest & ->).
  destruct (decide (k < length (write_header empty_header))) as [Hk|Hk]; cycle 1.
  { rewrite take_app_ge in Hc by lia. eexists. by eapply unfinished_table_err. }
  rewrite take_app_le in Hc by lia. destruct (short_header_err k Hk) as (e & s & E).
  exists e. unfold sstable_open, load_bloom_filter. apply bind_Err.
  erewrite bind_Ok by (by apply fs_open_at). unfold run_on. rewrite E. done.
Qed.

(** A table file whose writer stopped before it put the final header in
    place (a crash or an error during a flush or a compaction) cannot be
    opened, whatever follows the placeholder. *)
Theorem unfinished_table_is_rejected `{HT : F64Text} `{HM : F64Math} `{HX : Xxh3}
    (fs : FS) path rest :
  fs !! path = Some (write_header empty_header ++ rest) →
  sstable_open path fs =
  (Err (invalid_data "SSTable does not contain a persisted Bloom filter"), fs).
Proof. apply unfinished_table_err. Qed.

Lemma unfinished_table_is_rejected_witness :
  let _ := bits_text in let _ := micro_math in let _ : Xxh3 := from_le in
  let fs : FS := {[ lit "t" := write_header empty_header ++ lit "abc" ]} in
  sstable_open (lit "t") fs =
  (Err (invalid_data "SSTable does not contain a persisted Bloom filter"), fs).
Proof.
  apply (unfinished_table_is_rejected (HT := bits_text) (HM := micro_math)
    (HX := from_le) _ _ (lit "abc")). by vm_compute.
Defined.
