(* ===== verification/Heap.v ===== *)
(** [std::collections::BinaryHeap]: [pop] removes an element that is greatest
    for [Ord::cmp]. The elements are kept in a list; among elements that
    compare equal the first is taken, where the standard library promises
    nothing. *)

From S2P Require Import Prelude.

(** An [Ord] implementation: total, antisymmetric up to its own equality. *)
Class OrdCmp {A} (cmp : A → A → comparison) : Prop := {
  cmp_antisym x y : cmp y x = CompOpp (cmp x y);
  cmp_trans x y z : cmp x y ≠ Gt → cmp y z ≠ Gt → cmp x z ≠ Gt;
}.

Section heap.
Context {A : Type} (cmp : A → A → comparison).

Definition heap_push (x : A) (h : list A) : list A := x :: h.

Fixpoint heap_pop (h : list A) : option (A * list A) :=
  match h with
  | [] => None
  | x :: h' =>
      match heap_pop h' with
      | None => Some (x, [])
      | Some (y, r) =>
          match cmp x y with
          | Lt => Some (y, x :: r)
          | _ => Some (x, h')
          end
      end
  end.

Definition heap_peek (h : list A) : option A := fst <$> heap_pop h.

Lemma heap_pop_None h : heap_pop h = None ↔ h = [].
Proof.
  split; [|by intros ->]. destruct h as [|x h]; [done|]. cbn.
  destruct (heap_pop h) as [[y r]|]; [|done]. by destruct (cmp x y).
Qed.

Lemma heap_pop_perm h x r : heap_pop h = Some (x, r) → x :: r ≡ₚ h.
Proof.
  revert x r. induction h as [|y h IH]; intros x r; [done|]. cbn.
  destruct (heap_pop h) as [[z r']|] eqn:E.
  - destruct (cmp y z); intros [= <- <-]; [done| |done].
    transitivity (y :: z :: r'); [constructor|]. by rewrite (IH _ _ eq_refl).
  - apply heap_pop_None in E as ->. by intros [= <- <-].
Qed.

Lemma heap_pop_max `{!OrdCmp cmp} h x r y :
  heap_pop h = Some (x, r) → y ∈ h → cmp y x ≠ Gt.
Proof.
  revert x r. induction h as [|z h IH]; intros x r; [done|]. cbn.
  assert (Hrefl : ∀ a, cmp a a ≠ Gt).
  { intros a E. pose proof (cmp_antisym a a). by destruct (cmp a a). }
  destruct (heap_pop h) as [[w r']|] eqn:E.
  - intros Ex Hy. apply elem_of_cons in Hy as [->|Hy].
    + destruct (cmp z w) eqn:Ezw; simplify_eq; auto. congruence.
    + specialize (IH _ _ eq_refl Hy).
      destruct (cmp z w) eqn:Ezw; simplify_eq; [| done |];
        apply (cmp_trans _ w); try done;
        rewrite (cmp_antisym x w), Ezw; done.
  - apply heap_pop_None in E as ->. intros [= <- <-] ->%list_elem_of_singleton. auto.
Qed.

End heap.
