(* ===== verification/Merge.v ===== *)
(** [src/database/compact.rs], lines 12-40 and 113-181: the heap-based k-way
    merge of sorted tables. *)

From S2P Require Import Prelude Bytes Float LogRecord Format Bloom Index SSTable Heap.

Record MergeItem : Type := MkMergeItem {
  mi_key : str;
  mi_entry : Entry;
  source : nat;
  priority : nat;
}.

(** [Ord for MergeItem]: the least key is greatest, then the priority. *)
Definition item_cmp (self other : MergeItem) : comparison :=
  match str_cmp (mi_key other) (mi_key self) with
  | Eq => Nat.compare (priority self) (priority other)
  | ordering => ordering
  end.

(** [PartialEq for MergeItem], which is when [cmp] answers [Equal]. *)
Definition item_eqb (self other : MergeItem) : bool :=
  bool_decide (mi_key self = mi_key other) && bool_decide (priority self = priority other).

Lemma item_eqb_cmp a b : item_eqb a b = true ↔ item_cmp a b = Eq.
Proof.
  unfold item_eqb, item_cmp. rewrite andb_true_iff, !bool_decide_eq_true. split.
  - intros [-> ->]. rewrite str_cmp_refl. apply Nat.compare_refl.
  - destruct (str_cmp (mi_key b) (mi_key a)) eqn:E; [|done..]. apply str_cmp_eq in E.
    intros Hp%Nat.compare_eq. by rewrite E.
Qed.

Definition source_priority (current_len source : nat) : nat :=
  if decide (source < current_len) then source + current_len
  else source - current_len.

Section merge.
Context `{F64Text} `{F64Math} `{Xxh3}.

(** The first entry of every reader, numbered from [i] on. *)
Fixpoint merge_init (current_len i : nat) (readers : list SequentialReader)
    (heap : list MergeItem) : res (list SequentialReader * list MergeItem) :=
  match readers with
  | [] => Ok ([], heap)
  | reader :: readers' =>
      '(o, reader') ← run_on sequential_next reader;
      let heap' := match o with
        | Some (k, e) =>
            heap_push {| mi_key := k; mi_entry := e; source := i;
                         priority := source_priority current_len i |} heap
        | None => heap
        end in
      '(readers'', heap'') ← merge_init current_len (S i) readers' heap';
      Ok (reader' :: readers'', heap'')
  end.

(** [readers[source].next()], whose entry goes onto the heap. *)
Definition advance (current_len i : nat) (readers : list SequentialReader)
    (heap : list MergeItem) : res (list SequentialReader * list MergeItem) :=
  reader ← expect "index out of bounds" (readers !! i);
  '(o, reader') ← run_on sequential_next reader;
  let readers' := <[i := reader']> readers in
  match o with
  | Some (k, e) =>
      Ok (readers',
          heap_push {| mi_key := k; mi_entry := e; source := i;
                       priority := source_priority current_len i |} heap)
  | None => Ok (readers', heap)
  end.

(** Consume the lower-priority versions of [k]. *)
Fixpoint skip_duplicates (fuel current_len : nat) (k : str)
    (readers : list SequentialReader) (heap : list MergeItem) :
    res (list SequentialReader * list MergeItem) :=
  match fuel with
  | O => Panic "out of fuel"
  | S fuel' =>
      match heap_pop item_cmp heap with
      | None => Ok (readers, heap)
      | Some (next, heap') =>
          if decide (mi_key next ≠ k) then Ok (readers, heap) else
          '(readers, heap) ← advance current_len (source next) readers heap';
          skip_duplicates fuel' current_len k readers heap
      end
  end.

Fixpoint merge_loop (fuel current_len : nat) (readers : list SequentialReader)
    (heap : list MergeItem) (writer : StreamingWriter) : M FS StreamingWriter :=
  match fuel with
  | O => panic "out of fuel"
  | S fuel' =>
      match heap_pop item_cmp heap with
      | None => mret writer
      | Some (item, heap) =>
          writer ← streaming_write_entry writer (mi_key item) (mi_entry item);
          '(readers, heap) ← lift (advance current_len (source item) readers heap);
          '(readers, heap) ←
            lift (skip_duplicates fuel current_len (mi_key item) readers heap);
          merge_loop fuel' current_len readers heap writer
      end
  end.

(** Every turn of a loop consumes a record, which takes bytes of a reader or
    an element of the heap. *)
Definition merge_fuel (readers : list SequentialReader) (heap : list MergeItem) : nat :=
  S (length heap + sum_list_with (λ r, length (sr_rest r)) readers).

(** The part of [compact_level] between opening the readers and opening the
    result. *)
Definition merge_tables (path : bytes) (current_len : nat)
    (readers : list SequentialReader) : M FS Index :=
  writer ← streaming_create path;
  '(readers, heap) ← lift (merge_init current_len 0 readers []);
  writer ← merge_loop (merge_fuel readers heap) current_len readers heap writer;
  streaming_finish writer.

End merge.

(** * The order of the heap *)

Lemma item_cmp_le x y :
  item_cmp x y ≠ Gt ↔
  str_lt (mi_key y) (mi_key x) ∨ mi_key x = mi_key y ∧ priority x ≤ priority y.
Proof.
  unfold item_cmp. destruct (str_cmp (mi_key y) (mi_key x)) eqn:E.
  - apply str_cmp_eq in E. rewrite Nat.compare_le_iff, E. split; [auto|].
    intros [[]%str_lt_irrefl|[_ ?]]. done.
  - split; [by left|done].
  - apply str_cmp_Gt in E. split; [done|]. intros [H|[H _]].
    + by apply (str_lt_trans _ _ _ E), str_lt_irrefl in H.
    + rewrite H in E. by apply str_lt_irrefl in E.
Qed.

#[export] Instance item_cmp_ord : OrdCmp item_cmp.
Proof.
  split.
  - intros x y. unfold item_cmp. rewrite (str_cmp_antisym (mi_key x) (mi_key y)).
    destruct (str_cmp (mi_key x) (mi_key y)); cbn; [|done..].
    by rewrite Nat.compare_antisym.
  - intros x y z. rewrite !item_cmp_le.
    intros [H1|[H1 ?]] [H2|[H2 ?]]; rewrite <-?H1, ?H2 in *;
      eauto using str_lt_trans. right. split; [congruence|lia].
Qed.
