(* ===== verification/MergeSpec.v ===== *)
(** The k-way merge of [Merge.v] computes, whatever the number of its inputs,
    the sorted table in which the highest-priority version of every key wins;
    it never reports an error on well-formed inputs and always ends. *)

From S2P Require Import Prelude Bytes Float LogRecord Format Bloom Index.
From S2P Require Import SSTable SSTableSpec Heap Merge.

(** * Streams

    A stream is what is left of an input table: its head is on the heap, its
    tail still has to be read. *)

Section streams.
Context `{HT : F64Text}.

Record reads (r : SequentialReader) (es : Entries) : Prop := {
  reads_ok : entries_ok es;
  reads_count : sr_entry_count r = (entries_read r + Z.of_nat (length es))%Z;
  reads_rest : ∃ s, sr_rest r = data_bytes es ++ s;
}.

Definition head_item (c i : nat) (s : Entries) : option MergeItem :=
  '(k, e) ← head s;
  Some {| mi_key := k; mi_entry := e; source := i; priority := source_priority c i |}.

Fixpoint heap_of (c i : nat) (ss : list Entries) : list MergeItem :=
  match ss with
  | [] => []
  | s :: ss' => option_list (head_item c i s) ++ heap_of c (S i) ss'
  end.

Definition merge_state (c : nat) (readers : list SequentialReader)
    (heap : list MergeItem) (ss : list Entries) : Prop :=
  Forall2 (λ r s, reads r (tail s)) readers ss ∧ heap ≡ₚ heap_of c 0 ss.

Definition stream_ok (s : Entries) : Prop := entries_ok s ∧ es_sorted s.

(** Entries that are left, and the bytes they need. *)
Definition total (ss : list Entries) : nat := sum_list_with length ss.
Definition total_weight (ss : list Entries) : nat := sum_list_with weight ss.

(** [e] is the version of [k] that has the highest priority. *)
Definition wins (c : nat) (ss : list Entries) (k : str) (e : Entry) : Prop :=
  ∃ i s, ss !! i = Some s ∧ es_lookup s k = Some e ∧
    ∀ j s', ss !! j = Some s' → es_lookup s' k ≠ None →
      source_priority c j ≤ source_priority c i.

Definition drop_key (k : str) (s : Entries) : Entries :=
  match s with
  | (k', _) :: s' => if decide (k' = k) then s' else s
  | [] => []
  end.

(** No stream holds a key below [k]. *)
Definition at_least (k : str) (ss : list Entries) : Prop :=
  Forall (λ s, ∀ p, head s = Some p → str_le k p.1) ss.

End streams.

(** * The heap holds the heads *)

Section heads.
Context (c : nat).

Lemma elem_of_option_list {A} (o : option A) x : x ∈ option_list o ↔ o = Some x.
Proof.
  destruct o; cbn; [rewrite list_elem_of_singleton|]; split; try congruence.
  by intros ?%not_elem_of_nil.
Qed.

Lemma elem_of_heap_of i ss x :
  x ∈ heap_of c i ss ↔
  ∃ j s, ss !! j = Some s ∧ head_item c (i + j) s = Some x.
Proof.
  revert i. induction ss as [|s ss IH]; intros i; cbn [heap_of].
  - split; [by intros ?%not_elem_of_nil|]. intros (j & s & E & _). done.
  - rewrite elem_of_app, IH, elem_of_option_list. split.
    + intros [E|(j & s' & E & Hh)].
      * exists 0, s. by rewrite Nat.add_0_r.
      * exists (S j), s'. by rewrite Nat.add_succ_r.
    + intros ([|j] & s' & E & Hh); simplify_eq/=.
      * left. by rewrite Nat.add_0_r in Hh.
      * right. exists j, s'. by rewrite Nat.add_succ_r in Hh.
Qed.

(** Replacing one stream replaces its head on the heap. *)
Lemma heap_of_insert i j ss s s' x h :
  ss !! j = Some s → head_item c (i + j) s = Some x → x :: h ≡ₚ heap_of c i ss →
  option_list (head_item c (i + j) s') ++ h ≡ₚ heap_of c i (<[j := s']> ss).
Proof.
  intros Hj Hx Hp.
  assert (∃ rest, heap_of c i ss ≡ₚ x :: rest ∧
    heap_of c i (<[j := s']> ss) ≡ₚ option_list (head_item c (i + j) s') ++ rest)
    as (rest & H1 & H2).
  { clear Hp. revert i j Hj Hx. induction ss as [|s0 ss IH]; intros i j Hj Hx; [done|].
    destruct j as [|j]; simplify_eq/=.
    - exists (heap_of c (S i) ss). rewrite Nat.add_0_r in *. by rewrite Hx.
    - rewrite Nat.add_succ_r in *. destruct (IH (S i) j Hj Hx) as (rest & H1 & H2).
      exists (option_list (head_item c i s0) ++ rest). split.
      + by rewrite H1, Permutation_middle.
      + rewrite H2, !app_assoc. f_equiv. apply Permutation_app_comm. }
  rewrite H2. f_equiv. rewrite H1 in Hp. by eapply Permutation_cons_inv.
Qed.

Lemma head_item_inv i s x :
  head_item c i s = Some x →
  ∃ s', s = (mi_key x, mi_entry x) :: s' ∧ source x = i ∧
    priority x = source_priority c i.
Proof. destruct s as [|[k e] s']; [done|]. intros [= <-]. by exists s'. Qed.

(** What the heap gives up is the head of the stream it names; it is the
    winner among the heads with the least key. *)
Lemma heap_pop_heads ss heap x h :
  heap ≡ₚ heap_of c 0 ss → heap_pop item_cmp heap = Some (x, h) →
  ∃ s, ss !! source x = Some ((mi_key x, mi_entry x) :: s) ∧
    head_item c (source x) ((mi_key x, mi_entry x) :: s) = Some x ∧
    x :: h ≡ₚ heap_of c 0 ss ∧ at_least (mi_key x) ss ∧
    (∀ j s' p, ss !! j = Some s' → head s' = Some p → p.1 = mi_key x →
      source_priority c j ≤ source_priority c (source x)).
Proof.
  intros Hp Hx. pose proof (heap_pop_perm _ _ _ _ Hx) as Hperm. rewrite Hp in Hperm.
  assert (Hin : x ∈ heap_of c 0 ss) by (rewrite <-Hperm; left).
  apply elem_of_heap_of in Hin as (i & s & Hi & Hh). cbn [Nat.add] in Hh.
  destruct (head_item_inv _ _ _ Hh) as (s' & -> & Hsrc & Hprio).
  assert (Hmax : ∀ j s'' p, ss !! j = Some s'' → head s'' = Some p →
    str_lt (mi_key x) p.1 ∨ p.1 = mi_key x ∧
      source_priority c j ≤ source_priority c i).
  { intros j s'' [k e] Hj Hhd. rewrite <-Hprio.
    apply (item_cmp_le {| mi_key := k; mi_entry := e; source := j;
             priority := source_priority c j |} x).
    apply (heap_pop_max item_cmp heap x h); [done|]. rewrite Hp.
    apply elem_of_heap_of. exists j, s''. split; [done|].
    destruct s''; simplify_eq/=. done. }
  rewrite Hsrc. exists s'. split_and!; [done..| |].
  - apply Forall_lookup. intros j s'' Hj p Hhd. apply str_le_lt_or_eq.
    destruct (Hmax _ _ _ Hj Hhd) as [?|[-> _]]; auto.
  - intros j s'' p Hj Hhd Hk. destruct (Hmax _ _ _ Hj Hhd) as [Hlt|[_ ?]]; [|done].
    rewrite Hk in Hlt. by apply str_lt_irrefl in Hlt.
Qed.

End heads.

(** * Sorted streams *)

Section sorted_streams.
Context `{HT : F64Text}.

Lemma stream_ok_tail p s : stream_ok (p :: s) → stream_ok s.
Proof. intros [H1 H2]. inversion H1; inversion H2; by split. Qed.

Lemma sorted_above p s q : es_sorted (p :: s) → q ∈ s → str_lt p.1 q.1.
Proof. inversion 1 as [|?? _ Hall]. rewrite Forall_forall in Hall. apply Hall. Qed.

Lemma sorted_lookup_below p s k :
  es_sorted (p :: s) → str_lt k p.1 → es_lookup (p :: s) k = None.
Proof.
  intros Hs Hk. apply eq_None_not_Some. intros [e Hl%es_lookup_elem].
  apply elem_of_cons in Hl as [<-|Hl].
  - by apply str_lt_irrefl in Hk.
  - pose proof (str_lt_trans _ _ _ Hk (sorted_above _ _ _ Hs Hl)) as F.
    by apply str_lt_irrefl in F.
Qed.

(** A stream whose head is at least [k] holds [k] only there. *)
Lemma lookup_at_least k s e :
  es_sorted s → (∀ p, head s = Some p → str_le k p.1) → es_lookup s k = Some e →
  head s = Some (k, e).
Proof.
  intros Hs Hk Hl. destruct s as [|[k' e'] s]; [done|].
  specialize (Hk _ eq_refl). cbn in Hk. apply str_le_lt_or_eq in Hk as [Hk|<-].
  - by rewrite sorted_lookup_below in Hl.
  - cbn in *. by rewrite decide_True in Hl by done; simplify_eq.
Qed.

Lemma drop_key_tail k e s : drop_key k ((k, e) :: s) = s.
Proof. cbn. by rewrite decide_True. Qed.

Lemma drop_key_id k s : (∀ p, head s = Some p → p.1 ≠ k) → drop_key k s = s.
Proof.
  destruct s as [|[k' e] s]; [done|]. intros H. cbn.
  rewrite decide_False; [done|]. by apply (H (k', e)).
Qed.

Lemma drop_key_fmap_id k (ss : list Entries) :
  (∀ s, s ∈ ss → ∀ p, head s = Some p → p.1 ≠ k) → drop_key k <$> ss = ss.
Proof.
  induction ss as [|s ss IH]; intros H; [done|]. rewrite fmap_cons.
  f_equal; [apply drop_key_id, H; left|apply IH]. intros s' ?. apply H. by right.
Qed.

Lemma drop_key_ok k s : stream_ok s → stream_ok (drop_key k s).
Proof.
  destruct s as [|[k' e] s]; [done|]. cbn. case_decide; [apply stream_ok_tail|done].
Qed.

Lemma drop_key_above k s p :
  es_sorted s → (∀ p, head s = Some p → str_le k p.1) →
  p ∈ drop_key k s → str_lt k p.1.
Proof.
  intros Hs Hk Hp. destruct s as [|[k' e] s]; [by apply elem_of_nil in Hp|].
  specialize (Hk _ eq_refl). cbn in *. case_decide as E.
  - subst. by apply (sorted_above _ _ _ Hs).
  - apply str_le_lt_or_eq in Hk as [Hk| ->]; [|done].
    apply elem_of_cons in Hp as [->|Hp]; [done|].
    apply (str_lt_trans _ k'); [done|]. by apply (sorted_above _ _ _ Hs).
Qed.

Lemma es_lookup_drop_key k k' s : k ≠ k' → es_lookup (drop_key k s) k' = es_lookup s k'.
Proof.
  destruct s as [|[k0 e] s]; [done|]. intros Hn. cbn. case_decide; [|done].
  subst. by rewrite decide_False.
Qed.

(** Dropping [k] from a stream that has just lost its [k] changes nothing. *)
Lemma drop_key_insert k e i s ss :
  Forall stream_ok ss → ss !! i = Some ((k, e) :: s) →
  drop_key k <$> <[i := s]> ss = drop_key k <$> ss.
Proof.
  intros Hok Hi. rewrite list_fmap_insert. apply list_insert_id.
  rewrite list_lookup_fmap, Hi. cbn. rewrite decide_True by done.
  f_equal. symmetry. apply drop_key_id. intros p Hhd <-.
  pose proof (Forall_lookup_1 _ _ _ _ Hok Hi) as [_ Hs].
  apply (str_lt_irrefl p.1), (sorted_above (p.1, e) s); [done|].
  destruct s; simplify_eq/=. left.
Qed.

Lemma sum_insert (f : Entries → nat) ss i s s' :
  ss !! i = Some s →
  sum_list_with f (<[i := s']> ss) + f s = sum_list_with f ss + f s'.
Proof.
  revert i. induction ss as [|s0 ss IH]; intros [|i] E; simplify_eq/=; [lia|].
  specialize (IH i E). lia.
Qed.

Lemma sum_drop_key (f : Entries → nat) k ss :
  (∀ p s, f s ≤ f (p :: s)) →
  sum_list_with f (drop_key k <$> ss) ≤ sum_list_with f ss.
Proof.
  intros Hf. induction ss as [|s ss IH]; [done|]. cbn.
  assert (f (drop_key k s) ≤ f s); [|lia].
  destruct s as [|[k' e] s]; cbn; [done|]. by case_decide.
Qed.

(** The winners that are left when [k] is consumed. *)
Lemma wins_drop_key c k k' ss e :
  k ≠ k' → wins c (drop_key k <$> ss) k' e ↔ wins c ss k' e.
Proof.
  intros Hn. unfold wins. setoid_rewrite list_lookup_fmap. split.
  - intros (i & s & Hi & Hl & Hmax). apply fmap_Some in Hi as (s0 & Hi & ->).
    rewrite es_lookup_drop_key in Hl by done. exists i, s0. split_and!; [done..|].
    intros j s' Hj Hs'. apply (Hmax j (drop_key k s')); [by rewrite Hj|].
    by rewrite es_lookup_drop_key.
  - intros (i & s & Hi & Hl & Hmax). exists i, (drop_key k s).
    rewrite Hi, es_lookup_drop_key by done. split_and!; [done..|].
    intros j s' Hj Hs'. apply fmap_Some in Hj as (s0 & Hj & ->).
    apply (Hmax j s0); [done|]. by rewrite es_lookup_drop_key in Hs'.
Qed.

End sorted_streams.

(** * Reading *)

Section merging.
Context `{HT : F64Text} `{HM : F64Math} `{HX : Xxh3}
  `{!F64TextLaws HT} `{!F64MathLaws HM} `{!BloomDims}.

Lemma sequential_next_reads r es :
  reads r es →
  ∃ r', run_on sequential_next r = Ok (head es, r') ∧ reads r' (tail es).
Proof using All.
  intros [Hok Hc [s Hs]]. destruct r as [rest n m]. cbn in *. subst.
  destruct es as [|[k e] es].
  - eexists. unfold run_on. rewrite sequential_next_end by (cbn; lia).
    split; [done|]. split; cbn; [done|lia|by exists s].
  - inversion_clear Hok as [|? ? [Hk He] Hok'].
    eexists. unfold run_on. rewrite data_bytes_cons, <-app_assoc.
    rewrite sequential_next_cons by (done || cbn; lia).
    split; [done|]. split; cbn; [done|lia|by exists s].
Qed.

Lemma reads_of_table path c es bloom fs :
  fs !! path = Some c → table_file c es bloom →
  ∃ r, sequential_open path fs = (Ok r, fs) ∧ reads r es.
Proof using All.
  intros Hc Htf. eexists. split; [by eapply sequential_open_table|].
  split; [by apply Htf|done|by eexists].
Qed.

(** Reading on from the stream whose head was taken off the heap. *)
Lemma advance_ok c i p s x readers h ss :
  Forall2 (λ r s, reads r (tail s)) readers ss →
  ss !! i = Some (p :: s) → head_item c i (p :: s) = Some x →
  x :: h ≡ₚ heap_of c 0 ss →
  ∃ readers' h', advance c i readers h = Ok (readers', h') ∧
    merge_state c readers' h' (<[i := s]> ss).
Proof using All.
  intros Hr Hi Hx Hp.
  destruct (Forall2_lookup_r _ _ _ _ _ Hr Hi) as (r & Hri & Hread). cbn [tail] in Hread.
  destruct (sequential_next_reads _ _ Hread) as (r' & E & Hread').
  unfold advance. rewrite Hri. cbn [expect mbind res_bind]. rewrite E. cbn [mbind res_bind].
  pose proof (heap_of_insert c 0 i ss (p :: s) s x h Hi Hx Hp) as Hp'. cbn [Nat.add] in Hp'.
  assert (Hr' : Forall2 (λ r s, reads r (tail s)) (<[i := r']> readers) (<[i := s]> ss))
    by by apply Forall2_insert.
  destruct s as [|[k e] s]; eexists _, _; (split; [reflexivity|]); by split.
Qed.

Lemma skip_duplicates_ok fuel c k readers h ss :
  merge_state c readers h ss → Forall stream_ok ss → at_least k ss →
  total ss < fuel →
  ∃ readers' h', skip_duplicates fuel c k readers h = Ok (readers', h') ∧
    merge_state c readers' h' (drop_key k <$> ss).
Proof using All.
  revert readers h ss. induction fuel as [|fuel IH]; intros readers h ss [Hr Hh] Hok Hk Ht;
    [lia|]. cbn [skip_duplicates].
  destruct (heap_pop item_cmp h) as [[x h']|] eqn:E.
  - destruct (heap_pop_heads c _ _ _ _ Hh E) as (s & Hi & Hx & Hp & Hmin & _).
    case_decide as D.
    + exists readers, h. split; [done|].
      rewrite drop_key_fmap_id; [done|]. intros s' Hs' p Hhd <-.
      pose proof (proj1 (Forall_forall _ _) Hmin _ Hs' _ Hhd) as L1.
      apply list_elem_of_lookup in Hs' as (j & Hj).
      pose proof (Forall_lookup_1 _ _ _ _ Hk Hi _ eq_refl) as L2. cbn in L2.
      apply str_le_lt_or_eq in L1 as [L1|L1]; [|done]. by apply str_le_not_lt in L2.
    + cbn in D. destruct (advance_ok c _ _ _ _ _ _ _ Hr Hi Hx Hp) as (r' & h'' & -> & Hst).
      cbn [mbind res_bind]. rewrite D in *.
      destruct (IH r' h'' (<[source x := s]> ss) Hst) as (r2 & h2 & E2 & Hst2).
      * apply Forall_insert; [done|]. apply stream_ok_tail with (k, mi_entry x).
        by eapply Forall_lookup_1.
      * apply Forall_insert; [done|]. intros p Hhd. apply str_le_lt_or_eq. left.
        pose proof (Forall_lookup_1 _ _ _ _ Hok Hi) as [_ Hs].
        apply (sorted_above _ _ _ Hs). destruct s; simplify_eq/=. left.
      * pose proof (sum_insert length ss _ _ s Hi). unfold total in *. cbn in *. lia.
      * exists r2, h2. split; [done|].
        by rewrite <-(drop_key_insert k (mi_entry x) (source x) s ss).
  - apply heap_pop_None in E as ->. exists readers, []. split; [done|].
    rewrite drop_key_fmap_id; [by split|]. intros s' Hs' p Hhd. exfalso.
    apply list_elem_of_lookup in Hs' as (j & Hj).
    destruct s' as [|[k' e'] s']; [done|].
    apply Permutation_nil in Hh. apply (not_elem_of_nil (MkMergeItem k' e' j (source_priority c j))).
    rewrite <-Hh. apply elem_of_heap_of. by exists j, ((k', e') :: s').
Qed.

(** * Writing *)

(** The writer has taken the entries [es]. *)
Record writer_ok (w : StreamingWriter) (es : Entries) : Prop := {
  wo_index : sw_index w = index_of HEADER_SIZE es;
  wo_offset : sw_offset w = (HEADER_SIZE + Z.of_nat (length (data_bytes es)))%Z;
  wo_entries : stream_ok es;
  wo_bloom : bloom_wf (sw_bloom_filter w);
  wo_bits : (Z.of_nat (length (bits (sw_bloom_filter w))) ≤ 2 ^ 60)%Z;
  wo_covers : covers (sw_bloom_filter w) es;
}.

Definition partial_file (es : Entries) : bytes :=
  write_header empty_header ++ data_bytes es.

Lemma streaming_create_ok path fs :
  ∃ w, streaming_create path fs = (Ok w, <[path := partial_file []]> fs) ∧
    sw_path w = path ∧ writer_ok w [].
Proof using All.
  destruct (bloom_new_ok STREAMING_EXPECTED_ITEMS) as (b & E & W & N).
  eexists. unfold streaming_create. erewrite bind_Ok by done.
  erewrite bind_Ok by (apply fs_append_at; apply lookup_insert_eq).
  rewrite insert_insert_eq. unfold BLOOM_FALSE_POSITIVE_RATE. rewrite E.
  erewrite bind_Ok by done. split; [reflexivity|]. split; [done|].
  split; try done; cbn.
  - by split; constructor.
  - pose proof (bits_bound STREAMING_EXPECTED_ITEMS) as Hb.
    pose proof (bloom_size_bound STREAMING_EXPECTED_ITEMS b W) as Hs. rewrite N in Hs.
    unfold STREAMING_EXPECTED_ITEMS in *. lia.
  - by intros p ?%not_elem_of_nil.
Qed.

Lemma es_sorted_snoc es p :
  es_sorted es → (∀ q, last es = Some q → str_lt q.1 p.1) → es_sorted (es ++ [p]).
Proof using Type.
  intros Hs. induction Hs as [|q es Hs IH Hall]; intros Hl; [repeat constructor|].
  cbn [app]. constructor.
  - apply IH. intros q' Hq'. apply Hl. by destruct es.
  - apply Forall_app. split; [done|]. constructor; [|constructor].
    destruct (last es) as [q'|] eqn:E.
    + assert (str_lt q'.1 p.1) by (apply Hl; by destruct es).
      apply str_lt_trans with q'.1; [|done].
      rewrite Forall_forall in Hall. apply Hall. by apply last_Some_elem_of.
    + apply last_None in E as ->. by apply Hl.
Qed.

Lemma last_index_of off es :
  Index.key <$> last (index_of off es) = fst <$> last es.
Proof using Type.
  revert off. induction es as [|[k e] es IH]; intros off; [done|].
  destruct es as [|[k' e'] es]; [done|]. exact (IH (off + Z.of_nat (length (record_bytes k e)))%Z).
Qed.

Lemma streaming_write_entry_ok w es k e fs :
  writer_ok w es → key_ok k → entry_ok e →
  (∀ q, last es = Some q → str_lt q.1 k) → fits (es ++ [(k, e)]) →
  fs !! sw_path w = Some (partial_file es) →
  ∃ w', streaming_write_entry w k e fs =
      (Ok w', <[sw_path w := partial_file (es ++ [(k, e)])]> fs) ∧
    sw_path w' = sw_path w ∧ writer_ok w' (es ++ [(k, e)]).
Proof using All.
  intros [Hi Ho [Hok Hs] Hb Hbits Hcov] Hk He Hl Hf Hc.
  pose proof (length_index_bytes_of HEADER_SIZE (es ++ [(k, e)])) as Hw. unfold fits in Hf.
  assert (Hd : data_bytes (es ++ [(k, e)]) = data_bytes es ++ record_bytes k e)
    by (rewrite data_bytes_app, data_bytes_cons; unfold data_bytes at 2; cbn;
        by rewrite app_nil_r).
  rewrite Hd, length_app in Hw.
  destruct (write_step k e (sw_bloom_filter w) (sw_offset w) Hk He Hb)
    as (b & E1 & E2 & E3 & W & L & Hh);
    [rewrite Ho; unfold u64_max, HEADER_SIZE in *; lia|].
  exists {| sw_path := sw_path w; sw_index := index_add (sw_index w) k (sw_offset w);
            sw_bloom_filter := b;
            sw_offset := sw_offset w + Z.of_nat (length (record_bytes k e)) |}.
  split; [|split; [done|]].
  - unfold streaming_write_entry. rewrite Hi.
    replace (match last (index_of HEADER_SIZE es) with
             | Some e0 => bool_decide (str_le k (key e0)) | None => false end) with false.
    2:{ pose proof (last_index_of HEADER_SIZE es) as Hlast.
        destruct (last (index_of HEADER_SIZE es)) as [e0|]; [|done].
        destruct (last es) as [q|]; [|done]. injection Hlast as ->.
        symmetry. apply bool_decide_eq_false. intros Hle. apply str_le_not_lt in Hle.
        by destruct Hle; apply Hl. }
    erewrite bind_Ok by (unfold lift; by rewrite E1). cbn beta iota.
    erewrite bind_Ok by (by apply fs_append_at).
    erewrite bind_Ok by (unfold lift; by rewrite E2). cbn beta iota.
    erewrite bind_Ok by (unfold lift; by rewrite E3).
    unfold partial_file. rewrite Hd, app_assoc. reflexivity.
  - split; cbn [sw_index sw_bloom_filter sw_offset].
    + by rewrite index_of_app, Hi, Ho.
    + rewrite Ho, Hd, length_app. lia.
    + split; [|by apply es_sorted_snoc]. apply entries_ok_app.
      split; [done|]. by apply Forall_singleton.
    + done.
    + destruct W as (_ & _ & _ & Hlw), Hb as (_ & _ & _ & Hlb), L as (Hn & _).
      congruence.
    + intros p [Hp|Hp%list_elem_of_singleton]%elem_of_app; [|by subst].
      apply (bloom_has_le (sw_bloom_filter w)); auto.
Qed.

(** * The loop *)

Lemma source_priority_inj c n i j :
  n ≤ 2 * c → i < n → j < n → source_priority c i = source_priority c j → i = j.
Proof using Type. unfold source_priority. repeat case_decide; lia. Qed.

(** The first turn gives the winner of the least key. *)
Lemma wins_least c ss k e i s e' :
  Forall stream_ok ss → length ss ≤ 2 * c → at_least k ss →
  ss !! i = Some ((k, e) :: s) →
  (∀ j s' p, ss !! j = Some s' → head s' = Some p → p.1 = k →
     source_priority c j ≤ source_priority c i) →
  wins c ss k e' ↔ e = e'.
Proof using Type.
  intros Hok Hn Hk Hi Hmax.
  assert (Hhd : ∀ j s' e, ss !! j = Some s' → es_lookup s' k = Some e →
    head s' = Some (k, e)).
  { intros j s' e1 Hj. apply lookup_at_least; [by eapply Forall_lookup_1 in Hok as []|].
    by eapply Forall_lookup_1 in Hk. }
  assert (Hl : es_lookup ((k, e) :: s) k = Some e) by (cbn; by rewrite decide_True).
  split.
  - intros (j & s' & Hj & Hl' & Hmax').
    pose proof (Hmax j s' (k, e') Hj (Hhd _ _ _ Hj Hl') eq_refl) as L1.
    specialize (Hmax' i _ Hi). rewrite Hl in Hmax'.
    assert (i = j) as <-.
    { apply (source_priority_inj c (length ss)); [done| | |].
      - by eapply lookup_lt_Some.
      - by eapply lookup_lt_Some.
      - apply Nat.le_antisymm; auto. }
    congruence.
  - intros <-. exists i, ((k, e) :: s). split_and!; [done..|].
    intros j s' Hj Hs'. destruct (es_lookup s' k) as [e1|] eqn:E; [|done].
    by apply (Hmax j s' (k, e1)); [|apply (Hhd j)|].
Qed.

Lemma drop_key_gone c k ss e :
  Forall stream_ok ss → at_least k ss → ¬ wins c (drop_key k <$> ss) k e.
Proof using Type.
  intros Hok Hk (i & s & Hi & Hl & _). rewrite list_lookup_fmap in Hi.
  apply fmap_Some in Hi as (s0 & Hi & ->).
  apply es_lookup_elem in Hl.
  apply drop_key_above in Hl; [by apply str_lt_irrefl in Hl| |].
  - by eapply Forall_lookup_1 in Hok as [].
  - by eapply Forall_lookup_1 in Hk.
Qed.

Definition below (es : Entries) (ss : list Entries) : Prop :=
  ∀ q s p, last es = Some q → s ∈ ss → p ∈ s → str_lt q.1 p.1.

Lemma weight_app es es' : weight (es ++ es') = weight es + weight es'.
Proof using Type.
  unfold weight. induction es as [|p es IH]; [done|]. cbn. rewrite IH. lia.
Qed.

Lemma weight_cons p es : weight (p :: es) = entry_weight p + weight es.
Proof using Type. reflexivity. Qed.

(** The sums after the least entry was taken. *)
Lemma sums_drop ss i k e s :
  Forall stream_ok ss → ss !! i = Some ((k, e) :: s) →
  total_weight (drop_key k <$> ss) + entry_weight (k, e) ≤ total_weight ss ∧
  total (<[i := s]> ss) < total ss ∧ total (drop_key k <$> ss) < total ss.
Proof using Type.
  intros Hok Hi. unfold total, total_weight.
  pose proof (sum_insert weight ss i _ s Hi) as Hsw. rewrite weight_cons in Hsw.
  pose proof (sum_insert length ss i _ s Hi) as Hsl. cbn [length] in Hsl.
  pose proof (sum_drop_key weight k (<[i := s]> ss)) as Hdw.
  pose proof (sum_drop_key length k (<[i := s]> ss)) as Hdl.
  rewrite (drop_key_insert k e) in Hdw, Hdl by done.
  specialize (Hdw ltac:(intros; rewrite weight_cons; lia)).
  specialize (Hdl ltac:(intros; cbn; lia)). lia.
Qed.

(** What is written is below what is left. *)
Lemma below_drop es k e ss :
  Forall stream_ok ss → at_least k ss → below (es ++ [(k, e)]) (drop_key k <$> ss).
Proof using Type.
  intros Hok Hmin q s' p Hq Hs' Hp'. rewrite last_snoc in Hq. simplify_eq.
  apply list_elem_of_fmap in Hs' as (s0 & -> & Hs0).
  apply (drop_key_above k s0 p); [|by eapply (proj1 (Forall_forall _ _) Hmin)|done].
  by apply (proj1 (Forall_forall _ _) Hok).
Qed.

Lemma merge_loop_ok fuel c readers h w ss es fs :
  merge_state c readers h ss → Forall stream_ok ss → length ss ≤ 2 * c →
  writer_ok w es → below es ss →
  (Z.of_nat (weight es + total_weight ss) ≤ 2 ^ 60)%Z →
  fs !! sw_path w = Some (partial_file es) → total ss < fuel →
  ∃ w' out, merge_loop fuel c readers h w fs =
      (Ok w', <[sw_path w := partial_file (es ++ out)]> fs) ∧
    sw_path w' = sw_path w ∧ writer_ok w' (es ++ out) ∧
    (∀ k e, es_lookup out k = Some e ↔ wins c ss k e) ∧
    weight out ≤ total_weight ss.
Proof using All.
  revert readers h w ss es fs.
  induction fuel as [|fuel IH]; intros readers h w ss es fs Hst Hok Hn Hw Hb Hf Hc Ht; [lia|].
  cbn [merge_loop]. destruct (heap_pop item_cmp h) as [[x h']|] eqn:E; cycle 1.
  { apply heap_pop_None in E as ->. exists w, []. rewrite app_nil_r, insert_id by done.
    split_and!; [done..| |cbn; lia]. intros k e. split; [done|].
    intros (i & s & Hi & Hl & _). destruct s as [|[k' e'] s]; [done|].
    destruct Hst as [_ Hh]. apply Permutation_nil in Hh. exfalso.
    apply (not_elem_of_nil (MkMergeItem k' e' i (source_priority c i))). rewrite <-Hh.
    apply elem_of_heap_of. by exists i, ((k', e') :: s). }
  destruct Hst as [Hr Hh].
  destruct (heap_pop_heads c _ _ _ _ Hh E) as (s & Hi & Hx & Hp & Hmin & Hmax).
  set (k := mi_key x) in *. set (e := mi_entry x) in *. set (i := source x) in *.
  assert (Hin : ((k, e) :: s) ∈ ss) by (by eapply list_elem_of_lookup_2).
  pose proof (proj1 (Forall_forall _ _) Hok _ Hin) as [Hes Hss].
  inversion_clear Hes as [|? ? [Hk He] Hes'].
  destruct (sums_drop ss i k e s Hok Hi) as (Hdw & Hsl & Hdl).
  destruct (streaming_write_entry_ok w es k e fs) as (w1 & E1 & P1 & W1); try done.
  { intros q Hq. by apply (Hb q ((k, e) :: s) (k, e)); [| |left]. }
  { unfold fits. rewrite weight_app, weight_cons. cbn [weight sum_list_with]. lia. }
  destruct (advance_ok c _ _ _ _ _ _ _ Hr Hi Hx Hp) as (r1 & h1 & E2 & Hst1).
  destruct (skip_duplicates_ok (S fuel) c k r1 h1 _ Hst1) as (r2 & h2 & E3 & Hst2).
  { apply Forall_insert; [done|]. by split; [|inversion Hss]. }
  { apply Forall_insert; [done|]. intros p Hhd. apply str_le_lt_or_eq. left.
    apply (sorted_above _ _ _ Hss). destruct s; simplify_eq/=. left. }
  { lia. }
  rewrite (drop_key_insert k e) in Hst2 by done.
  destruct (IH r2 h2 w1 (drop_key k <$> ss) (es ++ [(k, e)])
    (<[sw_path w := partial_file (es ++ [(k, e)])]> fs)) as (w' & out & E4 & P4 & W4 & Hout & Hwt);
    [done| | |done| | | | |].
  { apply Forall_fmap. eapply Forall_impl; [exact Hok|]. intros; by apply drop_key_ok. }
  { by rewrite length_fmap. }
  { by apply below_drop. }
  { rewrite weight_app, weight_cons. cbn [weight sum_list_with]. lia. }
  { rewrite P1. apply lookup_insert_eq. }
  { lia. }
  exists w', ((k, e) :: out). split_and!.
  - erewrite bind_Ok by exact E1.
    erewrite bind_Ok by (unfold lift; by rewrite E2). cbn beta iota.
    erewrite bind_Ok by (unfold lift; by rewrite E3). cbn beta iota.
    rewrite E4, P1, insert_insert_eq. by rewrite <-app_assoc.
  - congruence.
  - by rewrite <-app_assoc in W4.
  - intros k' e'. cbn [es_lookup]. case_decide as D.
    + subst k'. rewrite (wins_least c ss k e i s e') by done. split; congruence.
    + by rewrite Hout, wins_drop_key.
  - rewrite weight_cons. lia.
Qed.

(** * From tables to a table *)

(** The newest version of a key, the tables given from the oldest to the newest. *)
Fixpoint newest (ss : list Entries) (k : str) : option Entry :=
  match ss with
  | [] => None
  | s :: ss' =>
      match newest ss' k with
      | Some e => Some e
      | None => es_lookup s k
      end
  end.

Lemma newest_app ss ss' k :
  newest (ss ++ ss') k =
  match newest ss' k with Some e => Some e | None => newest ss k end.
Proof using Type.
  induction ss as [|s ss IH]; cbn; [by destruct (newest ss' k)|].
  rewrite IH. by destruct (newest ss' k).
Qed.

Lemma newest_None ss k s : newest ss k = None → s ∈ ss → es_lookup s k = None.
Proof using Type.
  induction ss as [|s' ss IH]; [by intros _ ?%not_elem_of_nil|]. cbn.
  destruct (newest ss k); [done|]. intros Hl [->|Hin]%elem_of_cons; auto.
Qed.

Lemma newest_Some_lookup ss k e :
  newest ss k = Some e → ∃ j s, ss !! j = Some s ∧ es_lookup s k ≠ None.
Proof using Type.
  induction ss as [|s ss IH]; [done|]. cbn. destruct (newest ss k) as [e'|].
  - intros E. destruct (IH E) as (j & s' & Hj & Hs). by exists (S j), s'.
  - intros E. exists 0, s. by rewrite E.
Qed.

Lemma newest_Some ss k e :
  newest ss k = Some e ↔
  ∃ i s, ss !! i = Some s ∧ es_lookup s k = Some e ∧
    ∀ j s', ss !! j = Some s' → es_lookup s' k ≠ None → j ≤ i.
Proof using Type.
  induction ss as [|s ss IH]; cbn.
  { split; [done|]. by intros (i & s & Hi & _). }
  destruct (newest ss k) as [e'|] eqn:E.
  - split.
    + intros [= <-]. destruct IH as [IH _]. destruct IH as (i & s' & Hi & Hl & Hmax); [done|].
      exists (S i), s'. split_and!; [done..|]. intros [|j] s'' Hj Hs; [lia|].
      cbn in Hj. specialize (Hmax _ _ Hj Hs). lia.
    + intros (i & s' & Hi & Hl & Hmax). apply IH.
      destruct i as [|i]; cbn in Hi; [|exists i, s'; split_and!; [done..|]].
      * simplify_eq. destruct (newest_Some_lookup ss k _ E) as (j & s'' & Hj & Hs).
        specialize (Hmax (S j) s'' Hj Hs). lia.
      * intros j s'' Hj Hs. specialize (Hmax (S j) s'' Hj Hs). lia.
  - split.
    + intros Hl. exists 0, s. split_and!; [done..|]. intros [|j] s' Hj Hs; [lia|].
      cbn in Hj. destruct Hs. eapply newest_None; [done|]. by eapply list_elem_of_lookup_2.
    + intros ([|i] & s' & Hi & Hl & Hmax); cbn in Hi; [by simplify_eq|].
      rewrite (newest_None ss k s') in Hl; [done..|]. by eapply list_elem_of_lookup_2.
Qed.

Lemma wins_newest cur next k e :
  length next ≤ length cur →
  wins (length cur) (cur ++ next) k e ↔ newest (next ++ cur) k = Some e.
Proof using Type.
  intros Hn. rewrite newest_Some. unfold wins.
  set (c := length cur). set (n := length next) in *.
  (* the position in [next ++ cur] of what is at [i] in [cur ++ next] *)
  set (pos i := if decide (i < c) then n + i else i - c).
  set (inv i := if decide (i < n) then c + i else i - n).
  assert (Hpos : ∀ i, i < c + n → (next ++ cur) !! pos i = (cur ++ next) !! i).
  { intros i Hi. unfold pos. case_decide.
    - rewrite lookup_app_r, lookup_app_l by (fold n c; lia). f_equal. fold n. lia.
    - rewrite lookup_app_l, lookup_app_r by (fold n c; lia). done. }
  assert (Hlen : ∀ i s, (cur ++ next) !! i = Some s → i < c + n).
  { intros i s Hi%lookup_lt_Some. by rewrite length_app in Hi. }
  assert (Hinv : ∀ i s, (next ++ cur) !! i = Some s → inv i < c + n ∧ pos (inv i) = i).
  { intros i s Hi%lookup_lt_Some. rewrite length_app in Hi. fold n c in Hi.
    unfold pos, inv. repeat case_decide; lia. }
  assert (Hle : ∀ i j, i < c + n → j < c + n →
    source_priority c j ≤ source_priority c i ↔ pos j ≤ pos i).
  { intros i j Hi Hj. unfold pos, source_priority. repeat case_decide; lia. }
  split.
  - intros (i & s & Hi & Hl & Hmax). exists (pos i), s.
    rewrite Hpos by eauto. split_and!; [done..|]. intros j s' Hj Hs.
    destruct (Hinv _ _ Hj) as [Hb Hp]. rewrite <-Hp, Hpos in Hj by done.
    rewrite <-Hp. specialize (Hmax (inv j) s' Hj Hs).
    apply Hle; eauto.
  - intros (i & s & Hi & Hl & Hmax). destruct (Hinv _ _ Hi) as [Hb Hp].
    exists (inv i), s. rewrite <-Hp, Hpos in Hi by done. split_and!; [done..|].
    intros j s' Hj Hs. apply Hle; eauto. rewrite Hp.
    apply (Hmax (pos j) s'); [|done]. rewrite Hpos; eauto.
Qed.

(** Filling the heap with the first entry of every table. *)
Lemma merge_init_ok c i readers heap ss :
  Forall2 reads readers ss →
  ∃ readers' heap', merge_init c i readers heap = Ok (readers', heap') ∧
    Forall2 (λ r s, reads r (tail s)) readers' ss ∧
    heap' ≡ₚ heap ++ heap_of c i ss.
Proof using All.
  intros Hr. revert i heap. induction Hr as [|r s readers ss Hr _ IH]; intros i heap; cbn.
  { exists [], heap. rewrite app_nil_r. done. }
  destruct (sequential_next_reads _ _ Hr) as (r' & E & Hr'). rewrite E. cbn [mbind res_bind].
  set (heap1 := match head s with Some (k, e) => _ | None => heap end).
  destruct (IH (S i) heap1) as (rs' & h' & E' & Hrs & Hh). rewrite E'. cbn [mbind res_bind].
  exists (r' :: rs'), h'. split_and!; [done|by constructor|].
  rewrite Hh. subst heap1. destruct s as [|[k e] s]; cbn; [done|].
  apply Permutation_middle.
Qed.

Lemma total_bound readers ss :
  Forall2 (λ r s, reads r (tail s)) readers ss →
  total ss ≤ sum_list_with (λ r, length (sr_rest r)) readers +
             length (heap_of 0 0 ss).
Proof using Type.
  intros Hr. unfold total. generalize 0 at 2 as i.
  induction Hr as [|r s readers ss [_ _ [b Hb]] _ IH]; intros i; [done|].
  cbn [sum_list_with heap_of]. rewrite length_app. specialize (IH (S i)).
  assert (length (tail s) ≤ length (sr_rest r)).
  { rewrite Hb, length_app. clear. induction (tail s) as [|[k e] es IH]; [cbn; lia|].
    rewrite data_bytes_cons, length_app.
    pose proof (length_record_bytes k e). cbn in *. lia. }
  destruct s as [|[k e] s]; cbn in *; lia.
Qed.

Lemma length_heap_of c i ss : length (heap_of c i ss) = length (heap_of 0 0 ss).
Proof using Type.
  generalize 0 at 2 as j. revert i. induction ss as [|s ss IH]; intros i j; [done|].
  cbn. rewrite !length_app, (IH (S i) (S j)). f_equal. by destruct s as [|[]].
Qed.

Lemma merge_tables_ok path fs readers cur next :
  Forall2 reads readers (cur ++ next) → Forall stream_ok (cur ++ next) →
  length next ≤ length cur → (Z.of_nat (total_weight (cur ++ next)) ≤ 2 ^ 60)%Z →
  ∃ out bloom, merge_tables path (length cur) readers fs =
      (Ok (index_of HEADER_SIZE out), <[path := file_of out bloom]> fs) ∧
    table_file (file_of out bloom) out bloom ∧
    (∀ k, es_lookup out k = newest (next ++ cur) k) ∧
    weight out ≤ total_weight (cur ++ next).
Proof using All.
  intros Hr Hok Hn Hw. unfold merge_tables.
  destruct (streaming_create_ok path fs) as (w & E1 & P1 & W1).
  erewrite bind_Ok by exact E1.
  destruct (merge_init_ok (length cur) 0 readers [] _ Hr) as (rs & h & E2 & Hrs & Hh).
  cbn [app] in Hh. erewrite bind_Ok by (unfold lift; by rewrite E2). cbn beta iota.
  destruct (merge_loop_ok (merge_fuel rs h) (length cur) rs h w (cur ++ next) []
    (<[path := partial_file []]> fs)) as (w' & out & E3 & P3 & W3 & Hout & Hwt).
  { by split. }
  { done. }
  { rewrite length_app. lia. }
  { done. }
  { by intros q s p. }
  { cbn. lia. }
  { rewrite P1. apply lookup_insert_eq. }
  { pose proof (total_bound _ _ Hrs). unfold merge_fuel.
    rewrite Hh, length_heap_of. lia. }
  erewrite bind_Ok by exact E3. rewrite P1, insert_insert_eq.
  cbn [app] in *. destruct W3 as [Hi Ho [Hes Hs] Hb Hbits Hc].
  assert (Hf : fits out) by (unfold fits; lia).
  exists out, (sw_bloom_filter w'). split_and!; [|by split| |done].
  - unfold streaming_finish. rewrite Hi, Ho, P3, P1.
    rewrite write_tail_spec by (done || apply lookup_insert_eq).
    by rewrite insert_insert_eq.
  - intros k. apply option_eq. intros e. by rewrite Hout, wins_newest.
Qed.

(** C21: The merge of [current_len] tables of a level with at most as many
    tables of the next level ends, reports no error (in particular never
    "entries must be sorted") and leaves one well-formed sorted table, in
    which every key has its newest version: that of the current level's
    latest table that has the key, else that of the next level. *)
Theorem merge_newest_wins path fs readers cur next :
  Forall2 reads readers (cur ++ next) → Forall stream_ok (cur ++ next) →
  length next ≤ length cur → (Z.of_nat (total_weight (cur ++ next)) ≤ 2 ^ 60)%Z →
  ∃ out t fs', (i ← merge_tables path (length cur) readers;
                sstable_from_parts path i) fs = (Ok t, fs') ∧
    (∀ p, p ≠ path → fs' !! p = fs !! p) ∧
    load_entries_sequential path fs' = (Ok out, fs') ∧ es_sorted out ∧
    ∀ k, es_lookup out k = newest (next ++ cur) k ∧
         sstable_read_entry t k fs' = (Ok (newest (next ++ cur) k), fs').
Proof using All.
  intros Hr Hok Hn Hw.
  destruct (merge_tables_ok path fs readers cur next Hr Hok Hn Hw)
    as (out & b & E & Htf & Hl & _).
  exists out. eexists _, _. split.
  { erewrite bind_Ok by exact E. unfold sstable_from_parts.
    erewrite bind_Ok by (eapply load_bloom_filter_table; [done|apply lookup_insert_eq]).
    by erewrite bind_Ok by (apply fs_open_at; apply lookup_insert_eq). }
  split_and!.
  - intros p Hp. by rewrite lookup_insert_ne.
  - eapply load_entries_ok; [apply lookup_insert_eq|done].
  - apply Htf.
  - intros k. split; [done|]. rewrite <-Hl. apply sstable_read_entry_ok.
    eexists. split_and!; [apply lookup_insert_eq|done|done].
Qed.

End merging.

Lemma merge_newest_wins_witness :
  let _ := bits_text in let _ := micro_math in let _ : Xxh3 := from_le in
  let old := [(lit "a", ESet (Int 1)); (lit "b", ESet (Int 2))] in
  let new := [(lit "b", EDelete)] in
  let reader es := {| sr_rest := data_bytes es; entries_read := 0;
                      sr_entry_count := Z.of_nat (length es) |} in
  ∃ out t fs', (i ← merge_tables (lit "t") 1 [reader new; reader old];
                sstable_from_parts (lit "t") i) ∅ = (Ok t, fs') ∧
    (∀ p, p ≠ lit "t" → fs' !! p = (∅ : FS) !! p) ∧
    load_entries_sequential (lit "t") fs' = (Ok out, fs') ∧ es_sorted out ∧
    ∀ k, es_lookup out k = newest ([old] ++ [new]) k ∧
         sstable_read_entry t k fs' = (Ok (newest ([old] ++ [new]) k), fs').
Proof.
  intros HT HM HX old new reader.
  assert (Hnew : entries_ok new) by (repeat constructor; vm_compute; intuition congruence).
  assert (Hold : entries_ok old) by (repeat constructor; vm_compute; intuition congruence).
  apply (merge_newest_wins (HT := bits_text) (HM := micro_math) (HX := from_le)
    (F64TextLaws0 := bits_text_laws) (F64MathLaws0 := micro_math_laws)
    (H := micro_dims) (lit "t") ∅ _ [new] [old]).
  - repeat constructor; try done; exists []; by rewrite app_nil_r.
  - repeat constructor; try done.
  - done.
  - by vm_compute.
Defined.
