(* ===== verification/Database.v ===== *)
(** [src/database/{mod,flush,compact,recovery}.rs]: the LSM database, a
    write-ahead log and a memtable in front of levels of SSTables.

    Here the operations run one after the other; [Concurrent.v] cuts them at
    the locks of the source. The directory is a map from names to contents; the log file in it is
    held by the [Logger], [dir_of] puts the two together again. *)

From S2P Require Import Prelude Bytes Float LogRecord Logger Format Bloom Index.
From S2P Require Import SSTable Heap Merge.

Record Config : Type := MkConfig {
  cfg_sstable_level : nat;
  cfg_data_threshold : nat;
  cfg_sstable_threshold : nat;
}.

(** [Config::new] and [From<(usize, usize, usize)>], which is what [Into<Config>]
    uses. *)
Definition config_new (sstable_level data_threshold sstable_threshold : nat) : Config :=
  {| cfg_sstable_level := sstable_level; cfg_data_threshold := data_threshold;
     cfg_sstable_threshold := sstable_threshold |}.
Definition config_from (x : nat * nat * nat) : Config := config_new x.1.1 x.1.2 x.2.

(** [Config::default]. *)
Definition default_config : Config :=
  {| cfg_sstable_level := 2; cfg_data_threshold := 2; cfg_sstable_threshold := 3 |}.

Record Database : Type := MkDatabase {
  dir : FS;
  data : gmap str Entry;
  log : Logger;
  leveled_sstable : list (list SSTable);
  data_threshold : nat;
  sstable_threshold : nat;
  next_sstable_id : Z;
  total_compactions : Z;
}.

#[export] Instance eta_Database : Eta Database := λ d,
  MkDatabase (dir d) (data d) (log d) (leveled_sstable d) (data_threshold d)
    (sstable_threshold d) (next_sstable_id d) (total_compactions d).
#[export] Instance upd_dir : Upd dir. Proof. derive_upd. Defined.
#[export] Instance upd_data : Upd data. Proof. derive_upd. Defined.
#[export] Instance upd_log : Upd log. Proof. derive_upd. Defined.
#[export] Instance upd_leveled_sstable : Upd leveled_sstable. Proof. derive_upd. Defined.
#[export] Instance upd_next_sstable_id : Upd next_sstable_id. Proof. derive_upd. Defined.
#[export] Instance upd_total_compactions : Upd total_compactions. Proof. derive_upd. Defined.

(** * File names *)

Definition log_name : bytes := lit "database.log".

(** [format!("sstable_{id}.sst")]. *)
Definition sst_name (id : Z) : bytes := lit "sstable_" ++ int_to_string id ++ lit ".sst".

Definition strip_prefix (p s : bytes) : option bytes :=
  if decide (take (length p) s = p) then Some (drop (length p) s) else None.
Definition strip_suffix (p s : bytes) : option bytes :=
  let n := length s - length p in
  if decide (length p ≤ length s ∧ drop n s = p) then Some (take n s) else None.

Definition sst_id (name : bytes) : option Z :=
  name ← strip_prefix (lit "sstable_") name;
  name ← strip_suffix (lit ".sst") name;
  parse_u32 name.

(** [fetch_add(1)] on [next_sstable_id], giving the old value. *)
Definition fetch_sstable_id : M Database Z :=
  id ← gets next_sstable_id;
  modify (λ d, d <| next_sstable_id := wrap 32 (id + 1) |>);;
  mret id.

(** [levels[i].f]. *)
Definition level_at (i : nat) : M Database (list SSTable) :=
  levels ← gets leveled_sstable;
  lift (expect "index out of bounds" (levels !! i)).

Definition key_order (a b : str * Entry) : Prop := str_le a.1 b.1.
#[export] Instance key_order_dec : RelDecision key_order.
Proof. intros a b. unfold key_order. apply _. Defined.

Section database.
Context `{F64Text} `{F64Math} `{Xxh3}.

(** * [flush.rs] *)

(** Writing the memtable to a table of its own ([None]: it is empty). *)
Definition flush_write : M Database (option SSTable) :=
  entries ← gets (λ d, map_to_list (data d));
  if decide (entries = []) then mret None else
  id ← fetch_sstable_id;
  let file_name := sst_name id in
  sstable ← zoom dir (sstable_new file_name);
  let entries := merge_sort key_order entries in
  sstable ← zoom dir (sstable_write_entries sstable entries);
  mret (Some sstable).

(** The table is published, then the log and the memtable are cleared. *)
Definition flush_publish (sstable : SSTable) : M Database () :=
  levels ← gets leveled_sstable;
  match levels with
  | [] => mret ()
  | level0 :: levels' =>
      modify (λ d, d <| leveled_sstable := (level0 ++ [sstable]) :: levels' |>);;
      zoom log truncate;;
      modify (λ d, d <| data := ∅ |>)
  end.

Definition flush_memory_to_disk : M Database () :=
  o ← flush_write;
  match o with
  | None => mret ()
  | Some sstable => flush_publish sstable
  end.

Definition maybe_flush : M Database () :=
  d ← get;
  when (bool_decide (data_threshold d ≤ size (data d))) flush_memory_to_disk.

(** * [compact.rs] *)

(** Open one sequential reader for every input. *)
Fixpoint open_readers (tables : list SSTable) : M FS (list SequentialReader) :=
  match tables with
  | [] => mret []
  | t :: tables' =>
      r ← sequential_open (file_name t);
      rs ← open_readers tables';
      mret (r :: rs)
  end.

(** The tables of two neighbouring levels, newest level first ([None]: there is
    nothing to compact). *)
Definition snapshot_levels (level : nat) : M Database (option (list SSTable * list SSTable)) :=
  levels ← gets leveled_sstable;
  if decide (length levels ≤ level + 1) then mret None else
  current_level ← level_at level;
  if decide (current_level = []) then mret None else
  next_level ← level_at (level + 1);
  mret (Some (current_level, next_level)).

(** Merging them into a new table. *)
Definition write_compacted (current_level next_level : list SSTable) : M Database SSTable :=
  readers ← zoom dir (open_readers (current_level ++ next_level));
  id ← fetch_sstable_id;
  let compacted_path := sst_name id in
  index ← zoom dir (merge_tables compacted_path (length current_level) readers);
  zoom dir (sstable_from_parts compacted_path index).

(** [levels[i].drain(0..n)]. *)
Definition drain_front (n i : nat) (levels : list (list SSTable)) : res (list (list SSTable)) :=
  match levels !! i with
  | None => Panic "index out of bounds"
  | Some l => if decide (length l < n) then Panic "range end index out of range"
              else Ok (<[i := drop n l]> levels)
  end.

(** Publishing it in their place ([false]: the levels are gone). *)
Definition swap_levels (level current_len next_len : nat) (compacted : SSTable)
    : M Database bool :=
  levels ← gets leveled_sstable;
  if decide (length levels ≤ level + 1) then mret false else
  levels ← lift (drain_front current_len level levels);
  levels ← lift (drain_front next_len (level + 1) levels);
  let levels := alter (λ l, l ++ [compacted]) (level + 1) levels in
  modify (λ d, d <| leveled_sstable := levels |>);;
  mret true.

(** [compact_level] up to the publication of the new table; the files that
    are to be removed then ([None]: an early return). *)
Definition compact_publish (level : nat) : M Database (option (list bytes)) :=
  o ← snapshot_levels level;
  match o with
  | None => mret None
  | Some (current_level, next_level) =>
      compacted ← write_compacted current_level next_level;
      b ← swap_levels level (length current_level) (length next_level) compacted;
      mret (if b : bool then Some (file_name <$> current_level ++ next_level) else None)
  end.

Definition remove_files (paths : list bytes) : M Database () :=
  for_each paths (λ path, zoom dir (fs_remove path)).

Definition compact_level (level : nat) : M Database () :=
  o ← compact_publish level;
  match o with
  | None => mret ()
  | Some old_paths =>
      remove_files old_paths;;
      modify (λ d, d <| total_compactions := wrap 64 (total_compactions d + 1) |>)
  end.

(** Which levels [maybe_compact] compacts: each with its number. *)
Definition should_compact (threshold : nat) (levels : list (list SSTable)) : list (nat * bool) :=
  imap pair ((λ l : list SSTable, bool_decide (threshold ≤ length l)) <$>
               take (length levels - 1) levels).

Definition maybe_compact : M Database () :=
  levels ← gets leveled_sstable;
  if decide (length levels < 2) then mret () else
  threshold ← gets sstable_threshold;
  for_each (should_compact threshold levels)
    (λ '(level, should), when should (compact_level level)).

(** * [mod.rs] *)

(** [Database::insert]. *)
Definition insert (key : str) (value : Value) : M Database () :=
  zoom log (Logger.log (Set_ key value));;
  modify (λ d, d <| data := <[key := ESet value]> (data d) |>);;
  maybe_flush;;
  maybe_compact.

(** [Database::delete]. *)
Definition delete (key : str) : M Database () :=
  zoom log (Logger.log (Delete key));;
  modify (λ d, d <| data := <[key := EDelete]> (data d) |>);;
  maybe_flush;;
  maybe_compact.

Definition entry_value (e : Entry) : option Value :=
  match e with ESet v => Some v | EDelete => None end.

(** The search of [get] through tables, in the order given. *)
Fixpoint search (tables : list SSTable) (key : str) : M FS (option Entry) :=
  match tables with
  | [] => mret None
  | t :: tables' =>
      o ← sstable_read_entry t key;
      match o with
      | Some e => mret (Some e)
      | None => search tables' key
      end
  end.

(** [Database::get]. *)
Definition get (key : str) : M Database (option Value) :=
  d ← Prelude.get;
  match data d !! key with
  | Some entry => mret (entry_value entry)
  | None =>
      o ← zoom dir (search (mjoin (reverse <$> leveled_sstable d)) key);
      mret (o ≫= entry_value)
  end.

(** * [recovery.rs] *)

(** The loop of [load_sstables] over the sorted ids. *)
Definition load_sstable (id : Z) : M Database () :=
  sstable ← zoom dir (sstable_open (sst_name id));
  level0 ← level_at 0;
  modify (λ d, d <| leveled_sstable :=
    <[0 := level0 ++ [sstable]]> (leveled_sstable d) |>);;
  modify (λ d, d <| next_sstable_id := Z.max (next_sstable_id d) (wrap 32 (id + 1)) |>).

Definition load_sstables : M Database () :=
  names ← gets (λ d, (map_to_list (dir d)).*1);
  let ids := merge_sort Z.le (omap sst_id names) in
  levels ← gets leveled_sstable;
  if decide (levels = []) then mret () else
  for_each ids load_sstable.

(** Replaying one record of the log. *)
Definition replay (m : gmap str Entry) (c : Command) : gmap str Entry :=
  match c with
  | Set_ key value => <[key := ESet value]> m
  | Delete key => <[key := EDelete]> m
  end.

Definition recover : M Database () :=
  records ← zoom log read_records;
  modify (λ d, d <| data := foldl replay (data d) (command <$> records) |>).

(** What is on disk under a running database. *)
Definition dir_of (d : Database) : FS := <[log_name := file (log d)]> (dir d).

(** [Database::open_in_dir]; the state is the directory. *)
Definition open_in_dir (config : Config) : M FS Database :=
  fs ← Prelude.get;
  logger ← lift (Logger.new (default [] (fs !! log_name)));
  modify (λ fs, <[log_name := file logger]> fs);;
  let database :=
    {| dir := base.delete log_name fs; data := ∅; log := logger;
       leveled_sstable := replicate (cfg_sstable_level config) [];
       data_threshold := cfg_data_threshold config;
       sstable_threshold := cfg_sstable_threshold config;
       next_sstable_id := 0; total_compactions := 0 |} in
  '(_, database) ← lift (run_on (load_sstables;; recover) database);
  modify (λ _, dir_of database);;
  mret database.

(** [Database::new], in a new directory. *)
Definition database_new (config : Config) : res Database :=
  '(database, _) ← run_on (open_in_dir config) ∅; mret database.

(** [Database::disk_usage_bytes]. *)
Definition disk_usage_bytes (d : Database) : Z :=
  map_fold (λ _ c n, (n + Z.of_nat (length c))%Z) 0%Z (dir_of d).

End database.
