(* ===== verification/DatabaseSpec.v ===== *)
(** What a [Database] promises: it is a map from keys to values. The memtable,
    the log and the levels of tables refine it through every flush and every
    compaction, and the directory alone gives it back. *)

From S2P Require Import Prelude Bytes Float LogRecord Logger Format Bloom Index.
From S2P Require Import SSTable SSTableSpec Heap Merge MergeSpec Database.

(** * File names *)

Lemma strip_prefix_app p s : strip_prefix p (p ++ s) = Some s.
Proof.
  unfold strip_prefix. by rewrite take_app_length, decide_True, drop_app_length.
Qed.

Lemma strip_suffix_app p s : strip_suffix p (s ++ p) = Some s.
Proof.
  unfold strip_suffix. rewrite length_app, Nat.add_sub.
  rewrite drop_app_length, take_app_length, decide_True; [done|]. split; [lia|done].
Qed.

Lemma sst_id_name id : in_u32 id → sst_id (sst_name id) = Some id.
Proof.
  intros Hid. unfold sst_id, sst_name.
  rewrite strip_prefix_app. cbn [mbind option_bind].
  rewrite strip_suffix_app. cbn [mbind option_bind]. by apply parse_u32_to_string.
Qed.

Lemma sst_name_inj id id' : in_u32 id → in_u32 id' → sst_name id = sst_name id' → id = id'.
Proof.
  intros H1 H2 E. apply sst_id_name in H1, H2. rewrite E in H1. congruence.
Qed.

Lemma sst_name_ne_log id : sst_name id ≠ log_name.
Proof. by unfold sst_name, log_name. Qed.

(** * Running programs on a field *)

Lemma zoom_Ok {S T} (p : S → T) `{!Upd p} {A} (m : M T A) s a t :
  m (p s) = (Ok a, t) → zoom p m s = (Ok a, s <| p := t |>).
Proof. unfold zoom. by intros ->. Qed.

(** * The entries of a memtable *)

Section memtable.
Context `{HT : F64Text}.

Definition sorted_entries (m : gmap str Entry) : Entries :=
  merge_sort key_order (map_to_list m).

#[export] Instance key_order_total : Total key_order.
Proof using Type. intros a b. apply str_le_total. Qed.
#[export] Instance key_order_trans : Transitive key_order.
Proof using Type. intros a b c. apply str_le_trans. Qed.

Lemma sorted_entries_perm m : sorted_entries m ≡ₚ map_to_list m.
Proof using Type. apply merge_sort_Permutation. Qed.

Lemma sorted_entries_sorted m : es_sorted (sorted_entries m).
Proof using Type.
  assert (Hs : StronglySorted key_order (sorted_entries m))
    by (apply StronglySorted_merge_sort; apply _).
  assert (Hnd : NoDup (sorted_entries m).*1)
    by (rewrite sorted_entries_perm; apply NoDup_fst_map_to_list).
  induction Hs as [|p es Hs IH Hall]; [constructor|].
  cbn in Hnd. apply NoDup_cons in Hnd as [Hp Hnd]. constructor; [by apply IH|].
  rewrite Forall_forall in Hall |- *. intros q Hq.
  destruct (proj1 (str_le_lt_or_eq _ _) (Hall q Hq)) as [?|E]; [done|].
  destruct Hp. rewrite E. by apply list_elem_of_fmap_2.
Qed.

Lemma sorted_entries_lookup m k : es_lookup (sorted_entries m) k = m !! k.
Proof using Type.
  apply option_eq. intros e.
  rewrite es_lookup_sorted by apply sorted_entries_sorted.
  by rewrite sorted_entries_perm, elem_of_map_to_list.
Qed.

Definition mem_weight (m : gmap str Entry) : nat := weight (map_to_list m).

#[export] Instance weight_proper : Proper ((≡ₚ) ==> (=)) weight.
Proof using Type.
  intros es es' Hp. unfold weight. induction Hp; cbn; lia.
Qed.

Lemma sorted_entries_weight m : weight (sorted_entries m) = mem_weight m.
Proof using Type. by rewrite sorted_entries_perm. Qed.

Lemma mem_weight_insert m k e :
  mem_weight (<[k := e]> m) ≤ entry_weight (k, e) + mem_weight m.
Proof using Type.
  unfold mem_weight. destruct (m !! k) as [e0|] eqn:E.
  - rewrite <-(insert_delete_id m k e0 E) at 2.
    rewrite <-insert_delete_eq, !map_to_list_insert by apply lookup_delete_eq.
    rewrite !weight_cons. lia.
  - by rewrite map_to_list_insert, weight_cons by done.
Qed.

Lemma entries_ok_sorted m :
  map_Forall (λ k e, key_ok k ∧ entry_ok e) m → entries_ok (sorted_entries m).
Proof using Type.
  intros Hm. apply Forall_forall. intros [k e] Hp.
  rewrite sorted_entries_perm, elem_of_map_to_list in Hp. by apply (Hm k e).
Qed.

Definition command_entry (c : Command) : Entry :=
  match c with Set_ _ v => ESet v | Delete _ => EDelete end.

Lemma replay_insert m c : replay m c = <[command_key c := command_entry c]> m.
Proof using Type. by destruct c. Qed.

Lemma replay_ok cs m :
  Forall command_ok cs → map_Forall (λ k e, key_ok k ∧ entry_ok e) m →
  map_Forall (λ k e, key_ok k ∧ entry_ok e) (foldl replay m cs).
Proof using Type.
  intros Hcs. revert m. induction Hcs as [|c cs [Hk Hv] _ IH]; intros m Hm; [done|].
  cbn. apply IH. rewrite replay_insert. apply map_Forall_insert_2; [|done].
  split; [done|]. by destruct c.
Qed.

End memtable.

(** * The invariant *)

(** The tables of a database: their ids and entries, level by level, the
    oldest of a level first. *)
Abbreviation Tables := (list (list (Z * Entries))).

(** All tables, oldest first: the deeper levels are older. *)
Definition history (tbls : Tables) : list (Z * Entries) := mjoin (reverse tbls).

Definition view (m : gmap str Entry) (tbls : Tables) (k : str) : option Entry :=
  match m !! k with
  | Some e => Some e
  | None => newest (history tbls).*2 k
  end.

Definition tables_weight `{F64Text} (tbls : Tables) : nat :=
  sum_list_with (λ p, weight p.2) (history tbls).

(** [t] is the open table of the file with this id. *)
Definition table_of `{F64Text} `{Xxh3} (fs : FS) (t : SSTable) (p : Z * Entries) : Prop :=
  file_name t = sst_name p.1 ∧ sstable_ok fs t p.2.

Section invariant.
Context `{HT : F64Text} `{HX : Xxh3}.

(** The levels of [d] are the tables [tbls]. *)
Record tables_inv (d : Database) (tbls : Tables) : Prop := {
  ti_tables : Forall2 (Forall2 (table_of (dir d))) (leveled_sstable d) tbls;
  ti_levels : tbls ≠ [];
  ti_deep : Forall (λ l, length l ≤ 1) (tail tbls);
  ti_ids : Forall (λ id, 0 ≤ id < next_sstable_id d)%Z (history tbls).*1;
  ti_nodup : NoDup (history tbls).*1;
  ti_next : (0 ≤ next_sstable_id d ≤ u32_max)%Z;
}.

(** The same, and the log, the memtable and the other files of the directory,
    when no operation is on the way. *)
Record db_inv (d : Database) (cs : list Command) (tbls : Tables) : Prop := {
  di_wal : wal_ok (log d) cs;
  di_data : data d = foldl replay ∅ cs;
  di_tables : Forall2 (Forall2 (table_of (dir d))) (leveled_sstable d) tbls;
  di_levels : tbls ≠ [];
  di_deep : Forall (λ l, length l ≤ 1) (tail tbls);
  di_ids : Forall (λ id, 0 ≤ id < next_sstable_id d)%Z (history tbls).*1;
  di_nodup : NoDup (history tbls).*1;
  di_next : (0 ≤ next_sstable_id d ≤ u32_max)%Z;
  di_log : dir d !! log_name = None;
  di_files name id : is_Some (dir d !! name) → sst_id name = Some id →
    ∃ id', id' ∈ (history tbls).*1 ∧ name = sst_name id';
}.

Lemma db_inv_tables d cs tbls : db_inv d cs tbls → tables_inv d tbls.
Proof using Type. by intros []. Qed.

(** The ids follow the age of the tables. *)
Definition recent (tbls : Tables) : Prop := StronglySorted Z.lt (history tbls).*1.

Lemma history_cons l tbls : history (l :: tbls) = history tbls ++ l.
Proof using Type.
  unfold history. rewrite reverse_cons, join_app. cbn. by rewrite app_nil_r.
Qed.

Lemma history_push l p tbls : history ((l ++ [p]) :: tbls) = history (l :: tbls) ++ [p].
Proof using Type. by rewrite !history_cons, app_assoc. Qed.

Lemma history_app tbls tbls' : history (tbls ++ tbls') = history tbls' ++ history tbls.
Proof using Type. unfold history. by rewrite reverse_app, join_app. Qed.

Lemma Forall2_history fs levels tbls :
  Forall2 (Forall2 (table_of fs)) levels tbls →
  Forall2 (table_of fs) (mjoin (reverse levels)) (history tbls).
Proof using Type.
  intros H. unfold history. apply Forall2_join. by apply Forall2_reverse.
Qed.

(** The order in which [get] searches is the history backwards. *)
Lemma join_reverse_levels {A} (ls : list (list A)) :
  mjoin (reverse <$> ls) = reverse (mjoin (reverse ls)).
Proof using Type.
  induction ls as [|l ls IH]; [done|].
  change (reverse l ++ mjoin (reverse <$> ls) = reverse (mjoin (reverse (l :: ls)))).
  rewrite IH, reverse_cons, join_app. cbn [mjoin list_join].
  by rewrite app_nil_r, reverse_app.
Qed.

End invariant.

(** * Point reads *)

Section reads_.
Context `{HT : F64Text} `{HM : F64Math} `{HX : Xxh3}
  `{!F64TextLaws HT} `{!F64MathLaws HM} `{!BloomDims}.

Lemma newest_snoc ss s k :
  newest (ss ++ [s]) k = match es_lookup s k with Some e => Some e | None => newest ss k end.
Proof using Type. rewrite newest_app. cbn. by destruct (es_lookup s k). Qed.

Lemma search_ok fs tables hist k :
  Forall2 (table_of fs) tables hist →
  search (reverse tables) k fs = (Ok (newest hist.*2 k), fs).
Proof using All.
  intros H1. apply Forall2_reverse in H1.
  rewrite <-(reverse_involutive hist) at 1. revert H1.
  generalize (reverse tables), (reverse hist). clear tables hist.
  intros ts hs Ht. induction Ht as [|t p ts hs [Hn Hs] _ IH]; [done|].
  cbn [search]. erewrite bind_Ok by (by apply sstable_read_entry_ok).
  rewrite reverse_cons, fmap_app. cbn [fmap list_fmap]. rewrite newest_snoc.
  destruct (es_lookup p.2 k); [done|]. exact IH.
Qed.

Lemma get_ok d tbls k :
  tables_inv d tbls →
  get k d = (Ok (view (data d) tbls k ≫= entry_value), d).
Proof using All.
  intros Hd. unfold get, view. erewrite bind_Ok by done.
  destruct (data d !! k) as [e|]; [done|].
  erewrite bind_Ok; [done|]. rewrite join_reverse_levels.
  erewrite zoom_Ok; cycle 1.
  { apply search_ok, Forall2_history, Hd. }
  by destruct d.
Qed.

End reads_.

(** * Background work: flushes and compactions *)

Section background.
Context `{HT : F64Text} `{HM : F64Math} `{HX : Xxh3}
  `{!F64TextLaws HT} `{!F64MathLaws HM} `{!BloomDims}.

(** A change of representation that takes at most [n] table ids. *)
Record db_step (n : Z) (d : Database) (cs : list Command) (tbls : Tables)
    (d' : Database) (cs' : list Command) (tbls' : Tables) : Prop := {
  ds_inv : db_inv d' cs' tbls';
  ds_view k : view (data d') tbls' k = view (data d) tbls k;
  ds_weight : mem_weight (data d') + tables_weight tbls' ≤
              mem_weight (data d) + tables_weight tbls;
  ds_next : (next_sstable_id d ≤ next_sstable_id d' ≤ next_sstable_id d + n)%Z;
  ds_log : length cs' ≤ length cs;
  ds_levels : length tbls' = length tbls;
  ds_sstable_threshold : sstable_threshold d' = sstable_threshold d;
  ds_data_threshold : data_threshold d' = data_threshold d;
}.

Lemma db_step_refl d cs tbls n : (0 ≤ n)%Z → db_inv d cs tbls → db_step n d cs tbls d cs tbls.
Proof using Type. intros ? Hd. split; try done; lia. Qed.

Lemma db_step_trans n1 n2 d1 cs1 t1 d2 cs2 t2 d3 cs3 t3 :
  db_step n1 d1 cs1 t1 d2 cs2 t2 → db_step n2 d2 cs2 t2 d3 cs3 t3 →
  db_step (n1 + n2) d1 cs1 t1 d3 cs3 t3.
Proof using Type.
  intros [] []. split; try congruence; try lia; done.
Qed.

Lemma elem_of_history p (tbls : Tables) : p ∈ history tbls ↔ ∃ l, l ∈ tbls ∧ p ∈ l.
Proof using Type.
  unfold history. rewrite list_elem_of_join. setoid_rewrite elem_of_reverse.
  split; intros (l & ? & ?); eauto.
Qed.

Lemma tables_frame fs fs' levels (tbls : Tables) :
  Forall2 (Forall2 (table_of fs)) levels tbls →
  (∀ id, id ∈ (history tbls).*1 → fs' !! sst_name id = fs !! sst_name id) →
  Forall2 (Forall2 (table_of fs')) levels tbls.
Proof using Type.
  intros Ht Hfs.
  assert (Forall (λ l, Forall (λ p, p.1 ∈ (history tbls).*1) l) tbls) as Hin.
  { apply Forall_forall. intros l Hl. apply Forall_forall. intros p Hp.
    apply list_elem_of_fmap_2, elem_of_history. eauto. }
  clear -Ht Hfs Hin. revert Hin Hfs. generalize ((history tbls).*1). intros ids Hin Hfs.
  induction Ht as [|ts l levels tbls Hl _ IH]; [constructor|].
  inversion_clear Hin as [|? ? Hl' Hin']. constructor; [|by apply IH].
  clear -Hl Hl' Hfs. induction Hl as [|t p ts l [Hn Hs] _ IH]; [constructor|].
  inversion_clear Hl'. constructor; [|by apply IH].
  split; [done|]. eapply sstable_ok_frame; [done|]. rewrite Hn. auto.
Qed.

Lemma in_u32_id d tbls id :
  tables_inv d tbls → id ∈ (history tbls).*1 →
  in_u32 id ∧ (id < next_sstable_id d)%Z.
Proof using Type.
  intros Hd Hid. pose proof (ti_ids _ _ Hd) as Hf. rewrite Forall_forall in Hf.
  specialize (Hf id Hid). pose proof (ti_next _ _ Hd) as Hn.
  unfold in_u32, in_u, u32_max in *. lia.
Qed.

Lemma in_u32_next d tbls : tables_inv d tbls → in_u32 (next_sstable_id d).
Proof using Type.
  intros Hd. pose proof (ti_next _ _ Hd) as Hn.
  unfold in_u32, in_u, u32_max in *. lia.
Qed.

(** The name of the next table is not in use. *)
Lemma next_name_fresh d tbls id :
  tables_inv d tbls → id ∈ (history tbls).*1 → sst_name id ≠ sst_name (next_sstable_id d).
Proof using Type.
  intros Hd Hid E. destruct (in_u32_id _ _ _ Hd Hid) as [H1 H2].
  apply sst_name_inj in E; [lia|done|]. by eapply in_u32_next.
Qed.

Lemma fetch_sstable_id_ok d :
  (0 ≤ next_sstable_id d < u32_max)%Z →
  fetch_sstable_id d =
  (Ok (next_sstable_id d), d <| next_sstable_id := (next_sstable_id d + 1)%Z |>).
Proof using Type.
  intros Hn. unfold fetch_sstable_id. exec.
  rewrite wrap_small by (unfold in_u, u32_max in *; lia). done.
Qed.

Lemma tables_weight_cons l (tbls : Tables) :
  tables_weight (l :: tbls) = tables_weight tbls + sum_list_with (λ p, weight p.2) l.
Proof using Type. unfold tables_weight. by rewrite history_cons, sum_list_with_app. Qed.

Lemma db_inv_entries d cs tbls :
  db_inv d cs tbls → map_Forall (λ k e, key_ok k ∧ entry_ok e) (data d).
Proof using Type.
  intros Hd. rewrite (di_data _ _ _ Hd). apply replay_ok; [apply Hd|]. apply map_Forall_empty.
Qed.

(** What [flush_write] leaves on disk. *)
Lemma flush_write_ok d :
  map_Forall (λ k e, key_ok k ∧ entry_ok e) (data d) → (Z.of_nat (mem_weight (data d)) ≤ 2 ^ 60)%Z →
  (0 ≤ next_sstable_id d < u32_max)%Z → data d ≠ ∅ →
  let id := next_sstable_id d in
  ∃ t c, flush_write d =
      (Ok (Some t), d <| next_sstable_id := (id + 1)%Z |>
                      <| dir := <[sst_name id := c]> (dir d) |>) ∧
    table_of (<[sst_name id := c]> (dir d)) t (id, sorted_entries (data d)).
Proof using All.
  intros Hd Hw Hn Hne id. unfold flush_write. erewrite bind_Ok by done.
  rewrite decide_False by (by rewrite map_to_list_empty_iff).
  erewrite bind_Ok by (apply fetch_sstable_id_ok; lia). fold id.
  destruct (sstable_new_ok (sst_name id) (dir d)) as (t0 & E0 & N0).
  erewrite bind_Ok by (apply zoom_Ok; exact E0).
  destruct (sstable_write_entries_ok t0 (sorted_entries (data d))
    (<[sst_name id := write_header empty_header]> (dir d))) as (t & c & E1 & N1 & Ht).
  { by apply entries_ok_sorted. }
  { apply sorted_entries_sorted. }
  { unfold fits. by rewrite sorted_entries_weight. }
  rewrite N0 in N1. rewrite N0, insert_insert_eq in E1, Ht.
  exists t, c. erewrite bind_Ok by (apply zoom_Ok; exact E1).
  split; [reflexivity|]. by split.
Qed.

(** The files of the tables are not touched by a new one. *)
Lemma new_file_frame d tbls c id' :
  tables_inv d tbls → id' ∈ (history tbls).*1 →
  <[sst_name (next_sstable_id d) := c]> (dir d) !! sst_name id' = dir d !! sst_name id'.
Proof using Type.
  intros Hd Hid. rewrite lookup_insert_ne; [done|]. symmetry. by eapply next_name_fresh.
Qed.

(** ** Changes of the tables *)

Lemma table_of_frame fs fs' t p :
  fs' !! file_name t = fs !! file_name t → table_of fs t p → table_of fs' t p.
Proof using Type. intros E [Hn Ht]. split; [done|]. by eapply sstable_ok_frame. Qed.

Lemma history_at (pre : Tables) a b post :
  history (pre ++ a :: b :: post) = history post ++ (b ++ a) ++ history pre.
Proof using Type. by rewrite history_app, !history_cons, <-!app_assoc. Qed.

(** A new table at the end of level 0. *)
Lemma tables_push d d' ps0 pss ts0 tss t id es :
  tables_inv d (ps0 :: pss) → leveled_sstable d = ts0 :: tss →
  leveled_sstable d' = (ts0 ++ [t]) :: tss →
  (∀ id', id' ∈ (history (ps0 :: pss)).*1 → dir d' !! sst_name id' = dir d !! sst_name id') →
  table_of (dir d') t (id, es) → (0 ≤ id < next_sstable_id d')%Z →
  id ∉ (history (ps0 :: pss)).*1 →
  (next_sstable_id d ≤ next_sstable_id d' ≤ u32_max)%Z →
  tables_inv d' ((ps0 ++ [(id, es)]) :: pss).
Proof using Type.
  intros [Htb Hlv Hdeep Hids Hnd Hnx] El El' Hframe Ht Hid Hnew Hn.
  eapply tables_frame in Htb; [|exact Hframe]. rewrite El in Htb.
  apply Forall2_cons in Htb as [Hts0 Htss].
  split; rewrite ?El', ?history_push, ?fmap_app; try done.
  - constructor; [|done]. apply Forall2_app; [done|]. constructor; [done|constructor].
  - apply Forall_app. split; [eapply Forall_impl; [exact Hids|]; cbn; lia|].
    by apply Forall_singleton.
  - apply NoDup_app. split_and!; [done| |apply NoDup_singleton].
    intros id' Hin ->%list_elem_of_singleton. done.
  - lia.
Qed.

(** The ids of tables that are merged, and of the others. *)
Lemma taken_ids d tbls pre cur extra next post id :
  tables_inv d tbls → tbls = pre ++ (cur ++ extra) :: next :: post → id ∈ (cur ++ next).*1 →
  (0 ≤ id < next_sstable_id d)%Z ∧ id ∈ (history tbls).*1 ∧
  id ∉ (history (pre ++ extra :: post)).*1.
Proof using Type.
  intros [_ _ _ Hids Hnd _] Etb Hin.
  assert (Hin' : id ∈ (history tbls).*1).
  { rewrite Etb, history_at, !fmap_app, !elem_of_app in *. tauto. }
  rewrite Forall_forall in Hids. split; [by apply Hids|]. split; [done|].
  rewrite Etb, history_at, !fmap_app, !NoDup_app in Hnd.
  repeat setoid_rewrite elem_of_app in Hnd.
  destruct Hnd as (_ & D1 & (_ & D2 & _ & D3 & _) & D4 & _).
  rewrite history_app, history_cons, !fmap_app, !elem_of_app in *.
  specialize (D1 id). specialize (D2 id). specialize (D3 id). specialize (D4 id). tauto.
Qed.

Lemma other_ids (pre : Tables) cur extra next post id :
  id ∈ (history (pre ++ extra :: post)).*1 →
  id ∈ (history (pre ++ (cur ++ extra) :: next :: post)).*1.
Proof using Type.
  rewrite history_at, history_app, history_cons, !fmap_app, !elem_of_app. tauto.
Qed.

Lemma taken_names d tbls pre cur extra next post :
  tables_inv d tbls → tbls = pre ++ (cur ++ extra) :: next :: post →
  NoDup (sst_name <$> (cur ++ next).*1).
Proof using Type.
  intros Hti Etb. apply NoDup_fmap_2_strong.
  - intros x y Hx Hy. apply sst_name_inj; eapply in_u32_id; try done; by eapply taken_ids.
  - pose proof (ti_nodup _ _ Hti) as Hnd. rewrite Etb, history_at, !fmap_app, !NoDup_app in Hnd.
    repeat setoid_rewrite elem_of_app in Hnd.
    destruct Hnd as (_ & _ & (N2 & D2 & N3 & _ & _) & _ & _).
    rewrite fmap_app. apply NoDup_app. split_and!; [done| |done].
    intros x Hx Hx'. apply (D2 x Hx'). by left.
Qed.

(** The new table [t] in the place of [cur] and [next]. *)
Lemma tables_swap d d' tbls pre cur extra next post ts_pre ts_e ts_post t id out :
  tables_inv d tbls → tbls = pre ++ (cur ++ extra) :: next :: post →
  leveled_sstable d' = ts_pre ++ ts_e :: [t] :: ts_post →
  Forall2 (Forall2 (table_of (dir d))) ts_pre pre →
  Forall2 (table_of (dir d)) ts_e extra →
  Forall2 (Forall2 (table_of (dir d))) ts_post post →
  (∀ id', id' ∈ (history (pre ++ extra :: post)).*1 →
     dir d' !! sst_name id' = dir d !! sst_name id') →
  table_of (dir d') t (id, out) → (0 ≤ id < next_sstable_id d')%Z → id ∉ (history tbls).*1 →
  (next_sstable_id d ≤ next_sstable_id d' ≤ u32_max)%Z →
  tables_inv d' (pre ++ extra :: [(id, out)] :: post).
Proof using Type.
  intros [_ _ Hdeep Hids Hnd Hnx] Etb El' Hpre He Hpost Hframe Ht Hid Hnew Hn.
  assert (Hold : Forall2 (Forall2 (table_of (dir d'))) (ts_pre ++ ts_e :: ts_post)
    (pre ++ extra :: post)).
  { eapply tables_frame; [|exact Hframe]. apply Forall2_app; [done|]. by constructor. }
  apply Forall2_app_inv in Hold as [Hpre' Hold]; [|by eapply Forall2_length].
  apply Forall2_cons in Hold as [He' Hpost'].
  rewrite Etb, history_at, !fmap_app, ?elem_of_app in *.
  split; rewrite ?El', ?history_at, ?fmap_app; cbn [fmap list_fmap fst].
  - apply Forall2_app; [done|]. constructor; [done|]. constructor; [|done].
    constructor; [done|constructor].
  - by destruct pre.
  - destruct pre as [|l0 pre]; cbn [app tail] in *.
    + inversion_clear Hdeep. constructor; [cbn; lia|done].
    + apply Forall_app in Hdeep as [Hd1 Hd2]. inversion_clear Hd2 as [|? ? Hce Hd3].
      inversion_clear Hd3. apply Forall_app. split; [done|]. rewrite length_app in Hce.
      constructor; [lia|]. constructor; [cbn; lia|done].
  - assert (Hlt : ∀ ids, Forall (λ id, 0 ≤ id < next_sstable_id d)%Z ids →
      Forall (λ id, 0 ≤ id < next_sstable_id d')%Z ids)
      by (intros ids Hf; eapply Forall_impl; [exact Hf|]; cbn; lia).
    rewrite !Forall_app in *. split_and!; try (apply Hlt; tauto). by apply Forall_singleton.
  - clear -Hnd Hnew. rewrite !NoDup_app in *. repeat setoid_rewrite elem_of_app in Hnd.
    destruct Hnd as (N1 & D1 & (N2 & D2 & N3 & D3 & N4) & D4 & N5).
    split_and!; try done; [|apply NoDup_singleton| |];
      intros x; specialize (D1 x); specialize (D4 x);
      cbn [app]; rewrite ?elem_of_cons, ?elem_of_app, ?elem_of_nil; intros Hx Hx';
      naive_solver.
  - lia.
Qed.

Lemma swapped_newest (pre : Tables) cur extra next post id out k :
  (∀ k, es_lookup out k = newest (next ++ cur).*2 k) →
  newest (history (pre ++ extra :: [(id, out)] :: post)).*2 k =
  newest (history (pre ++ (cur ++ extra) :: next :: post)).*2 k.
Proof using Type.
  intros Hout. rewrite !history_at, !fmap_app, !newest_app. cbn [fmap list_fmap snd newest].
  rewrite Hout, fmap_app, newest_app.
  by destruct (newest (history pre).*2 k), (newest extra.*2 k), (newest cur.*2 k),
    (newest next.*2 k).
Qed.

Lemma total_weight_tables (ps : list (Z * Entries)) :
  total_weight ps.*2 = sum_list_with (λ p, weight p.2) ps.
Proof using Type.
  unfold total_weight. induction ps as [|p ps IH]; [done|]. cbn. by rewrite IH.
Qed.

Lemma swapped_weight (pre : Tables) cur extra next post id out :
  weight out ≤ total_weight (cur.*2 ++ next.*2) →
  tables_weight (pre ++ extra :: [(id, out)] :: post) ≤
  tables_weight (pre ++ (cur ++ extra) :: next :: post).
Proof using Type.
  unfold tables_weight. rewrite !history_at, !sum_list_with_app. cbn [sum_list_with snd app].
  rewrite <-!total_weight_tables. unfold total_weight. rewrite sum_list_with_app. lia.
Qed.

(** A database at rest is its tables with the log and the memtable. *)
Lemma db_inv_intro d cs tbls :
  tables_inv d tbls → wal_ok (log d) cs → data d = foldl replay ∅ cs →
  dir d !! log_name = None →
  (∀ name id, is_Some (dir d !! name) → sst_id name = Some id →
    ∃ id', id' ∈ (history tbls).*1 ∧ name = sst_name id') →
  db_inv d cs tbls.
Proof using Type. by intros []. Qed.

Lemma flushed_inv d cs l0 tbls t es c lg :
  let id := next_sstable_id d in
  db_inv d cs (l0 :: tbls) → (id < u32_max)%Z → wal_ok lg [] →
  table_of (<[sst_name id := c]> (dir d)) t (id, es) →
  ∀ ts0 levels, leveled_sstable d = ts0 :: levels →
  db_inv (d <| next_sstable_id := (id + 1)%Z |> <| dir := <[sst_name id := c]> (dir d) |>
            <| leveled_sstable := (ts0 ++ [t]) :: levels |> <| log := lg |> <| data := ∅ |>)
    [] ((l0 ++ [(id, es)]) :: tbls).
Proof using Type.
  intros id Hd Hn Hlg Ht ts0 levels El. pose proof (db_inv_tables _ _ _ Hd) as Hti.
  pose proof (di_next _ _ _ Hd) as Hn0.
  apply db_inv_intro; cbn [log data dir upd upd_log upd_data upd_dir upd_leveled_sstable
    upd_next_sstable_id]; try done.
  - eapply (tables_push d); try done; cbn; [|fold id; lia| |fold id; lia].
    + intros id' Hid'. by eapply new_file_frame.
    + intros Hid'. destruct (in_u32_id _ _ _ Hti Hid'). subst id. lia.
  - rewrite lookup_insert_ne by (by intros E%sst_name_ne_log). apply Hd.
  - intros name id'. rewrite history_push, fmap_app. setoid_rewrite elem_of_app.
    destruct (decide (name = sst_name id)) as [->|Hne].
    + intros _ _. exists id. split; [|done]. right. cbn. by apply list_elem_of_singleton.
    + rewrite lookup_insert_ne by done. intros Hf Hid'.
      destruct (di_files _ _ _ Hd name id' Hf Hid') as (id'' & ? & ->). eauto.
Qed.

(** [flush_memory_to_disk] turns the memtable into the newest table of level
    0 and empties the log. *)
Lemma flush_ok d cs tbls :
  db_inv d cs tbls → (Z.of_nat (mem_weight (data d)) ≤ 2 ^ 60)%Z →
  (next_sstable_id d < u32_max)%Z →
  ∃ d' cs' tbls', flush_memory_to_disk d = (Ok (), d') ∧
    db_step 1 d cs tbls d' cs' tbls' ∧ (recent tbls → recent tbls').
Proof using All.
  intros Hd Hw Hn. unfold flush_memory_to_disk. destruct (decide (data d = ∅)) as [Hemp|Hne].
  { exists d, cs, tbls. erewrite bind_Ok; cycle 1.
    { unfold flush_write. erewrite bind_Ok by done. by rewrite Hemp, map_to_list_empty. }
    split; [done|]. split; [by apply db_step_refl|done]. }
  destruct (flush_write_ok d (db_inv_entries _ _ _ Hd) Hw) as (t & c & E & Ht);
    [split; [apply Hd|done]|done|].
  erewrite bind_Ok by exact E.
  pose proof (di_tables _ _ _ Hd) as Htbls.
  destruct tbls as [|l0 tbls]; [by destruct (di_levels _ _ _ Hd)|].
  destruct (leveled_sstable d) as [|ts0 levels] eqn:El; [by inversion Htbls|].
  set (id := next_sstable_id d) in *. set (es := sorted_entries (data d)) in *.
  destruct (truncate_ok (log d)) as (lg & El2 & Hlg).
  pose proof (flushed_inv d cs l0 tbls t es c lg Hd Hn Hlg Ht ts0 levels El) as Hinv.
  pose proof (history_push l0 (id, es) tbls) as Hhist.
  eexists _, [], ((l0 ++ [(id, es)]) :: tbls). split; [|split; [split; [exact Hinv|..]|]].
  - unfold flush_publish. erewrite bind_Ok by done.
    cbn [leveled_sstable upd upd_dir upd_next_sstable_id]. rewrite El.
    erewrite bind_Ok by done. erewrite bind_Ok by (apply zoom_Ok; exact El2). reflexivity.
  - intros k. cbn [data upd upd_data]. unfold view. rewrite lookup_empty, Hhist, fmap_app.
    cbn [fmap list_fmap snd]. rewrite newest_snoc. unfold es.
    by rewrite sorted_entries_lookup.
  - cbn [data upd upd_data]. unfold tables_weight. rewrite Hhist, sum_list_with_app.
    cbn [sum_list_with snd]. unfold es. rewrite sorted_entries_weight.
    unfold mem_weight at 1. rewrite map_to_list_empty. change (weight []) with 0. lia.
  - cbn. fold id. lia.
  - cbn. lia.
  - done.
  - done.
  - done.
  - unfold recent. rewrite Hhist, fmap_app. intros Hr. apply StronglySorted_app_2; [|done|].
    + intros x y Hx ->%list_elem_of_singleton. by destruct (in_u32_id _ _ _ (db_inv_tables _ _ _ Hd) Hx).
    + repeat constructor.
Qed.

(** ** Compactions *)

Lemma open_readers_ok fs ts ps :
  Forall2 (table_of fs) ts ps →
  ∃ rs, open_readers ts fs = (Ok rs, fs) ∧ Forall2 reads rs ps.*2.
Proof using All.
  induction 1 as [|t p ts ps [Hn (c & Hc & Htf & _)] _ (rs & E & Hr)].
  { by exists []. }
  destruct (reads_of_table _ _ _ _ _ Hc Htf) as (r & Er & Hrd).
  exists (r :: rs). split; [|by constructor]. cbn [open_readers].
  erewrite bind_Ok by exact Er. by erewrite bind_Ok by exact E.
Qed.

Lemma remove_all_ok paths d :
  NoDup paths → Forall (λ p, is_Some (dir d !! p)) paths →
  ∃ fs, remove_files paths d = (Ok (), d <| dir := fs |>) ∧
    (∀ p, p ∈ paths → fs !! p = None) ∧ (∀ p, p ∉ paths → fs !! p = dir d !! p).
Proof using Type.
  intros Hnd. revert d. induction Hnd as [|p paths Hp _ IH]; intros d Hall.
  - exists (dir d). split; [by destruct d|]. split; [by intros p ?%not_elem_of_nil|done].
  - inversion_clear Hall as [|? ? [c Hc] Hall'].
    destruct (IH (d <| dir := base.delete p (dir d) |>)) as (fs & E & Hin & Hout).
    { rewrite Forall_forall in Hall' |- *. intros q Hq. cbn.
      rewrite lookup_delete_ne by (intros <-; done). by apply Hall'. }
    exists fs. split_and!.
    + unfold remove_files. cbn [for_each]. erewrite bind_Ok; [exact E|]. apply zoom_Ok.
      unfold fs_remove. by erewrite bind_Ok by (by apply fs_open_at).
    + intros q [->|Hq]%elem_of_cons; [|by apply Hin].
      rewrite Hout by done. cbn. apply lookup_delete_eq.
    + intros q Hq. apply not_elem_of_cons in Hq as [Hne Hq].
      rewrite Hout by done. cbn. by rewrite lookup_delete_ne.
Qed.

Lemma alter_middle {A} (f : A → A) pre x post :
  alter f (length pre) (pre ++ x :: post) = pre ++ f x :: post.
Proof using Type. by rewrite alter_app_r_alt, Nat.sub_diag by lia. Qed.

Lemma drain_middle (pre : list (list SSTable)) c e post :
  drain_front (length c) (length pre) (pre ++ (c ++ e) :: post) = Ok (pre ++ e :: post).
Proof using Type.
  unfold drain_front. rewrite lookup_app_r, Nat.sub_diag by done. cbn.
  rewrite decide_False by (rewrite length_app; lia).
  by rewrite insert_app_r_alt, Nat.sub_diag, drop_app_length by done.
Qed.

(** Two neighbouring levels. *)
Lemma split_levels {A} (ls : list A) i :
  i + 1 < length ls → ∃ pre x y post, ls = pre ++ x :: y :: post ∧ length pre = i.
Proof using Type.
  intros Hi. exists (take i ls).
  destruct (drop i ls) as [|x [|y post]] eqn:E;
    [apply (f_equal length) in E; rewrite length_drop in E; cbn in E; lia..|].
  exists x, y, post. split; [|rewrite length_take; lia].
  by rewrite <-E, take_drop.
Qed.

(** The state after a compaction of the tables [cur] and [next]. *)
Lemma compacted_inv d cs pre cur next post fs t out ts_pre ts_post n :
  let id := next_sstable_id d in
  let tbls := pre ++ cur :: next :: post in
  db_inv d cs tbls → (id < u32_max)%Z →
  Forall2 (Forall2 (table_of (dir d))) ts_pre pre →
  Forall2 (Forall2 (table_of (dir d))) ts_post post →
  table_of fs t (id, out) →
  (∀ p, p ∈ sst_name <$> (cur ++ next).*1 → fs !! p = None) →
  (∀ p, p ∉ sst_name <$> (cur ++ next).*1 → p ≠ sst_name id → fs !! p = dir d !! p) →
  db_inv (d <| next_sstable_id := (id + 1)%Z |> <| dir := fs |>
            <| leveled_sstable := ts_pre ++ [] :: [t] :: ts_post |>
            <| total_compactions := n |>) cs
    (pre ++ [] :: [(id, out)] :: post).
Proof using All.
  intros id tbls Hd Hid Hpre Hpost Ht Hgone Hkept.
  pose proof (db_inv_tables _ _ _ Hd) as Hti. pose proof (di_next _ _ _ Hd) as Hn0.
  assert (Etb : tbls = pre ++ (cur ++ []) :: next :: post) by by rewrite app_nil_r.
  fold tbls in Hd, Hti. apply db_inv_intro; cbn [log data dir upd upd_dir upd_leveled_sstable
    upd_next_sstable_id upd_total_compactions]; try apply Hd.
  - eapply (tables_swap d); try done; cbn; [|subst id; lia| |subst id; lia].
    + intros id' Hin. pose proof (other_ids pre cur [] next post id' Hin) as Hin2.
      rewrite <-Etb in Hin2. apply Hkept; [|by eapply next_name_fresh].
      intros (id2 & E & Hid2)%list_elem_of_fmap.
      destruct (taken_ids _ _ _ _ _ _ _ _ Hti Etb Hid2) as (_ & Hin3 & Hnot).
      apply sst_name_inj in E; [by subst|by eapply in_u32_id..].
    + intros Hin. destruct (in_u32_id _ _ _ Hti Hin). subst id. lia.
  - destruct (decide (log_name ∈ sst_name <$> (cur ++ next).*1)); [by apply Hgone|].
    rewrite Hkept; [apply Hd|done|]. intros E. by destruct (sst_name_ne_log id).
  - intros name id' Hf Hn. rewrite history_at, !fmap_app. cbn [app fmap list_fmap fst].
    destruct (decide (name = sst_name id)) as [->|Hne].
    { exists id. split; [|done]. rewrite elem_of_app, elem_of_cons. auto. }
    destruct (decide (name ∈ sst_name <$> (cur ++ next).*1)) as [Hg|Hg].
    { rewrite (Hgone _ Hg) in Hf. by destruct Hf. }
    rewrite Hkept in Hf by done. destruct (di_files _ _ _ Hd _ _ Hf Hn) as (id2 & Hin & ->).
    exists id2. split; [|done]. rewrite Etb, history_at, app_nil_r, !fmap_app, !elem_of_app in Hin.
    rewrite elem_of_app, elem_of_cons.
    destruct Hin as [?|[[Hin|Hin]|?]]; [tauto| | |tauto];
      destruct Hg; apply list_elem_of_fmap_2; rewrite fmap_app, elem_of_app; tauto.
Qed.

Lemma table_streams fs ts (ps : list (Z * Entries)) :
  Forall2 (table_of fs) ts ps → Forall stream_ok ps.*2.
Proof using Type.
  induction 1 as [|t p ts ps [_ (c & _ & Htf & _)] _ IH]; [constructor|].
  constructor; [split; apply Htf|done].
Qed.

Lemma table_files fs ts ps :
  Forall2 (table_of fs) ts ps →
  file_name <$> ts = sst_name <$> ps.*1 ∧
  Forall (λ p, is_Some (fs !! p)) (file_name <$> ts).
Proof using Type.
  induction 1 as [|t p ts ps [Hn (c & Hc & _ & _)] _ [IH1 IH2]]; [by split|].
  split; [|by constructor; [eexists|]]. rewrite !fmap_cons. by f_equal.
Qed.

(** The tables that a compaction takes: two neighbouring levels. *)
Record compacting (level : nat) (d : Database) (tbls : Tables)
    (pre : Tables) (cur next : list (Z * Entries)) (post : Tables)
    (ts_pre ts_post : list (list SSTable)) (ts_c ts_n : list SSTable) : Prop := {
  cp_level : length ts_pre = level ∧ length pre = level;
  cp_tables : leveled_sstable d = ts_pre ++ ts_c :: ts_n :: ts_post;
  cp_tbls : tbls = pre ++ cur :: next :: post;
  cp_pre : Forall2 (Forall2 (table_of (dir d))) ts_pre pre;
  cp_in : Forall2 (table_of (dir d)) (ts_c ++ ts_n) (cur ++ next);
  cp_post : Forall2 (Forall2 (table_of (dir d))) ts_post post;
  cp_len : length ts_c = length cur ∧ length ts_n = length next;
  cp_few : length next ≤ 1;
}.

Lemma compacting_intro level d tbls :
  tables_inv d tbls → level + 1 < length (leveled_sstable d) →
  ∃ pre cur next post ts_pre ts_post ts_c ts_n,
    compacting level d tbls pre cur next post ts_pre ts_post ts_c ts_n.
Proof using Type.
  intros Hd Hl.
  destruct (split_levels _ _ Hl) as (ts_pre & ts_c & ts_n & ts_post & El & Hlen).
  pose proof (ti_tables _ _ Hd) as Ht. rewrite El in Ht.
  apply Forall2_app_inv_l in Ht as (pre & rest & Hpre & Hrest & ->).
  inversion Hrest as [|? cur ? ? Hcur Hrest']; subst.
  inversion Hrest' as [|? next ? post Hnext Hpost]; subst.
  exists pre, cur, next, post, ts_pre, ts_post, ts_c, ts_n.
  split; try done; eauto using Forall2_length, Forall2_app.
  - split; [done|]. symmetry. by eapply Forall2_length.
  - pose proof (ti_deep _ _ Hd) as Hdeep. destruct pre; cbn in Hdeep.
    + by inversion Hdeep.
    + apply Forall_app in Hdeep as [_ Hdeep]. inversion_clear Hdeep as [|? ? _ H2].
      by inversion H2.
Qed.

Lemma snapshot_levels_ok level d ts_pre ts_c ts_n ts_post :
  leveled_sstable d = ts_pre ++ ts_c :: ts_n :: ts_post → length ts_pre = level → ts_c ≠ [] →
  snapshot_levels level d = (Ok (Some (ts_c, ts_n)), d).
Proof using Type.
  intros El Hlen Hne. unfold snapshot_levels, level_at. erewrite bind_Ok by done.
  rewrite decide_False by (rewrite El, length_app; cbn; lia).
  erewrite bind_Ok; cycle 1.
  { erewrite bind_Ok by done. unfold lift. rewrite El. by rewrite list_lookup_middle. }
  rewrite decide_False by done. erewrite bind_Ok; [done|].
  erewrite bind_Ok by done. unfold lift. rewrite El, cons_middle, app_assoc.
  by rewrite list_lookup_middle by (rewrite length_app; cbn; lia).
Qed.

Lemma write_compacted_ok d ts_c ts_n (cur next : list (Z * Entries)) :
  Forall2 (table_of (dir d)) (ts_c ++ ts_n) (cur ++ next) → length ts_c = length cur →
  ts_c ≠ [] → length next ≤ 1 →
  (Z.of_nat (total_weight (cur.*2 ++ next.*2)) ≤ 2 ^ 60)%Z →
  (0 ≤ next_sstable_id d < u32_max)%Z →
  let id := next_sstable_id d in
  ∃ t c out, write_compacted ts_c ts_n d =
      (Ok t, d <| next_sstable_id := (id + 1)%Z |> <| dir := <[sst_name id := c]> (dir d) |>) ∧
    table_of (<[sst_name id := c]> (dir d)) t (id, out) ∧
    (∀ k, es_lookup out k = newest (next ++ cur).*2 k) ∧
    weight out ≤ total_weight (cur.*2 ++ next.*2).
Proof using All.
  intros Hin Hlc Hne Hfew Hw Hid id. unfold write_compacted.
  destruct (open_readers_ok _ _ _ Hin) as (rs & Er & Hrs).
  erewrite bind_Ok by (apply zoom_Ok; exact Er).
  erewrite bind_Ok by (apply fetch_sstable_id_ok; cbn; lia).
  destruct (merge_tables_ok (sst_name id) (dir d) rs cur.*2 next.*2)
    as (out & b & Em & Htf & Hout & Hwt).
  { by rewrite <-fmap_app. }
  { rewrite <-fmap_app. by eapply table_streams. }
  { rewrite !length_fmap. destruct ts_c; [done|cbn in *; lia]. }
  { lia. }
  rewrite length_fmap, <-Hlc in Em. fold id. cbn [next_sstable_id upd upd_dir].
  erewrite bind_Ok by (apply zoom_Ok; exact Em).
  eexists _, (file_of out b), out. split; [|split; [|split; [|done]]].
  - erewrite zoom_Ok; [reflexivity|]. unfold sstable_from_parts. cbn [dir upd upd_dir].
    erewrite bind_Ok by (eapply load_bloom_filter_table; [done|apply lookup_insert_eq]).
    by erewrite bind_Ok by (apply fs_open_at; apply lookup_insert_eq).
  - split; [done|]. eexists. split_and!; [apply lookup_insert_eq|exact Htf|done].
  - intros k. by rewrite Hout, fmap_app.
Qed.

(** The tables [ts_e] were added since the levels were read. *)
Lemma swap_levels_ok d ts_pre ts_c ts_e ts_n ts_post level t :
  leveled_sstable d = ts_pre ++ (ts_c ++ ts_e) :: ts_n :: ts_post → length ts_pre = level →
  swap_levels level (length ts_c) (length ts_n) t d =
  (Ok true, d <| leveled_sstable := ts_pre ++ ts_e :: [t] :: ts_post |>).
Proof using Type.
  intros El <-. unfold swap_levels. erewrite bind_Ok by done.
  rewrite decide_False by (rewrite El, length_app; cbn; lia).
  rewrite El. pose proof (drain_middle ts_pre ts_c ts_e (ts_n :: ts_post)) as E1.
  pose proof (drain_middle (ts_pre ++ [ts_e]) ts_n [] ts_post) as E2.
  rewrite app_nil_r, <-app_assoc in E2. cbn [app] in E2. rewrite length_app in E2. cbn [length] in E2.
  erewrite bind_Ok by (unfold lift; by rewrite E1).
  erewrite bind_Ok by (unfold lift; by rewrite E2).
  pose proof (alter_middle (λ l, l ++ [t]) (ts_pre ++ [ts_e]) [] ts_post) as E3.
  rewrite length_app, <-!app_assoc in E3. cbn [app length] in E3. rewrite <-app_assoc. cbn [app]. by rewrite E3.
Qed.

Section one_compaction.
Context {level : nat} {d : Database} {tbls pre post : Tables}
  {cur next : list (Z * Entries)} {ts_pre ts_post : list (list SSTable)}
  {ts_c ts_n : list SSTable}.
Hypothesis (Hd : tables_inv d tbls)
  (Hc : compacting level d tbls pre cur next post ts_pre ts_post ts_c ts_n).

Lemma compacting_history :
  history tbls = history post ++ (next ++ cur) ++ history pre.
Proof using Hc. rewrite (cp_tbls _ _ _ _ _ _ _ _ _ _ _ Hc). apply history_at. Qed.

Lemma compacting_weight :
  tables_weight tbls =
  total_weight (cur.*2 ++ next.*2) + tables_weight pre + tables_weight post.
Proof using Hc.
  rewrite <-fmap_app, total_weight_tables. unfold tables_weight.
  rewrite compacting_history, !sum_list_with_app. lia.
Qed.

Lemma compacting_ids id' : id' ∈ (cur ++ next).*1 → id' ∈ (history tbls).*1.
Proof using Hc. rewrite compacting_history, !fmap_app, !elem_of_app. tauto. Qed.

Lemma compacting_nodup : NoDup (sst_name <$> (cur ++ next).*1).
Proof using Hd Hc.
  eapply (taken_names d tbls pre cur [] next post); [exact Hd|].
  rewrite app_nil_r. apply Hc.
Qed.

Lemma compacting_fresh : sst_name (next_sstable_id d) ∉ sst_name <$> (cur ++ next).*1.
Proof using Hd Hc.
  intros (id' & E & H2)%list_elem_of_fmap. symmetry in E.
  by eapply next_name_fresh in E; [|exact Hd|apply compacting_ids].
Qed.

(** The new table is on disk and published, the old files are still there. *)
Lemma compact_publish_ok :
  ts_c ≠ [] → (Z.of_nat (tables_weight tbls) ≤ 2 ^ 60)%Z →
  (next_sstable_id d < u32_max)%Z →
  let id := next_sstable_id d in
  ∃ t c out, compact_publish level d =
      (Ok (Some (sst_name <$> (cur ++ next).*1)),
       d <| next_sstable_id := (id + 1)%Z |> <| dir := <[sst_name id := c]> (dir d) |>
         <| leveled_sstable := ts_pre ++ [] :: [t] :: ts_post |>) ∧
    table_of (<[sst_name id := c]> (dir d)) t (id, out) ∧
    (∀ k, es_lookup out k = newest (next ++ cur).*2 k) ∧
    weight out ≤ total_weight (cur.*2 ++ next.*2).
Proof using All.
  intros Hne Hw Hid id. pose proof compacting_weight as Htw.
  pose proof (ti_next _ _ Hd) as Hn0.
  destruct Hc as [[Hlen Hlen'] El Etb Hpre Hin Hpost [Hlc Hln] Hfew].
  unfold compact_publish. erewrite bind_Ok by (by eapply snapshot_levels_ok).
  destruct (write_compacted_ok d ts_c ts_n cur next Hin Hlc Hne Hfew)
    as (t & c & out & E & Ht & Hout & Hwt); [lia|lia|].
  exists t, c, out. split; [|done]. erewrite bind_Ok by exact E.
  erewrite bind_Ok by (eapply (swap_levels_ok _ ts_pre ts_c [] ts_n); [|done];
    cbn [leveled_sstable upd upd_dir upd_next_sstable_id]; by rewrite app_nil_r).
  by destruct (table_files _ _ _ Hin) as [<- _].
Qed.

End one_compaction.

(** What happened to the tables in [compact_level]. *)
Definition compacted (level : nat) (d d' : Database) (tbls tbls' : Tables) : Prop :=
  ∃ pre cur next post out, length pre = level ∧
    tbls = pre ++ cur :: next :: post ∧
    tbls' = pre ++ [] :: [(next_sstable_id d, out)] :: post.

(** A level is missing or empty. *)
Lemma snapshot_levels_skip level d :
  length (leveled_sstable d) ≤ level + 1 ∨ leveled_sstable d !! level = Some [] →
  snapshot_levels level d = (Ok None, d).
Proof using Type.
  unfold snapshot_levels. intros Hskip. erewrite bind_Ok by done.
  case_decide as Hl; [done|]. destruct Hskip as [|E]; [lia|].
  erewrite bind_Ok; cycle 1.
  { unfold level_at. erewrite bind_Ok by done. unfold lift. by rewrite E. }
  done.
Qed.

Lemma compact_publish_skip level d :
  length (leveled_sstable d) ≤ level + 1 ∨ leveled_sstable d !! level = Some [] →
  compact_publish level d = (Ok None, d).
Proof using Type.
  intros Hskip. unfold compact_publish. by erewrite bind_Ok by (by apply snapshot_levels_skip).
Qed.

Lemma compact_level_ok level d cs tbls :
  db_inv d cs tbls → (Z.of_nat (tables_weight tbls) ≤ 2 ^ 60)%Z →
  (next_sstable_id d < u32_max)%Z →
  ∃ d' tbls', compact_level level d = (Ok (), d') ∧
    db_step 1 d cs tbls d' cs tbls' ∧
    (d' = d ∧ tbls' = tbls ∨ compacted level d d' tbls tbls').
Proof using All.
  intros Hd Hw Hid. pose proof (db_inv_tables _ _ _ Hd) as Hti. unfold compact_level.
  assert (Hskip : db_step 1 d cs tbls d cs tbls) by by apply db_step_refl.
  destruct (decide (length (leveled_sstable d) ≤ level + 1)) as [Hl|Hl].
  { exists d, tbls. erewrite bind_Ok by (apply compact_publish_skip; auto). auto. }
  destruct (compacting_intro level d tbls Hti) as
    (pre & cur & next & post & ts_pre & ts_post & ts_c & ts_n & Hc); [lia|].
  destruct (decide (ts_c = [])) as [->|Hne].
  { exists d, tbls. erewrite bind_Ok; cycle 1.
    { apply compact_publish_skip. right. rewrite (cp_tables _ _ _ _ _ _ _ _ _ _ _ Hc).
      by rewrite list_lookup_middle by (symmetry; apply Hc). }
    auto. }
  destruct (compact_publish_ok Hti Hc Hne Hw Hid) as (t & c & out & E & Ht & Hout & Hwt).
  erewrite bind_Ok by exact E. set (id := next_sstable_id d) in *.
  match type of E with _ = (_, ?s) => set (d1 := s) in * end.
  pose proof (compacting_fresh Hti Hc) as Hfresh. fold id in Hfresh.
  destruct (remove_all_ok (sst_name <$> (cur ++ next).*1) d1) as (fs & Erm & Hgone & Hkept).
  { by eapply compacting_nodup. }
  { destruct (table_files _ _ _ (cp_in _ _ _ _ _ _ _ _ _ _ _ Hc)) as [En Hfiles].
    rewrite En in Hfiles. eapply Forall_impl; [exact Hfiles|]. intros p [c' Hp]. unfold d1. cbn.
    destruct (decide (sst_name id = p)) as [<-|];
      [rewrite lookup_insert_eq|rewrite !lookup_insert_ne by done]; by eexists. }
  erewrite bind_Ok by exact Erm.
  destruct Hc as [[Hlen Hlen'] El -> Hpre Hin Hpost [Hlc Hln] Hfew].
  eexists _, (pre ++ [] :: [(id, out)] :: post). split; [reflexivity|]. split.
  - split; try done; cbn [data upd upd_data next_sstable_id].
    + eapply (compacted_inv d cs pre cur next post fs t out ts_pre ts_post); try done; fold id.
      * destruct Ht as [Hn Ht]. split; [done|]. eapply sstable_ok_frame; [exact Ht|].
        rewrite Hn. cbn. by rewrite Hkept.
      * intros p Hp Hne'. rewrite Hkept by done. unfold d1. cbn.
        by rewrite lookup_insert_ne by done.
    + intros k. unfold view. cbn. destruct (data d !! k); [done|].
      rewrite <-(app_nil_r cur). by apply swapped_newest.
    + pose proof (swapped_weight pre cur [] next post id out Hwt) as Hle.
      rewrite app_nil_r in Hle. unfold d1. cbn. lia.
    + cbn. fold id. lia.
    + by rewrite !length_app.
  - right. exists pre, cur, next, post, out. by split_and!.
Qed.

Lemma recent_compacted d cs d' tbls tbls' :
  db_inv d cs tbls → compacted 0 d d' tbls tbls' → recent tbls → recent tbls'.
Proof using Type.
  intros Hd (pre & cur & next & post & out & Hpre & -> & ->).
  destruct pre; [|done]. unfold recent. cbn [app].
  rewrite !history_cons, app_nil_r, <-app_assoc, !fmap_app. intros Hr.
  apply StronglySorted_app_2; [|by eapply StronglySorted_app_1_l|repeat constructor].
  intros x y Hx ->%list_elem_of_singleton.
  apply (in_u32_id d _ x (db_inv_tables _ _ _ Hd)). cbn [app].
  rewrite !history_cons, <-app_assoc, !fmap_app, elem_of_app. by left.
Qed.

Lemma compact_loop_ok l d cs tbls :
  db_inv d cs tbls →
  (Z.of_nat (mem_weight (data d) + tables_weight tbls) ≤ 2 ^ 60)%Z →
  (next_sstable_id d + Z.of_nat (length l) ≤ u32_max)%Z →
  ∃ d' tbls', for_each l (λ '(level, should), when should (compact_level level)) d
      = (Ok (), d') ∧
    db_step (Z.of_nat (length l)) d cs tbls d' cs tbls' ∧
    ((∀ level, (level, true) ∈ l → level = 0) → recent tbls → recent tbls').
Proof using All.
  revert d tbls. induction l as [|[level should] l IH]; intros d tbls Hd Hw Hn.
  { exists d, tbls. split; [done|]. split; [by apply db_step_refl|done]. }
  cbn [for_each length] in *.
  assert (∃ d1 tbls1, when should (compact_level level) d = (Ok (), d1) ∧
    db_step 1 d cs tbls d1 cs tbls1 ∧
    ((should = true → level = 0) → recent tbls → recent tbls1))
    as (d1 & tbls1 & E1 & S1 & R1).
  { destruct should; cbn [when].
    - destruct (compact_level_ok level d cs tbls Hd) as (d1 & tbls1 & E1 & S1 & C1); [lia..|].
      exists d1, tbls1. split_and!; [done..|]. intros H0. rewrite (H0 eq_refl) in C1.
      destruct C1 as [[-> ->]|C1]; [done|]. by eapply recent_compacted.
    - exists d, tbls. split_and!; [done|by apply db_step_refl|done]. }
  pose proof (ds_weight _ _ _ _ _ _ _ S1). pose proof (ds_next _ _ _ _ _ _ _ S1).
  destruct (IH d1 tbls1) as (d2 & tbls2 & E2 & S2 & R2); [by apply S1|lia..|].
  exists d2, tbls2. split; [|split].
  - by erewrite bind_Ok by exact E1.
  - replace (Z.of_nat (S (length l))) with (1 + Z.of_nat (length l))%Z by lia.
    by eapply db_step_trans.
  - intros Hl Hr. apply R2; [|apply R1; [|done]].
    + intros level' Hin. apply Hl. by right.
    + intros ->. apply Hl. by left.
Qed.

Lemma maybe_flush_ok d cs tbls :
  db_inv d cs tbls → (Z.of_nat (mem_weight (data d)) ≤ 2 ^ 60)%Z →
  (next_sstable_id d < u32_max)%Z →
  ∃ d' cs' tbls', maybe_flush d = (Ok (), d') ∧
    db_step 1 d cs tbls d' cs' tbls' ∧ (recent tbls → recent tbls').
Proof using All.
  intros Hd Hw Hn. unfold maybe_flush. erewrite bind_Ok by done.
  case_bool_decide; [by apply flush_ok|].
  exists d, cs, tbls. split; [done|]. split; [by apply db_step_refl|done].
Qed.

Lemma length_should_compact n levels : length (should_compact n levels) = length levels - 1.
Proof using Type.
  unfold should_compact. rewrite length_imap, length_fmap, length_take. lia.
Qed.

Lemma maybe_compact_ok d cs tbls :
  db_inv d cs tbls →
  (Z.of_nat (mem_weight (data d) + tables_weight tbls) ≤ 2 ^ 60)%Z →
  (next_sstable_id d + Z.of_nat (length tbls) - 1 ≤ u32_max)%Z →
  ∃ d' tbls', maybe_compact d = (Ok (), d') ∧
    db_step (Z.of_nat (length tbls) - 1) d cs tbls d' cs tbls' ∧
    (2 ≤ sstable_threshold d → recent tbls → recent tbls').
Proof using All.
  intros Hd Hw Hn. unfold maybe_compact.
  pose proof (di_tables _ _ _ Hd) as Ht. pose proof (Forall2_length _ _ _ Ht) as Hlen.
  assert (length tbls ≠ 0) by (pose proof (di_levels _ _ _ Hd); by destruct tbls).
  erewrite bind_Ok by done. case_decide as Hl.
  { exists d, tbls. split; [done|]. split; [apply db_step_refl; [lia|done]|done]. }
  erewrite bind_Ok by done.
  match goal with |- context [for_each ?l] => destruct (compact_loop_ok l d cs tbls Hd Hw)
    as (d' & tbls' & E & S & R) end.
  { rewrite length_should_compact. lia. }
  exists d', tbls'. split; [exact E|]. split.
  - rewrite length_should_compact in S.
    replace (Z.of_nat (length tbls) - 1)%Z
      with (Z.of_nat (length (leveled_sstable d) - 1)) by lia. done.
  - intros Hthr. apply R. intros level Hin. unfold should_compact in Hin.
    apply list_elem_of_lookup in Hin as (i & Hi). rewrite list_lookup_imap in Hi.
    apply fmap_Some in Hi as (b & Hi & [= -> <-]). rewrite list_lookup_fmap in Hi.
    apply fmap_Some in Hi as (ts & Hi & Hb). symmetry in Hb. apply bool_decide_eq_true in Hb.
    apply lookup_take_Some in Hi as [Hi _].
    destruct (Forall2_lookup_l _ _ _ _ _ Ht Hi) as (ps & Hps & Hp).
    apply Forall2_length in Hp. destruct i as [|i]; [done|].
    pose proof (di_deep _ _ _ Hd) as Hdeep.
    destruct tbls as [|l0 tbls]; [done|]. cbn in Hdeep, Hps.
    pose proof (Forall_lookup_1 _ _ _ _ Hdeep Hps). cbn in *. lia.
Qed.

End background.

(** * Opening a directory *)

Section opening.
Context `{HT : F64Text} `{HM : F64Math} `{HX : Xxh3}
  `{!F64TextLaws HT} `{!F64MathLaws HM} `{!BloomDims}.

(** The file of a table, closed. *)
Definition table_on_disk (fs : FS) (p : Z * Entries) : Prop :=
  ∃ c bloom, fs !! sst_name p.1 = Some c ∧ table_file c p.2 bloom.

Lemma table_of_on_disk fs t p : table_of fs t p → table_on_disk fs p.
Proof using Type.
  intros [Hn (c & Hc & Htf & _)]. exists c, (bloom_filter t). by rewrite <-Hn.
Qed.

Lemma table_on_disk_frame fs fs' p :
  fs' !! sst_name p.1 = fs !! sst_name p.1 → table_on_disk fs p → table_on_disk fs' p.
Proof using Type. intros E (c & b & Hc & Htf). exists c, b. by rewrite E. Qed.

Lemma tables_on_disk fs levels tbls :
  Forall2 (Forall2 (table_of fs)) levels tbls → Forall (table_on_disk fs) (history tbls).
Proof using Type.
  intros Ht%Forall2_history. apply Forall_forall. intros p (i & Hi)%list_elem_of_lookup.
  destruct (Forall2_lookup_r _ _ _ _ _ Ht Hi) as (t & _ & Htp). by eapply table_of_on_disk.
Qed.

(** The ids that [load_sstables] collects. *)
Lemma directory_ids (fs : FS) ids :
  Forall in_u32 ids → StronglySorted Z.lt ids →
  Forall (λ id, is_Some (fs !! sst_name id)) ids →
  (∀ name id, is_Some (fs !! name) → sst_id name = Some id →
    ∃ id', id' ∈ ids ∧ name = sst_name id') →
  merge_sort Z.le (omap sst_id (map_to_list fs).*1) = ids.
Proof using Type.
  intros Hu Hs Hex Hall.
  assert (Hnd : NoDup ids).
  { clear -Hs. induction Hs as [|x ids Hs IH Hx]; constructor; [|done].
    rewrite Forall_forall in Hx. intros Hin. specialize (Hx _ Hin). lia. }
  assert (Hsome : ∀ name, name ∈ (map_to_list fs).*1 ↔ is_Some (fs !! name)).
  { intros name. rewrite list_elem_of_fmap. split.
    - intros ([? c] & -> & Hc%elem_of_map_to_list). by exists c.
    - intros [c Hc]. exists (name, c). by rewrite elem_of_map_to_list. }
  rewrite !Forall_forall in *.
  assert (Hp : omap sst_id (map_to_list fs).*1 ≡ₚ ids).
  { apply NoDup_Permutation; [|done|].
    - pose proof (NoDup_fst_map_to_list fs) as Hn.
      assert (Hsub : ∀ name, name ∈ (map_to_list fs).*1 → is_Some (fs !! name))
        by (intros; by apply Hsome).
      clear Hsome Hex. induction (map_to_list fs).*1 as [|name names IH]; [constructor|].
      inversion_clear Hn as [|? ? Hnot Hn']. cbn.
      assert (Hsub' : ∀ name, name ∈ names → is_Some (fs !! name))
        by (intros; apply Hsub; by right).
      destruct (sst_id name) as [id|] eqn:E; [|by apply IH].
      constructor; [|by apply IH]. intros (name' & Hin & E')%list_elem_of_omap.
      destruct (Hall name id) as (i1 & H1 & ->); [apply Hsub; left|done|].
      destruct (Hall name' id) as (i2 & H2 & ->); [by apply Hsub'|done|].
      rewrite sst_id_name in E, E' by auto. by simplify_eq.
    - intros id. rewrite list_elem_of_omap. split.
      + intros (name & Hin & E). destruct (Hall name id) as (i & Hi & ->);
          [by apply Hsome|done|]. rewrite sst_id_name in E by auto. by simplify_eq.
      + intros Hin. exists (sst_name id). split; [by apply Hsome, Hex|by apply sst_id_name, Hu]. }
  apply (StronglySorted_unique Z.le).
  - apply StronglySorted_merge_sort; apply _.
  - clear -Hs. induction Hs as [|x ids Hs IH Hx]; constructor; [done|].
    eapply Forall_impl; [exact Hx|]. cbn. lia.
  - by rewrite merge_sort_Permutation.
Qed.

Lemma load_loop_ok ps d ts0 levels bound :
  leveled_sstable d = ts0 :: levels → Forall (table_on_disk (dir d)) ps →
  Forall (λ p, 0 ≤ p.1 < bound)%Z ps → (bound ≤ u32_max)%Z →
  (0 ≤ next_sstable_id d ≤ bound)%Z →
  ∃ ts n, for_each ps.*1 load_sstable d =
      (Ok (), d <| leveled_sstable := (ts0 ++ ts) :: levels |> <| next_sstable_id := n |>) ∧
    Forall2 (table_of (dir d)) ts ps ∧ (next_sstable_id d ≤ n ≤ bound)%Z ∧
    Forall (λ p, p.1 < n)%Z ps.
Proof using All.
  intros El Hps. revert d ts0 El Hps.
  induction ps as [|[id es] ps IH]; intros d ts0 El Hps Hids Hb Hn.
  { exists [], (next_sstable_id d). rewrite app_nil_r, <-El.
    split_and!; [by destruct d|constructor|lia|lia|constructor]. }
  inversion_clear Hps as [|? ? (c & b & Hc & Htf) Hps'].
  inversion_clear Hids as [|? ? Hid Hids']. cbn in Hc, Hid.
  destruct (sstable_open_ok _ _ _ _ _ Hc Htf) as (t & Et & Nt & Bt & St).
  set (d1 := d <| leveled_sstable := (ts0 ++ [t]) :: levels |>
               <| next_sstable_id := Z.max (next_sstable_id d) (id + 1)%Z |>).
  assert (E1 : load_sstable id d = (Ok (), d1)).
  { unfold load_sstable. erewrite bind_Ok by (apply zoom_Ok; exact Et).
    erewrite bind_Ok; cycle 1.
    { unfold level_at. erewrite bind_Ok by done. unfold lift. cbn. rewrite El. reflexivity. }
    erewrite bind_Ok by done. unfold modify, d1. cbn. rewrite El.
    rewrite wrap_small; [done|]. unfold in_u, u32_max in *. lia. }
  destruct (IH d1 (ts0 ++ [t])) as (ts & n & E2 & Ht & Hn2 & Hlt); try done.
  { unfold d1. cbn. lia. }
  exists (t :: ts), n. unfold d1 in *. cbn in E2, Ht, Hn2. split_and!.
  - cbn [fmap list_fmap fst for_each]. erewrite bind_Ok by exact E1. rewrite E2.
    by rewrite <-app_assoc.
  - constructor; [|done]. by split.
  - lia.
  - lia.
  - constructor; [cbn; lia|done].
Qed.

(** All tables are in the first level. *)
Lemma history_first_level (hist : list (Z * Entries)) n : history (hist :: replicate n []) = hist.
Proof using Type.
  rewrite history_cons. replace (history (replicate n [])) with (@nil (Z * Entries)); [done|].
  induction n as [|n IH]; [done|]. by rewrite replicate_S, history_cons, <-IH.
Qed.

Lemma sorted_ids_unique (ids : list Z) : StronglySorted Z.lt ids → NoDup ids.
Proof using Type.
  induction 1 as [|x ids Hs IH Hx]; constructor; [|done].
  rewrite Forall_forall in Hx. intros Hin. specialize (Hx _ Hin). lia.
Qed.

(** A directory that holds the closed tables [hist] and a log of [cs]. *)
Lemma open_in_dir_ok (cfg : Config) (fs : FS) (l : Logger) (cs : list Command)
    (hist : list (Z * Entries)) (bound : Z) :
  cfg_sstable_level cfg ≠ 0 →
  default [] (fs !! log_name) = file l → wal_ok l cs →
  Forall (table_on_disk fs) hist → Forall (λ p, 0 ≤ p.1 < bound)%Z hist →
  (0 ≤ bound ≤ u32_max)%Z → StronglySorted Z.lt hist.*1 →
  (∀ name id, is_Some (fs !! name) → sst_id name = Some id →
    ∃ id', id' ∈ hist.*1 ∧ name = sst_name id') →
  ∃ d, open_in_dir cfg fs = (Ok d, dir_of d) ∧ dir_of d = <[log_name := file l]> fs ∧
    db_inv d cs (hist :: replicate (cfg_sstable_level cfg - 1) []) ∧
    (next_sstable_id d ≤ bound)%Z ∧
    sstable_threshold d = cfg_sstable_threshold cfg ∧
    data_threshold d = cfg_data_threshold cfg.
Proof using All.
  intros Hlev Hlog Hwal Hdisk Hids Hb Hs Hfiles.
  unfold open_in_dir. erewrite bind_Ok by done. rewrite Hlog.
  erewrite bind_Ok by (unfold lift; by rewrite (new_ok l cs)).
  erewrite bind_Ok by done.
  match goal with |- context [run_on _ ?s] => set (d0 := s) end.
  assert (Hkeep : ∀ name, name ≠ log_name → dir d0 !! name = fs !! name).
  { intros name Hne. unfold d0. cbn. by rewrite lookup_delete_ne. }
  assert (Hdisk0 : Forall (table_on_disk (dir d0)) hist).
  { eapply Forall_impl; [exact Hdisk|]. intros p (c & b & Hc & Htf).
    exists c, b. split; [|done]. by rewrite Hkeep by apply sst_name_ne_log. }
  assert (Hhist0 : leveled_sstable d0 = [] :: replicate (cfg_sstable_level cfg - 1) []).
  { unfold d0. cbn. destruct (cfg_sstable_level cfg); [done|]. cbn. by rewrite Nat.sub_0_r. }
  assert (Hfiles0 : ∀ name id, is_Some (dir d0 !! name) → sst_id name = Some id →
    ∃ id', id' ∈ hist.*1 ∧ name = sst_name id').
  { intros name id. destruct (decide (name = log_name)) as [->|Hne].
    - unfold d0. cbn. rewrite lookup_delete_eq. by intros [].
    - rewrite Hkeep by done. apply Hfiles. }
  destruct (load_loop_ok hist d0 [] _ bound Hhist0 Hdisk0 Hids) as (ts & n & El & Ht & Hn & Hlt);
    [lia|cbn; lia|].
  assert (Hload : load_sstables d0 = for_each hist.*1 load_sstable d0).
  { unfold load_sstables. erewrite bind_Ok by done. erewrite bind_Ok by done.
    rewrite Hhist0, decide_False by done. f_equal. apply directory_ids; try done.
    - apply Forall_fmap. eapply Forall_impl; [exact Hids|]. cbn.
      unfold in_u32, in_u, u32_max in *. lia.
    - apply Forall_fmap. eapply Forall_impl; [exact Hdisk0|]. intros p (c & b & Hc & _).
      by exists c. }
  set (d1 := d0 <| leveled_sstable := ([] ++ ts) :: replicate (cfg_sstable_level cfg - 1) [] |>
                <| next_sstable_id := n |> <| data := foldl replay ∅ cs |>).
  assert (Erun : run_on (load_sstables;; recover) d0 = Ok ((), d1)).
  { unfold run_on. rewrite bind_eq, Hload, El. unfold recover.
    erewrite bind_Ok; cycle 1.
    { apply zoom_Ok. cbn. by apply read_records_ok. }
    rewrite command_records. reflexivity. }
  exists d1. erewrite bind_Ok by (unfold lift; by rewrite Erun). cbn beta iota.
  erewrite bind_Ok by done. split; [reflexivity|]. split.
  { unfold dir_of, d1, d0. cbn. by rewrite insert_delete_eq. }
  split; [|split_and!; [cbn in *; lia|done..]]. split; rewrite ?history_first_level; unfold d1; try done.
  - cbn. constructor; [done|]. clear. induction (cfg_sstable_level cfg - 1); cbn; auto.
  - cbn. clear. induction (cfg_sstable_level cfg - 1); cbn; auto with lia.
  - cbn. rewrite Forall_fmap. rewrite Forall_forall in *. cbn. intros p Hp.
    specialize (Hids p Hp). specialize (Hlt p Hp). lia.
  - by apply sorted_ids_unique.
  - cbn in *. lia.
  - unfold d0. cbn. apply lookup_delete_eq.
Qed.

End opening.
