(* ===== verification/DatabaseRefine.v ===== *)
(** A [Database] refines a finite map: sequences of writes, reads, restarts
    and crashes. *)

From S2P Require Import Prelude Bytes Float LogRecord Logger Format Bloom Index.
From S2P Require Import SSTable SSTableSpec Heap Merge MergeSpec Database DatabaseSpec.

(** * The abstract map *)

Definition apply_command (m : gmap str Value) (c : Command) : gmap str Value :=
  match c with
  | Set_ k v => <[k := v]> m
  | Delete k => base.delete k m
  end.

(** [Database::insert] and [Database::delete]. *)
Definition write `{F64Text} `{F64Math} `{Xxh3} (c : Command) : M Database () :=
  match c with
  | Set_ k v => insert k v
  | Delete k => delete k
  end.

Definition run_commands `{F64Text} `{F64Math} `{Xxh3} (cs : list Command) : M Database () :=
  for_each cs write.

Section refine.
Context `{HT : F64Text} `{HM : F64Math} `{HX : Xxh3}
  `{!F64TextLaws HT} `{!F64MathLaws HM} `{!BloomDims}.

(** The bytes a command adds at most. *)
Definition command_weight (c : Command) : nat :=
  entry_weight (command_key c, command_entry c).
Definition commands_weight (cs : list Command) : nat := sum_list_with command_weight cs.

(** [d] holds the map [m]; it has used at most [W] bytes of entries and [N]
    table ids. *)
Definition db_rel (d : Database) (m : gmap str Value) (W : nat) (N : Z) : Prop :=
  ∃ cs tbls, db_inv d cs tbls ∧
    (∀ k, view (data d) tbls k ≫= entry_value = m !! k) ∧
    mem_weight (data d) + tables_weight tbls ≤ W ∧
    (next_sstable_id d ≤ N)%Z ∧ (Z.of_nat (length cs) ≤ N)%Z ∧
    (2 ≤ sstable_threshold d → recent tbls).

Lemma db_rel_get d m W N k : db_rel d m W N → get k d = (Ok (m !! k), d).
Proof using All.
  intros (cs & tbls & Hd & Hv & _). by rewrite (get_ok d tbls k (db_inv_tables _ _ _ Hd)), Hv.
Qed.

Lemma write_eq c :
  write c = (zoom log (Logger.log c);;
             modify (λ d, d <| data := <[command_key c := command_entry c]> (data d) |>);;
             maybe_flush;; maybe_compact).
Proof using Type. by destruct c. Qed.

(** The state between the write to the log and the memtable and the flush. *)
Lemma logged_inv d cs tbls c l :
  db_inv d cs tbls → wal_ok l (cs ++ [c]) →
  db_inv (d <| log := l |> <| data := <[command_key c := command_entry c]> (data d) |>)
    (cs ++ [c]) tbls.
Proof using Type.
  intros [] Hl. split; try done. cbn. rewrite foldl_app. cbn.
  rewrite replay_insert. by f_equal.
Qed.

Lemma write_ok c d m W N :
  db_rel d m W N → command_ok c →
  (Z.of_nat (W + command_weight c) ≤ 2 ^ 60)%Z →
  (N + Z.of_nat (length (leveled_sstable d)) ≤ u32_max)%Z →
  ∃ d', write c d = (Ok (), d') ∧
    db_rel d' (apply_command m c) (W + command_weight c)
      (N + Z.of_nat (length (leveled_sstable d))) ∧
    length (leveled_sstable d') = length (leveled_sstable d) ∧
    sstable_threshold d' = sstable_threshold d.
Proof using All.
  intros (cs & tbls & Hd & Hv & Hw & Hn & Hcs & Hr) Hc HW HN.
  pose proof (Forall2_length _ _ _ (di_tables _ _ _ Hd)) as Hlev.
  assert (Hpos : length tbls ≠ 0) by (pose proof (di_levels _ _ _ Hd); by destruct tbls).
  pose proof (di_next _ _ _ Hd) as Hn0. unfold u32_max in *.
  destruct (log_ok c cs (log d) (di_wal _ _ _ Hd) Hc) as (l & El & Hl);
    [unfold u64_max; lia|].
  pose proof (logged_inv _ _ _ _ _ Hd Hl) as Hd1.
  pose proof (mem_weight_insert (data d) (command_key c) (command_entry c)) as Hmw.
  fold (command_weight c) in Hmw.
  match type of Hd1 with db_inv ?s _ _ => set (d1 := s) in * end.
  assert (Hdata : data d1 = <[command_key c := command_entry c]> (data d)) by done.
  change (next_sstable_id d) with (next_sstable_id d1) in *.
  destruct (maybe_flush_ok d1 _ _ Hd1) as (d2 & cs2 & t2 & E2 & S2 & R2);
    [rewrite Hdata; lia|unfold u32_max; lia|].
  pose proof (ds_weight _ _ _ _ _ _ _ S2) as Hw2. pose proof (ds_next _ _ _ _ _ _ _ S2) as Hn2.
  pose proof (ds_levels _ _ _ _ _ _ _ S2) as Hl2. rewrite Hdata in Hw2.
  destruct (maybe_compact_ok d2 cs2 t2) as (d3 & t3 & E3 & S3 & R3);
    [apply S2|lia|unfold u32_max; lia|].
  pose proof (db_step_trans _ _ _ _ _ _ _ _ _ _ _ S2 S3) as S.
  exists d3. split; [|split; [|split]].
  - rewrite write_eq. erewrite bind_Ok by (apply zoom_Ok; exact El).
    erewrite bind_Ok by done. fold d1. erewrite bind_Ok by exact E2. exact E3.
  - exists cs2, t3. destruct S as [Hinv Hview Hwt Hnx Hlg Hlv Hthr _]. rewrite Hdata in *.
    split_and!; [done| |lia|lia| |].
    + intros k. rewrite Hview. unfold view.
      destruct (decide (command_key c = k)) as [<-|Hne].
      * rewrite lookup_insert_eq. destruct c; cbn; by rewrite ?lookup_insert_eq, ?lookup_delete_eq.
      * rewrite lookup_insert_ne by done.
        change (view (data d) tbls k ≫= entry_value = apply_command m c !! k).
        rewrite Hv. destruct c; cbn in *; by rewrite ?lookup_insert_ne, ?lookup_delete_ne.
    + rewrite length_app in Hlg. cbn in Hlg. lia.
    + intros H2. rewrite Hthr in H2. apply R3; [by rewrite (ds_sstable_threshold _ _ _ _ _ _ _ S2)|].
      apply R2, Hr. done.
  - pose proof (ds_inv _ _ _ _ _ _ _ S) as Hd3.
    pose proof (Forall2_length _ _ _ (di_tables _ _ _ Hd3)).
    pose proof (ds_levels _ _ _ _ _ _ _ S). lia.
  - by destruct S.
Qed.

Lemma run_commands_ok cs d m W N :
  db_rel d m W N → Forall command_ok cs →
  (Z.of_nat (W + commands_weight cs) ≤ 2 ^ 60)%Z →
  (N + Z.of_nat (length cs * length (leveled_sstable d)) ≤ u32_max)%Z →
  ∃ d', run_commands cs d = (Ok (), d') ∧
    db_rel d' (foldl apply_command m cs) (W + commands_weight cs)
      (N + Z.of_nat (length cs * length (leveled_sstable d))) ∧
    sstable_threshold d' = sstable_threshold d.
Proof using All.
  intros Hd Hcs. revert d m W N Hd.
  induction Hcs as [|c cs Hc _ IH]; intros d m W N Hd HW HN.
  { exists d. unfold commands_weight. cbn. by rewrite Nat.add_0_r, Z.add_0_r. }
  cbn [length Nat.mul] in *. unfold commands_weight in *. cbn [sum_list_with] in *.
  destruct (write_ok c d m W N Hd Hc) as (d1 & E1 & H1 & L1 & T1); [lia..|].
  destruct (IH d1 _ _ _ H1) as (d2 & E2 & H2 & T2); [lia|rewrite L1; lia|].
  exists d2. split; [unfold run_commands; cbn [for_each]; by erewrite bind_Ok by exact E1|].
  split; [|congruence]. rewrite L1 in H2. cbn [foldl].
  replace (W + (command_weight c + sum_list_with command_weight cs))
    with (W + command_weight c + sum_list_with command_weight cs) by lia.
  by rewrite Nat2Z.inj_add, Z.add_assoc.
Qed.

(** * On disk *)

(** The directory [fs] holds the map [m]: what a crash or a clean stop leaves. *)
Definition disk_rel (fs : FS) (m : gmap str Value) (W : nat) (N : Z) : Prop :=
  ∃ l cs hist, default [] (fs !! log_name) = file l ∧ wal_ok l cs ∧
    Forall (table_on_disk fs) hist ∧ Forall (λ p, 0 ≤ p.1 < N)%Z hist ∧
    (0 ≤ N ≤ u32_max)%Z ∧ StronglySorted Z.lt hist.*1 ∧
    (∀ name id, is_Some (fs !! name) → sst_id name = Some id →
      ∃ id', id' ∈ hist.*1 ∧ name = sst_name id') ∧
    (Z.of_nat (length cs) ≤ N)%Z ∧
    mem_weight (foldl replay ∅ cs) + sum_list_with (λ p, weight p.2) hist ≤ W ∧
    ∀ k, match foldl replay ∅ cs !! k with
         | Some e => Some e
         | None => newest hist.*2 k
         end ≫= entry_value = m !! k.

Lemma disk_rel_empty : disk_rel ∅ ∅ 0 0.
Proof using Type.
  exists {| file := []; len := 0 |}, [], []. split_and!; try done; try constructor.
  intros name id. rewrite lookup_empty. by intros [].
Qed.

Lemma history_open (hist : list (Z * Entries)) n : history (hist :: replicate n []) = hist.
Proof using Type.
  rewrite history_cons. replace (history (replicate n [])) with (@nil (Z * Entries)); [done|].
  induction n as [|n IH]; [done|]. by rewrite replicate_S, history_cons, <-IH.
Qed.

Lemma disk_rel_open cfg fs m W N :
  disk_rel fs m W N → cfg_sstable_level cfg ≠ 0 →
  ∃ d, open_in_dir cfg fs = (Ok d, dir_of d) ∧ db_rel d m W N ∧
    length (leveled_sstable d) = cfg_sstable_level cfg ∧
    sstable_threshold d = cfg_sstable_threshold cfg.
Proof using All.
  intros (l & cs & hist & Hlog & Hwal & Hdisk & Hids & HN & Hs & Hfiles & Hcs & HW & Hv) Hlev.
  destruct (open_in_dir_ok cfg fs l cs hist N) as (d & E & _ & Hd & Hn & Ht & _); try done.
  exists d. split; [done|]. split; [|split; [|done]].
  - exists cs, (hist :: replicate (cfg_sstable_level cfg - 1) []).
    unfold view, tables_weight, recent. rewrite history_open, (di_data _ _ _ Hd).
    by split_and!.
  - rewrite (Forall2_length _ _ _ (di_tables _ _ _ Hd)). cbn. rewrite length_replicate. lia.
Qed.

Lemma log_not_sst (fs : FS) c i : <[log_name := c]> fs !! sst_name i = fs !! sst_name i.
Proof using Type.
  rewrite lookup_insert_ne; [done|]. intros E. symmetry in E. by apply sst_name_ne_log in E.
Qed.

(** What is on disk under a running database. *)
Lemma db_rel_close d m W N :
  db_rel d m W N → 2 ≤ sstable_threshold d → (N ≤ u32_max)%Z → disk_rel (dir_of d) m W N.
Proof using Type.
  intros (cs & tbls & Hd & Hv & HW & Hn & Hcs & Hr) Hthr HN.
  exists (log d), cs, (history tbls). pose proof (di_next _ _ _ Hd).
  pose proof (di_data _ _ _ Hd) as Hdata. rewrite <-Hdata.
  split_and!; try done.
  - unfold dir_of. by rewrite lookup_insert_eq.
  - apply Hd.
  - eapply Forall_impl; [eapply tables_on_disk, Hd|]. intros p.
    apply table_on_disk_frame, log_not_sst.
  - pose proof (di_ids _ _ _ Hd) as Hids. rewrite Forall_fmap in Hids.
    eapply Forall_impl; [exact Hids|]. cbn. lia.
  - lia.
  - by apply Hr.
  - intros name id. unfold dir_of. destruct (decide (name = log_name)) as [->|Hne].
    + by intros _ ?.
    + rewrite lookup_insert_ne by done. apply Hd.
Qed.

(** * Crashes in the background work *)

Lemma disk_rel_weaken fs m W N W' N' :
  disk_rel fs m W N → W ≤ W' → (N ≤ N' ≤ u32_max)%Z → disk_rel fs m W' N'.
Proof using Type.
  intros (l & cs & hist & ? & ? & ? & Hids & ? & ? & ? & ? & ? & ?) HW HN.
  exists l, cs, hist. split_and!; try done; try lia.
  eapply Forall_impl; [exact Hids|]. cbn. lia.
Qed.

Lemma sorted_filter (P : Z * Entries → Prop) `{!∀ p, Decision (P p)} (ps : list (Z * Entries)) :
  StronglySorted Z.lt ps.*1 → StronglySorted Z.lt (filter P ps).*1.
Proof using Type.
  induction ps as [|p ps IH]; [constructor|]. intros Hrec.
  inversion_clear Hrec as [|? ? Hs Hall]. rewrite filter_cons. case_decide; [|by apply IH].
  cbn. constructor; [by apply IH|]. rewrite Forall_forall in Hall |- *.
  intros x (q & -> & [_ Hq]%list_elem_of_filter)%list_elem_of_fmap.
  apply Hall. by apply list_elem_of_fmap_2.
Qed.

Lemma weight_filter (P : Z * Entries → Prop) `{!∀ p, Decision (P p)} (ps : list (Z * Entries)) :
  sum_list_with (λ p, weight p.2) (filter P ps) ≤ sum_list_with (λ p, weight p.2) ps.
Proof using Type.
  induction ps as [|p ps IH]; [done|]. rewrite filter_cons. case_decide; cbn [sum_list_with]; lia.
Qed.

(** The tables that a crash in a compaction leaves are the ones it keeps, and
    the new one. *)
Lemma crash_names (d : Database) (cs : list Command) (tbls : Tables) (keep : Z * Entries → Prop) `{!∀ p, Decision (keep p)}
    (fs : FS) (out : Entries) (id : Z) (name : str) (i : Z) :
  db_inv d cs tbls →
  (∀ p, p ∈ history tbls → ¬ keep p → fs !! sst_name p.1 = None) →
  (∀ name, (∀ p, p ∈ history tbls → name ≠ sst_name p.1) → name ≠ sst_name id →
     fs !! name = dir d !! name) →
  is_Some (fs !! name) → sst_id name = Some i →
  ∃ i', i' ∈ (filter keep (history tbls) ++ [(id, out)]).*1 ∧ name = sst_name i'.
Proof using Type.
  intros Hd Hgone Hrest Hname Hi. rewrite fmap_app.
  destruct (decide (name = sst_name id)) as [->|Hne].
  { exists id. split; [|done]. rewrite elem_of_app. right. by apply list_elem_of_singleton. }
  destruct (decide (name ∈ sst_name <$> (history tbls).*1)) as [Hin|Hnin].
  - apply list_elem_of_fmap in Hin as (i' & -> & (p & -> & Hp)%list_elem_of_fmap).
    destruct (decide (keep p)) as [Hk|Hk].
    + exists p.1. split; [|done]. rewrite elem_of_app. left.
      apply list_elem_of_fmap_2. by apply list_elem_of_filter.
    + rewrite Hgone in Hname by done. by destruct Hname.
  - rewrite Hrest in Hname; [|intros p Hp ->|done].
    + destruct (di_files _ _ _ Hd _ _ Hname Hi) as (i' & Hi' & ->).
      destruct Hnin. by apply list_elem_of_fmap_2.
    + destruct Hnin. by do 2 apply list_elem_of_fmap_2.
Qed.

(** A new table that changes no key's newest version, some older tables gone. *)
Lemma disk_rel_crash d m W N (keep : Z * Entries → Prop) `{!∀ p, Decision (keep p)}
    fs (out : Entries) t :
  let id := next_sstable_id d in
  (N < u32_max)%Z → ∀ cs tbls, db_inv d cs tbls → recent tbls →
  (∀ k, newest (filter keep (history tbls) ++ [(id, out)]).*2 k =
        newest (history tbls).*2 k ∨ is_Some (data d !! k)) →
  table_of fs t (id, out) → weight out ≤ W →
  (∀ p, p ∈ history tbls → keep p → fs !! sst_name p.1 = dir d !! sst_name p.1) →
  (∀ p, p ∈ history tbls → ¬ keep p → fs !! sst_name p.1 = None) →
  (∀ name, (∀ p, p ∈ history tbls → name ≠ sst_name p.1) → name ≠ sst_name id →
     fs !! name = dir d !! name) →
  (mem_weight (data d) + tables_weight tbls ≤ W) →
  (next_sstable_id d ≤ N)%Z → (Z.of_nat (length cs) ≤ N)%Z →
  (∀ k, view (data d) tbls k ≫= entry_value = m !! k) →
  disk_rel (<[log_name := file (log d)]> fs) m (W + W) (N + 1).
Proof using Type.
  intros id HN cs tbls Hd Hrec Hnew Ht Hwo Hkeep Hgone Hrest HW Hn Hcs Hv.
  pose proof (di_next _ _ _ Hd) as Hn0.
  assert (Hids : ∀ p, p ∈ history tbls → (0 ≤ p.1 < id)%Z).
  { intros p Hp. pose proof (di_ids _ _ _ Hd) as Hf. rewrite Forall_forall in Hf.
    by apply Hf, list_elem_of_fmap_2. }
  exists (log d), cs, (filter keep (history tbls) ++ [(id, out)]).
  rewrite <-(di_data _ _ _ Hd). split_and!.
  - by rewrite lookup_insert_eq.
  - apply Hd.
  - apply Forall_app. split.
    + pose proof (tables_on_disk _ _ _ (di_tables _ _ _ Hd)) as Hts.
      rewrite Forall_forall in Hts |- *. intros p [Hk Hp]%list_elem_of_filter.
      eapply table_on_disk_frame; [|by apply Hts]. by rewrite log_not_sst, Hkeep.
    + apply Forall_singleton. eapply table_on_disk_frame; [apply log_not_sst|].
      by eapply table_of_on_disk.
  - apply Forall_app. split.
    + apply Forall_forall. intros p [_ Hp]%list_elem_of_filter. specialize (Hids p Hp). lia.
    + apply Forall_singleton. cbn. lia.
  - lia.
  - lia.
  - rewrite fmap_app. apply StronglySorted_app_2; [| |repeat constructor].
    + intros x y (p & -> & [_ Hp]%list_elem_of_filter)%list_elem_of_fmap
        ->%list_elem_of_singleton. cbn. by apply Hids.
    + by apply sorted_filter.
  - intros name i [<-|[_ Hname]]%lookup_insert_is_Some Hi; [by vm_compute in Hi|].
    by eapply crash_names.
  - lia.
  - rewrite sum_list_with_app. cbn [sum_list_with snd].
    pose proof (weight_filter keep (history tbls)) as Hwf.
    change (sum_list_with _ (history tbls)) with (tables_weight tbls) in Hwf. lia.
  - intros k. rewrite <-Hv. unfold view. destruct (data d !! k) eqn:E; [done|].
    by destruct (Hnew k) as [->|[? ?]]; [|congruence].
Qed.

Lemma newest_filter (P : Z * Entries → Prop) `{!∀ p, Decision (P p)} ps k :
  (∀ p, p ∈ ps → ¬ P p → es_lookup p.2 k = None) →
  newest (filter P ps).*2 k = newest ps.*2 k.
Proof using Type.
  induction ps as [|p ps IH]; intros Hp; [done|]. rewrite filter_cons.
  assert (IH' : newest (filter P ps).*2 k = newest ps.*2 k)
    by (apply IH; intros q Hq; apply Hp; by right).
  cbn. case_decide as HP; cbn; rewrite IH'; [done|].
  destruct (newest ps.*2 k); [done|]. symmetry. apply Hp; [left|done].
Qed.

(** A crash when the table of a flush is complete and the log not yet cut. *)
Lemma flush_crash_ok d m W N :
  db_rel d m W N → 2 ≤ sstable_threshold d → (Z.of_nat W ≤ 2 ^ 60)%Z → (N < u32_max)%Z →
  ∃ o d', flush_write d = (Ok o, d') ∧ disk_rel (dir_of d') m (W + W) (N + 1).
Proof using All.
  intros Hrel Hthr HW HN.
  pose proof (db_rel_close _ _ _ _ Hrel Hthr ltac:(lia)) as Hclose.
  destruct Hrel as (cs & tbls & Hd & Hv & Hw & Hn & Hcs & Hr).
  destruct (decide (data d = ∅)) as [Hemp|Hne].
  { exists None, d. split; [|eapply disk_rel_weaken; [done|lia|lia]].
    unfold flush_write. erewrite bind_Ok by done. by rewrite Hemp, map_to_list_empty. }
  pose proof (db_inv_tables _ _ _ Hd) as Hti.
  destruct (flush_write_ok d (db_inv_entries _ _ _ Hd)) as (t & c & E & Ht);
    [lia|split; [apply Hti|lia]|done|].
  do 2 eexists. split; [exact E|]. unfold dir_of. cbn [log dir upd upd_dir].
  eapply (disk_rel_crash d m W N (λ _, True)); try done.
  - by apply Hr.
  - intros k. destruct (data d !! k) as [e|] eqn:Ek; [by right; eexists|]. left.
    rewrite fmap_app. cbn [fmap list_fmap snd]. rewrite newest_snoc, sorted_entries_lookup, Ek.
    by apply newest_filter.
  - rewrite sorted_entries_weight. lia.
  - intros p Hp _. eapply new_file_frame; [done|]. by apply list_elem_of_fmap_2.
  - intros name _ Hne'. by rewrite lookup_insert_ne.
Qed.

(** A crash after a compaction of level 0 published its table and removed the
    first [n] of the old files. *)
Definition compact_crash (n : nat) : M Database () :=
  o ← compact_publish 0;
  remove_files (take n (default [] o)).

Lemma compact_crash_skip n d :
  compact_publish 0 d = (Ok None, d) → compact_crash n d = (Ok (), d).
Proof using Type.
  intros E. unfold compact_crash. erewrite bind_Ok by exact E. cbn [default].
  by rewrite take_nil.
Qed.

Lemma compact_crash_run n d tbls pre cur next post ts_pre ts_post ts_c ts_n :
  tables_inv d tbls → compacting 0 d tbls pre cur next post ts_pre ts_post ts_c ts_n →
  ts_c ≠ [] → (Z.of_nat (tables_weight tbls) ≤ 2 ^ 60)%Z → (next_sstable_id d < u32_max)%Z →
  let id := next_sstable_id d in
  let olds := take n (sst_name <$> (cur ++ next).*1) in
  ∃ d' t out, compact_crash n d = (Ok (), d') ∧ log d' = log d ∧
    table_of (dir d') t (id, out) ∧ (∀ k, es_lookup out k = newest (next ++ cur).*2 k) ∧
    weight out ≤ tables_weight tbls ∧
    (∀ p, p ∈ olds → dir d' !! p = None) ∧
    (∀ p, p ∉ olds → p ≠ sst_name id → dir d' !! p = dir d !! p).
Proof using All.
  intros Hti Hc Hne Hw Hid id olds.
  destruct (compact_publish_ok Hti Hc Hne Hw Hid) as (t & c & out & E & Ht & Hout & Hwt).
  pose proof (compacting_nodup Hti Hc) as Hnd. pose proof (compacting_fresh Hti Hc) as Hfresh.
  pose proof (compacting_weight Hc) as Htw. fold id in E, Ht, Hfresh.
  match type of E with _ = (_, ?s) => set (d1 := s) in * end.
  destruct (remove_all_ok olds d1) as (fs & Erm & Hgone & Hkept).
  { unfold olds. rewrite <-(take_drop n (sst_name <$> _)) in Hnd. by apply NoDup_app in Hnd as [? _]. }
  { destruct (table_files _ _ _ (cp_in _ _ _ _ _ _ _ _ _ _ _ Hc)) as [En Hfiles].
    rewrite En in Hfiles. apply Forall_take. eapply Forall_impl; [exact Hfiles|].
    intros p [c' Hp]. unfold d1. cbn. destruct (decide (sst_name id = p)) as [<-|];
      [rewrite lookup_insert_eq|rewrite !lookup_insert_ne by done]; by eexists. }
  exists (d1 <| dir := fs |>), t, out.
  split; [unfold compact_crash; by erewrite bind_Ok by exact E|].
  assert (sst_name id ∉ olds).
  { intros Hin. destruct Hfresh. rewrite <-(take_drop n), elem_of_app. by left. }
  split_and!; try done; [|lia|].
  - eapply table_of_frame; [|exact Ht]. destruct Ht as [-> _]. by apply Hkept.
  - intros p Hp Hne'. cbn. rewrite Hkept by done. unfold d1. cbn. by rewrite lookup_insert_ne.
Qed.

(** The new table and the old ones that are left have the newest versions. *)
Lemma crash_newest d tbls cur next post (olds : list bytes) id out k :
  tables_inv d tbls → tbls = [] ++ (cur ++ []) :: next :: post →
  (∀ p, p ∈ olds → ∃ id, p = sst_name id ∧ id ∈ (cur ++ next).*1) →
  (∀ k, es_lookup out k = newest (next ++ cur).*2 k) →
  newest (filter (λ p, sst_name p.1 ∉ olds) (history tbls) ++ [(id, out)]).*2 k =
  newest (history tbls).*2 k.
Proof using Type.
  intros Hti Etb Hsub Hout.
  assert (Hhist : history tbls = history post ++ next ++ cur).
  { rewrite Etb, history_at. cbn. by rewrite !app_nil_r. }
  rewrite fmap_app. cbn [fmap list_fmap snd]. rewrite newest_snoc, Hout.
  rewrite Hhist. destruct (newest (next ++ cur).*2 k) as [e|] eqn:Ek.
  - by rewrite fmap_app, newest_app, Ek.
  - apply newest_filter. intros p [Hp|Hp]%elem_of_app Hin.
    + destruct Hin. intros (i & Ei & Hi)%Hsub.
      destruct (taken_ids _ _ _ _ _ _ _ _ Hti Etb Hi) as (_ & Hi2 & Hnot).
      assert (Hp1 : p.1 ∈ (history post).*1) by by apply list_elem_of_fmap_2.
      apply sst_name_inj in Ei; [|eapply in_u32_id; [done|]..].
      * subst i. destruct Hnot. cbn [app]. rewrite history_cons, fmap_app, elem_of_app. by left.
      * rewrite Hhist, fmap_app, elem_of_app. by left.
      * done.
    + eapply newest_None; [exact Ek|]. by apply list_elem_of_fmap_2.
Qed.

Lemma compact_crash_ok d m W N n :
  db_rel d m W N → 2 ≤ sstable_threshold d → (Z.of_nat W ≤ 2 ^ 60)%Z → (N < u32_max)%Z →
  ∃ d', compact_crash n d = (Ok (), d') ∧ disk_rel (dir_of d') m (W + W) (N + 1).
Proof using All.
  intros Hrel Hthr HW HN.
  pose proof (db_rel_close _ _ _ _ Hrel Hthr ltac:(lia)) as Hclose.
  destruct Hrel as (cs & tbls & Hd & Hv & Hw & Hn & Hcs & Hr).
  assert (Hskip : compact_publish 0 d = (Ok None, d) → ∃ d', compact_crash n d = (Ok (), d') ∧
    disk_rel (dir_of d') m (W + W) (N + 1)).
  { intros E%(compact_crash_skip n). exists d. split; [done|].
    eapply disk_rel_weaken; [done|lia|lia]. }
  destruct (decide (length (leveled_sstable d) ≤ 0 + 1)) as [Hl|Hl];
    [apply Hskip, compact_publish_skip; auto|].
  pose proof (db_inv_tables _ _ _ Hd) as Hti. destruct (compacting_intro 0 d tbls Hti) as
    (pre & cur & next & post & ts_pre & ts_post & ts_c & ts_n & Hc); [lia|].
  pose proof (cp_level _ _ _ _ _ _ _ _ _ _ _ Hc) as [Hp1 Hp2].
  destruct (decide (ts_c = [])) as [->|Hne].
  { apply Hskip, compact_publish_skip. right. rewrite (cp_tables _ _ _ _ _ _ _ _ _ _ _ Hc).
    by destruct ts_pre. }
  destruct (compact_crash_run n _ _ _ _ _ _ _ _ _ _ Hti Hc Hne) as
    (d' & t & out & E & El & Ht & Hout & Hwt & Hgone & Hkept); [lia|lia|]. clear Hskip.
  set (olds := take n _) in *. exists d'. split; [exact E|]. unfold dir_of. rewrite El.
  assert (Hsub : ∀ p, p ∈ olds → ∃ id, p = sst_name id ∧ id ∈ (cur ++ next).*1).
  { intros p Hp. apply list_elem_of_fmap.
    rewrite <-(take_drop n (sst_name <$> _)), elem_of_app. by left. }
  destruct pre; [|done].
  assert (Etb : tbls = [] ++ (cur ++ []) :: next :: post)
    by (rewrite app_nil_r; apply Hc).
  apply (disk_rel_crash d m W N (λ p, sst_name p.1 ∉ olds) (dir d') out t HN cs tbls); try done.
  - by apply Hr.
  - intros k. left. by eapply crash_newest.
  - lia.
  - intros p Hp Hk. apply Hkept; [done|].
    intros E'. by eapply next_name_fresh; [done|by apply list_elem_of_fmap_2|].
  - intros p Hp Hk. apply Hgone. by destruct (decide (sst_name p.1 ∈ olds)).
  - intros name Hname Hne'. apply Hkept; [|done]. intros (i & -> & Hi)%Hsub.
    destruct (taken_ids _ _ _ _ _ _ _ _ Hti Etb Hi) as (_ & (p & -> & Hp)%list_elem_of_fmap & _).
    by apply (Hname p).
Qed.

End refine.

(** * Properties *)

Section programs.
Context `{HT : F64Text} `{HM : F64Math} `{HX : Xxh3}.

(** Open the directory, run a program on the database, stop. *)
Definition with_database {A} (cfg : Config) (m : M Database A) : M FS A :=
  d ← open_in_dir cfg;
  '(a, d) ← lift (run_on m d);
  modify (λ _, dir_of d);;
  mret a.

(** One run of the program after another, on the same directory. *)
Definition run_sessions (ss : list (Config * list Command)) : M FS () :=
  for_each ss (λ '(cfg, cs), with_database cfg (run_commands cs)).

End programs.

Section properties.
Context `{HT : F64Text} `{HM : F64Math} `{HX : Xxh3}
  `{!F64TextLaws HT} `{!F64MathLaws HM} `{!BloomDims}.

(** Limits far beyond what a disk holds: 2^60 bytes, 2^32 - 1 tables. *)
Definition config_ok (cfg : Config) : Prop :=
  cfg_sstable_level cfg ≠ 0 ∧ 2 ≤ cfg_sstable_threshold cfg.

Definition session_tables (s : Config * list Command) : nat :=
  length s.2 * cfg_sstable_level s.1.

Definition sessions_ok (ss : list (Config * list Command)) : Prop :=
  Forall (λ s, config_ok s.1 ∧ Forall command_ok s.2) ss ∧
  (Z.of_nat (sum_list_with (λ s, commands_weight s.2) ss) ≤ 2 ^ 60)%Z ∧
  (Z.of_nat (sum_list_with session_tables ss) < u32_max)%Z.

Lemma with_database_ok {A} (cfg : Config) (m : M Database A) (fs : FS)
    (mp : gmap str Value) (W : nat) (N : Z) (Q : A → FS → Prop) :
  disk_rel fs mp W N → cfg_sstable_level cfg ≠ 0 →
  (∀ d, db_rel d mp W N → length (leveled_sstable d) = cfg_sstable_level cfg →
     sstable_threshold d = cfg_sstable_threshold cfg →
     ∃ a d', m d = (Ok a, d') ∧ Q a (dir_of d')) →
  ∃ a fs', with_database cfg m fs = (Ok a, fs') ∧ Q a fs'.
Proof using All.
  intros Hfs Hcfg Hm. destruct (disk_rel_open cfg fs mp W N Hfs Hcfg) as (d & E & Hd & Hl & Ht).
  destruct (Hm d Hd Hl Ht) as (a & d' & Em & HQ). exists a, (dir_of d'). split; [|done].
  unfold with_database. erewrite bind_Ok by exact E.
  erewrite bind_Ok by (unfold lift, run_on; by rewrite Em). cbn beta iota.
  by erewrite bind_Ok by done.
Qed.

Lemma run_sessions_ok ss fs m W N :
  disk_rel fs m W N → Forall (λ s, config_ok s.1 ∧ Forall command_ok s.2) ss →
  (Z.of_nat (W + sum_list_with (λ s, commands_weight s.2) ss) ≤ 2 ^ 60)%Z →
  (N + Z.of_nat (sum_list_with session_tables ss) ≤ u32_max)%Z →
  ∃ fs', run_sessions ss fs = (Ok (), fs') ∧
    disk_rel fs' (foldl apply_command m (mjoin ss.*2))
      (W + sum_list_with (λ s, commands_weight s.2) ss)
      (N + Z.of_nat (sum_list_with session_tables ss)).
Proof using All.
  intros Hfs Hss. revert fs m W N Hfs.
  induction Hss as [|[cfg cs] ss [[Hlev Hthr] Hcs] _ IH]; intros fs m W N Hfs HW HN.
  { exists fs. cbn. by rewrite Nat.add_0_r, Z.add_0_r. }
  cbn [sum_list_with fst snd] in *. change (session_tables (cfg, cs)) with
    (length cs * cfg_sstable_level cfg) in *.
  destruct (with_database_ok cfg (run_commands cs) fs m W N
    (λ _ fs, disk_rel fs (foldl apply_command m cs) (W + commands_weight cs)
       (N + Z.of_nat (length cs * cfg_sstable_level cfg)))) as ([] & fs1 & E1 & H1); try done.
  { intros d Hd Hl Ht. destruct (run_commands_ok cs d m W N Hd Hcs) as (d' & E & Hd' & Ht');
      [lia|rewrite Hl; lia|].
    exists (), d'. split; [done|]. rewrite Hl in Hd'. apply db_rel_close; [done| |lia].
    by rewrite Ht', Ht. }
  destruct (IH fs1 _ _ _ H1) as (fs2 & E2 & H2); [lia|lia|].
  exists fs2. split; [unfold run_sessions; cbn [for_each]; by erewrite bind_Ok by exact E1|].
  cbn [fmap list_fmap snd]. change (mjoin (cs :: ss.*2)) with (cs ++ mjoin ss.*2).
  rewrite foldl_app, Nat.add_assoc.
  by rewrite Nat2Z.inj_add, Z.add_assoc.
Qed.

(** C8: With any configuration of at least one level, every insert and
    delete succeeds, through all the flushes and compactions it causes, and
    afterwards every key reads as the last command on it says. *)
Theorem database_is_a_map cfg cs :
  cfg_sstable_level cfg ≠ 0 → Forall command_ok cs →
  (Z.of_nat (commands_weight cs) ≤ 2 ^ 60)%Z →
  (Z.of_nat (length cs * cfg_sstable_level cfg) ≤ u32_max)%Z →
  ∃ d0 d fs, open_in_dir cfg ∅ = (Ok d0, fs) ∧ run_commands cs d0 = (Ok (), d) ∧
    ∀ k, get k d = (Ok (foldl apply_command ∅ cs !! k), d).
Proof using All.
  intros Hlev Hcs HW HN.
  destruct (disk_rel_open cfg ∅ ∅ 0 0 disk_rel_empty Hlev) as (d0 & E0 & H0 & Hl & _).
  destruct (run_commands_ok cs d0 ∅ 0 0 H0 Hcs) as (d & E & Hd & _); [lia|rewrite Hl; lia|].
  exists d0, d, (dir_of d0). split_and!; [done..|]. intros k. by eapply db_rel_get.
Qed.

(** C9: Whatever was written in earlier runs of the program is what the next
    run reads: restarting (cleanly or by a crash between two operations)
    rebuilds the map from the tables and the log, if every run used a
    compaction threshold of at least 2. *)
Theorem restart_preserves_map ss cfg :
  sessions_ok ss → config_ok cfg →
  ∃ fs d fs', run_sessions ss ∅ = (Ok (), fs) ∧ open_in_dir cfg fs = (Ok d, fs') ∧
    ∀ k, get k d = (Ok (foldl apply_command ∅ (mjoin ss.*2) !! k), d).
Proof using All.
  intros (Hss & HW & HN) [Hlev _].
  destruct (run_sessions_ok ss ∅ ∅ 0 0 disk_rel_empty Hss) as (fs & E & Hfs); [lia|lia|].
  destruct (disk_rel_open cfg fs _ _ _ Hfs Hlev) as (d & Ed & Hd & _).
  exists fs, d, (dir_of d). split_and!; [done..|]. intros k. by eapply db_rel_get.
Qed.

(** A crash in the middle of a flush, when the table is complete and the
    log not yet cut, loses and revives nothing. *)
Theorem crash_before_log_truncation ss cfg cs cfg' :
  sessions_ok (ss ++ [(cfg, cs)]) → config_ok cfg' →
  ∃ o fs d fs', (run_sessions ss;; with_database cfg (run_commands cs;; flush_write)) ∅
      = (Ok o, fs) ∧
    open_in_dir cfg' fs = (Ok d, fs') ∧
    ∀ k, get k d = (Ok (foldl apply_command ∅ (mjoin ss.*2 ++ cs) !! k), d).
Proof using All.
  intros (Hss & HW & HN) [Hlev' _]. rewrite !sum_list_with_app in *.
  cbn [sum_list_with fst snd] in HW, HN.
  change (session_tables (cfg, cs)) with (length cs * cfg_sstable_level cfg) in HN.
  apply Forall_app in Hss as [Hss Hs]. apply Forall_singleton in Hs as [[Hlev Hthr] Hcs].
  cbn [fst snd] in *.
  destruct (run_sessions_ok ss ∅ ∅ 0 0 disk_rel_empty Hss) as (fs & E & Hfs); [lia|lia|].
  destruct (with_database_ok cfg (run_commands cs;; flush_write) fs _ _ _
    (λ _ fs', ∃ W N, disk_rel fs' (foldl apply_command ∅ (mjoin ss.*2 ++ cs)) W N) Hfs Hlev)
    as (o & fs1 & E1 & W & N & H1).
  { intros d Hd Hl Ht.
    destruct (run_commands_ok cs d _ _ _ Hd Hcs) as (d1 & E1 & H1 & Ht1); [lia|rewrite Hl; lia|].
    destruct (flush_crash_ok d1 _ _ _ H1) as (o & d2 & E2 & H2);
      [by rewrite Ht1, Ht|lia|rewrite Hl; lia|].
    exists o, d2. split; [by erewrite bind_Ok by exact E1|].
    rewrite foldl_app. eauto. }
  destruct (disk_rel_open cfg' fs1 _ _ _ H1 Hlev') as (d & Ed & Hd & _).
  exists o, fs1, d, (dir_of d). split; [by erewrite bind_Ok by exact E|].
  split; [done|]. intros k. by eapply db_rel_get.
Qed.

(** C19: A crash in the middle of a compaction of level 0, after the new table
    was published and any number of the old files removed, loses and revives
    nothing. *)
Theorem crash_in_compaction ss cfg cs n cfg' :
  sessions_ok (ss ++ [(cfg, cs)]) → config_ok cfg' →
  ∃ fs d fs', (run_sessions ss;; with_database cfg (run_commands cs;; compact_crash n)) ∅
      = (Ok (), fs) ∧
    open_in_dir cfg' fs = (Ok d, fs') ∧
    ∀ k, get k d = (Ok (foldl apply_command ∅ (mjoin ss.*2 ++ cs) !! k), d).
Proof using All.
  intros (Hss & HW & HN) [Hlev' _]. rewrite !sum_list_with_app in *.
  cbn [sum_list_with fst snd] in HW, HN.
  change (session_tables (cfg, cs)) with (length cs * cfg_sstable_level cfg) in HN.
  apply Forall_app in Hss as [Hss Hs]. apply Forall_singleton in Hs as [[Hlev Hthr] Hcs].
  cbn [fst snd] in *.
  destruct (run_sessions_ok ss ∅ ∅ 0 0 disk_rel_empty Hss) as (fs & E & Hfs); [lia|lia|].
  destruct (with_database_ok cfg (run_commands cs;; compact_crash n) fs _ _ _
    (λ _ fs', ∃ W N, disk_rel fs' (foldl apply_command ∅ (mjoin ss.*2 ++ cs)) W N) Hfs Hlev)
    as ([] & fs1 & E1 & W & N & H1).
  { intros d Hd Hl Ht.
    destruct (run_commands_ok cs d _ _ _ Hd Hcs) as (d1 & E1 & H1 & Ht1); [lia|rewrite Hl; lia|].
    destruct (compact_crash_ok d1 _ _ _ n H1) as (d2 & E2 & H2);
      [by rewrite Ht1, Ht|lia|rewrite Hl; lia|].
    exists (), d2. split; [by erewrite bind_Ok by exact E1|].
    rewrite foldl_app. eauto. }
  destruct (disk_rel_open cfg' fs1 _ _ _ H1 Hlev') as (d & Ed & Hd & _).
  exists fs1, d, (dir_of d). split; [by erewrite bind_Ok by exact E|].
  split; [done|]. intros k. by eapply db_rel_get.
Qed.

End properties.

(** * What goes wrong *)

Section torn_flush.
Context `{HT : F64Text} `{HM : F64Math} `{HX : Xxh3}
  `{!F64TextLaws HT} `{!F64MathLaws HM} `{!BloomDims}.

(** A flush that a crash cut short, when [written] is in the file of its table. *)
Definition torn_flush (written : bytes) : M Database () :=
  id ← fetch_sstable_id;
  modify (λ d, d <| dir := <[sst_name id := written]> (dir d) |>).

Lemma torn_flush_ok d written :
  let id := next_sstable_id d in
  (0 ≤ id < u32_max)%Z →
  torn_flush written d = (Ok (), d <| next_sstable_id := (id + 1)%Z |>
    <| dir := <[sst_name id := written]> (dir d) |>).
Proof using Type. intros id Hid. unfold torn_flush. by erewrite bind_Ok by (by apply fetch_sstable_id_ok). Qed.

(** The unfinished table is the one that is opened last. *)
Lemma load_torn d id written hist levels :
  leveled_sstable d = [] :: levels → next_sstable_id d = 0%Z →
  dir d !! sst_name id = Some written → unfinished written →
  Forall (table_on_disk (dir d)) hist → Forall (λ p, 0 ≤ p.1 < id)%Z hist →
  (0 ≤ id < u32_max)%Z → StronglySorted Z.lt hist.*1 →
  (∀ name i, is_Some (dir d !! name) → sst_id name = Some i →
     ∃ i', i' ∈ hist.*1 ++ [id] ∧ name = sst_name i') →
  ∃ e d', load_sstables d = (Err e, d').
Proof using All.
  intros El En Hc Hw Hdisk Hids Hid Hs Hfiles.
  destruct (load_loop_ok hist d [] _ id El Hdisk Hids) as (ts & n & E & _); [lia|lia|].
  match type of E with _ = (_, ?s) => set (d1 := s) in * end.
  destruct (unfinished_err (dir d1) (sst_name id) written Hc Hw) as [e Ee].
  exists e, d1. unfold load_sstables. erewrite bind_Ok by done. erewrite bind_Ok by done.
  rewrite El, decide_False by done.
  rewrite (directory_ids (dir d) (hist.*1 ++ [id])); [| | | |done].
  - rewrite for_each_app. erewrite bind_Ok by exact E. cbn [for_each]. apply bind_Err.
    unfold load_sstable. apply bind_Err. unfold zoom.
    rewrite Ee. by destruct d1.
  - rewrite Forall_app, Forall_singleton, Forall_fmap. split.
    + eapply Forall_impl; [exact Hids|]. unfold in_u32, in_u, u32_max in *. cbn. lia.
    + unfold in_u32, in_u, u32_max in *. lia.
  - apply StronglySorted_app_2; [|done|repeat constructor].
    intros x y (p & -> & Hp)%list_elem_of_fmap ->%list_elem_of_singleton.
    rewrite Forall_forall in Hids. by apply Hids.
  - rewrite Forall_app, Forall_singleton, Forall_fmap. split; [|by eexists].
    eapply Forall_impl; [exact Hdisk|]. intros p (c' & b & Hc' & _). by exists c'.
Qed.

Lemma torn_flush_open d m W N written cfg :
  db_rel d m W N → 2 ≤ sstable_threshold d → (N < u32_max)%Z →
  cfg_sstable_level cfg ≠ 0 → unfinished written →
  ∃ d' e fs, torn_flush written d = (Ok (), d') ∧ open_in_dir cfg (dir_of d') = (Err e, fs) ∧
    base.delete (sst_name (next_sstable_id d)) (dir_of d') = dir_of d.
Proof using All.
  intros Hrel Hthr HN Hlev Hwr.
  destruct Hrel as (cs & tbls & Hd & _ & _ & Hn & _ & Hr). specialize (Hr Hthr).
  set (id := next_sstable_id d). pose proof (di_next _ _ _ Hd) as Hn0. fold id in Hn0, Hn.
  pose proof (torn_flush_ok d written ltac:(fold id; lia)) as E. fold id in E.
  assert (Hfresh : dir d !! sst_name id = None).
  { destruct (dir d !! sst_name id) as [c|] eqn:Ec; [exfalso|done].
    destruct (di_files _ _ _ Hd (sst_name id) id) as (i' & Hi' & Ei); [by eexists|apply sst_id_name|].
    { unfold in_u32, in_u, u32_max in *. lia. }
    pose proof (di_ids _ _ _ Hd) as Hf. rewrite Forall_forall in Hf. specialize (Hf _ Hi').
    apply sst_name_inj in Ei; unfold in_u32, in_u, u32_max in *; lia. }
  match type of E with _ = (_, ?s) => set (d' := s) in * end.
  set (fs := <[sst_name id := written]> (dir d)) in *.
  assert (Hlog : fs !! log_name = None)
    by (unfold fs; rewrite lookup_insert_ne by apply sst_name_ne_log; apply Hd).
  assert (∃ d0 : Database,
    (∀ e d1, load_sstables d0 = (Err e, d1) → ∃ fs', open_in_dir cfg (dir_of d') = (Err e, fs')) ∧
    dir d0 = fs ∧ leveled_sstable d0 = [] :: replicate (cfg_sstable_level cfg - 1) [] ∧
    next_sstable_id d0 = 0%Z) as (d0 & Hopen & Edir & Elev & Enext).
  { eexists. split.
    { intros e d1 Eload. eexists. unfold open_in_dir. erewrite bind_Ok by done.
      unfold d', dir_of. cbn [log dir upd upd_dir upd_next_sstable_id]. rewrite lookup_insert_eq.
      erewrite bind_Ok by (unfold lift; change (default [] (Some ?x)) with x;
        by rewrite (new_ok _ _ (di_wal _ _ _ Hd))).
      erewrite bind_Ok by done. apply bind_Err. unfold lift, run_on.
      by erewrite (bind_Err _ _ _ _ _ Eload). }
    cbn. split_and!; [by rewrite delete_insert_id| |done].
    destruct (cfg_sstable_level cfg); [done|]. cbn. by rewrite Nat.sub_0_r. }
  destruct (load_torn d0 id written (history tbls) (replicate (cfg_sstable_level cfg - 1) []))
    as (e & d1 & Eload); rewrite ?Edir; try done; [| | |lia| |].
  - unfold fs. apply lookup_insert_eq.
  - pose proof (tables_on_disk _ _ _ (di_tables _ _ _ Hd)) as Hdisk.
    rewrite Forall_forall in Hdisk |- *. intros p Hp. eapply table_on_disk_frame; [|by apply Hdisk].
    eapply new_file_frame; [by eapply db_inv_tables|by apply list_elem_of_fmap_2].
  - pose proof (di_ids _ _ _ Hd) as Hf. by rewrite Forall_fmap in Hf.
  - intros name i. unfold fs. setoid_rewrite elem_of_app.
    destruct (decide (name = sst_name id)) as [->|Hne].
    + intros _ _. exists id. split; [|done]. right. by apply list_elem_of_singleton.
    + rewrite lookup_insert_ne by done. intros Hf Hi.
      destruct (di_files _ _ _ Hd _ _ Hf Hi) as (i' & ? & ->). eauto.
  - destruct (Hopen _ _ Eload) as [fs' Ho]. exists d', e, fs'. split_and!; [exact E|exact Ho|].
    unfold d', dir_of. cbn [log dir upd upd_dir upd_next_sstable_id].
    rewrite delete_insert_ne by apply sst_name_ne_log. by unfold fs; rewrite delete_insert_id.
Qed.

(** C40: A crash that cuts a flush short makes the directory impossible to open,
    although nothing is lost: whatever the flush has written of its file, from
    nothing to everything but the final header, [load_sstables] reports the
    unfinished table as an error, with any configuration; and the directory
    without that file opens with every key as the commands say. *)
Theorem torn_flush_blocks_restart ss cfg cs written cfg' :
  sessions_ok (ss ++ [(cfg, cs)]) → config_ok cfg' → unfinished written →
  ∃ fs e fs', (run_sessions ss;; with_database cfg (run_commands cs;; torn_flush written)) ∅
      = (Ok (), fs) ∧ open_in_dir cfg' fs = (Err e, fs') ∧
    ∃ name d, fs !! name = Some written ∧
      open_in_dir cfg' (base.delete name fs) = (Ok d, dir_of d) ∧
      ∀ k, get k d = (Ok (foldl apply_command ∅ (mjoin (ss ++ [(cfg, cs)]).*2) !! k), d).
Proof using All.
  intros (Hss & HW & HN) [Hlev' _] Hwr. rewrite !sum_list_with_app in *.
  cbn [sum_list_with fst snd] in HW, HN.
  change (session_tables (cfg, cs)) with (length cs * cfg_sstable_level cfg) in HN.
  apply Forall_app in Hss as [Hss Hs]. apply Forall_singleton in Hs as [[Hlev Hthr] Hcs].
  cbn [fst snd] in *.
  destruct (run_sessions_ok ss ∅ ∅ 0 0 disk_rel_empty Hss) as (fs & E & Hfs); [lia|lia|].
  destruct (with_database_ok cfg (run_commands cs;; torn_flush written) fs _ _ _
    (λ _ fs1, ∃ e fs2 name m W N, open_in_dir cfg' fs1 = (Err e, fs2) ∧ fs1 !! name = Some written ∧
       disk_rel (base.delete name fs1) m W N ∧
       m = foldl apply_command ∅ (mjoin (ss ++ [(cfg, cs)]).*2)) Hfs Hlev)
    as ([] & fs1 & E1 & e & fs2 & name & m & W & N & H1 & Hname & Hrel & ->).
  { intros d Hd Hl Ht.
    destruct (run_commands_ok cs d _ _ _ Hd Hcs) as (d1 & E1 & H1 & Ht1); [lia|rewrite Hl; lia|].
    destruct (torn_flush_open d1 _ _ _ written cfg' H1) as (d2 & e & fs2 & E2 & H2 & Edel);
      [by rewrite Ht1, Ht|rewrite Hl; lia|done..|].
    exists (), d2. split; [by erewrite bind_Ok by exact E1|].
    exists e, fs2, (sst_name (next_sstable_id d1)). do 3 eexists. split; [done|].
    split; [|split; [rewrite Edel; eapply db_rel_close; [exact H1|by rewrite Ht1, Ht|rewrite Hl; lia]|]].
    - destruct H1 as (? & ? & Hdb & _ & _ & Hnx & _). pose proof (di_next _ _ _ Hdb).
      rewrite torn_flush_ok in E2 by (rewrite ?Hl in *; lia). injection E2 as <-.
      unfold dir_of. cbn [log dir upd upd_dir upd_next_sstable_id].
      rewrite lookup_insert_ne by (symmetry; apply sst_name_ne_log).
      apply lookup_insert_eq.
    - by rewrite fmap_app, join_app, foldl_app; cbn; rewrite app_nil_r. }
  exists fs1, e, fs2. split; [by erewrite bind_Ok by exact E|]. split; [done|].
  destruct (disk_rel_open cfg' _ _ _ _ Hrel Hlev') as (d & Ed & Hd & _).
  exists name, d. split_and!; [done..|]. intros k. by eapply db_rel_get.
Qed.

End torn_flush.

Section witnesses.

#[local] Existing Instance bits_text.
#[local] Existing Instance micro_math.
#[local] Instance test_hash : Xxh3 := from_le.

Definition put_a (i : Z) : Command := Set_ (lit "a") (Int i).
Definition two_levels : Config :=
  {| cfg_sstable_level := 2; cfg_data_threshold := 1; cfg_sstable_threshold := 2 |}.
Definition four_levels : Config :=
  {| cfg_sstable_level := 4; cfg_data_threshold := 1; cfg_sstable_threshold := 1 |}.

(** With a compaction threshold of 1 and four levels, three writes of one
    key are enough for a restart to bring an older value back: the table that
    a compaction of a deep level writes last gets the highest id, and
    [load_sstables] takes the highest id for the newest. *)
Theorem threshold_one_revives_old_value :
  (* before the restart, and after it *)
  let read_then_restart :=
    before ← with_database four_levels
      (run_commands [put_a 1; put_a 2; put_a 3];; get (lit "a"));
    after ← with_database four_levels (get (lit "a"));
    mret (before, after) in
  fst (read_then_restart ∅) = Ok (Some (Int 3), Some (Int 2)).
Proof. vm_compute. reflexivity. Qed.

Lemma commands_ok_test : Forall command_ok [put_a 1; Delete (lit "b"); put_a 2].
Proof. repeat constructor; vm_compute; intuition congruence. Qed.

Lemma sessions_ok_test :
  sessions_ok ([(default_config, [put_a 1])] ++ [(two_levels, [put_a 2; Delete (lit "b")])]).
Proof.
  split; [|by vm_compute].
  repeat constructor; vm_compute; intuition congruence.
Qed.

Lemma database_is_a_map_witness :
  ∃ d0 d fs, open_in_dir two_levels ∅ = (Ok d0, fs) ∧
    run_commands [put_a 1; Delete (lit "b"); put_a 2] d0 = (Ok (), d) ∧
    ∀ k, get k d =
      (Ok (foldl apply_command ∅ [put_a 1; Delete (lit "b"); put_a 2] !! k), d).
Proof.
  apply (database_is_a_map (HT := bits_text) (HM := micro_math) (HX := from_le)
    (F64TextLaws0 := bits_text_laws) (F64MathLaws0 := micro_math_laws) (H := micro_dims)).
  - done.
  - apply commands_ok_test.
  - by vm_compute.
  - by vm_compute.
Defined.

Lemma restart_preserves_map_witness :
  let ss := [(default_config, [put_a 1])] ++ [(two_levels, [put_a 2; Delete (lit "b")])] in
  ∃ fs d fs', run_sessions ss ∅ = (Ok (), fs) ∧
    open_in_dir default_config fs = (Ok d, fs') ∧
    ∀ k, get k d = (Ok (foldl apply_command ∅ (mjoin ss.*2) !! k), d).
Proof.
  apply (restart_preserves_map (HT := bits_text) (HM := micro_math) (HX := from_le)
    (F64TextLaws0 := bits_text_laws) (F64MathLaws0 := micro_math_laws) (H := micro_dims)).
  - apply sessions_ok_test.
  - split; [done|cbn; lia].
Defined.

Lemma crash_before_log_truncation_witness :
  let ss := [(default_config, [put_a 1])] in let cs := [put_a 2; Delete (lit "b")] in
  ∃ o fs d fs',
    (run_sessions ss;; with_database two_levels (run_commands cs;; flush_write)) ∅
      = (Ok o, fs) ∧
    open_in_dir default_config fs = (Ok d, fs') ∧
    ∀ k, get k d = (Ok (foldl apply_command ∅ (mjoin ss.*2 ++ cs) !! k), d).
Proof.
  apply (crash_before_log_truncation (HT := bits_text) (HM := micro_math) (HX := from_le)
    (F64TextLaws0 := bits_text_laws) (F64MathLaws0 := micro_math_laws) (H := micro_dims)
    [(default_config, [put_a 1])] two_levels [put_a 2; Delete (lit "b")]).
  - apply sessions_ok_test.
  - split; [done|cbn; lia].
Defined.

Lemma crash_in_compaction_witness :
  let ss := [(default_config, [put_a 1])] in let cs := [put_a 2; Delete (lit "b")] in
  ∃ fs d fs',
    (run_sessions ss;; with_database two_levels (run_commands cs;; compact_crash 1)) ∅
      = (Ok (), fs) ∧
    open_in_dir default_config fs = (Ok d, fs') ∧
    ∀ k, get k d = (Ok (foldl apply_command ∅ (mjoin ss.*2 ++ cs) !! k), d).
Proof.
  apply (crash_in_compaction (HT := bits_text) (HM := micro_math) (HX := from_le)
    (F64TextLaws0 := bits_text_laws) (F64MathLaws0 := micro_math_laws) (H := micro_dims)
    [(default_config, [put_a 1])] two_levels [put_a 2; Delete (lit "b")] 1).
  - apply sessions_ok_test.
  - split; [done|cbn; lia].
Defined.

Lemma torn_flush_blocks_restart_witness :
  let ss := [(default_config, [put_a 1])] in let cs := [put_a 2; Delete (lit "b")] in
  let written := take 7 (write_header empty_header) in
  ∃ fs e fs', (run_sessions ss;; with_database two_levels (run_commands cs;; torn_flush written)) ∅
      = (Ok (), fs) ∧ open_in_dir default_config fs = (Err e, fs') ∧
    ∃ name d, fs !! name = Some written ∧
      open_in_dir default_config (base.delete name fs) = (Ok d, dir_of d) ∧
      ∀ k, get k d = (Ok (foldl apply_command ∅ [put_a 1; put_a 2; Delete (lit "b")] !! k), d).
Proof.
  apply (torn_flush_blocks_restart (HT := bits_text) (HM := micro_math) (HX := from_le)
    (F64TextLaws0 := bits_text_laws) (F64MathLaws0 := micro_math_laws) (H := micro_dims)
    [(default_config, [put_a 1])] two_levels [put_a 2; Delete (lit "b")]).
  - apply sessions_ok_test.
  - split; [done|cbn; lia].
  - exists 7, []. by rewrite app_nil_r.
Defined.

End witnesses.
