(* ===== verification/RaftTypes.v ===== *)
(** [src/raft/{message,request}.rs] and the types of [src/raft/node.rs]: what
    Raft nodes store and send. *)

From S2P Require Import Prelude Bytes Float LogRecord.

(** [Instant] and [Duration], in milliseconds. *)
Abbreviation Instant := Z.
Abbreviation Duration := Z.

Record NodeId : Type := MkNodeId { node_id : Z }.

Inductive Role : Type := Follower | Candidate | Leader.

#[export] Instance NodeId_eq_dec : EqDecision NodeId.
Proof. solve_decision. Defined.
#[export] Instance NodeId_countable : Countable NodeId.
Proof. by apply (inj_countable' node_id MkNodeId); intros []. Defined.
#[export] Instance Role_eq_dec : EqDecision Role.
Proof. solve_decision. Defined.

Inductive EntryPayload : Type :=
  | PCommand (record : LogRecord)
  | PAddNode (id : NodeId) (addr : str)
  | PRemoveNode (id : NodeId).

Record LogEntry : Type := MkLogEntry { term : Z; payload : EntryPayload }.

#[export] Instance EntryPayload_eq_dec : EqDecision EntryPayload.
Proof. solve_decision. Defined.
#[export] Instance LogEntry_eq_dec : EqDecision LogEntry.
Proof. solve_decision. Defined.

#[export] Instance LogEntry_countable : Countable LogEntry.
Proof.
  set (of_value v := match v with
    | Int z => inl (inl z) | Float z => inl (inr z) | String s => inr s end).
  set (to_value v := match v with
    | inl (inl z) => Int z | inl (inr z) => Float z | inr s => String s end).
  set (of_command c := match c with Set_ k v => inl (k, of_value v) | Delete k => inr k end).
  set (to_command c := match c with inl (k, v) => Set_ k (to_value v) | inr k => Delete k end).
  set (of_entry e := (term e, match payload e with
    | PCommand r => inl (id r, of_command (command r), checksum r)
    | PAddNode i a => inr (i, Some a) | PRemoveNode i => inr (i, None) end)).
  set (to_entry x := {| term := x.1; payload := match x.2 with
    | inl (i, c, s) => PCommand {| id := i; command := to_command c; checksum := s |}
    | inr (i, Some a) => PAddNode i a | inr (i, None) => PRemoveNode i end |}).
  unfold f64 in *. apply (inj_countable' of_entry to_entry).
  intros [t [[i [k [v|v|v]|k] c]|i a|i]]; reflexivity.
Defined.

(** * [message.rs] *)

Record AppendEntries : Type := MkAppendEntries {
  ae_term : Z;
  ae_leader_id : NodeId;
  ae_prev_log_index : nat;
  ae_prev_log_term : Z;
  ae_entries : list LogEntry;
  ae_leader_commit : nat;
}.

Record AppendEntriesResponse : Type := MkAppendEntriesResponse {
  ar_term : Z;
  ar_follower_id : NodeId;
  ar_success : bool;
  ar_match_index : nat;
}.

Record RequestVote : Type := MkRequestVote {
  rv_term : Z;
  rv_candidate_id : NodeId;
  rv_last_log_index : nat;
  rv_last_log_term : Z;
}.

Record RequestVoteResponse : Type := MkRequestVoteResponse {
  vr_term : Z;
  vr_voter_id : NodeId;
  vr_vote_granted : bool;
}.

Record ClientRequest : Type := MkClientRequest {
  cr_request_id : Z;
  cr_client_id : NodeId;
  cr_command : Command;
}.

Record ClientQuery : Type := MkClientQuery {
  cq_request_id : Z;
  cq_client_id : NodeId;
  cq_key : str;
}.

Record StatusQuery : Type := MkStatusQuery {
  sq_request_id : Z;
  sq_client_id : NodeId;
}.

Record ClientResponse : Type := MkClientResponse {
  cl_request_id : Z;
  cl_success : bool;
  cl_value : option Value;
  cl_message : str;
  cl_leader_id : option NodeId;
  cl_node_id : NodeId;
  cl_role : str;
  cl_term : Z;
  cl_peers : list NodeId;
}.

Record AddNode : Type := MkAddNode { an_id : NodeId; an_addr : str }.
Record RemoveNode : Type := MkRemoveNode { rn_id : NodeId }.

Inductive Message : Type :=
  | MRequestVote (m : RequestVote)
  | MRequestVoteResponse (m : RequestVoteResponse)
  | MAppendEntries (m : AppendEntries)
  | MAppendEntriesResponse (m : AppendEntriesResponse)
  | MClientCommand (c : Command)
  | MClientRequest (m : ClientRequest)
  | MClientQuery (m : ClientQuery)
  | MStatusQuery (m : StatusQuery)
  | MClientResponse (m : ClientResponse)
  | MAddNode (m : AddNode)
  | MRemoveNode (m : RemoveNode)
  | MTimeout.

#[export] Instance AppendEntries_eq_dec : EqDecision AppendEntries.
Proof. solve_decision. Defined.
#[export] Instance AppendEntriesResponse_eq_dec : EqDecision AppendEntriesResponse.
Proof. solve_decision. Defined.
#[export] Instance RequestVote_eq_dec : EqDecision RequestVote.
Proof. solve_decision. Defined.
#[export] Instance RequestVoteResponse_eq_dec : EqDecision RequestVoteResponse.
Proof. solve_decision. Defined.
#[export] Instance ClientRequest_eq_dec : EqDecision ClientRequest.
Proof. solve_decision. Defined.
#[export] Instance ClientQuery_eq_dec : EqDecision ClientQuery.
Proof. solve_decision. Defined.
#[export] Instance StatusQuery_eq_dec : EqDecision StatusQuery.
Proof. solve_decision. Defined.
#[export] Instance ClientResponse_eq_dec : EqDecision ClientResponse.
Proof. solve_decision. Defined.
#[export] Instance AddNode_eq_dec : EqDecision AddNode.
Proof. solve_decision. Defined.
#[export] Instance RemoveNode_eq_dec : EqDecision RemoveNode.
Proof. solve_decision. Defined.
#[export] Instance Message_eq_dec : EqDecision Message.
Proof. solve_decision. Defined.

(** * [network.rs] and [service.rs]: what a node hands to its surroundings *)

Inductive PeerChange : Type :=
  | AddPeer (id : NodeId) (addr : str)
  | RemovePeer (id : NodeId).

Record ServiceResponse : Type := MkServiceResponse {
  sr_success : bool;
  sr_value : option Value;
  sr_message : str;
  sr_leader_id : option Z;
  sr_term : Z;
}.

(** * [request.rs] *)

Inductive StoreOperation : Type :=
  | OpSet (key : str) (value : Value)
  | OpDelete (key : str)
  | OpGet (key : str)
  | OpStatus.

Definition to_command (op : StoreOperation) : option Command :=
  match op with
  | OpSet key value => Some (Set_ key value)
  | OpDelete key => Some (Delete key)
  | OpGet _ | OpStatus => None
  end.

(** A [oneshot] sender is known by a number. *)
Inductive Responder : Type :=
  | Oneshot (tx : nat)
  | RaftClient (client_id : NodeId) (request_id : Z).

Record StoreRequest : Type := MkStoreRequest {
  operation : StoreOperation;
  responder : Responder;
}.

(** [format!("{:?}", role)]. *)
Definition role_str (r : Role) : str :=
  match r with
  | Follower => lit "Follower"
  | Candidate => lit "Candidate"
  | Leader => lit "Leader"
  end.

(** What [Responder::send] sends: an answer on the channel, or a message. *)
Definition response (r : Responder) (success : bool) (value : option Value)
    (message : str) (leader_id : option NodeId) (term : Z) (node : NodeId)
    (role : Role) (peers : list NodeId) :
    (nat * ServiceResponse) + (NodeId * Message) :=
  match r with
  | Oneshot tx =>
      inl (tx, {| sr_success := success; sr_value := value; sr_message := message;
                  sr_leader_id := node_id <$> leader_id; sr_term := term |})
  | RaftClient client_id request_id =>
      inr (client_id, MClientResponse
        {| cl_request_id := request_id; cl_success := success; cl_value := value;
           cl_message := message; cl_leader_id := leader_id; cl_node_id := node;
           cl_role := role_str role; cl_term := term; cl_peers := peers |})
  end.
