(* ===== verification/LogStore.v ===== *)
(** [src/raft/log_store.rs]: the file of the Raft log and the file of the
    term, the vote and the commit index. *)

From S2P Require Import Prelude Bytes Float LogRecord RaftTypes.

(** [bincode::serialize] and [bincode::deserialize] of a [LogEntry]. *)
Class Bincode : Type := {
  serialize : LogEntry → bytes;
  deserialize : bytes → option LogEntry;
}.

(** What the crate promises. *)
Class BincodeLaws (B : Bincode) : Prop := {
  deserialize_serialize e : deserialize (serialize e) = Some e;
}.

(** * Files

    A [File] opened for reading and writing, with its position. *)
Record File : Type := MkFile { contents : bytes; pos : nat }.

#[export] Instance eta_File : Eta File := λ f, MkFile (contents f) (pos f).
#[export] Instance upd_contents : Upd contents. Proof. derive_upd. Defined.
#[export] Instance upd_pos : Upd pos. Proof. derive_upd. Defined.

(** [write_all]: what lies behind the position is overwritten; a gap in front
    of it is filled with zeros. *)
Definition file_write (b : bytes) : M File () :=
  modify (λ f,
    {| contents := take (pos f) (contents f) ++
                   replicate (pos f - length (contents f)) (z_u8 0) ++ b ++
                   drop (pos f + length b) (contents f);
       pos := pos f + length b |}).

(** [set_len]. *)
Definition file_set_len (n : nat) : M File () :=
  modify (λ f, f <| contents :=
    take n (contents f) ++ replicate (n - length (contents f)) (z_u8 0) |>).

Definition file_seek_start (n : nat) : M File () := modify (λ f, f <| pos := n |>).
Definition file_seek_end : M File () := modify (λ f, f <| pos := length (contents f) |>).

(** * [RaftLogStore] *)

Record RaftLogStore : Type := MkRaftLogStore {
  ls_file : File;
  offsets : list nat;
}.

#[export] Instance eta_RaftLogStore : Eta RaftLogStore := λ s,
  MkRaftLogStore (ls_file s) (offsets s).
#[export] Instance upd_ls_file : Upd ls_file. Proof. derive_upd. Defined.
#[export] Instance upd_offsets : Upd offsets. Proof. derive_upd. Defined.

Definition MAX_ENTRY_SIZE : Z := 64 * 1024 * 1024.

Section store.
Context `{Bincode}.

(** [read_entry]. *)
Definition read_entry : M bytes (option LogEntry) := λ s,
  match read_exact 4 s with
  | (Ok len_buf, s') =>
      (let len := from_le len_buf in
       if decide (MAX_ENTRY_SIZE < len)%Z
       then fail (invalid_data "entry length exceeds maximum") else
       payload ← read_exact_z len;
       entry ← lift (ok_or (invalid_data "bincode") (deserialize payload));
       mret (Some entry)) s'
  | (Err e, s') =>
      if decide (kind e = UnexpectedEof) then (Ok None, s') else (Err e, s')
  | (Panic p, s') => (Panic p, s')
  end.

(** The loop of [RaftLogStore::open]: the offsets, the entries and, when the
    tail is corrupt, where it starts. Every turn takes at least four bytes. *)
Fixpoint open_loop (fuel : nat) (contents reader : bytes)
    (offsets : list nat) (entries : list LogEntry) :
    res (list nat * list LogEntry * option nat) :=
  match fuel with
  | O => Panic "out of fuel"
  | S fuel' =>
      let pos := length contents - length reader in
      match read_entry reader with
      | (Ok (Some entry), reader') =>
          open_loop fuel' contents reader' (offsets ++ [pos]) (entries ++ [entry])
      | (Ok None, _) => Ok (offsets, entries, None)
      | (Err _, _) => Ok (offsets, entries, Some pos)
      | (Panic p, _) => Panic p
      end
  end.

(** [RaftLogStore::open] on a file with these contents. *)
Definition log_store_open (contents : bytes) : res (RaftLogStore * list LogEntry) :=
  '(offsets, entries, truncate_at) ←
    open_loop (S (length contents)) contents contents [] [];
  let contents := match truncate_at with
                  | Some trunc => take trunc contents
                  | None => contents
                  end in
  Ok ({| ls_file := {| contents := contents; pos := length contents |};
         offsets := offsets |}, entries).

(** [RaftLogStore::append]. *)
Definition log_store_append (entry : LogEntry) : M RaftLogStore () :=
  let payload := serialize entry in
  let len := u32_as (length payload) in
  p ← gets (λ s, pos (ls_file s));
  zoom ls_file (file_write (u32_to_le len ++ payload));;
  modify (λ s, s <| offsets := offsets s ++ [p] |>).

(** [RaftLogStore::truncate_from]. *)
Definition log_store_truncate_from (from : nat) : M RaftLogStore () :=
  s ← get;
  if decide (length (offsets s) ≤ from) then mret () else
  new_end ← lift (expect "index out of bounds" (offsets s !! from));
  zoom ls_file (file_set_len new_end);;
  zoom ls_file file_seek_end;;
  modify (λ s, s <| offsets := take from (offsets s) |>).

End store.

(** * [RaftMeta] *)

Record MetaState : Type := MkMetaState {
  ms_commit_index : nat;
  ms_current_term : Z;
  ms_voted_for : option Z;
}.

Definition default_meta : MetaState :=
  {| ms_commit_index := 0; ms_current_term := 0; ms_voted_for := None |}.

Definition META_SIZE : nat := 24.

(** [RaftMeta::open] on a file with these contents: the file, its position
    behind what was read, and the state. *)
Definition meta_open (c : bytes) : File * MetaState :=
  match read_exact META_SIZE c with
  | (Ok buf, _) =>
      let voted_for_raw := from_le (take 8 (drop 16 buf)) in
      ({| contents := c; pos := META_SIZE |},
       {| ms_commit_index := Z.to_nat (from_le (take 8 buf));
          ms_current_term := from_le (take 8 (drop 8 buf));
          ms_voted_for := if decide (voted_for_raw = 0)%Z then None
                          else Some voted_for_raw |})
  | _ => ({| contents := c; pos := length c |}, default_meta)
  end.

(** [RaftMeta::save]. *)
Definition meta_save (commit_index : nat) (current_term : Z) (voted_for : option Z) :
    M File () :=
  let buf := u64_to_le (wrap 64 (Z.of_nat commit_index)) ++ u64_to_le current_term ++
             u64_to_le (default 0%Z voted_for) in
  file_seek_start 0;;
  file_write buf.

(** * What the files hold *)

Section layout.
Context `{Bincode}.

Definition frame (e : LogEntry) : bytes :=
  u32_to_le (Z.of_nat (length (serialize e))) ++ serialize e.
Definition frames (es : list LogEntry) : bytes := mjoin (frame <$> es).

Fixpoint frame_offsets (off : nat) (es : list LogEntry) : list nat :=
  match es with
  | [] => []
  | e :: es' => off :: frame_offsets (off + length (frame e)) es'
  end.

Definition entry_fits (e : LogEntry) : Prop :=
  (Z.of_nat (length (serialize e)) ≤ MAX_ENTRY_SIZE)%Z.

(** The store holds the entries [es]. *)
Definition store_ok (s : RaftLogStore) (es : list LogEntry) : Prop :=
  s = {| ls_file := {| contents := frames es; pos := length (frames es) |};
         offsets := frame_offsets 0 es |} ∧
  Forall entry_fits es.

End layout.

Section store_spec.
Context `{HB : Bincode} `{!BincodeLaws HB}.

Lemma frames_app es es' : frames (es ++ es') = frames es ++ frames es'.
Proof using Type. unfold frames. by rewrite fmap_app, join_app. Qed.

Lemma frames_cons e es : frames (e :: es) = frame e ++ frames es.
Proof using Type. reflexivity. Qed.

Lemma length_frame e : length (frame e) = 4 + length (serialize e).
Proof using Type. unfold frame. rewrite length_app. by rewrite length_u32_to_le. Qed.

Lemma length_frames es : length es ≤ length (frames es).
Proof using Type.
  induction es as [|e es IH]; [done|]. rewrite frames_cons, length_app, length_frame.
  cbn [length]. lia.
Qed.

Lemma frame_offsets_app off es es' :
  frame_offsets off (es ++ es') =
  frame_offsets off es ++ frame_offsets (off + length (frames es)) es'.
Proof using Type.
  revert off. induction es as [|e es IH]; intros off; cbn [app frame_offsets].
  - by rewrite Nat.add_0_r.
  - by rewrite IH, frames_cons, length_app, Nat.add_assoc.
Qed.

Lemma length_frame_offsets off es : length (frame_offsets off es) = length es.
Proof using Type. revert off. induction es; intros off; cbn; auto. Qed.

Lemma take_frame_offsets off n es :
  take n (frame_offsets off es) = frame_offsets off (take n es).
Proof using Type.
  revert off n. induction es as [|e es IH]; intros off [|n]; cbn; [done..|]. by rewrite IH.
Qed.

Lemma entry_fits_u32 e : entry_fits e → in_u32 (Z.of_nat (length (serialize e))).
Proof using Type. unfold entry_fits, MAX_ENTRY_SIZE, in_u32, in_u. lia. Qed.

Lemma read_entry_frame e s :
  entry_fits e → read_entry (frame e ++ s) = (Ok (Some e), s).
Proof using All.
  intros He. pose proof (entry_fits_u32 e He) as Hu. unfold read_entry, frame.
  rewrite <-app_assoc. rewrite read_exact_app by (by rewrite length_u32_to_le).
  rewrite from_u32_to_le by done. unfold entry_fits in He.
  rewrite decide_False by lia.
  erewrite bind_Ok by (by apply read_exact_z_app).
  rewrite deserialize_serialize. by erewrite bind_Ok by done.
Qed.

Lemma read_entry_short s : length s < 4 → read_entry s = (Ok None, []).
Proof using Type. intros Hs. unfold read_entry. by rewrite read_exact_short. Qed.

Lemma open_loop_frames fuel c es s offs acc :
  Forall entry_fits es → length es < fuel → length s + length (frames es) ≤ length c →
  open_loop fuel c (frames es ++ s) offs acc =
  open_loop (fuel - length es) c s
    (offs ++ frame_offsets (length c - length s - length (frames es)) es) (acc ++ es).
Proof using All.
  intros Hes. revert fuel offs acc.
  induction Hes as [|e es He _ IH]; intros fuel offs acc Hf Hl.
  { cbn. by rewrite !app_nil_r, Nat.sub_0_r. }
  cbn [length] in Hf. destruct fuel as [|fuel]; [lia|].
  rewrite frames_cons, length_app in *. cbn [open_loop Nat.sub].
  rewrite <-app_assoc, read_entry_frame by done.
  rewrite IH by lia. rewrite <-!app_assoc. cbn [frame_offsets app length].
  rewrite !length_app. f_equal. f_equal. f_equal; [lia|f_equal; lia].
Qed.

Lemma open_frames es s :
  Forall entry_fits es →
  log_store_open (frames es ++ s) =
  match read_entry s with
  | (Ok (Some _), _) => log_store_open (frames es ++ s)
  | (Ok None, _) =>
      Ok ({| ls_file := {| contents := frames es ++ s; pos := length (frames es ++ s) |};
             offsets := frame_offsets 0 es |}, es)
  | (Err _, _) =>
      Ok ({| ls_file := {| contents := frames es; pos := length (frames es) |};
             offsets := frame_offsets 0 es |}, es)
  | (Panic p, _) => Panic p
  end.
Proof using All.
  intros Hes. pose proof (length_frames es).
  destruct (read_entry s) as [[[e|]|err|p] s'] eqn:E; [done|..]; unfold log_store_open;
    rewrite open_loop_frames by (done || rewrite ?length_app; lia);
    cbn [app]; rewrite length_app;
    (destruct (S (length (frames es) + length s) - length es) as [|fuel] eqn:Ef; [lia|]);
    cbn [open_loop]; rewrite E; cbn [mbind res_bind];
    replace (length (frames es) + length s - length s - length (frames es)) with 0 by lia;
    rewrite ?length_app; try done.
  replace (length (frames es) + length s - length s) with (length (frames es)) by lia.
  by rewrite take_app_length.
Qed.

Lemma log_store_open_ok es :
  Forall entry_fits es →
  ∃ s, log_store_open (frames es) = Ok (s, es) ∧ store_ok s es.
Proof using All.
  intros Hes. eexists. rewrite <-(app_nil_r (frames es)) at 1. rewrite open_frames by done.
  rewrite read_entry_short by (cbn; lia). rewrite app_nil_r. by split.
Qed.

Lemma log_store_append_ok e s es :
  store_ok s es → entry_fits e →
  ∃ s', log_store_append e s = (Ok (), s') ∧ store_ok s' (es ++ [e]).
Proof using Type.
  intros [-> Hes] He. eexists. unfold log_store_append. erewrite bind_Ok by done. exec.
  unfold zoom, file_write, modify. cbn [contents pos ls_file].
  split; [reflexivity|]. split; [|apply Forall_app; by auto].
  rewrite frames_app, frame_offsets_app. cbn [frame_offsets].
  rewrite take_ge, drop_ge, Nat.sub_diag by (rewrite ?length_app; lia). cbn [replicate app].
  rewrite app_nil_r, u32_as_small by by apply entry_fits_u32.
  unfold frames at 4. cbn. rewrite app_nil_r. unfold frame.
  rewrite !length_app. done.
Qed.

Lemma log_store_truncate_ok from s es :
  store_ok s es →
  ∃ s', log_store_truncate_from from s = (Ok (), s') ∧ store_ok s' (take from es).
Proof using Type.
  intros [-> Hes]. unfold log_store_truncate_from. erewrite bind_Ok by done.
  cbn [offsets]. rewrite length_frame_offsets. case_decide as Hf.
  { eexists. split; [done|]. by rewrite take_ge by lia. }
  destruct (frame_offsets 0 es !! from) as [o|] eqn:Eo; cycle 1.
  { apply lookup_ge_None in Eo. rewrite length_frame_offsets in Eo. lia. }
  erewrite bind_Ok by done. exec. eexists. split; [reflexivity|]. cbn.
  split; [|by apply Forall_take].
  assert (Ho : o = length (frames (take from es)) ∧
    frames es = frames (take from es) ++ frames (drop from es)).
  { rewrite <-frames_app, take_drop. split; [|done].
    rewrite <-(take_drop from es), frame_offsets_app in Eo.
    rewrite lookup_app_r in Eo by (rewrite length_frame_offsets, length_take; lia).
    rewrite length_frame_offsets, length_take, Nat.min_l, Nat.sub_diag in Eo by lia.
    destruct (drop from es); simplify_eq/=. done. }
  destruct Ho as [-> ->]. rewrite take_app_length.
  replace (length (frames (take from es)) - _) with 0 by (rewrite length_app; lia).
  cbn [replicate]. rewrite app_nil_r.
  by rewrite take_frame_offsets.
Qed.

End store_spec.

(** * Properties *)

(** What a node does to the store, and what that does to the entries. *)
Inductive StoreOp : Type := Append (entry : LogEntry) | TruncateFrom (from : nat).

Definition store_op `{Bincode} (op : StoreOp) : M RaftLogStore () :=
  match op with
  | Append entry => log_store_append entry
  | TruncateFrom from => log_store_truncate_from from
  end.

Definition entries_after (es : list LogEntry) (op : StoreOp) : list LogEntry :=
  match op with Append entry => es ++ [entry] | TruncateFrom from => take from es end.

Definition op_fits `{Bincode} (op : StoreOp) : Prop :=
  match op with Append entry => entry_fits entry | TruncateFrom _ => True end.

Lemma store_ops_ok `{HB : Bincode} ops s es :
  Forall op_fits ops → store_ok s es →
  ∃ s', for_each ops store_op s = (Ok (), s') ∧ store_ok s' (foldl entries_after es ops).
Proof.
  intros Hops. revert s es. induction Hops as [|op ops Hop _ IH]; intros s es Hs; [by exists s|].
  assert (∃ s1, store_op op s = (Ok (), s1) ∧ store_ok s1 (entries_after es op))
    as (s1 & E1 & H1) by (destruct op; [by apply log_store_append_ok|by apply log_store_truncate_ok]).
  destruct (IH s1 _ H1) as (s2 & E2 & H2). exists s2. split; [|done].
  cbn [for_each]. by erewrite bind_Ok by exact E1.
Qed.

(** C27: Entries survive in the Raft log file: after any sequence of appends and
    truncations none of which fails, reopening the file gives exactly the
    entries that are left, and the store itself as it was, so that it goes on
    from there. *)
Theorem log_store_reopen `{HB : Bincode} `{!BincodeLaws HB} ops :
  Forall op_fits ops →
  ∃ s0 s, log_store_open [] = Ok (s0, []) ∧ for_each ops store_op s0 = (Ok (), s) ∧
    log_store_open (contents (ls_file s)) = Ok (s, foldl entries_after [] ops).
Proof.
  intros Hops. destruct (log_store_open_ok [] (Forall_nil_2 _)) as (s0 & E0 & H0).
  destruct (store_ops_ok ops s0 [] Hops H0) as (s & E & [-> Hf]). exists s0. eexists.
  split_and!; [done|exact E|]. cbn [ls_file contents].
  destruct (log_store_open_ok _ Hf) as (s & -> & [-> _]). done.
Qed.

Lemma u32_to_le_small n :
  (0 ≤ n < 256)%Z → u32_to_le n = z_u8 n :: replicate 3 (z_u8 0).
Proof.
  intros Hn. change (u32_to_le n) with (z_u8 n :: le_split 3 (Z.shiftr n 8)).
  rewrite Z.shiftr_div_pow2 by lia. change (2 ^ 8)%Z with 256%Z.
  by rewrite Z.div_small by lia.
Qed.

(** With one to three bytes of garbage in front, the length that is read
    exceeds what is there. *)
Lemma read_entry_misframed `{HB : Bincode} p e :
  0 < length p < 4 → 0 < length (serialize e) < 256 →
  ∃ err s, read_entry (p ++ frame e) = (Err err, s).
Proof.
  intros Hp He. unfold frame. rewrite u32_to_le_small by lia.
  set (n := Z.of_nat (length (serialize e))) in *.
  assert (Hlen : ∃ len_buf s, p ++ (z_u8 n :: replicate 3 (z_u8 0)) ++ serialize e
      = len_buf ++ s ∧ length len_buf = 4 ∧ (Z.of_nat (length s) < from_le len_buf)%Z).
  { destruct p as [|a [|b [|c [|d p]]]]; cbn in Hp; try lia.
    - exists [a; z_u8 n; z_u8 0; z_u8 0], (z_u8 0 :: serialize e).
      split_and!; [done..|]. rewrite !from_le_cons, u8_z_of by lia.
      pose proof (u8_z_range a). cbn [length]. change (u8_z (z_u8 0)) with 0%Z.
      change (from_le []) with 0%Z. lia.
    - exists [a; b; z_u8 n; z_u8 0], (z_u8 0 :: z_u8 0 :: serialize e).
      split_and!; [done..|]. rewrite !from_le_cons, u8_z_of by lia.
      pose proof (u8_z_range a). pose proof (u8_z_range b).
      cbn [length]. change (u8_z (z_u8 0)) with 0%Z. change (from_le []) with 0%Z. lia.
    - exists [a; b; c; z_u8 n], (z_u8 0 :: z_u8 0 :: z_u8 0 :: serialize e).
      split_and!; [done..|]. rewrite !from_le_cons, u8_z_of by lia.
      pose proof (u8_z_range a). pose proof (u8_z_range b). pose proof (u8_z_range c).
      cbn [length]. change (from_le []) with 0%Z. lia. }
  destruct Hlen as (len_buf & s & -> & Hl & Hs). unfold read_entry.
  rewrite read_exact_app by done. case_decide; [by do 2 eexists|].
  exists eof, []. apply bind_Err. by apply read_exact_z_short.
Qed.

(** When a crash leaves one to three bytes of a record's length, opening
    keeps them in the file, and the next entry that is appended (and reported
    durable) is gone at the next start. *)
Theorem torn_length_loses_entry `{HB : Bincode} `{!BincodeLaws HB} es p e :
  Forall entry_fits es → 0 < length p < 4 → 0 < length (serialize e) < 256 →
  ∃ s s' s'', log_store_open (frames es ++ p) = Ok (s, es) ∧
    log_store_append e s = (Ok (), s') ∧
    log_store_open (contents (ls_file s')) = Ok (s'', es).
Proof.
  intros Hes Hp He. rewrite open_frames, read_entry_short by (done || lia).
  eexists _, _, _. split; [reflexivity|].
  split; [unfold log_store_append; erewrite bind_Ok by done; reflexivity|].
  cbn [ls_file contents file_write zoom modify upd upd_ls_file pos].
  destruct (read_entry_misframed p e Hp He) as (err & s0 & E).
  rewrite take_ge, drop_ge, Nat.sub_diag by (rewrite ?length_app; lia).
  cbn [replicate app]. rewrite app_nil_r, u32_as_small by (unfold in_u32, in_u; lia).
  rewrite <-app_assoc. lazymatch goal with |- log_store_open ?c = _ =>
    change c with (frames es ++ p ++ frame e) end.
  by rewrite open_frames, E by done.
Qed.

(** [RaftMeta::open] after [RaftMeta::save]. *)
Lemma meta_save_open c0 p0 ci t v :
  (Z.of_nat ci ≤ u64_max)%Z → in_u64 t → in_u64 (default 0%Z v) →
  ∃ f, meta_save ci t v {| contents := c0; pos := p0 |} = (Ok (), f) ∧
    snd (meta_open (contents f)) =
    {| ms_commit_index := ci; ms_current_term := t;
       ms_voted_for := if decide (v = Some 0%Z) then None else v |}.
Proof.
  intros Hc Ht Hv. eexists. split; [unfold meta_save; exec; reflexivity|].
  cbn [contents pos file_write upd upd_pos]. rewrite take_0. cbn [app replicate Nat.sub].
  assert (Hci : in_u64 (Z.of_nat ci)) by (unfold in_u64, in_u, u64_max in *; lia).
  rewrite wrap_small by done. unfold meta_open.
  set (b1 := u64_to_le (Z.of_nat ci)). set (b2 := u64_to_le t).
  set (b3 := u64_to_le (default 0%Z v)).
  assert (L1 : length b1 = 8) by apply length_u64_to_le.
  assert (L2 : length b2 = 8) by apply length_u64_to_le.
  assert (L3 : length b3 = 8) by apply length_u64_to_le.
  change (replicate (0 - length c0) (z_u8 0)) with (@nil u8). rewrite app_nil_l.
  rewrite (read_exact_app (b1 ++ b2 ++ b3)) by (rewrite !length_app, L1, L2, L3; done). cbn [snd].
  replace (take 8 (b1 ++ b2 ++ b3)) with b1 by (by rewrite take_app_length').
  replace (drop 8 (b1 ++ b2 ++ b3)) with (b2 ++ b3) by (by rewrite drop_app_length').
  replace (drop 16 (b1 ++ b2 ++ b3)) with b3
    by (rewrite app_assoc; by rewrite drop_app_length' by (by rewrite length_app, L1, L2)).
  replace (take 8 (b2 ++ b3)) with b2 by (by rewrite take_app_length').
  rewrite take_ge by lia. subst b1 b2 b3.
  rewrite !from_u64_to_le by done. rewrite Nat2Z.id. f_equal.
  destruct v as [v|]; cbn; [|done]. repeat case_decide; congruence.
Qed.

(** The metadata file gives back the commit index, the term and the vote
    that were saved last, whatever it held before, except that a vote for
    node 0 is read as no vote. *)
Theorem meta_round_trip c0 p0 ci t v :
  (Z.of_nat ci ≤ u64_max)%Z → in_u64 t → in_u64 (default 0%Z v) →
  ∃ f, meta_save ci t v {| contents := c0; pos := p0 |} = (Ok (), f) ∧
    snd (meta_open (contents f)) =
    {| ms_commit_index := ci; ms_current_term := t;
       ms_voted_for := if decide (v = Some 0%Z) then None else v |}.
Proof. apply meta_save_open. Qed.

Lemma meta_round_trip_witness :
  ∃ f, meta_save 7 3 (Some 2%Z) {| contents := []; pos := 0 |} = (Ok (), f) ∧
    snd (meta_open (contents f)) =
    {| ms_commit_index := 7; ms_current_term := 3; ms_voted_for := Some 2%Z |}.
Proof.
  apply (meta_round_trip [] 0 7 3 (Some 2%Z)); by vm_compute.
Defined.

(** * A codec *)

(** Entries as numbers, numbers as bytes. *)
Definition byte_count (p : positive) : nat := S (Pos.size_nat p).

#[local] Instance number_bincode : Bincode := {|
  serialize e := le_split (byte_count (encode e)) (Zpos (encode e));
  deserialize b := decode (Z.to_pos (from_le b));
|}.

Lemma number_bincode_laws : BincodeLaws number_bincode.
Proof.
  split. intros e. cbn. unfold from_le. rewrite le_combine_split, Z.mod_small; cycle 1.
  { split; [lia|]. pose proof (Pos.size_nat_monotone (encode e) (encode e)) as _.
    apply Z.lt_le_trans with (2 ^ Z.of_nat (Pos.size_nat (encode e)))%Z.
    - generalize (encode e). clear. intros p. induction p as [p IH|p IH|]; cbn [Pos.size_nat];
        rewrite ?Nat2Z.inj_succ, ?Z.pow_succ_r by lia; [lia|lia|done].
    - apply Z.pow_le_mono_r; [lia|]. unfold byte_count. lia. }
  apply decode_encode.
Qed.

Definition small_entry : LogEntry := {| term := 1; payload := PRemoveNode (MkNodeId 1) |}.

Definition small_ops : list StoreOp :=
  [Append small_entry; Append small_entry; Append small_entry; TruncateFrom 2; TruncateFrom 5;
   Append small_entry; TruncateFrom 1; Append small_entry].

Lemma log_store_reopen_witness :
  ∃ s0 s, log_store_open [] = Ok (s0, []) ∧ for_each small_ops store_op s0 = (Ok (), s) ∧
    log_store_open (contents (ls_file s)) = Ok (s, [small_entry; small_entry]).
Proof.
  apply (log_store_reopen (HB := number_bincode) (BincodeLaws0 := number_bincode_laws) small_ops).
  repeat constructor; vm_compute; congruence.
Defined.

Lemma torn_length_loses_entry_witness :
  ∃ s s' s'', log_store_open (frames [small_entry] ++ [z_u8 7]) = Ok (s, [small_entry]) ∧
    log_store_append small_entry s = (Ok (), s') ∧
    log_store_open (contents (ls_file s')) = Ok (s'', [small_entry]).
Proof.
  apply (torn_length_loses_entry (HB := number_bincode) (BincodeLaws0 := number_bincode_laws)).
  - repeat constructor; vm_compute; congruence.
  - cbn; lia.
  - vm_compute. lia.
Defined.
