(* ===== verification/RaftNode.v ===== *)
(** [src/raft/{node,election,replication}.rs] and [handle_message] of
    [src/raft/message.rs]: one Raft node.

    A handler is a program on the node. What it sends is appended to [outbox],
    answers on oneshot channels to [replies], changes for the network layer to
    the queue of [peer_changes_tx]. Failures of the log and metadata files are
    only printed by the source; the files of the model do not fail. *)

From S2P Require Import Prelude Bytes Float LogRecord RaftTypes LogStore.

(** What a node needs of its database. *)
Class KvStore (D : Type) : Type := {
  kv_insert : str → Value → M D ();
  kv_delete : str → M D ();
  kv_get : str → M D (option Value);
}.

(** [rand::rng().random_range(150..=300)]: the draws of each node. *)
Class RandomMillis : Type := random_millis : NodeId → nat → Z.

Record RaftNode (D : Type) : Type := MkRaftNode {
  db : D;
  id : NodeId;
  peers : list NodeId;
  current_term : Z;
  voted_for : option NodeId;
  log : list LogEntry;
  commit_index : nat;
  last_applied : nat;
  next_index : gmap NodeId nat;
  match_index : gmap NodeId nat;
  role : Role;
  votes_received : gset NodeId;
  leader_id : option NodeId;
  outbox : list (NodeId * Message);
  election_deadline : Instant;
  heartbeat_deadline : Instant;
  election_timeout : option Duration;
  pending_requests : gmap (nat * Z) Responder;
  peer_changes_tx : option (list PeerChange);
  log_store : option RaftLogStore;
  meta_store : option File;
  (* the surroundings *)
  draws : nat;
  replies : list (nat * ServiceResponse);
}.

Arguments MkRaftNode {D}.
Arguments db {D}. Arguments id {D}. Arguments peers {D}. Arguments current_term {D}.
Arguments voted_for {D}. Arguments log {D}. Arguments commit_index {D}.
Arguments last_applied {D}. Arguments next_index {D}. Arguments match_index {D}.
Arguments role {D}. Arguments votes_received {D}. Arguments leader_id {D}.
Arguments outbox {D}. Arguments election_deadline {D}. Arguments heartbeat_deadline {D}.
Arguments election_timeout {D}. Arguments pending_requests {D}.
Arguments peer_changes_tx {D}. Arguments log_store {D}. Arguments meta_store {D}.
Arguments draws {D}. Arguments replies {D}.

Section updates.
Context {D : Type}.
#[export] Instance eta_RaftNode : Eta (RaftNode D) := λ n,
  MkRaftNode (db n) (id n) (peers n) (current_term n) (voted_for n) (log n)
    (commit_index n) (last_applied n) (next_index n) (match_index n) (role n)
    (votes_received n) (leader_id n) (outbox n) (election_deadline n)
    (heartbeat_deadline n) (election_timeout n) (pending_requests n)
    (peer_changes_tx n) (log_store n) (meta_store n) (draws n) (replies n).
#[export] Instance upd_db : Upd (@db D). Proof. derive_upd. Defined.
#[export] Instance upd_peers : Upd (@peers D). Proof. derive_upd. Defined.
#[export] Instance upd_current_term : Upd (@current_term D). Proof. derive_upd. Defined.
#[export] Instance upd_voted_for : Upd (@voted_for D). Proof. derive_upd. Defined.
#[export] Instance upd_log : Upd (@log D). Proof. derive_upd. Defined.
#[export] Instance upd_commit_index : Upd (@commit_index D). Proof. derive_upd. Defined.
#[export] Instance upd_last_applied : Upd (@last_applied D). Proof. derive_upd. Defined.
#[export] Instance upd_next_index : Upd (@next_index D). Proof. derive_upd. Defined.
#[export] Instance upd_match_index : Upd (@match_index D). Proof. derive_upd. Defined.
#[export] Instance upd_role : Upd (@role D). Proof. derive_upd. Defined.
#[export] Instance upd_votes_received : Upd (@votes_received D). Proof. derive_upd. Defined.
#[export] Instance upd_leader_id : Upd (@leader_id D). Proof. derive_upd. Defined.
#[export] Instance upd_outbox : Upd (@outbox D). Proof. derive_upd. Defined.
#[export] Instance upd_election_deadline : Upd (@election_deadline D).
Proof. derive_upd. Defined.
#[export] Instance upd_heartbeat_deadline : Upd (@heartbeat_deadline D).
Proof. derive_upd. Defined.
#[export] Instance upd_election_timeout : Upd (@election_timeout D).
Proof. derive_upd. Defined.
#[export] Instance upd_pending_requests : Upd (@pending_requests D).
Proof. derive_upd. Defined.
#[export] Instance upd_peer_changes_tx : Upd (@peer_changes_tx D).
Proof. derive_upd. Defined.
#[export] Instance upd_log_store : Upd (@log_store D). Proof. derive_upd. Defined.
#[export] Instance upd_meta_store : Upd (@meta_store D). Proof. derive_upd. Defined.
#[export] Instance upd_draws : Upd (@draws D). Proof. derive_upd. Defined.
#[export] Instance upd_replies : Upd (@replies D). Proof. derive_upd. Defined.
End updates.

(** [self.id], printed. *)
Definition id_str (i : NodeId) : str := int_to_string (node_id i).
Definition index_str (i : nat) : str := int_to_string (Z.of_nat i).

Section node.
Context {D : Type} `{!KvStore D} `{!F64Text} `{!Bincode} `{!RandomMillis}.

Abbreviation Node := (RaftNode D).

Definition push (to : NodeId) (m : Message) : M Node () :=
  modify (λ n, n <| outbox := outbox n ++ [(to, m)] |>).

(** [Responder::send]. *)
Definition send (r : Responder) (success : bool) (value : option Value) (message : str)
    (leader_id : option NodeId) (term : Z) (node : NodeId) (role : Role)
    (peers : list NodeId) : M Node () :=
  match response r success value message leader_id term node role peers with
  | inl reply => modify (λ n, n <| replies := replies n ++ [reply] |>)
  | inr (to, m) => push to m
  end.

(** A store that is only there if its file could be opened. *)
Definition with_store {S} (p : Node → option S) `{!Upd p} (m : M S ()) : M Node () := λ n,
  match p n with
  | None => (Ok (), n)
  | Some s => let '(r, s') := m s in
              (match r with Panic msg => Panic msg | _ => Ok () end, n <| p := Some s' |>)
  end.

(** [self.log[index]]. *)
Definition entry_at (index : nat) : M Node LogEntry :=
  l ← gets log; lift (expect "index out of bounds" (l !! index)).

(** ** [election.rs]: timeouts *)

Definition reset_election_timeout (now : Instant) : M Node () :=
  n ← get;
  match election_timeout n with
  | Some timeout => modify (λ n, n <| election_deadline := (now + timeout)%Z |>)
  | None =>
      modify (λ n, n <| draws := S (draws n) |>);;
      modify (λ m, m <| election_deadline := (now + random_millis (id n) (draws n))%Z |>)
  end.

Definition set_election_timeout (timeout : Duration) (now : Instant) : M Node () :=
  modify (λ n, n <| election_timeout := Some timeout |>);;
  modify (λ n, n <| election_deadline := (now + timeout)%Z |>).

(** ** [node.rs]: persistence *)

Definition persist_meta : M Node () :=
  n ← get;
  with_store meta_store
    (meta_save (commit_index n) (current_term n) (node_id <$> voted_for n)).

Definition push_log_entry (entry : LogEntry) : M Node () :=
  with_store log_store (log_store_append entry);;
  modify (λ n, n <| log := log n ++ [entry] |>).

Definition truncate_log (from : nat) : M Node () :=
  with_store log_store (log_store_truncate_from from);;
  modify (λ n, n <| log := take from (log n) |>).

Definition step_down (new_term : Z) (now : Instant) : M Node () :=
  modify (λ n, n <| current_term := new_term |> <| role := Follower |>
                 <| voted_for := None |> <| leader_id := None |>);;
  reset_election_timeout now;;
  persist_meta;;
  n ← get;
  modify (λ n, n <| pending_requests := ∅ |>);;
  for_each (map_to_list (pending_requests n)) (λ '(_, responder),
    send responder false None
      (lit "Leadership changed before confirmation; write outcome may be uncertain")
      None new_term (id n) (role n) (peers n)).

(** ** [replication.rs] *)

Definition make_append_entries (peer : NodeId) : M Node AppendEntries :=
  n ← get;
  ni ← lift (expect "next_index missing for peer" (next_index n !! peer));
  if decide (ni < 1) then panic "assertion failed: next_index >= 1" else
  if decide (length (log n) < ni)
  then panic "assertion failed: next_index <= self.log.len()" else
  let prev_log_index := ni - 1 in
  prev ← entry_at prev_log_index;
  mret {| ae_term := current_term n; ae_leader_id := id n;
          ae_prev_log_index := prev_log_index; ae_prev_log_term := term prev;
          ae_entries := drop ni (log n); ae_leader_commit := commit_index n |}.

(** [send_heartbeats]. *)
Definition send_heartbeats : M Node () :=
  ps ← gets peers;
  for_each ps (λ peer,
    request ← make_append_entries peer;
    push peer (MAppendEntries request)).

(** Applying one command or membership change: the result and the change for
    the network layer. *)
Definition apply_payload (p : EntryPayload) :
    M Node ((() + io_error) * option PeerChange) :=
  match p with
  | PCommand record =>
      result ← match command record with
        | Set_ key value => attempt (zoom db (kv_insert key value))
        | Delete key => attempt (zoom db (kv_delete key))
        end;
      mret (result, None)
  | PAddNode peer addr =>
      n ← get;
      when (bool_decide (peer ≠ id n ∧ peer ∉ peers n))
        (modify (λ n, n <| peers := peers n ++ [peer] |>));;
      when (bool_decide (role n = Leader))
        (modify (λ n, n <| next_index :=
           match next_index n !! peer with
           | Some _ => next_index n
           | None => <[peer := length (log n)]> (next_index n) end |>);;
         modify (λ n, n <| match_index :=
           match match_index n !! peer with
           | Some _ => match_index n
           | None => <[peer := 0]> (match_index n) end |>));;
      mret (inl (), Some (AddPeer peer addr))
  | PRemoveNode peer =>
      modify (λ n, n <| peers := filter (λ p, p ≠ peer) (peers n) |>);;
      modify (λ n, n <| next_index := delete peer (next_index n) |>);;
      modify (λ n, n <| match_index := delete peer (match_index n) |>);;
      mret (inl (), Some (RemovePeer peer))
  end.

(** [let _ = tx.send(change)], if there is a channel. *)
Definition send_peer_change (c : option PeerChange) : M Node () :=
  match c with
  | None => mret ()
  | Some change =>
      modify (λ n, n <| peer_changes_tx := (λ q, q ++ [change]) <$> peer_changes_tx n |>)
  end.

(** One turn of the loop of [apply_committed_entries]. *)
Definition apply_next : M Node () :=
  n ← get;
  let index := S (last_applied n) in
  entry ← entry_at index;
  let term := term entry in
  '(result, peer_change) ← apply_payload (payload entry);
  modify (λ n, n <| last_applied := index |>);;
  send_peer_change peer_change;;
  n ← get;
  match pending_requests n !! (index, term) with
  | None => mret ()
  | Some responder =>
      modify (λ n, n <| pending_requests := delete (index, term) (pending_requests n) |>);;
      let '(success, message) := match result with
        | inl _ => (true, lit "Write committed and applied at log index " ++ index_str index)
        | inr err => (false, lit "Log entry committed, but database application failed: "
                             ++ lit (message err))
        end in
      let leader_id := match leader_id n with Some l => Some l | None => Some (id n) end in
      send responder success None message leader_id term (id n) (role n) (peers n)
  end.

(** [while last_applied < commit_index]; every turn raises [last_applied] and
    none changes [commit_index]. *)
Fixpoint apply_loop (fuel : nat) : M Node () :=
  n ← get;
  if decide (last_applied n < commit_index n) then
    match fuel with
    | O => panic "out of fuel"
    | S fuel' => apply_next;; apply_loop fuel'
    end
  else mret ().

Definition apply_committed_entries : M Node () :=
  n ← get;
  apply_loop (commit_index n - last_applied n).

(** The majority of a cluster in which this node has [peers]. *)
Definition majority (peers : list NodeId) : nat := S (length peers) / 2 + 1.

(** How many nodes, this one included, have the entry at [index]. *)
Definition replicated (n : Node) (index : nat) : nat :=
  length (filter (λ p, index ≤ p.2) (map_to_list (match_index n))) + 1.

(** The loop of [update_commit_index] over the indices that are left. *)
Fixpoint commit_loop (l : list nat) : M Node () :=
  match l with
  | [] => mret ()
  | index :: l' =>
      n ← get;
      entry ← entry_at index;
      when (bool_decide (term entry = current_term n) &&
            bool_decide (majority (peers n) ≤ replicated n index))
        (modify (λ n, n <| commit_index := index |>));;
      commit_loop l'
  end.

Definition update_commit_index : M Node () :=
  n ← get;
  commit_loop (seq (S (commit_index n)) (length (log n) - S (commit_index n)));;
  persist_meta;;
  apply_committed_entries.

Definition append_command (c : Command) : M Node nat :=
  n ← get;
  if decide (role n ≠ Leader)
  then panic "Only leader can append client commands" else
  let index := length (log n) in
  push_log_entry {| term := current_term n; payload := PCommand (new_record 0 c) |};;
  n ← get;
  (if decide (peers n = []) then update_commit_index
   else for_each (peers n) (λ peer,
     entries ← make_append_entries peer;
     push peer (MAppendEntries entries)));;
  mret index.

(** Matching the entries of a request against the log, from [index] on. *)
Fixpoint append_loop (index : nat) (entries : list LogEntry) : M Node () :=
  match entries with
  | [] => mret ()
  | incoming_entry :: entries' =>
      n ← get;
      (if decide (index < length (log n)) then
         entry ← entry_at index;
         when (bool_decide (term entry ≠ term incoming_entry))
           (truncate_log index;; push_log_entry incoming_entry)
       else push_log_entry incoming_entry);;
      append_loop (S index) entries'
  end.

Definition append_response (n : Node) (success : bool) (match_index : nat) :
    AppendEntriesResponse :=
  {| ar_term := current_term n; ar_follower_id := id n; ar_success := success;
     ar_match_index := match_index |}.

(** [self.log.len() - 1]: the log is never empty. *)
Definition last_index : M Node nat :=
  n ← get;
  if decide (log n = []) then panic "attempt to subtract with overflow"
  else mret (length (log n) - 1).

Definition handle_append_entries (entries : AppendEntries) (now : Instant) :
    M Node AppendEntriesResponse :=
  n ← get;
  if decide (ae_term entries < current_term n)%Z then
    last ← last_index; mret (append_response n false last)
  else
  when (bool_decide (current_term n < ae_term entries)%Z) (step_down (ae_term entries) now);;
  modify (λ n, n <| role := Follower |> <| leader_id := Some (ae_leader_id entries) |>);;
  reset_election_timeout now;;
  n ← get;
  let prev_log_index := ae_prev_log_index entries in
  if decide (length (log n) ≤ prev_log_index) then
    last ← last_index; mret (append_response n false last)
  else
  prev ← entry_at prev_log_index;
  if decide (term prev ≠ ae_prev_log_term entries) then
    last ← last_index; mret (append_response n false last)
  else
  let match_index := prev_log_index + length (ae_entries entries) in
  append_loop (S prev_log_index) (ae_entries entries);;
  last ← last_index;
  modify (λ n, n <| commit_index := ae_leader_commit entries `min` last |>);;
  persist_meta;;
  apply_committed_entries;;
  n ← get;
  mret (append_response n true match_index).

Definition handle_append_entries_response (response : AppendEntriesResponse)
    (now : Instant) : M Node () :=
  n ← get;
  if decide (current_term n < ar_term response)%Z then step_down (ar_term response) now else
  if decide (role n ≠ Leader) then mret () else
  if decide (ar_term response < current_term n)%Z then mret () else
  let peer := ar_follower_id response in
  if ar_success response then
    modify (λ n, n <| match_index := <[peer := ar_match_index response]> (match_index n) |>);;
    modify (λ n, n <| next_index := <[peer := S (ar_match_index response)]> (next_index n) |>);;
    update_commit_index
  else
    ni ← lift (expect "next_index missing for peer" (next_index n !! peer));
    when (bool_decide (1 < ni))
      (modify (λ n, n <| next_index := <[peer := ni - 1]> (next_index n) |>));;
    retry ← make_append_entries peer;
    push peer (MAppendEntries retry).

(** ** [election.rs] *)

Definition become_leader (now : Instant) : M Node () :=
  modify (λ n, n <| role := Leader |> <| leader_id := Some (id n) |>);;
  ps ← gets peers;
  for_each ps (λ peer,
    modify (λ n, n <| next_index := <[peer := length (log n)]> (next_index n) |>);;
    modify (λ n, n <| match_index := <[peer := 0]> (match_index n) |>);;
    entries ← make_append_entries peer;
    push peer (MAppendEntries entries));;
  modify (λ n, n <| heartbeat_deadline := (now + 100)%Z |>).

Definition start_election (now : Instant) : M Node () :=
  modify (λ n, n <| role := Candidate |> <| leader_id := None |>);;
  modify (λ n, n <| current_term := wrap 64 (current_term n + 1) |>);;
  modify (λ n, n <| voted_for := Some (id n) |>);;
  persist_meta;;
  modify (λ n, n <| votes_received := {[ id n ]} |>);;
  n ← get;
  if decide (majority (peers n) ≤ size (votes_received n)) then become_leader now else
  reset_election_timeout now;;
  last ← last_index;
  entry ← entry_at last;
  n ← get;
  let request := {| rv_term := current_term n; rv_candidate_id := id n;
                    rv_last_log_index := last; rv_last_log_term := term entry |} in
  for_each (peers n) (λ peer, push peer (MRequestVote request)).

Definition handle_vote_response (response : RequestVoteResponse) (now : Instant) :
    M Node () :=
  n ← get;
  if decide (current_term n < vr_term response)%Z then step_down (vr_term response) now else
  if decide (vr_term response < current_term n)%Z then mret () else
  if decide (role n ≠ Candidate) then mret () else
  when (vr_vote_granted response)
    (modify (λ n, n <| votes_received := {[ vr_voter_id response ]} ∪ votes_received n |>));;
  n ← get;
  if decide (majority (peers n) ≤ size (votes_received n)) then become_leader now
  else mret ().

Definition vote_response (n : Node) (granted : bool) : RequestVoteResponse :=
  {| vr_term := current_term n; vr_voter_id := id n; vr_vote_granted := granted |}.

Definition handle_request_vote (request : RequestVote) (now : Instant) :
    M Node RequestVoteResponse :=
  n ← get;
  if decide (rv_term request < current_term n)%Z then mret (vote_response n false) else
  when (bool_decide (current_term n < rv_term request)%Z) (step_down (rv_term request) now);;
  n ← get;
  let can_vote := match voted_for n with
    | None => true
    | Some i => bool_decide (i = rv_candidate_id request)
    end in
  if negb can_vote then mret (vote_response n false) else
  last_log_index ← last_index;
  entry ← entry_at last_log_index;
  let last_log_term := term entry in
  let log_is_up_to_date :=
    bool_decide (last_log_term < rv_last_log_term request)%Z ||
    (bool_decide (rv_last_log_term request = last_log_term) &&
     bool_decide (last_log_index ≤ rv_last_log_index request)) in
  if negb log_is_up_to_date then mret (vote_response n false) else
  modify (λ n, n <| voted_for := Some (rv_candidate_id request) |>);;
  persist_meta;;
  reset_election_timeout now;;
  n ← get;
  mret (vote_response n true).

(** ** [node.rs]: requests and time *)

Definition submit_store_write (c : Command) (r : Responder) : M Node () :=
  n ← get;
  if decide (role n ≠ Leader) then
    let msg := match leader_id n with
      | Some leader => lit "Not leader; current leader is Node " ++ id_str leader
      | None => lit "Node " ++ id_str (id n) ++
                lit " is not leader and no leader is currently known"
      end in
    send r false None msg (leader_id n) (current_term n) (id n) (role n) (peers n)
  else
  index ← append_command c;
  entry ← entry_at index;
  let term := term entry in
  n ← get;
  if decide (index ≤ last_applied n) then
    send r true None (lit "Write committed and applied at log index " ++ index_str index)
      (match leader_id n with Some l => Some l | None => Some (id n) end)
      term (id n) (role n) (peers n)
  else modify (λ n, n <| pending_requests := <[(index, term) := r]> (pending_requests n) |>).

Definition handle_store_request (request : StoreRequest) (_now : Instant) : M Node () :=
  match operation request with
  | OpSet key value => submit_store_write (Set_ key value) (responder request)
  | OpDelete key => submit_store_write (Delete key) (responder request)
  | OpGet key =>
      result ← attempt (zoom db (kv_get key));
      n ← get;
      let '(success, value, msg) := match result with
        | inl v => (true, v, lit "Read from Node " ++ id_str (id n))
        | inr err => (false, None, lit (message err))
        end in
      send (responder request) success value msg (leader_id n) (current_term n)
        (id n) (role n) (peers n)
  | OpStatus =>
      n ← get;
      send (responder request) true None
        (lit "Node status OK (role: " ++ role_str (role n) ++ lit ")")
        (leader_id n) (current_term n) (id n) (role n) (peers n)
  end.

Definition tick (now : Instant) : M Node () :=
  n ← get;
  match role n with
  | Follower | Candidate =>
      when (bool_decide (election_deadline n ≤ now)%Z) (start_election now)
  | Leader =>
      when (bool_decide (heartbeat_deadline n ≤ now)%Z)
        (send_heartbeats;;
         modify (λ n, n <| heartbeat_deadline := (now + 100)%Z |>))
  end.

Definition restart (now : Instant) : M Node () :=
  modify (λ n, n <| role := Follower |> <| leader_id := None |>
                 <| votes_received := ∅ |> <| outbox := [] |> <| next_index := ∅ |>
                 <| match_index := ∅ |> <| pending_requests := ∅ |>);;
  reset_election_timeout now.

Definition append_membership_change (p : EntryPayload) : M Node () :=
  n ← get;
  if decide (role n ≠ Leader) then mret () else
  push_log_entry {| term := current_term n; payload := p |};;
  n ← get;
  if decide (peers n = []) then update_commit_index else send_heartbeats.

Definition add_peer (peer : NodeId) (addr : str) : M Node () :=
  n ← get;
  if decide (role n ≠ Leader) then mret () else
  append_membership_change (PAddNode peer addr).

Definition remove_peer (peer : NodeId) : M Node () :=
  n ← get;
  if decide (role n ≠ Leader) then mret () else
  append_membership_change (PRemoveNode peer).

(** ** [message.rs]: [handle_message] *)

Definition handle_message (m : Message) (now : Instant) : M Node () :=
  match m with
  | MRequestVote request =>
      response ← handle_request_vote request now;
      push (rv_candidate_id request) (MRequestVoteResponse response)
  | MRequestVoteResponse response => handle_vote_response response now
  | MAppendEntries entries =>
      response ← handle_append_entries entries now;
      push (ae_leader_id entries) (MAppendEntriesResponse response)
  | MAppendEntriesResponse response => handle_append_entries_response response now
  | MClientCommand cmd =>
      n ← get;
      if decide (role n = Leader) then append_command cmd;; mret ()
      else match leader_id n with
           | Some leader => push leader (MClientCommand cmd)
           | None => mret ()
           end
  | MClientRequest req =>
      let operation := match cr_command req with
        | Set_ key value => OpSet key value
        | Delete key => OpDelete key
        end in
      handle_store_request
        {| operation := operation;
           responder := RaftClient (cr_client_id req) (cr_request_id req) |} now
  | MClientQuery query =>
      handle_store_request
        {| operation := OpGet (cq_key query);
           responder := RaftClient (cq_client_id query) (cq_request_id query) |} now
  | MStatusQuery query =>
      handle_store_request
        {| operation := OpStatus;
           responder := RaftClient (sq_client_id query) (sq_request_id query) |} now
  | MAddNode request =>
      n ← get;
      if decide (role n ≠ Leader) then
        match leader_id n with
        | Some leader => push leader (MAddNode request)
        | None => mret ()
        end
      else append_membership_change (PAddNode (an_id request) (an_addr request))
  | MRemoveNode request =>
      n ← get;
      if decide (role n ≠ Leader) then
        match leader_id n with
        | Some leader => push leader (MRemoveNode request)
        | None => mret ()
        end
      else append_membership_change (PRemoveNode (rn_id request))
  | MClientResponse _ => mret ()
  | MTimeout => start_election now
  end.

Definition submit_command (c : Command) (now : Instant) : M Node () :=
  handle_message (MClientCommand c) now.

(** ** [node.rs]: starting a node *)

(** The entry at index 0 of every log. *)
Definition sentinel : LogEntry :=
  {| term := 0; payload := PCommand (new_record 0 (Set_ [] (String []))) |}.

(** The peers after the committed membership changes of a log. *)
Definition recover_peers (self : NodeId) (peers : list NodeId) (entries : list LogEntry) :
    list NodeId :=
  foldl (λ peers entry,
    match payload entry with
    | PAddNode peer _ =>
        if decide (peer ≠ self ∧ peer ∉ peers) then peers ++ [peer] else peers
    | PRemoveNode peer => filter (λ p, p ≠ peer) peers
    | PCommand _ => peers
    end) peers entries.

(** [RaftNode::new_in_dir], given the contents of [raft_log.bin] and
    [raft_meta.bin] and the result of opening the database, which the source
    unwraps. *)
Definition new_in_dir (log_file meta_file : bytes) (opened : res D) (id : NodeId)
    (peers : list NodeId) (now : Instant) : res Node :=
  let '(log_store, persisted_log) := match log_store_open log_file with
    | Ok (store, entries) => (Some store, entries)
    | _ => (None, [])
    end in
  let '(meta_store, meta) := meta_open meta_file in
  let log := match persisted_log with [] => [sentinel] | _ => persisted_log end in
  let safe_commit := ms_commit_index meta `min` (length log - 1) in
  let recovered_peers := recover_peers id peers (take safe_commit (drop 1 log)) in
  database ← match opened with
    | Ok d => Ok d
    | Err _ => Panic "called `Result::unwrap()` on an `Err` value"
    | Panic p => Panic p
    end;
  let node :=
    {| db := database; id := id; peers := recovered_peers;
       current_term := ms_current_term meta;
       voted_for := MkNodeId <$> ms_voted_for meta; log := log;
       commit_index := safe_commit; last_applied := safe_commit;
       next_index := ∅; match_index := ∅; role := Follower; votes_received := ∅;
       leader_id := None; outbox := []; election_deadline := now;
       heartbeat_deadline := now; election_timeout := None; pending_requests := ∅;
       peer_changes_tx := None; log_store := log_store; meta_store := Some meta_store;
       draws := 0; replies := [] |} in
  match reset_election_timeout now node with
  | (Ok _, node) => Ok node
  | (Err e, _) => Err e
  | (Panic p, _) => Panic p
  end.

End node.
