(* ===== verification/Protocol.v ===== *)
(** The consensus protocol behind the handlers of [RaftNode.v], for a fixed
    cluster: what a node may do at a time, the history variables that describe
    a run, the invariant, and the safety properties that follow from it. *)

From stdpp Require Import functions.
From S2P Require Import Prelude Bytes Float LogRecord RaftTypes.

(** * States *)

(** The part of a node that the protocol is about. *)
Record PNode : Type := MkPNode {
  p_term : Z;
  p_vote : option NodeId;
  p_log : list LogEntry;
  p_role : Role;
  p_votes : gset NodeId;
  p_match : gmap NodeId nat;
  p_commit : nat;
  p_applied : nat;
}.

(** The history of a run: every message that was sent with its receiver, the
    leader of each term, its log when it was elected and its log now, and for
    every vote the candidate and the log of the voter. *)
Record History : Type := MkHistory {
  sent : list (NodeId * Message);
  lead : gmap Z NodeId;
  elog : gmap Z (list LogEntry);
  llog : gmap Z (list LogEntry);
  vlog : gmap (NodeId * Z) (NodeId * list LogEntry);
}.

#[export] Instance eta_History : Eta History := λ h,
  MkHistory (sent h) (lead h) (elog h) (llog h) (vlog h).
#[export] Instance upd_sent : Upd sent. Proof. derive_upd. Defined.
#[export] Instance upd_lead : Upd lead. Proof. derive_upd. Defined.
#[export] Instance upd_elog : Upd elog. Proof. derive_upd. Defined.
#[export] Instance upd_llog : Upd llog. Proof. derive_upd. Defined.
#[export] Instance upd_vlog : Upd vlog. Proof. derive_upd. Defined.

#[export] Instance eta_PNode : Eta PNode := λ n,
  MkPNode (p_term n) (p_vote n) (p_log n) (p_role n) (p_votes n) (p_match n)
    (p_commit n) (p_applied n).
#[export] Instance upd_p_vote : Upd p_vote. Proof. derive_upd. Defined.
#[export] Instance upd_p_log : Upd p_log. Proof. derive_upd. Defined.
#[export] Instance upd_p_role : Upd p_role. Proof. derive_upd. Defined.
#[export] Instance upd_p_votes : Upd p_votes. Proof. derive_upd. Defined.
#[export] Instance upd_p_match : Upd p_match. Proof. derive_upd. Defined.
#[export] Instance upd_p_commit : Upd p_commit. Proof. derive_upd. Defined.
#[export] Instance upd_p_applied : Upd p_applied. Proof. derive_upd. Defined.

(** The candidate's log [lc] is at least as up to date as [l]. *)
Definition uptodate (lc l : list LogEntry) : Prop :=
  ∃ a b, last lc = Some a ∧ last l = Some b ∧
    ((term b < term a)%Z ∨ term a = term b ∧ length l ≤ length lc).

(** The log after the entries of a request, from [index] on, are matched
    against it. *)
Fixpoint merge_log (log : list LogEntry) (index : nat) (es : list LogEntry) :
    list LogEntry :=
  match es with
  | [] => log
  | e :: es' =>
      let log' := match log !! index with
        | Some e0 => if decide (term e0 ≠ term e) then take index log ++ [e] else log
        | None => log ++ [e]
        end in
      merge_log log' (S index) es'
  end.

Section protocol.
Context (sentinel : LogEntry) (cluster : gset NodeId).

Definition quorum (Q : gset NodeId) : Prop :=
  Q ⊆ cluster ∧ size cluster < 2 * size Q.

Lemma merge_log_Forall (P : LogEntry → Prop) l k es :
  Forall P l → Forall P es → Forall P (merge_log l k es).
Proof using Type.
  intros Hl Hes. revert l k Hl. induction Hes as [|e es He _ IH]; intros l k Hl; cbn; [done|].
  apply IH. destruct (l !! k); [destruct (decide _); [|done]|];
    apply Forall_app; auto using Forall_take.
Qed.

(** * Steps

    [pstep i n h n' h']: node [i] goes from [n] to [n'], the history from [h]
    to [h']. *)
Inductive pstep (i : NodeId) (n : PNode) (h : History) : PNode → History → Prop :=
  | p_new_term t :
      (p_term n < t)%Z →
      pstep i n h
        {| p_term := t; p_vote := None; p_log := p_log n; p_role := Follower;
           p_votes := p_votes n; p_match := p_match n; p_commit := p_commit n;
           p_applied := p_applied n |} h
  | p_follow votes m :
      pstep i n h (n <| p_role := Follower |> <| p_votes := votes |> <| p_match := m |>) h
  | p_campaign :
      pstep i n h
        {| p_term := p_term n + 1; p_vote := Some i; p_log := p_log n;
           p_role := Candidate; p_votes := {[ i ]}; p_match := p_match n;
           p_commit := p_commit n; p_applied := p_applied n |}
        (h <| vlog := <[(i, (p_term n + 1)%Z) := (i, p_log n)]> (vlog h) |>)
  | p_request_vote to e :
      p_role n = Candidate → last (p_log n) = Some e →
      pstep i n h n
        (h <| sent := (to, MRequestVote
             {| rv_term := p_term n; rv_candidate_id := i;
                rv_last_log_index := length (p_log n) - 1;
                rv_last_log_term := term e |}) :: sent h |>)
  | p_grant m e :
      (i, MRequestVote m) ∈ sent h → rv_term m = p_term n →
      (p_vote n = None ∨ p_vote n = Some (rv_candidate_id m)) →
      last (p_log n) = Some e →
      ((term e < rv_last_log_term m)%Z ∨
       rv_last_log_term m = term e ∧ length (p_log n) - 1 ≤ rv_last_log_index m) →
      pstep i n h (n <| p_vote := Some (rv_candidate_id m) |>)
        (h <| vlog := match vlog h !! (i, p_term n) with
                      | Some _ => vlog h
                      | None => <[(i, p_term n) := (rv_candidate_id m, p_log n)]> (vlog h)
                      end |>
           <| sent := (rv_candidate_id m, MRequestVoteResponse
                {| vr_term := p_term n; vr_voter_id := i; vr_vote_granted := true |})
              :: sent h |>)
  | p_count_vote m :
      (i, MRequestVoteResponse m) ∈ sent h → vr_term m = p_term n →
      vr_vote_granted m = true → p_role n = Candidate →
      pstep i n h (n <| p_votes := {[ vr_voter_id m ]} ∪ p_votes n |>) h
  | p_win :
      p_role n = Candidate → size cluster < 2 * size (p_votes n) →
      pstep i n h
        (n <| p_role := Leader |>
           <| p_match := gset_to_gmap 0 (cluster ∖ {[ i ]}) |>)
        (h <| lead := <[p_term n := i]> (lead h) |>
           <| elog := <[p_term n := p_log n]> (elog h) |>
           <| llog := <[p_term n := p_log n]> (llog h) |>)
  | p_append e :
      p_role n = Leader → term e = p_term n →
      pstep i n h (n <| p_log := p_log n ++ [e] |>)
        (h <| llog := <[p_term n := p_log n ++ [e]]> (llog h) |>)
  | p_replicate to prev e :
      to ≠ i → p_role n = Leader → p_log n !! prev = Some e →
      pstep i n h n
        (h <| sent := (to, MAppendEntries
             {| ae_term := p_term n; ae_leader_id := i; ae_prev_log_index := prev;
                ae_prev_log_term := term e; ae_entries := drop (S prev) (p_log n);
                ae_leader_commit := p_commit n |}) :: sent h |>)
  | p_accept m e :
      (i, MAppendEntries m) ∈ sent h → ae_term m = p_term n → p_role n = Follower →
      p_log n !! ae_prev_log_index m = Some e → term e = ae_prev_log_term m →
      let log' := merge_log (p_log n) (S (ae_prev_log_index m)) (ae_entries m) in
      pstep i n h
        (n <| p_log := log' |>
           <| p_commit := ae_leader_commit m `min` (length log' - 1) |>)
        (h <| sent := (ae_leader_id m, MAppendEntriesResponse
             {| ar_term := p_term n; ar_follower_id := i; ar_success := true;
                ar_match_index := ae_prev_log_index m + length (ae_entries m) |})
           :: sent h |>)
  | p_count_ack m :
      (i, MAppendEntriesResponse m) ∈ sent h → ar_term m = p_term n →
      ar_success m = true → p_role n = Leader →
      pstep i n h (n <| p_match := <[ar_follower_id m := ar_match_index m]> (p_match n) |>) h
  | p_advance index e :
      p_role n = Leader → p_log n !! index = Some e → term e = p_term n →
      size cluster <
        2 * (length (filter (λ p, index ≤ p.2) (map_to_list (p_match n))) + 1) →
      pstep i n h (n <| p_commit := index |>) h
  | p_apply :
      p_applied n < p_commit n →
      pstep i n h (n <| p_applied := S (p_applied n) |>) h
  | p_other to m :
      (* a refusal, or traffic that the protocol does not see *)
      match m with
      | MRequestVote _ | MAppendEntries _ => False
      | MRequestVoteResponse r => vr_vote_granted r = false
      | MAppendEntriesResponse r =>
          ar_success r = false ∧ ar_follower_id r = i ∧ to ≠ i
      | _ => True
      end →
      pstep i n h n (h <| sent := (to, m) :: sent h |>).

(** * The invariant *)

(** The log [l] has the first [S m] entries of [Lt]. *)
Definition has (l Lt : list LogEntry) (m : nat) : Prop := take (S m) Lt `prefix_of` l.

(** Every entry of [l] was made by the leader of its term, and [l] up to that
    entry is that leader's log. *)
Definition log_ok (h : History) (l : list LogEntry) : Prop :=
  ∀ k e, l !! k = Some e →
    ∃ Lt, llog h !! term e = Some Lt ∧ take (S k) l `prefix_of` Lt.

(** Node [j] has the log of term [t] up to index [m]: it said so, or it is the
    leader. *)
Definition acked (h : History) (j : NodeId) (t : Z) (m : nat) : Prop :=
  (∃ c m', m ≤ m' ∧ (c, MAppendEntriesResponse
     {| ar_term := t; ar_follower_id := j; ar_success := true; ar_match_index := m' |})
     ∈ sent h) ∨
  (lead h !! t = Some j ∧ ∃ Lt, llog h !! t = Some Lt ∧ m < length Lt).

Definition committed (h : History) (t : Z) (m : nat) : Prop :=
  ∃ Q Lt e, quorum Q ∧ (∀ j, j ∈ Q → acked h j t m) ∧
    llog h !! t = Some Lt ∧ Lt !! m = Some e ∧ term e = t.

(** The index [c] of [l] is committed, as a node of term [T] may know. *)
Definition commit_ok (h : History) (T : Z) (l : list LogEntry) (c : nat) : Prop :=
  c = 0 ∨ ∃ t m Lt, (t ≤ T)%Z ∧ c ≤ m ∧ committed h t m ∧
    llog h !! t = Some Lt ∧ has l Lt c.

(** What [j] acknowledged in earlier terms is in [l], unless the leader of a
    term below [T] did not have it. *)
Definition kept (h : History) (j : NodeId) (T : Z) (l : list LogEntry) : Prop :=
  ∀ t m Lt, (t < T)%Z → acked h j t m → llog h !! t = Some Lt →
    has l Lt m ∨
    ∃ u I, (t < u < T)%Z ∧ elog h !! u = Some I ∧ ¬ has I Lt m.

Record node_inv (h : History) (i : NodeId) (n : PNode) : Prop := {
  ni_log : log_ok h (p_log n);
  ni_sentinel : p_log n !! 0 = Some sentinel;
  ni_term : (0 ≤ p_term n)%Z;
  ni_terms e : e ∈ p_log n → (term e ≤ p_term n)%Z;
  ni_voted t c l : vlog h !! (i, t) = Some (c, l) →
    (t ≤ p_term n)%Z ∧ (t = p_term n → p_vote n = Some c);
  ni_vote c : p_vote n = Some c → ∃ l, vlog h !! (i, p_term n) = Some (c, l);
  ni_candidate : p_role n = Candidate →
    vlog h !! (i, p_term n) = Some (i, p_log n) ∧ p_votes n ⊆ cluster ∧
    (∀ j, j ∈ p_votes n → ∃ l, vlog h !! (j, p_term n) = Some (i, l)) ∧
    lead h !! p_term n ≠ Some i ∧ (0 < p_term n)%Z;
  ni_leader : p_role n = Leader →
    lead h !! p_term n = Some i ∧ llog h !! p_term n = Some (p_log n) ∧
    dom (p_match n) ⊆ cluster ∖ {[ i ]} ∧
    (∀ j m, p_match n !! j = Some m → m = 0 ∨ acked h j (p_term n) m);
  ni_led t : lead h !! t = Some i → (t ≤ p_term n)%Z;
  ni_acked t m c : (c, MAppendEntriesResponse
     {| ar_term := t; ar_follower_id := i; ar_success := true; ar_match_index := m |})
     ∈ sent h → (t ≤ p_term n)%Z;
  ni_kept : kept h i (p_term n + 1) (p_log n);
  ni_commit : commit_ok h (p_term n) (p_log n) (p_commit n);
  ni_applied : commit_ok h (p_term n) (p_log n) (p_applied n);
}.

Record hist_inv (h : History) : Prop := {
  hi_zero : elog h !! 0%Z = Some [sentinel] ∧ llog h !! 0%Z = Some [sentinel] ∧
            lead h !! 0%Z = None;
  hi_range t : is_Some (llog h !! t) → (0 ≤ t)%Z;
  hi_dom t : is_Some (llog h !! t) ↔ is_Some (elog h !! t);
  hi_elog t I Lt : elog h !! t = Some I → llog h !! t = Some Lt →
    I `prefix_of` Lt ∧ ((0 < t)%Z → ∀ e, e ∈ I → (term e < t)%Z) ∧
    ∀ k e, length I ≤ k → Lt !! k = Some e → term e = t;
  hi_llog t Lt : llog h !! t = Some Lt → log_ok h Lt ∧ Lt !! 0 = Some sentinel;
  hi_lead t c : lead h !! t = Some c → c ∈ cluster ∧ is_Some (elog h !! t);
  hi_elected t I : elog h !! t = Some I → (0 < t)%Z →
    ∃ c Q, lead h !! t = Some c ∧ quorum Q ∧ vlog h !! (c, t) = Some (c, I) ∧
      ∀ j, j ∈ Q → ∃ l, vlog h !! (j, t) = Some (c, l) ∧ kept h j t l;
  hi_vote j t c l : vlog h !! (j, t) = Some (c, l) →
    (0 < t)%Z ∧ log_ok h l ∧ ∃ lc, vlog h !! (c, t) = Some (c, lc) ∧ uptodate lc l;
  hi_self c t l : vlog h !! (c, t) = Some (c, l) → log_ok h l ∧
    ∀ e, e ∈ l → (term e < t)%Z;
  hi_voting j t c l : elog h !! t = None → vlog h !! (j, t) = Some (c, l) → kept h j t l;
}.

Definition msg_inv (h : History) (to : NodeId) (m : Message) : Prop :=
  match m with
  | MRequestVote r =>
      ∃ lc e, vlog h !! (rv_candidate_id r, rv_term r) = Some (rv_candidate_id r, lc) ∧
        rv_last_log_index r = length lc - 1 ∧ last lc = Some e ∧
        rv_last_log_term r = term e
  | MRequestVoteResponse r =>
      vr_vote_granted r = true →
      vr_voter_id r ∈ cluster ∧ ∃ l, vlog h !! (vr_voter_id r, vr_term r) = Some (to, l)
  | MAppendEntries r =>
      to ≠ ae_leader_id r ∧
      ∃ Lt e, lead h !! ae_term r = Some (ae_leader_id r) ∧
        llog h !! ae_term r = Some Lt ∧ Lt !! ae_prev_log_index r = Some e ∧
        term e = ae_prev_log_term r ∧
        (ae_entries r) `prefix_of` (drop (S (ae_prev_log_index r)) Lt) ∧
        ae_leader_commit r < S (ae_prev_log_index r) + length (ae_entries r) ∧
        commit_ok h (ae_term r) Lt (ae_leader_commit r)
  | MAppendEntriesResponse r =>
      ar_follower_id r ∈ cluster ∧ ar_follower_id r ≠ to ∧
      (ar_success r = true →
       lead h !! ar_term r = Some to ∧
       ∃ Lt, llog h !! ar_term r = Some Lt ∧ ar_match_index r < length Lt)
  | _ => True
  end.

Record inv (f : NodeId → PNode) (h : History) : Prop := {
  inv_nodes i : i ∈ cluster → node_inv h i (f i);
  inv_hist : hist_inv h;
  inv_msgs to m : (to, m) ∈ sent h → msg_inv h to m;
}.

(** * Quorums and logs *)

Lemma quorum_meet Q Q' : quorum Q → quorum Q' → ∃ j, j ∈ Q ∧ j ∈ Q'.
Proof using Type.
  clear sentinel.
  intros [H1 S1] [H2 S2]. destruct (decide (Q ∩ Q' = ∅)) as [Hd|Hn].
  - assert (size (Q ∪ Q') = size Q + size Q') as Hu by (apply size_union; set_solver).
    assert (size (Q ∪ Q') ≤ size cluster) by (apply subseteq_size; set_solver). lia.
  - apply set_choose_L in Hn as [j [? ?]%elem_of_intersection]. eauto.
Qed.

Lemma has_lookup l Lt m k e : has l Lt m → k ≤ m → Lt !! k = Some e → l !! k = Some e.
Proof using Type.
  intros Hh Hk He. eapply prefix_lookup_Some; [|exact Hh].
  by rewrite lookup_take_lt by lia.
Qed.

Lemma has_mono l Lt m k : has l Lt m → k ≤ m → has l Lt k.
Proof using Type.
  intros Hh Hk. unfold has in *. etrans; [|exact Hh].
  exists (drop (S k) (take (S m) Lt)).
  rewrite <-(take_drop (S k) (take (S m) Lt)) at 1. f_equal.
  rewrite take_take. f_equal. lia.
Qed.

Lemma has_prefix l Lt Lt' m :
  m < length Lt → Lt `prefix_of` Lt' → has l Lt m ↔ has l Lt' m.
Proof using Type.
  intros Hm [k ->]. unfold has. by rewrite take_app_le by lia.
Qed.

Lemma prefix_take {A} (l l' : list A) k : l `prefix_of` l' → take k l `prefix_of` take k l'.
Proof using Type. intros [r ->]. rewrite take_app. by apply prefix_app_r. Qed.

Lemma log_ok_prefix h l l' : log_ok h l → l' `prefix_of` l → log_ok h l'.
Proof using Type.
  intros Hl Hp k e Hk. pose proof (prefix_lookup_Some _ _ _ _ Hk Hp) as Hk'.
  destruct (Hl k e Hk') as (Lt & E & Ht). exists Lt. split; [done|].
  etrans; [|exact Ht]. by apply prefix_take.
Qed.

(** The log matching property: logs that agree on the term at an index agree
    up to it. *)
Lemma log_ok_match h l l' k e e' :
  log_ok h l → log_ok h l' → l !! k = Some e → l' !! k = Some e' → term e = term e' →
  take (S k) l = take (S k) l'.
Proof using Type.
  intros Hl Hl' He He' Ht.
  destruct (Hl k e He) as (Lt & E & Hp). destruct (Hl' k e' He') as (Lt' & E' & Hp').
  rewrite <-Ht, E in E'. injection E' as <-.
  apply lookup_lt_Some in He, He'.
  destruct Hp as [r Hr], Hp' as [r' Hr']. rewrite Hr in Hr'.
  apply app_inj_1 in Hr' as [? _]; [done|]. rewrite !length_take. lia.
Qed.

Context (Hsentinel : term sentinel = 0%Z).

(** * Consequences of the invariant *)

Section history.
Context (h : History).
Hypothesis (Hh : hist_inv h).

Lemma llog_term t Lt k e :
  llog h !! t = Some Lt → Lt !! k = Some e → (term e ≤ t)%Z.
Proof using Hh Hsentinel.
  intros Ht Hk. pose proof (hi_range _ Hh t ltac:(eauto)).
  destruct (proj1 (hi_dom _ Hh t) ltac:(eauto)) as [I HI].
  destruct (hi_elog _ Hh t I Lt HI Ht) as (Hp & Hlt & Heq).
  destruct (decide (length I ≤ k)) as [Hl|Hl]; [rewrite (Heq k e); done|].
  assert (Hk' : I !! k = Some e).
  { destruct Hp as [r ->]. by rewrite lookup_app_l in Hk by lia. }
  destruct (decide (t = 0%Z)) as [->|].
  - destruct (hi_zero _ Hh) as (E & _). rewrite E in HI. injection HI as <-.
    apply list_elem_of_lookup_2, list_elem_of_singleton in Hk' as ->. lia.
  - apply Z.lt_le_incl, Hlt; [lia|]. by eapply list_elem_of_lookup_2.
Qed.

(** Terms do not decrease along a log. *)
Lemma log_ok_sorted l j k a b :
  log_ok h l → j ≤ k → l !! j = Some a → l !! k = Some b → (term a ≤ term b)%Z.
Proof using Hh Hsentinel.
  intros Hl Hjk Ha Hb. destruct (Hl k b Hb) as (Lt & E & Hp).
  apply (llog_term (term b) Lt j a E).
  eapply prefix_lookup_Some; [|exact Hp]. by rewrite lookup_take_lt by lia.
Qed.

(** A log whose last entry has term [t] is the log of the leader of [t], cut. *)
Lemma log_ok_last l b :
  log_ok h l → last l = Some b → ∃ Lt, llog h !! term b = Some Lt ∧ l `prefix_of` Lt.
Proof using Type.
  intros Hl Hb. rewrite last_lookup in Hb. destruct (Hl _ _ Hb) as (Lt & E & Hp).
  exists Lt. split; [done|]. apply lookup_lt_Some in Hb.
  by rewrite take_ge in Hp by lia.
Qed.

Lemma prefix_has l l' m Lt :
  l `prefix_of` l' → has l' Lt m → m < length Lt → m < length l → has l Lt m.
Proof using Type.
  intros [r ->] [r' E] Hm Hl. unfold has.
  exists (drop (S m) l). apply (f_equal (take (S m))) in E.
  rewrite take_app_le in E by lia. rewrite take_app_le in E by (rewrite length_take; lia).
  rewrite take_take, Nat.min_id in E. by rewrite <-E, take_drop.
Qed.

(** Leader completeness: what is committed in a term is in the log of every
    leader of a later term. *)
Lemma leader_complete_aux t m Lt (d : nat) :
  committed h t m → llog h !! t = Some Lt →
  ∀ t' I, (t < t' ≤ t + Z.of_nat d)%Z → elog h !! t' = Some I → has I Lt m.
Proof using Hh Hsentinel.
  intros (Q & Lt0 & e & HQ & Hack & HLt & He & Het) HLt'.
  rewrite HLt in HLt'. injection HLt' as ->.
  pose proof (hi_range _ Hh t ltac:(eauto)) as Ht0.
  induction d as [|d IH]; intros t' I Ht' HI; [lia|].
  destruct (decide (t' ≤ t + Z.of_nat d)%Z); [apply (IH t'); [lia|done]|].
  destruct (hi_elected _ Hh t' I HI) as (c & V & Hlead & HV & Hvc & Hvotes); [lia|].
  destruct (quorum_meet _ _ HQ HV) as (j & HjQ & HjV).
  destruct (Hvotes j HjV) as (l & Hvl & Hkept).
  assert (Hl : has l Lt m).
  { destruct (Hkept t m Lt ltac:(lia) (Hack j HjQ) HLt) as [|(u & Iu & Hu & HIu & Hno)];
      [done|]. destruct Hno. apply (IH u); [lia|done]. }
  destruct (hi_vote _ Hh _ _ _ _ Hvl) as (_ & Hlok & lc & Hvc' & a & b & Ha & Hb & Hup).
  rewrite Hvc in Hvc'. injection Hvc' as <-.
  destruct (hi_self _ Hh _ _ _ Hvc) as [HIok HIlt].
  pose proof (has_lookup _ _ _ m e Hl ltac:(lia) He) as Hlm.
  assert (Hmb : (t ≤ term b)%Z).
  { rewrite <-Het. rewrite last_lookup in Hb. apply (log_ok_sorted l m (pred (length l))); try done.
    apply lookup_lt_Some in Hlm. lia. }
  destruct (log_ok_last I a HIok Ha) as (La & ELa & Hpa).
  assert (Hat : (term a < t')%Z)
    by (apply HIlt; rewrite last_lookup in Ha; by eapply list_elem_of_lookup_2).
  pose proof (lookup_lt_Some _ _ _ He) as Hm.
  destruct (decide (term a = t)) as [Ea|Ea].
  - rewrite Ea, HLt in ELa. injection ELa as <-.
    destruct Hup as [?|[Eab Hlen]]; [lia|].
    apply (prefix_has I Lt); [done| |done|].
    + unfold has. exists (drop (S m) Lt). by rewrite take_drop.
    + apply lookup_lt_Some in Hlm. lia.
  - destruct (proj1 (hi_dom _ Hh (term a)) ltac:(eauto)) as [Iw HIw].
    assert (HIwm : has Iw Lt m) by (apply (IH (term a)); [lia|done]).
    destruct (hi_elog _ Hh _ _ _ HIw ELa) as (Hpw & Hlt & _).
    assert (HLa : has La Lt m) by (unfold has in *; by etrans).
    apply (prefix_has I La); [done..|].
    assert (length Iw < length I); [|pose proof (prefix_length _ _ HIwm) as Hlen;
      rewrite length_take in Hlen; lia].
    destruct (decide (length Iw < length I)) as [|Hge]; [done|exfalso].
    assert (Hin : a ∈ Iw).
    { rewrite last_lookup in Ha. pose proof (lookup_lt_Some _ _ _ Ha).
      pose proof (prefix_lookup_Some _ _ _ _ Ha Hpa) as HaL.
      destruct Hpw as [r ->]. rewrite lookup_app_l in HaL by lia.
      by eapply list_elem_of_lookup_2. }
    specialize (Hlt ltac:(lia) a Hin). lia.
Qed.

Lemma leader_complete t m Lt t' I :
  committed h t m → llog h !! t = Some Lt → (t < t')%Z → elog h !! t' = Some I →
  has I Lt m.
Proof using Hh Hsentinel.
  intros Hc HLt Ht HI. apply (leader_complete_aux t m Lt (Z.to_nat (t' - t)) Hc HLt t'); [lia|done].
Qed.

(** The same of the whole log of the later leader. *)
Lemma leader_has t m Lt t' Lt' :
  committed h t m → llog h !! t = Some Lt → (t ≤ t')%Z → llog h !! t' = Some Lt' →
  has Lt' Lt m.
Proof using Hh Hsentinel.
  intros Hc HLt Ht HLt'. destruct (decide (t = t')) as [->|].
  - rewrite HLt in HLt'. injection HLt' as <-. exists (drop (S m) Lt). by rewrite take_drop.
  - destruct (proj1 (hi_dom _ Hh t') ltac:(eauto)) as [I HI].
    destruct (hi_elog _ Hh _ _ _ HI HLt') as (Hp & _).
    unfold has. etrans; [|exact Hp]. by apply (leader_complete t m Lt t'); [..|lia|].
Qed.

Lemma committed_lt t m Lt : committed h t m → llog h !! t = Some Lt → m < length Lt.
Proof using Type.
  intros (Q & Lt' & e & _ & _ & E & He & _) E'. rewrite E in E'. injection E' as <-.
  by apply lookup_lt_Some in He.
Qed.

(** Two committed prefixes are prefixes of one another. *)
Lemma commit_agree T T' l l' c c' k :
  commit_ok h T l c → commit_ok h T' l' c' →
  l !! 0 = Some sentinel → l' !! 0 = Some sentinel →
  k ≤ c → k ≤ c' → l !! k = l' !! k.
Proof using Hh Hsentinel.
  intros Hc Hc' H0 H0' Hk Hk'.
  destruct (decide (k = 0)) as [->|Hk0]; [congruence|].
  destruct Hc as [|(t & m & Lt & _ & Hm & Hct & HLt & Hl)]; [lia|].
  destruct Hc' as [|(t' & m' & Lt' & _ & Hm' & Hct' & HLt' & Hl')]; [lia|].
  pose proof (committed_lt _ _ _ Hct HLt) as B. pose proof (committed_lt _ _ _ Hct' HLt') as B'.
  destruct (lookup_lt_is_Some_2 Lt k) as [e He]; [lia|].
  destruct (lookup_lt_is_Some_2 Lt' k) as [e' He']; [lia|].
  rewrite (has_lookup _ _ _ k e Hl Hk He), (has_lookup _ _ _ k e' Hl' Hk' He').
  destruct (decide (t ≤ t')%Z) as [Hle|Hle].
  - pose proof (leader_has t m Lt t' Lt' Hct HLt Hle HLt') as Hhas.
    rewrite (has_lookup _ _ _ k e Hhas ltac:(lia) He) in He'. done.
  - pose proof (leader_has t' m' Lt' t Lt Hct' HLt' ltac:(lia) HLt) as Hhas.
    rewrite (has_lookup _ _ _ k e' Hhas ltac:(lia) He') in He. done.
Qed.

End history.

(** * How the history grows *)

Record ext (i : NodeId) (T : Z) (h h' : History) : Prop := {
  ex_sent x : x ∈ sent h → x ∈ sent h';
  ex_lead t c : lead h !! t = Some c → lead h' !! t = Some c;
  ex_elog t I : elog h !! t = Some I → elog h' !! t = Some I;
  ex_llog t Lt : llog h !! t = Some Lt →
    ∃ Lt', llog h' !! t = Some Lt' ∧ Lt `prefix_of` Lt' ∧
      (Lt' = Lt ∨ lead h !! t = Some i ∧ t = T);
  ex_vlog k v : vlog h !! k = Some v → vlog h' !! k = Some v;
  ex_vlog_new j t v : vlog h' !! (j, t) = Some v → vlog h !! (j, t) = Some v ∨ j = i;
  ex_lead_new t j : lead h' !! t = Some j → lead h !! t = Some j ∨ j = i ∧ t = T;
  ex_elog_new t I : elog h' !! t = Some I → elog h !! t = Some I ∨ t = T;
  ex_ack_new c r : (c, MAppendEntriesResponse r) ∈ sent h' → ar_success r = true →
    (c, MAppendEntriesResponse r) ∈ sent h ∨ ar_follower_id r = i ∧ ar_term r = T;
}.

Section growth.
Context {i : NodeId} {T : Z} {h h' : History}.
Hypothesis (He : ext i T h h').

Lemma log_ok_ext l : log_ok h l → log_ok h' l.
Proof using He.
  intros Hl k e Hk. destruct (Hl k e Hk) as (Lt & E & Hp).
  destruct (ex_llog _ _ _ _ He _ _ E) as (Lt' & E' & Hp' & _).
  exists Lt'. split; [done|]. by etrans.
Qed.

Lemma acked_ext j t m : acked h j t m → acked h' j t m.
Proof using He.
  intros [(c & m' & Hm & Hin)|(Hl & Lt & HLt & Hm)].
  - left. exists c, m'. split; [done|]. by apply He.
  - right. split; [by apply He|].
    destruct (ex_llog _ _ _ _ He _ _ HLt) as (Lt' & E' & Hp' & _).
    exists Lt'. split; [done|]. apply prefix_length in Hp'. lia.
Qed.

Lemma committed_ext t m : committed h t m → committed h' t m.
Proof using He.
  intros (Q & Lt & e & HQ & Hack & HLt & Hm & Het).
  destruct (ex_llog _ _ _ _ He _ _ HLt) as (Lt' & E' & Hp' & _).
  exists Q, Lt', e. split_and!; try done.
  - intros j Hj. by apply acked_ext, Hack.
  - by eapply prefix_lookup_Some.
Qed.

Lemma commit_ok_ext U l c : commit_ok h U l c → commit_ok h' U l c.
Proof using He.
  intros [->|(t & m & Lt & Ht & Hm & Hc & HLt & Hl)]; [by left|right].
  destruct (ex_llog _ _ _ _ He _ _ HLt) as (Lt' & E' & Hp' & _).
  exists t, m, Lt'. split_and!; try done; [by apply committed_ext|].
  apply (has_prefix l Lt Lt'); try done. pose proof (committed_lt h t m Lt Hc HLt). lia.
Qed.

Hypothesis (Hh : hist_inv h).
Hypothesis (Hacked : ∀ j t m, acked h j t m → ∃ Lt, llog h !! t = Some Lt ∧ m < length Lt).

(** New acknowledgements come from [i], in term [T]. *)
Lemma acked_back j t m : acked h' j t m → acked h j t m ∨ j = i ∧ t = T.
Proof using He Hh.
  intros [(c & m' & Hm & Hin)|(Hl & Lt & HLt & Hm)].
  - destruct (ex_ack_new _ _ _ _ He _ _ Hin) as [Hin'|[Hj Ht]]; [done| |by right].
    left. left. eauto.
  - destruct (ex_lead_new _ _ _ _ He _ _ Hl) as [Hl'|]; [|by right].
    destruct (hi_lead _ Hh _ _ Hl') as [_ Hd]. apply (hi_dom _ Hh) in Hd as [Lt0 HLt0].
    destruct (ex_llog _ _ _ _ He _ _ HLt0) as (Lt' & E' & Hp' & Heq).
    rewrite HLt in E'. injection E' as <-. destruct Heq as [->|[Hli ->]].
    + left. right. eauto.
    + right. split; congruence.
Qed.

(** Whether a log has what was acknowledged before does not change. *)
Lemma has_ext j t m Lt' :
  acked h j t m → llog h' !! t = Some Lt' →
  ∃ Lt, llog h !! t = Some Lt ∧ ∀ l, has l Lt m ↔ has l Lt' m.
Proof using He Hacked.
  intros Hack HLt'. destruct (Hacked j t m Hack) as (Lt & HLt & Hm).
  destruct (ex_llog _ _ _ _ He _ _ HLt) as (Lt2 & E2 & Hp & _).
  rewrite HLt' in E2. injection E2 as <-.
  exists Lt. split; [done|]. intros l. by apply has_prefix.
Qed.

Lemma kept_ext' j U l :
  (∀ t m, (t < U)%Z → acked h' j t m → acked h j t m) → kept h j U l → kept h' j U l.
Proof using He Hacked.
  intros HU Hk t m Lt' Ht Hack HLt'. specialize (HU t m Ht Hack).
  destruct (has_ext j t m Lt' HU HLt') as (Lt & HLt & Hhas).
  destruct (Hk t m Lt Ht HU HLt) as [Hl|(u & I & Hu & HI & Hno)].
  - left. by apply Hhas.
  - right. exists u, I. split_and!; [lia|lia|by apply He|]. by rewrite <-Hhas.
Qed.

Lemma kept_ext j U l : (j = i → U ≤ T)%Z → kept h j U l → kept h' j U l.
Proof using He Hh Hacked.
  intros HU. apply kept_ext'. intros t m Ht Hack.
  destruct (acked_back j t m Hack) as [Hack'|[-> ->]]; [done|].
  specialize (HU eq_refl). lia.
Qed.

(** The other nodes do not notice. *)
Lemma node_inv_ext j n : j ≠ i → node_inv h j n → node_inv h' j n.
Proof using He Hh Hacked.
  intros Hj Hn. assert (Hlead : ∀ t, lead h' !! t = Some j → lead h !! t = Some j).
  { intros t Ht. by destruct (ex_lead_new _ _ _ _ He _ _ Ht) as [|[]]. }
  assert (Hvlog : ∀ t v, vlog h' !! (j, t) = Some v → vlog h !! (j, t) = Some v).
  { intros t v Hv. by destruct (ex_vlog_new _ _ _ _ He _ _ _ Hv). }
  destruct Hn. split; try done.
  - by apply log_ok_ext.
  - intros t c l Hv. eauto.
  - intros c Hc. destruct (ni_vote0 c Hc) as [l Hl]. exists l. by apply He.
  - intros Hr. destruct (ni_candidate0 Hr) as (Hv & Hsub & Hvotes & Hl & Hpos).
    split_and!; [by apply He|done| |eauto|done].
    intros k Hk. destruct (Hvotes k Hk) as [l Hv']. exists l. by apply He.
  - intros Hr. destruct (ni_leader0 Hr) as (Hl & HL & Hdom & Hm). split_and!; [by apply He| |done|].
    + destruct (ex_llog _ _ _ _ He _ _ HL) as (Lt' & E' & _ & [->|[Hl' _]]); [done|].
      rewrite Hl in Hl'. by injection Hl' as ->.
    + intros k m Hk. destruct (Hm k m Hk); [by left|right]. by apply acked_ext.
  - eauto.
  - intros t m c Hin. destruct (ex_ack_new _ _ _ _ He _ _ Hin) as [Hin'|[E _]]; [done|eauto|done].
  - by apply kept_ext.
  - by apply commit_ok_ext.
  - by apply commit_ok_ext.
Qed.

(** Messages that were true stay true. *)
Lemma msg_inv_ext to m : msg_inv h to m → msg_inv h' to m.
Proof using He.
  destruct m; cbn; try done.
  - intros (lc & e & Hv & H1 & H2 & H3). exists lc, e. split_and!; try done. by apply He.
  - intros Hm Hg. destruct (Hm Hg) as (H1 & l & Hv). split; [done|]. exists l. by apply He.
  - intros (H0 & Lt & e & H1 & H2 & H3 & H4 & H5 & H6 & H7). split; [done|].
    destruct (ex_llog _ _ _ _ He _ _ H2) as (Lt' & E' & Hp & _).
    exists Lt', e. split_and!; try done.
    + by apply He.
    + by eapply prefix_lookup_Some.
    + etrans; [exact H5|]. destruct Hp as [r ->].
      rewrite drop_app_le; [by apply prefix_app_r|]. apply lookup_lt_Some in H3. lia.
    + destruct (commit_ok_ext _ _ _ H7) as [|(t & k & L & ? & ? & ? & ? & Hhas)]; [by left|].
      right. exists t, k, L. split_and!; try done. unfold has in *. by etrans.
  - intros (H1 & H2 & Hm). split_and!; [done..|]. intros Hs. destruct (Hm Hs) as (H3 & Lt & H4 & H5).
    split; [by apply He|].
    destruct (ex_llog _ _ _ _ He _ _ H4) as (Lt' & E' & Hp & _). exists Lt'. split; [done|].
    apply prefix_length in Hp. lia.
Qed.

End growth.

(** Nothing but refusals and requests was sent. *)
Record quiet (h h' : History) : Prop := {
  qu_sent x : x ∈ sent h → x ∈ sent h';
  qu_acks c r : (c, MAppendEntriesResponse r) ∈ sent h' → ar_success r = true →
    (c, MAppendEntriesResponse r) ∈ sent h;
  qu_lead : lead h' = lead h;
  qu_elog : elog h' = elog h;
  qu_llog : llog h' = llog h;
  qu_vlog : vlog h' = vlog h;
}.

Lemma quiet_ext i T h h' : quiet h h' → ext i T h h'.
Proof using Type.
  intros [H1 H2 E1 E2 E3 E4]. split; rewrite ?E1, ?E2, ?E3, ?E4; auto.
  intros t Lt HLt. exists Lt. auto.
Qed.

Lemma quiet_acked h h' j t m : quiet h h' → acked h' j t m → acked h j t m.
Proof using Type.
  intros [H1 H2 E1 E2 E3 E4]. unfold acked. rewrite E1, E3.
  intros [(c & m' & Hm & Hin)|]; [left|by right]. eauto.
Qed.

Lemma acked_llog f h j t m :
  inv f h → acked h j t m → ∃ Lt, llog h !! t = Some Lt ∧ m < length Lt.
Proof using Type.
  intros Hi [(c & m' & Hm & Hin)|(_ & Lt & HLt & Hm)]; [|eauto].
  destruct (inv_msgs _ _ Hi _ _ Hin) as (_ & _ & Hs). destruct (Hs eq_refl) as (_ & Lt & HLt & Hl).
  cbn in *. exists Lt. split; [done|]. lia.
Qed.

(** * Preservation *)

Lemma inv_step f i n' h h' T :
  inv f h → i ∈ cluster → ext i T h h' → hist_inv h' → node_inv h' i n' →
  (∀ to m, (to, m) ∈ sent h' → (to, m) ∈ sent h ∨ msg_inv h' to m) →
  inv (<[i := n']> f) h'.
Proof using Type.
  intros Hi Hin He Hh' Hn' Hm. split; [|done|].
  - intros j Hj. destruct (decide (j = i)) as [->|Hne]; [by rewrite fn_lookup_insert|].
    rewrite fn_lookup_insert_ne by done.
    eapply node_inv_ext; [exact He|apply Hi|intros *; by apply (acked_llog f)|done|].
    by apply (inv_nodes _ _ Hi).
  - intros to m Hto. destruct (Hm to m Hto) as [Hold|]; [|done].
    eapply msg_inv_ext; [exact He|]. by apply (inv_msgs _ _ Hi).
Qed.

(** Only messages were sent. *)
Lemma hist_same f i T h h' :
  inv f h → ext i T h h' → lead h' = lead h → elog h' = elog h → llog h' = llog h →
  vlog h' = vlog h → (∀ t v, vlog h !! (i, t) = Some v → (t ≤ T)%Z) → hist_inv h'.
Proof using Type.
  intros Hi He E1 E2 E3 E4 HT.
  assert (Hk : ∀ j t c l, vlog h !! (j, t) = Some (c, l) → kept h j t l → kept h' j t l).
  { intros j t c l Hv. eapply kept_ext; [exact He|apply Hi|intros *; by apply (acked_llog f)|].
    intros ->. by eapply HT. }
  assert (Hl : ∀ l, log_ok h l → log_ok h' l) by (intros l; by eapply log_ok_ext).
  destruct (inv_hist _ _ Hi). split; rewrite ?E1, ?E2, ?E3, ?E4; try done.
  - intros t Lt HLt. destruct (hi_llog0 t Lt HLt). auto.
  - intros t I HI Ht. destruct (hi_elected0 t I HI Ht) as (c & Q & ? & ? & ? & HQ).
    exists c, Q. split_and!; try done. intros j Hj. destruct (HQ j Hj) as (l & ? & ?). eauto.
  - intros j t c l Hv. destruct (hi_vote0 j t c l Hv) as (? & ? & ?). auto.
  - intros c t l Hv. destruct (hi_self0 c t l Hv). auto.
  - intros j t c l Ht Hv. eauto.
Qed.

(** A node changes by itself. *)
Lemma inv_node f i n' h :
  inv f h → i ∈ cluster → node_inv h i n' → inv (<[i := n']> f) h.
Proof using Type.
  intros Hi Hin Hn. apply (inv_step f i n' h h 0); [done..| |apply Hi|done|auto].
  by apply quiet_ext.
Qed.

Lemma inv_eq f g h : (∀ j, f j = g j) → inv f h → inv g h.
Proof using Type. intros E []. split; try done. intros j Hj. rewrite <-E. auto. Qed.

(** A message that acknowledges nothing is sent. *)
Lemma inv_send f i h to m :
  inv f h → i ∈ cluster →
  (∀ r, m = MAppendEntriesResponse r → ar_success r = false) →
  msg_inv h to m → inv f (h <| sent := (to, m) :: sent h |>).
Proof using Type.
  intros Hi Hin Hm Hmsg. apply (inv_eq (<[i := f i]> f)).
  { intros j. destruct (decide (j = i)) as [->|]; [by rewrite fn_lookup_insert|].
    by rewrite fn_lookup_insert_ne. }
  set (h' := h <| sent := (to, m) :: sent h |>).
  assert (Hq : quiet h h').
  { split; try done; unfold h'; cbn.
    - intros x Hx. by right.
    - intros c r [[= -> E]|]%elem_of_cons; [|done]. by rewrite (Hm r). }
  pose proof (quiet_ext i (p_term (f i)) _ _ Hq) as He.
  pose proof (inv_nodes _ _ Hi i Hin) as Hn.
  apply (inv_step f i (f i) h h' (p_term (f i))); try done.
  - apply (hist_same f i (p_term (f i)) h); try done. intros t [c l] Hv. by apply Hn in Hv as [].
  - destruct Hn. split; try done.
    + intros Hr. destruct (ni_leader0 Hr) as (? & ? & ? & Hma). split_and!; [done..|].
      intros j k Hk. destruct (Hma j k Hk); [by left|right]. by eapply acked_ext.
    + intros t k c Hin'. apply (qu_acks _ _ Hq) in Hin'; [|done]. eauto.
    + eapply kept_ext'; [exact He|intros *; by apply (acked_llog f)| |done].
      intros t k _. by apply quiet_acked.
    + by eapply commit_ok_ext.
    + by eapply commit_ok_ext.
  - intros to' m'. unfold h'. cbn. rewrite elem_of_cons. intros [[= -> ->]|]; [right|by left].
    by eapply msg_inv_ext.
Qed.

(** Waiting for a later term keeps what was acknowledged. *)
Lemma kept_later f h i T T' l :
  inv f h → (T ≤ T')%Z → (∀ t m, acked h i t m → (t < T)%Z) → kept h i T l → kept h i T' l.
Proof using Type.
  intros Hi HT Hack Hk t m Lt _ Ha HLt. pose proof (Hack t m Ha).
  destruct (Hk t m Lt) as [|(u & I & Hu & ?)]; try done; [by left|].
  right. exists u, I. split; [lia|done].
Qed.

Lemma acked_term f h i t m : inv f h → i ∈ cluster → acked h i t m → (t ≤ p_term (f i))%Z.
Proof using Type.
  intros Hi Hin Ha. pose proof (inv_nodes _ _ Hi i Hin) as Hn.
  destruct Ha as [(c & m' & _ & Hm)|(Hl & _)]; [by eapply ni_acked|by eapply ni_led].
Qed.

Lemma commit_ok_later h T T' l c : (T ≤ T')%Z → commit_ok h T l c → commit_ok h T' l c.
Proof using Type.
  intros HT [->|(t & m & Lt & ? & ?)]; [by left|right].
  exists t, m, Lt. split; [lia|done].
Qed.

Lemma node_new_term f h i t :
  inv f h → i ∈ cluster → (p_term (f i) < t)%Z →
  let n := f i in
  node_inv h i
    {| p_term := t; p_vote := None; p_log := p_log n; p_role := Follower;
       p_votes := p_votes n; p_match := p_match n; p_commit := p_commit n;
       p_applied := p_applied n |}.
Proof using Type.
  intros Hi Hin Ht n. pose proof (inv_nodes _ _ Hi i Hin) as Hn. fold n in Hn, Ht.
  assert (Hk : kept h i (t + 1) (p_log n)).
  { apply (kept_later f h i (p_term n + 1)); [done|lia| |by apply Hn].
    intros t' m Ha. apply (acked_term f) in Ha; [|done..]. fold n in Ha. lia. }
  destruct Hn. split; cbn; try done.
  - lia.
  - intros e Hl. specialize (ni_terms0 e Hl). lia.
  - intros t' c l Hv. destruct (ni_voted0 t' c l Hv). split; [lia|intros ->; lia].
  - intros t' Hl. specialize (ni_led0 t' Hl). lia.
  - intros t' m c Hl. specialize (ni_acked0 t' m c Hl). lia.
  - eapply commit_ok_later; [|done]. lia.
  - eapply commit_ok_later; [|done]. lia.
Qed.

Lemma commit_ok_mono h T l c c' : c' ≤ c → commit_ok h T l c → commit_ok h T l c'.
Proof using Type.
  intros Hc [->|(t & m & Lt & Ht & Hm & Hct & HLt & Hl)]; [left; lia|right].
  exists t, m, Lt. split_and!; try done; [lia|]. by eapply has_mono.
Qed.

Lemma acked_mono h j t m m' : m' ≤ m → acked h j t m → acked h j t m'.
Proof using Type.
  intros Hm [(c & k & Hk & Hin)|(Hl & Lt & HLt & Hk)].
  - left. exists c, k. split; [lia|done].
  - right. split; [done|]. exists Lt. split; [done|lia].
Qed.

(** The entry that a leader finds on a quorum is committed. *)
Lemma node_advance f h i index e :
  inv f h → i ∈ cluster → p_role (f i) = Leader → p_log (f i) !! index = Some e →
  term e = p_term (f i) →
  size cluster <
    2 * (length (filter (λ p, index ≤ p.2) (map_to_list (p_match (f i)))) + 1) →
  commit_ok h (p_term (f i)) (p_log (f i)) index.
Proof using Hsentinel.
  intros Hi Hin Hr He Ht Hq. pose proof (inv_nodes _ _ Hi i Hin) as Hn.
  destruct (decide (index = 0)) as [->|H0]; [by left|right].
  destruct (ni_leader _ _ _ Hn Hr) as (Hlead & Hllog & Hdom & Hack).
  set (fm := filter (λ p, index ≤ p.2) (p_match (f i))).
  set (Q := {[ i ]} ∪ dom fm).
  assert (Hsub : dom fm ⊆ cluster ∖ {[ i ]}).
  { etrans; [|exact Hdom]. apply dom_filter_subseteq. }
  assert (Hlen : length (filter (λ p, index ≤ p.2) (map_to_list (p_match (f i)))) = size (dom fm)).
  { rewrite size_dom. unfold fm. rewrite map_filter_alt, map_size_list_to_map; [done|].
    eapply sublist_NoDup; [apply (NoDup_fst_map_to_list (p_match (f i)))|]. apply fmap_sublist, sublist_filter. }
  assert (HQ : quorum Q).
  { split; [set_solver|]. unfold Q. rewrite size_union by set_solver.
    rewrite size_singleton. rewrite Hlen in Hq. lia. }
  exists (p_term (f i)), index, (p_log (f i)). split_and!; try done.
  - exists Q, (p_log (f i)), e. split_and!; try done.
    intros j [->%elem_of_singleton|Hj]%elem_of_union.
    + right. split; [done|]. exists (p_log (f i)). split; [done|]. by eapply lookup_lt_Some.
    + apply elem_of_dom in Hj as [m Hm]. unfold fm in Hm.
      apply map_lookup_filter_Some in Hm as [Hm Hle]. cbn in Hle.
      destruct (Hack j m Hm) as [->|Ha]; [lia|]. by eapply acked_mono.
  - unfold has. exists (drop (S index) (p_log (f i))). by rewrite take_drop.
Qed.

(** The steps of a node that change nothing but its own state. *)
Lemma node_follow h i n votes m :
  node_inv h i n →
  node_inv h i (n <| p_role := Follower |> <| p_votes := votes |> <| p_match := m |>).
Proof using Hsentinel. intros [] ; by split. Qed.

Lemma node_count_vote f h i m :
  inv f h → i ∈ cluster → (i, MRequestVoteResponse m) ∈ sent h → vr_term m = p_term (f i) →
  vr_vote_granted m = true →
  node_inv h i ((f i) <| p_votes := {[ vr_voter_id m ]} ∪ p_votes (f i) |>).
Proof using Hsentinel.
  intros Hi Hin Hm Ht Hg. pose proof (inv_nodes _ _ Hi i Hin) as [].
  destruct (inv_msgs _ _ Hi _ _ Hm Hg) as (Hc & l & Hv). split; try done.
  cbn. intros Hr. destruct (ni_candidate0 Hr) as (? & ? & Hvotes & ?).
  split_and!; [done|set_solver| |by destruct_and!..].
  intros j [->%elem_of_singleton|]%elem_of_union; [|auto]. rewrite <-Ht. eauto.
Qed.

Lemma node_count_ack f h i m :
  inv f h → i ∈ cluster → (i, MAppendEntriesResponse m) ∈ sent h → ar_term m = p_term (f i) →
  ar_success m = true → p_role (f i) = Leader →
  node_inv h i
    ((f i) <| p_match := <[ar_follower_id m := ar_match_index m]> (p_match (f i)) |>).
Proof using Hsentinel.
  intros Hi Hin Hm Ht Hs Hr. pose proof (inv_nodes _ _ Hi i Hin) as [].
  destruct (inv_msgs _ _ Hi _ _ Hm) as (Hc & Hne & _). split; try done.
  cbn. intros _. destruct (ni_leader0 Hr) as (? & ? & Hdom & Hack). split_and!; [done..| |].
  - rewrite dom_insert. set_solver.
  - intros j k. rewrite lookup_insert_Some. intros [[<- <-]|[_ Hk]]; [right|eauto].
    left. exists i, (ar_match_index m). split; [done|]. rewrite <-Ht. destruct m; cbn in *.
    by subst.
Qed.

Lemma node_apply h i n :
  p_applied n < p_commit n → node_inv h i n →
  node_inv h i (n <| p_applied := S (p_applied n) |>).
Proof using Hsentinel.
  intros Hlt []. split; try done. by eapply commit_ok_mono; [|exact ni_commit0].
Qed.

Lemma node_commit h i n c :
  commit_ok h (p_term n) (p_log n) c → node_inv h i n → node_inv h i (n <| p_commit := c |>).
Proof using Hsentinel. intros Hc []. by split. Qed.

(** ** Votes *)

(** A node votes for [c] in term [t], which it did not vote in before. *)
Lemma vote_ext i T h t v :
  vlog h !! (i, t) = None → ext i T h (h <| vlog := <[(i, t) := v]> (vlog h) |>).
Proof using Type.
  intros Hv. split; cbn; try (by auto).
  - intros t' Lt HLt. exists Lt. auto.
  - intros k v' Hk. rewrite lookup_insert_ne; [done|congruence].
  - intros j t' v' [[[= <- <-] _]|[_ ?]]%lookup_insert_Some; auto.
Qed.

Lemma hist_vote f h i t c l lc :
  inv f h → vlog h !! (i, t) = None → (0 < t)%Z → log_ok h l →
  (c = i ∧ l = lc ∧ (∀ e, e ∈ l → (term e < t)%Z) ∨
   c ≠ i ∧ vlog h !! (c, t) = Some (c, lc)) →
  uptodate lc l → (elog h !! t = None → kept h i t l) →
  hist_inv (h <| vlog := <[(i, t) := (c, l)]> (vlog h) |>).
Proof using Type.
  intros Hi Hnone Ht Hl Hc Hup Hk.
  assert (Hold : ∀ k v, vlog h !! k = Some v → <[(i, t) := (c, l)]> (vlog h) !! k = Some v).
  { intros k v Hv. rewrite lookup_insert_ne; [done|congruence]. }
  destruct (inv_hist _ _ Hi). split; cbn; try done.
  - intros t' I HI Ht'. destruct (hi_elected0 t' I HI Ht') as (c' & Q & ? & ? & ? & HQ).
    exists c', Q. split_and!; [done..|by apply Hold|].
    intros j Hj. destruct (HQ j Hj) as (l' & ? & ?). exists l'. split; [by apply Hold|done].
  - intros j t' c' l' [[[= <- <-] [= <- <-]]|[_ Hv]]%lookup_insert_Some.
    + split_and!; [done..|]. exists lc. split; [|done].
      destruct Hc as [(-> & -> & _)|(_ & Hv)]; [by rewrite lookup_insert_eq|by apply Hold].
    + destruct (hi_vote0 j t' c' l' Hv) as (? & ? & lc' & ? & ?). split_and!; [done..|].
      exists lc'. split; [by apply Hold|done].
  - intros c' t' l' [[[= <- <-] [= -> <-]]|[_ Hv]]%lookup_insert_Some; [|by eapply hi_self0].
    destruct Hc as [(_ & -> & Hlt)|[]]; [|done]. done.
  - intros j t' c' l' He [[[= <- <-] [= <- <-]]|[_ Hv]]%lookup_insert_Some; [auto|].
    by eapply hi_voting0.
Qed.

Lemma uptodate_refl l a : last l = Some a → uptodate l l.
Proof using Type. intros Ha. exists a, a. auto. Qed.

Lemma sentinel_last (l : list LogEntry) a : l !! 0 = Some a → ∃ b, last l = Some b.
Proof using Type. intros Ha. apply last_is_Some. by intros ->. Qed.

Lemma inv_campaign f h i :
  inv f h → i ∈ cluster →
  inv (<[i := {| p_term := p_term (f i) + 1; p_vote := Some i; p_log := p_log (f i);
           p_role := Candidate; p_votes := {[ i ]}; p_match := p_match (f i);
           p_commit := p_commit (f i); p_applied := p_applied (f i) |}]> f)
    (h <| vlog := <[(i, (p_term (f i) + 1)%Z) := (i, p_log (f i))]> (vlog h) |>).
Proof using Hsentinel.
  intros Hi Hin. pose proof (inv_nodes _ _ Hi i Hin) as Hn.
  set (t := (p_term (f i) + 1)%Z).
  assert (Hnone : vlog h !! (i, t) = None).
  { apply eq_None_not_Some. intros [[c l] Hv]. apply Hn in Hv as []. lia. }
  pose proof (ni_term _ _ _ Hn) as Ht0.
  destruct (sentinel_last _ _ (ni_sentinel _ _ _ Hn)) as [b Hb].
  apply (inv_step f i _ h _ t); [done..|by apply vote_ext| | |auto].
  - apply (hist_vote f h i t i _ (p_log (f i))); [done..|lia|by apply Hn| | |].
    + left. split_and!; [done..|]. intros e He. apply Hn in He. lia.
    + by eapply uptodate_refl.
    + intros _. by apply Hn.
  - pose proof (node_new_term f h i t Hi Hin ltac:(lia)) as Hn'. cbn in Hn'.
    destruct Hn'. split; cbn; try done.
    + intros t' c l [[[= <-] [= <- <-]]|[_ Hv]]%lookup_insert_Some; [done|].
      destruct (ni_voted0 t' c l Hv). cbn in *. split; [done|]. intros ->. congruence.
    + intros c [= <-]. exists (p_log (f i)). by rewrite lookup_insert_eq.
    + intros _. split_and!; [by rewrite lookup_insert_eq|set_solver| | |lia].
      * intros j ->%elem_of_singleton. exists (p_log (f i)). by rewrite lookup_insert_eq.
      * intros Hl. apply (ni_led _ _ _ Hn) in Hl. lia.
Qed.

Lemma inv_grant f h i m e :
  inv f h → i ∈ cluster → (i, MRequestVote m) ∈ sent h → rv_term m = p_term (f i) →
  (p_vote (f i) = None ∨ p_vote (f i) = Some (rv_candidate_id m)) →
  last (p_log (f i)) = Some e →
  ((term e < rv_last_log_term m)%Z ∨
   rv_last_log_term m = term e ∧ length (p_log (f i)) - 1 ≤ rv_last_log_index m) →
  inv (<[i := (f i) <| p_vote := Some (rv_candidate_id m) |>]> f)
    (h <| vlog := match vlog h !! (i, p_term (f i)) with
                  | Some _ => vlog h
                  | None => <[(i, p_term (f i)) := (rv_candidate_id m, p_log (f i))]> (vlog h)
                  end |>).
Proof using Hsentinel.
  intros Hi Hin Hm Ht Hvote He Hup. pose proof (inv_nodes _ _ Hi i Hin) as Hn.
  destruct (inv_msgs _ _ Hi _ _ Hm) as (lc & a & Hvc & Hidx & Ha & Hterm).
  rewrite Ht in Hvc. destruct (vlog h !! (i, p_term (f i))) as [[c l]|] eqn:Hv.
  - destruct (ni_voted _ _ _ Hn _ _ _ Hv) as [_ Hc]. specialize (Hc eq_refl).
    assert (c = rv_candidate_id m) as -> by (destruct Hvote; congruence).
    apply (inv_eq f); [|by destruct h].
    intros j. destruct (decide (j = i)) as [->|]; [|by rewrite fn_lookup_insert_ne].
    rewrite fn_lookup_insert. destruct (f i). cbn in *. by subst.
  - destruct (hi_vote _ (inv_hist _ _ Hi) _ _ _ _ Hvc) as (Hpos & _).
    apply (inv_step f i _ h _ 0); [done..|by apply vote_ext| | |auto].
    + apply (hist_vote f h i _ _ _ lc); [done..|by apply Hn| | |].
      * right. split; [|done]. intros E. rewrite E in Hvc. congruence.
      * exists a, e. split_and!; [done..|]. rewrite <-Hterm.
        destruct Hup as [|[? Hlen]]; [by left|right]. split; [done|].
        apply last_Some_elem_of, list_elem_of_lookup in Ha as [k Ha].
        apply lookup_lt_Some in Ha. lia.
      * intros Hnone t' m' Lt Hlt Hack HLt.
        destruct (ni_kept _ _ _ Hn t' m' Lt ltac:(lia) Hack HLt) as [|(u & I & ? & HI & ?)];
          [by left|right].
        exists u, I. split_and!; try done; [lia|]. destruct (decide (u = p_term (f i))); [|lia].
        subst. congruence.
    + destruct Hn. split; cbn; try done.
      * intros t' c l [[[= <-] [= <- <-]]|[_ Hv']]%lookup_insert_Some; [done|].
        destruct (ni_voted0 t' c l Hv'). split; [done|]. intros ->. congruence.
      * intros c [= <-]. exists (p_log (f i)). by rewrite lookup_insert_eq.
      * intros Hr. destruct (ni_candidate0 Hr) as [? _]. congruence.
Qed.

(** ** Elections *)

(** Nobody else was elected in the term of a candidate with a quorum. *)
Lemma no_leader_yet f h i :
  inv f h → i ∈ cluster → p_role (f i) = Candidate → size cluster < 2 * size (p_votes (f i)) →
  elog h !! p_term (f i) = None ∧ llog h !! p_term (f i) = None ∧ lead h !! p_term (f i) = None.
Proof using Hsentinel.
  intros Hi Hin Hr Hq. pose proof (inv_nodes _ _ Hi i Hin) as Hn.
  destruct (ni_candidate _ _ _ Hn Hr) as (_ & Hsub & Hvotes & Hlead & Hpos).
  pose proof (inv_hist _ _ Hi) as Hh.
  assert (Hnone : elog h !! p_term (f i) = None).
  { apply eq_None_not_Some. intros [I HI].
    destruct (hi_elected _ Hh _ _ HI Hpos) as (c & Q & Hl & HQ & _ & HQv).
    destruct (quorum_meet Q (p_votes (f i)) HQ ltac:(by split)) as (j & Hj & Hj').
    destruct (HQv j Hj) as (l & Hv & _). destruct (Hvotes j Hj') as [l' Hv']. congruence. }
  split_and!; [done| |].
  - apply eq_None_not_Some. intros HL. apply (hi_dom _ Hh) in HL as [? ?]. congruence.
  - apply eq_None_not_Some. intros [c Hc]. destruct (hi_lead _ Hh _ _ Hc) as [_ [? ?]]. congruence.
Qed.

(** The history after node [i] is elected in term [t] with the log [l]. *)
Definition elected (h : History) (i : NodeId) (t : Z) (l : list LogEntry) : History :=
  h <| lead := <[t := i]> (lead h) |> <| elog := <[t := l]> (elog h) |>
    <| llog := <[t := l]> (llog h) |>.

Lemma elected_ext h i t l :
  elog h !! t = None → llog h !! t = None → lead h !! t = None → ext i t h (elected h i t l).
Proof using Type.
  intros E1 E2 E3. split; cbn; try (by auto).
  - intros t' c Hc. rewrite lookup_insert_ne; [done|congruence].
  - intros t' c Hc. rewrite lookup_insert_ne; [done|congruence].
  - intros t' Lt HLt. exists Lt. rewrite lookup_insert_ne by congruence. auto.
  - intros t' j [[<- <-]|[_ ?]]%lookup_insert_Some; auto.
  - intros t' j [[<- <-]|[_ ?]]%lookup_insert_Some; auto.
Qed.

Lemma hist_elected f h i :
  inv f h → i ∈ cluster → p_role (f i) = Candidate → size cluster < 2 * size (p_votes (f i)) →
  hist_inv (elected h i (p_term (f i)) (p_log (f i))).
Proof using Hsentinel.
  intros Hi Hin Hr Hq. pose proof (inv_nodes _ _ Hi i Hin) as Hn.
  destruct (no_leader_yet f h i Hi Hin Hr Hq) as (E1 & E2 & E3).
  pose proof (elected_ext h i _ (p_log (f i)) E1 E2 E3) as He.
  destruct (ni_candidate _ _ _ Hn Hr) as (Hself & Hsub & Hvotes & _ & Hpos).
  set (t := p_term (f i)) in *. set (h' := elected _ _ _ _).
  assert (Hk : ∀ j t' c l, vlog h !! (j, t') = Some (c, l) → kept h j t' l → kept h' j t' l).
  { intros j t' c l Hv. eapply kept_ext; [exact He|apply Hi|intros *; by apply (acked_llog f)|].
    intros ->. by apply Hn in Hv as []. }
  assert (Hlk : ∀ l, log_ok h l → log_ok h' l) by (intros l; by eapply log_ok_ext).
  destruct (inv_hist _ _ Hi). split; cbn.
  - rewrite !lookup_insert_ne by lia. done.
  - intros t' [<-|[_ H]]%lookup_insert_is_Some; [lia|auto].
  - intros t'. by rewrite !lookup_insert_is_Some, hi_dom0.
  - intros t' I Lt [[<- <-]|[Hne HI]]%lookup_insert_Some [[? <-]|[? HLt]]%lookup_insert_Some;
      try done; [|by apply hi_elog0].
    split_and!; [done| |].
    + intros _. by apply (hi_self0 _ _ _ Hself).
    + intros k e Hk' He'. apply lookup_lt_Some in He'. lia.
  - intros t' Lt [[<- <-]|[_ HLt]]%lookup_insert_Some.
    + split; [by apply Hlk, Hn|by apply Hn].
    + destruct (hi_llog0 _ _ HLt). auto.
  - intros t' c [[<- <-]|[Hne Hc]]%lookup_insert_Some; [by rewrite lookup_insert_eq|].
    rewrite lookup_insert_ne by done. auto.
  - intros t' I [[<- <-]|[Hne HI]]%lookup_insert_Some Ht'.
    + exists i, (p_votes (f i)). rewrite lookup_insert_eq. split_and!; [done|by split|done|].
      intros j Hj. destruct (Hvotes j Hj) as [l Hl]. exists l. eauto.
    + destruct (hi_elected0 t' I HI Ht') as (c & Q & ? & ? & ? & HQ).
      exists c, Q. rewrite lookup_insert_ne by done. split_and!; [done..|].
      intros j Hj. destruct (HQ j Hj) as (l & ? & ?). eauto.
  - intros j t' c l Hv. destruct (hi_vote0 j t' c l Hv) as (? & ? & ?). auto.
  - intros c t' l Hv. destruct (hi_self0 c t' l Hv). auto.
  - intros j t' c l [? _]%lookup_insert_None Hv. eauto.
Qed.

(** Node [i] keeps what it acknowledged, if that holds for term [T] itself. *)
Lemma kept_self f h h' i T l :
  inv f h → ext i T h h' →
  (∀ m Lt, acked h' i T m → llog h' !! T = Some Lt → has l Lt m) →
  kept h i (T + 1) l → kept h' i (T + 1) l.
Proof using Hsentinel.
  intros Hi He HT Hk t m Lt Ht Hack HLt.
  destruct (decide (t = T)) as [->|Hne]; [left; eauto|].
  destruct (acked_back He (inv_hist _ _ Hi) _ _ _ Hack) as [Hack'|[_ ?]]; [|done].
  destruct (has_ext He (λ j t m, acked_llog f h j t m Hi) _ _ _ _ Hack' HLt)
    as (Lt0 & HLt0 & Hhas).
  destruct (Hk t m Lt0 Ht Hack' HLt0) as [|(u & I & ? & HI & Hno)]; [left; by apply Hhas|right].
  exists u, I. split_and!; [lia|lia|by apply He|]. by rewrite <-Hhas.
Qed.

Lemma inv_win f h i :
  inv f h → i ∈ cluster → p_role (f i) = Candidate → size cluster < 2 * size (p_votes (f i)) →
  inv (<[i := (f i) <| p_role := Leader |>
                    <| p_match := gset_to_gmap 0 (cluster ∖ {[ i ]}) |>]> f)
    (elected h i (p_term (f i)) (p_log (f i))).
Proof using Hsentinel.
  intros Hi Hin Hr Hq. pose proof (inv_nodes _ _ Hi i Hin) as Hn.
  destruct (no_leader_yet f h i Hi Hin Hr Hq) as (E1 & E2 & E3).
  pose proof (elected_ext h i _ (p_log (f i)) E1 E2 E3) as He.
  apply (inv_step f i _ h _ (p_term (f i))); [done..|by apply hist_elected| |auto].
  destruct Hn. split; cbn; try done.
  - by eapply log_ok_ext.
  - intros _. rewrite !lookup_insert_eq, dom_gset_to_gmap. split_and!; [done..|].
    intros j m [_ <-]%lookup_gset_to_gmap_Some. by left.
  - intros t [[<- _]|[_ Hl]]%lookup_insert_Some; [done|auto].
  - eapply kept_self; [done|exact He| |done]. cbn.
    intros m Lt _. rewrite lookup_insert_eq. intros [= <-].
    unfold has. exists (drop (S m) (p_log (f i))). by rewrite take_drop.
  - by eapply commit_ok_ext.
  - by eapply commit_ok_ext.
Qed.

(** ** Entries *)

Lemma has_longer l l' Lt m : has l Lt m → l `prefix_of` l' → has l' Lt m.
Proof using Type. unfold has. intros. by etrans. Qed.

Lemma commit_ok_longer h T l l' c : l `prefix_of` l' → commit_ok h T l c → commit_ok h T l' c.
Proof using Type.
  intros Hl [->|(t & m & Lt & ? & ? & ? & ? & Hhas)]; [by left|right].
  exists t, m, Lt. split_and!; try done. by eapply has_longer.
Qed.

Lemma has_self l m : has l l m.
Proof using Type. unfold has. exists (drop (S m) l). by rewrite take_drop. Qed.

(** A log that has what another one has up to [m] can stand for it. *)
Lemma has_swap Lt Lt0 m : has Lt Lt0 m → m < length Lt0 → ∀ l, has l Lt m ↔ has l Lt0 m.
Proof using Type.
  intros [r E] Hm l. unfold has.
  enough (take (S m) Lt = take (S m) Lt0) as -> by done.
  rewrite E, take_app_le by (rewrite length_take; lia). by rewrite take_take, Nat.min_id.
Qed.

(** What the history says after the leader of term [t] has appended [e]. *)
Lemma hist_append h t l0 e :
  hist_inv h → llog h !! t = Some l0 → (0 < t)%Z → term e = t → l0 !! 0 = Some sentinel →
  let l := l0 ++ [e] in let h' := h <| llog := <[t := l]> (llog h) |> in
  log_ok h' l → (∀ l', log_ok h l' → log_ok h' l') →
  (∀ j t' c l', vlog h !! (j, t') = Some (c, l') → kept h j t' l' → kept h' j t' l') →
  hist_inv h'.
Proof using Type.
  intros Hh Hllog Hpos Ht Hs0 l h' Hlok Hlk Hk.
  pose proof (elem_of_dom_2 (llog h) _ _ Hllog) as Hdom. destruct Hh. unfold h'. split; cbn; try done.
  - by rewrite lookup_insert_ne by lia.
  - intros t' [<-|[_ ?]]%lookup_insert_is_Some; eauto.
  - intros t'. rewrite lookup_insert_is_Some, <-hi_dom0. split; [|destruct (decide (t = t')); auto].
    intros [<-|[_ ?]]; eauto.
  - intros t' I Lt HI [[<- <-]|[_ HLt]]%lookup_insert_Some; [|by apply hi_elog0].
    destruct (hi_elog0 _ _ _ HI Hllog) as (HpI & Hlt & Heq).
    split_and!; [etrans; [exact HpI|by exists [e]]|done|].
    intros k e' Hk' [Hk''|[_ Hke]]%lookup_app_Some; [eauto|].
    by apply list_lookup_singleton_Some in Hke as [_ <-].
  - intros t' Lt [[<- <-]|[_ HLt]]%lookup_insert_Some.
    + split; [done|]. unfold l. by apply lookup_app_l_Some.
    + destruct (hi_llog0 t' Lt HLt). auto.
  - intros t' I HI Ht'. destruct (hi_elected0 t' I HI Ht') as (c & Q & ? & ? & ? & HQ).
    exists c, Q. split_and!; try done. intros j Hj. destruct (HQ j Hj) as (l' & ? & ?). eauto.
  - intros j t' c l' Hv. destruct (hi_vote0 j t' c l' Hv) as (? & ? & ?). auto.
  - intros c t' l' Hv. destruct (hi_self0 c t' l' Hv). auto.
  - eauto.
Qed.

Lemma inv_append f h i e :
  inv f h → i ∈ cluster → p_role (f i) = Leader → term e = p_term (f i) →
  inv (<[i := (f i) <| p_log := p_log (f i) ++ [e] |>]> f)
    (h <| llog := <[p_term (f i) := p_log (f i) ++ [e]]> (llog h) |>).
Proof using Hsentinel.
  intros Hi Hin Hr Ht. pose proof (inv_nodes _ _ Hi i Hin) as Hn.
  destruct (ni_leader _ _ _ Hn Hr) as (Hlead & Hllog & _).
  set (t := p_term (f i)) in *. set (l := p_log (f i) ++ [e]).
  set (h' := h <| llog := <[t := l]> (llog h) |>).
  assert (Hp : p_log (f i) `prefix_of` l) by by exists [e].
  assert (He : ext i t h h').
  { split; unfold h'; cbn; try (by auto). intros t' Lt HLt.
    destruct (decide (t' = t)) as [->|]; [|exists Lt; rewrite lookup_insert_ne by done; auto].
    rewrite Hllog in HLt. injection HLt as <-. exists l. rewrite lookup_insert_eq. auto. }
  assert (Hlok : log_ok h' l).
  { intros k e' [Hk|[Hk Hke]]%lookup_app_Some.
    - destruct (log_ok_ext He _ (ni_log _ _ _ Hn) k e' Hk) as (Lt & ? & ?). exists Lt.
      split; [done|]. apply lookup_lt_Some in Hk. unfold l. by rewrite take_app_le by lia.
    - apply list_lookup_singleton_Some in Hke as [Hk0 <-]. exists l. rewrite Ht.
      split; [by apply lookup_insert_eq|]. apply has_self. }
  assert (Hlk : ∀ l', log_ok h l' → log_ok h' l') by (intros l'; by eapply log_ok_ext).
  assert (Hk : ∀ j t' c l', vlog h !! (j, t') = Some (c, l') → kept h j t' l' → kept h' j t' l').
  { intros j t' c l' Hv. eapply kept_ext; [exact He|apply Hi|intros *; by apply (acked_llog f)|].
    intros ->. by apply Hn in Hv as []. }
  pose proof (ni_sentinel _ _ _ Hn) as Hs0.
  apply (inv_step f i _ h _ t); [done..| | |auto].
  - apply (hist_append h t (p_log (f i)) e); try done; [apply Hi|].
    destruct (decide (t = 0%Z)) as [E|]; [|pose proof (ni_term _ _ _ Hn); fold t in H; lia].
    destruct (inv_hist _ _ Hi) as [(_ & _ & ?)]. rewrite E in Hlead. congruence.
  - destruct Hn. split; cbn; try done.
    + unfold l. by apply lookup_app_l_Some.
    + intros e' [He'|He'%list_elem_of_singleton]%elem_of_app; [auto|subst e']. fold t. lia.
    + intros Hc. congruence.
    + intros _. destruct (ni_leader0 Hr) as (? & ? & ? & Hm).
      split_and!; [done|apply lookup_insert_eq|done|].
      intros j m Hj. destruct (Hm j m Hj); [by left|right]. by eapply acked_ext.
    + eapply kept_self; [done|exact He| |].
      * unfold h'. cbn. intros m Lt _. rewrite lookup_insert_eq. intros [= <-]. apply has_self.
      * intros t' m Lt Ht' Hack HLt. destruct (ni_kept0 t' m Lt Ht' Hack HLt); [left|by right].
        by eapply has_longer.
    + eapply commit_ok_longer, commit_ok_ext; done.
    + eapply commit_ok_longer, commit_ok_ext; done.
Qed.

Lemma take_S_lookup (l l' : list LogEntry) k e :
  take k l = take k l' → l !! k = Some e → l' !! k = Some e → take (S k) l = take (S k) l'.
Proof using Type. intros E H H'. by rewrite (take_S_r _ _ e), (take_S_r l' _ e), E by done. Qed.

(** At the end of the log every entry is appended. *)
Lemma merge_log_end l es : merge_log l (length l) es = l ++ es.
Proof using Type.
  revert l. induction es as [|e es IH]; intros l; cbn [merge_log]; [by rewrite app_nil_r|].
  rewrite lookup_ge_None_2 by done.
  replace (S (length l)) with (length (l ++ [e])) by (rewrite length_app; cbn; lia).
  by rewrite IH, <-app_assoc.
Qed.

Lemma take_piece (Lt es : list LogEntry) k :
  es `prefix_of` drop k Lt → take k Lt ++ es = take (k + length es) Lt.
Proof using Type.
  intros [r Hr]. rewrite <-(take_drop k Lt) at 2. rewrite Hr.
  destruct (decide (k ≤ length Lt)).
  - rewrite take_app, length_take, Nat.min_l, take_take, Nat.min_r by lia.
    replace (k + length es - k) with (length es) by lia. by rewrite take_app_length.
  - rewrite drop_ge in Hr by lia. destruct es, r; try done. cbn.
    rewrite Nat.add_0_r, !app_nil_r. by rewrite take_take, Nat.min_id.
Qed.

(** Matching a piece of the leader's log against a log that agrees with it up
    to the piece: the log stays if it has the piece, and otherwise becomes the
    leader's up to the end of the piece. *)
Lemma merge_log_spec h l Lt k es :
  log_ok h l → log_ok h Lt → k ≤ length l → take k l = take k Lt →
  es `prefix_of` drop k Lt →
  merge_log l k es = l ∧ take (k + length es) Lt `prefix_of` l ∨
  merge_log l k es = take (k + length es) Lt ∧ ¬ take (k + length es) Lt `prefix_of` l.
Proof using Type.
  revert l k. induction es as [|e es IH]; intros l k Hl HLt Hk Htk Hes; cbn [merge_log length].
  { left. rewrite Nat.add_0_r. split; [done|]. rewrite <-Htk. exists (drop k l).
    by rewrite take_drop. }
  assert (He : Lt !! k = Some e).
  { rewrite <-(Nat.add_0_r k), <-lookup_drop. by eapply prefix_lookup_Some; [|exact Hes]. }
  assert (Hes' : es `prefix_of` drop (S k) Lt).
  { rewrite (drop_S _ e) in Hes by done. by apply prefix_cons_inv_2 in Hes. }
  assert (Hkl : k < length Lt) by (by eapply lookup_lt_Some).
  assert (Hke : take (k + S (length es)) Lt !! k = Some e) by (by rewrite lookup_take_lt by lia).
  assert (Hend : merge_log (take k l ++ [e]) (S k) es = take (k + S (length es)) Lt).
  { replace (S k) with (length (take k l ++ [e]))
      by (rewrite length_app, length_take; cbn; lia).
    rewrite merge_log_end, <-app_assoc, Htk. by apply (take_piece Lt (e :: es)). }
  destruct (l !! k) as [e0|] eqn:Hk0.
  - destruct (decide (term e0 ≠ term e)) as [Hne|Heq].
    + right. split; [done|]. intros Hp. apply Hne.
      pose proof (prefix_lookup_Some _ _ _ _ Hke Hp). congruence.
    + apply dec_stable in Heq. replace (k + S (length es)) with (S k + length es) by lia.
      apply IH; [done..| | |done].
      * apply lookup_lt_Some in Hk0. lia.
      * by eapply log_ok_match.
  - apply lookup_ge_None in Hk0. rewrite (take_ge l) in Hend by lia.
    right. split; [done|]. intros Hp. pose proof (prefix_lookup_Some _ _ _ _ Hke Hp) as H.
    apply lookup_lt_Some in H. lia.
Qed.

(** What a follower's log becomes, in terms of the leader's log. *)
Lemma accept_log f h i m e :
  inv f h → i ∈ cluster → (i, MAppendEntries m) ∈ sent h → ae_term m = p_term (f i) →
  p_log (f i) !! ae_prev_log_index m = Some e → term e = ae_prev_log_term m →
  let log' := merge_log (p_log (f i)) (S (ae_prev_log_index m)) (ae_entries m) in
  ∃ Lt, lead h !! p_term (f i) = Some (ae_leader_id m) ∧ ae_leader_id m ≠ i ∧
    llog h !! p_term (f i) = Some Lt ∧
    log_ok h log' ∧ log' !! 0 = Some sentinel ∧
    ae_prev_log_index m + length (ae_entries m) < length Lt ∧
    ae_leader_commit m ≤ ae_prev_log_index m + length (ae_entries m) ∧
    commit_ok h (p_term (f i)) Lt (ae_leader_commit m) ∧
    has log' Lt (ae_prev_log_index m + length (ae_entries m)) ∧
    (log' = p_log (f i) ∨ log' `prefix_of` Lt ∧ ∀ k, has (p_log (f i)) Lt k → has log' Lt k).
Proof using Hsentinel.
  intros Hi Hin Hm Ht He Hpt log'. pose proof (inv_nodes _ _ Hi i Hin) as Hn.
  destruct (inv_msgs _ _ Hi _ _ Hm) as (Hne & Lt & e' & Hlead & HLt & He' & Hpt' & Hes & Hc & Hcok).
  rewrite Ht in *. set (prev := ae_prev_log_index m) in *. set (es := ae_entries m) in *.
  destruct (hi_llog _ (inv_hist _ _ Hi) _ _ HLt) as [HLtok HLt0].
  pose proof (lookup_lt_Some _ _ _ He). pose proof (lookup_lt_Some _ _ _ He').
  assert (Htk : take (S prev) (p_log (f i)) = take (S prev) Lt).
  { eapply log_ok_match; [apply Hn|exact HLtok|done|done|congruence]. }
  pose proof (prefix_length _ _ Hes) as Hlen. rewrite length_drop in Hlen.
  exists Lt. split_and!; try done; [| |lia|lia| |].
  all: destruct (merge_log_spec h (p_log (f i)) Lt (S prev) es) as [[E Hp]|[E Hp]];
    [apply Hn|done|lia|done|done| |]; fold log' in E; rewrite E.
  - apply Hn.
  - eapply log_ok_prefix; [exact HLtok|]. apply (has_self Lt).
  - apply Hn.
  - by rewrite lookup_take_lt by lia.
  - done.
  - unfold has. done.
  - by left.
  - right. split; [apply (has_self Lt)|]. intros k Hk. unfold has.
    destruct (decide (S prev + length es ≤ S k)) as [Hle|].
    + destruct Hp. apply (has_mono _ _ k (prev + length es)) in Hk; [done|lia].
    + exists (drop (S k) (take (S prev + length es) Lt)).
      rewrite <-(take_drop (S k) (take (S prev + length es) Lt)) at 1. f_equal.
      rewrite take_take. f_equal. lia.
Qed.

Lemma has_take l Lt m : has l Lt m → m < length Lt → take (S m) l = take (S m) Lt.
Proof using Type.
  intros [r ->] Hm. rewrite take_app_le by (rewrite length_take; lia).
  by rewrite take_take, Nat.min_id.
Qed.

(** Accepting entries does not change what was applied. *)
Lemma accept_applied f h i m e :
  inv f h → i ∈ cluster → (i, MAppendEntries m) ∈ sent h → ae_term m = p_term (f i) →
  p_log (f i) !! ae_prev_log_index m = Some e → term e = ae_prev_log_term m →
  take (S (p_applied (f i)))
    (merge_log (p_log (f i)) (S (ae_prev_log_index m)) (ae_entries m)) =
  take (S (p_applied (f i))) (p_log (f i)).
Proof using Hsentinel.
  intros Hi Hin Hm Ht Hprev Hpt. pose proof (inv_nodes _ _ Hi i Hin) as Hn.
  destruct (accept_log f h i m e Hi Hin Hm Ht Hprev Hpt)
    as (Lt & _ & _ & HLt & _ & H0 & _ & _ & _ & _ & Hl').
  set (log' := merge_log _ _ _) in *. destruct Hl' as [->|[_ Hhas]]; [done|].
  destruct (ni_applied _ _ _ Hn) as [->|(t & k & Lt0 & Htt & Hk & Hct & HLt0 & Hl)].
  { pose proof (ni_sentinel _ _ _ Hn) as Hs.
    rewrite (take_S_r _ 0 _ H0), (take_S_r _ 0 _ Hs). done. }
  pose proof (leader_has h (inv_hist _ _ Hi) t k Lt0 _ Lt Hct HLt0 Htt HLt) as Hall.
  pose proof (committed_lt h t k Lt0 Hct HLt0).
  pose proof (has_mono _ _ _ _ Hall Hk) as Hall'.
  apply (has_swap Lt Lt0 _ Hall' ltac:(lia)) in Hl. apply Hhas in Hl as Hl2.
  assert (p_applied (f i) < length Lt).
  { apply prefix_length in Hall'. rewrite length_take in Hall'. lia. }
  by rewrite (has_take _ _ _ Hl), (has_take _ _ _ Hl2) by done.
Qed.

(** What was acknowledged before is not lost when the leader's log is accepted. *)
Lemma kept_accept f h i l' Lt :
  inv f h → i ∈ cluster → llog h !! p_term (f i) = Some Lt →
  (l' = p_log (f i) ∨ l' `prefix_of` Lt ∧ ∀ k, has (p_log (f i)) Lt k → has l' Lt k) →
  kept h i (p_term (f i) + 1) l'.
Proof using Hsentinel.
  intros Hi Hin HLt Hl'. pose proof (inv_nodes _ _ Hi i Hin) as Hn.
  destruct Hl' as [->|[Hp Hhas]]; [by apply Hn|].
  intros t m Lt0 Ht Hack HLt0.
  destruct (acked_llog f h i t m Hi Hack) as (Lt0' & E & Hm). rewrite HLt0 in E. injection E as <-.
  destruct (ni_kept _ _ _ Hn t m Lt0 Ht Hack HLt0) as [Hl|]; [|by right].
  destruct (decide (t = p_term (f i))) as [->|Hne].
  { left. rewrite HLt in HLt0. injection HLt0 as <-. auto. }
  destruct (proj1 (hi_dom _ (inv_hist _ _ Hi) (p_term (f i))) ltac:(eauto)) as [I HI].
  destruct (decide (take (S m) Lt0 `prefix_of` I)) as [HIm|HIm]; [left|right].
  - destruct (hi_elog _ (inv_hist _ _ Hi) _ _ _ HI HLt) as [HIp _].
    pose proof (has_swap Lt Lt0 m (has_longer _ _ _ _ HIm HIp) Hm) as Hswap.
    by apply Hswap, Hhas, Hswap.
  - exists (p_term (f i)), I. split_and!; try done; lia.
Qed.

(** A committed index of the old log is one of the new log. *)
Lemma commit_accept f h i l' Lt c :
  inv f h → i ∈ cluster → llog h !! p_term (f i) = Some Lt →
  (l' = p_log (f i) ∨ l' `prefix_of` Lt ∧ ∀ k, has (p_log (f i)) Lt k → has l' Lt k) →
  commit_ok h (p_term (f i)) (p_log (f i)) c → commit_ok h (p_term (f i)) l' c.
Proof using Hsentinel.
  intros Hi Hin HLt [->|[Hp Hhas]] Hc; [done|].
  destruct Hc as [->|(t & m & Lt0 & Ht & Hm & Hct & HLt0 & Hl)]; [by left|right].
  exists t, m, Lt0. split_and!; try done.
  pose proof (leader_has h (inv_hist _ _ Hi) t m Lt0 _ Lt Hct HLt0 Ht HLt) as Hall.
  pose proof (committed_lt h t m Lt0 Hct HLt0).
  pose proof (has_swap Lt Lt0 c (has_mono _ _ _ _ Hall Hm) ltac:(lia)) as Hswap.
  by apply Hswap, Hhas, Hswap.
Qed.

Lemma accept_terms f h i l' Lt :
  inv f h → i ∈ cluster → llog h !! p_term (f i) = Some Lt →
  (l' = p_log (f i) ∨ l' `prefix_of` Lt ∧ ∀ k, has (p_log (f i)) Lt k → has l' Lt k) →
  ∀ e, e ∈ l' → (term e ≤ p_term (f i))%Z.
Proof using Hsentinel.
  intros Hi Hin HLt [->|[Hp _]] e He; [by apply (inv_nodes _ _ Hi i Hin)|].
  apply list_elem_of_lookup in He as [k Hk].
  eapply (llog_term h); [apply Hi|done|]. by eapply prefix_lookup_Some.
Qed.

(** A committed index of the leader's log, if the follower has that much of it. *)
Lemma commit_from_leader h t Lt l' c k :
  has l' Lt k → c ≤ k → commit_ok h t Lt c → commit_ok h t l' c.
Proof using Hsentinel.
  intros Hhas Hc [->|(t0 & m & Lt0 & Ht & Hm & Hct & HLt0 & Hl)]; [by left|right].
  exists t0, m, Lt0. split_and!; try done.
  pose proof (committed_lt h t0 m Lt0 Hct HLt0).
  apply (has_swap Lt Lt0 c Hl ltac:(lia)). by eapply has_mono.
Qed.

Lemma inv_accept f h i m e :
  inv f h → i ∈ cluster → (i, MAppendEntries m) ∈ sent h → ae_term m = p_term (f i) →
  p_role (f i) = Follower →
  p_log (f i) !! ae_prev_log_index m = Some e → term e = ae_prev_log_term m →
  let log' := merge_log (p_log (f i)) (S (ae_prev_log_index m)) (ae_entries m) in
  inv (<[i := (f i) <| p_log := log' |>
                    <| p_commit := ae_leader_commit m `min` (length log' - 1) |>]> f)
    (h <| sent := (ae_leader_id m, MAppendEntriesResponse
           {| ar_term := p_term (f i); ar_follower_id := i; ar_success := true;
              ar_match_index := ae_prev_log_index m + length (ae_entries m) |})
         :: sent h |>).
Proof using Hsentinel.
  intros Hi Hin Hm Ht Hr Hprev Hpt log'. pose proof (inv_nodes _ _ Hi i Hin) as Hn.
  destruct (accept_log f h i m e Hi Hin Hm Ht Hprev Hpt)
    as (Lt & Hlead & Hne & HLt & Hok & H0 & Hlen & Hc & Hcok & Hhas & Hl').
  fold log' in Hok, H0, Hhas, Hl'.
  set (T := p_term (f i)) in *. set (k := ae_prev_log_index m + length (ae_entries m)) in *.
  set (ack := MAppendEntriesResponse _). set (h' := h <| sent := _ |>).
  assert (He : ext i T h h').
  { split; unfold h'; cbn; try (by auto).
    - intros x Hx. by right.
    - intros t L HL. exists L. auto.
    - intros c r [[= -> ->]|]%elem_of_cons ?; [|by left]. by right. }
  apply (inv_step f i _ h h' T); [done..| | |].
  - apply (hist_same f i T h); try done. intros t [c l] Hv. by apply Hn in Hv as [].
  - pose proof (kept_accept f h i log' Lt Hi Hin HLt Hl') as Hkept.
    pose proof (commit_accept f h i log' Lt _ Hi Hin HLt Hl' (ni_applied _ _ _ Hn)) as Happ.
    pose proof (accept_terms f h i log' Lt Hi Hin HLt Hl') as Hterms.
    destruct Hn. split; cbn; try done; try congruence.
    + intros t k' c [[= _ -> _]|Hin']%elem_of_cons; [done|eauto].
    + eapply kept_self; [done|exact He| |done].
      intros m' L [(c & k' & Hk' & Hin')|(Hl & _)] HL; 
        [|change (lead h !! T = Some i) in Hl; congruence].
      change (llog h !! T = Some L) in HL. assert (L = Lt) as -> by congruence.
      apply elem_of_cons in Hin' as [[= _ ->]|Hin']; [by eapply has_mono|].
      destruct (Hkept T m' Lt) as [|(u & I & ? & _)]; [lia| |done|done|lia].
      left. eauto.
    + eapply commit_ok_mono, commit_ok_ext; [|exact He|]; [apply Nat.le_min_l|].
      by eapply commit_from_leader.
    + by eapply commit_ok_ext.
  - intros to m' [[= -> ->]|]%elem_of_cons; [right|by left].
    cbn. split_and!; [done|congruence|]. intros _. split; [done|]. exists Lt. done.
Qed.

(** * Runs *)

Lemma commit_lt h T l c : l !! 0 = Some sentinel → commit_ok h T l c → hist_inv h → c < length l.
Proof using Hsentinel.
  intros H0 [->|(t & m & Lt & Ht & Hm & Hct & HLt & Hl)] Hh; [by eapply lookup_lt_Some|].
  pose proof (committed_lt h t m Lt Hct HLt). apply prefix_length in Hl.
  rewrite length_take in Hl. lia.
Qed.

Lemma replicate_ok f h i to prev e :
  inv f h → i ∈ cluster → to ≠ i → p_role (f i) = Leader → p_log (f i) !! prev = Some e →
  msg_inv h to (MAppendEntries
    {| ae_term := p_term (f i); ae_leader_id := i; ae_prev_log_index := prev;
       ae_prev_log_term := term e; ae_entries := drop (S prev) (p_log (f i));
       ae_leader_commit := p_commit (f i) |}).
Proof using Hsentinel.
  intros Hi Hin Hto Hr He. pose proof (inv_nodes _ _ Hi i Hin) as Hn.
  destruct (ni_leader _ _ _ Hn Hr) as (Hl & HL & _). cbn. split; [done|].
  exists (p_log (f i)), e. split_and!; try done; [|by apply Hn].
  pose proof (commit_lt h _ _ _ (ni_sentinel _ _ _ Hn) (ni_commit _ _ _ Hn) (inv_hist _ _ Hi)).
  apply lookup_lt_Some in He. rewrite length_drop. lia.
Qed.

Lemma request_ok f h i to e :
  inv f h → i ∈ cluster → p_role (f i) = Candidate → last (p_log (f i)) = Some e →
  msg_inv h to (MRequestVote
    {| rv_term := p_term (f i); rv_candidate_id := i;
       rv_last_log_index := length (p_log (f i)) - 1; rv_last_log_term := term e |}).
Proof using Hsentinel.
  intros Hi Hin Hr He. destruct (ni_candidate _ _ _ (inv_nodes _ _ Hi i Hin) Hr) as [Hv _].
  exists (p_log (f i)), e. done.
Qed.

Lemma pstep_inv f h i n' h' :
  inv f h → i ∈ cluster → pstep i (f i) h n' h' → inv (<[i := n']> f) h'.
Proof using Hsentinel.
  intros Hi Hin Hstep. pose proof (inv_nodes _ _ Hi i Hin) as Hn.
  assert (Hsame : inv (<[i := f i]> f) h).
  { by apply inv_node. }
  assert (Hfi : ∀ n, (<[i := n]> f) i = n) by (intros; apply fn_lookup_insert).
  destruct Hstep.
  - by apply inv_node, node_new_term.
  - by apply inv_node, node_follow.
  - by apply inv_campaign.
  - apply (inv_send _ i); try done. rewrite <-(Hfi (f i)). apply request_ok; rewrite ?Hfi; done.
  - pose proof (inv_grant f h i m e Hi Hin H H0 H1 H2 H3) as Hg.
    apply (inv_send _ i _ _ _ Hg); [done|done|]. cbn. intros _. split; [done|].
    destruct (vlog h !! (i, p_term (f i))) as [[c l]|] eqn:Hv.
    + destruct (ni_voted _ _ _ Hn _ _ _ Hv) as [_ Hc]. specialize (Hc eq_refl).
      exists l. rewrite Hv. destruct H1; congruence.
    + eexists. by rewrite lookup_insert_eq.
  - by apply inv_node, node_count_vote.
  - by apply inv_win.
  - by apply inv_append.
  - apply (inv_send _ i); try done. by apply replicate_ok.
  - by eapply inv_accept.
  - by apply inv_node, node_count_ack.
  - apply inv_node; [done..|]. apply node_commit; [|done]. by eapply node_advance.
  - by apply inv_node, node_apply.
  - apply (inv_send _ i); [done..| |].
    + intros r ->. by destruct H.
    + destruct m; cbn in *; try done; [intros; congruence|].
      destruct H as (? & -> & ?). split_and!; [done..|]. congruence.
Qed.

(** A cluster in which nothing has happened yet. *)
Definition p_init : PNode :=
  {| p_term := 0; p_vote := None; p_log := [sentinel]; p_role := Follower; p_votes := ∅;
     p_match := ∅; p_commit := 0; p_applied := 0 |}.

Definition h_init : History :=
  {| sent := []; lead := ∅; elog := {[ 0%Z := [sentinel] ]};
     llog := {[ 0%Z := [sentinel] ]}; vlog := ∅ |}.

Inductive reachable : (NodeId → PNode) → History → Prop :=
  | reach_init f : (∀ i, i ∈ cluster → f i = p_init) → reachable f h_init
  | reach_step f h i n' h' :
      reachable f h → i ∈ cluster → pstep i (f i) h n' h' → reachable (<[i := n']> f) h'.

Lemma init_inv f : (∀ i, i ∈ cluster → f i = p_init) → inv f h_init.
Proof using Hsentinel.
  intros Hf. assert (Hok : log_ok h_init [sentinel]).
  { intros k e [-> <-]%list_lookup_singleton_Some. exists [sentinel].
    rewrite Hsentinel. split; [apply lookup_singleton_eq|apply has_self]. }
  split.
  - intros i Hin. rewrite (Hf i Hin). split; cbn; try done.
    + intros e ->%list_elem_of_singleton. lia.
    + intros t m c Hin'. by apply elem_of_nil in Hin'.
    + intros t m Lt Ht [(c & m' & _ & []%elem_of_nil)|(Hl & _)].
      cbn in Hl. by rewrite lookup_empty in Hl.
    + by left.
    + by left.
  - split; cbn; try done.
    + intros t [Lt [<- _]%lookup_singleton_Some]. done.
    + intros t I Lt [<- <-]%lookup_singleton_Some [_ <-]%lookup_singleton_Some.
      split_and!; [done|lia|]. intros k e Hk [Hk' _]%list_lookup_singleton_Some. cbn in Hk. lia.
    + intros t Lt [_ <-]%lookup_singleton_Some. done.
    + intros t I [<- _]%lookup_singleton_Some. lia.
  - intros to m Hin. by apply elem_of_nil in Hin.
Qed.

Lemma reachable_inv f h : reachable f h → inv f h.
Proof using Hsentinel.
  induction 1 as [f Hf|f h i n' h' _ IH Hin Hs]; [by apply init_inv|by eapply pstep_inv].
Qed.

(** * Safety *)

Lemma election_safe f h i j :
  reachable f h → i ∈ cluster → j ∈ cluster → p_role (f i) = Leader → p_role (f j) = Leader →
  p_term (f i) = p_term (f j) → i = j.
Proof using Hsentinel.
  intros Hr%reachable_inv Hi Hj Hli Hlj Ht.
  destruct (ni_leader _ _ _ (inv_nodes _ _ Hr i Hi) Hli) as [E _].
  destruct (ni_leader _ _ _ (inv_nodes _ _ Hr j Hj) Hlj) as [E' _]. congruence.
Qed.

Lemma logs_match f h i j k a b :
  reachable f h → i ∈ cluster → j ∈ cluster → p_log (f i) !! k = Some a →
  p_log (f j) !! k = Some b → term a = term b →
  take (S k) (p_log (f i)) = take (S k) (p_log (f j)).
Proof using Hsentinel.
  intros Hr%reachable_inv Hi Hj Ha Hb Ht.
  eapply log_ok_match; [by apply (inv_nodes _ _ Hr)|by apply (inv_nodes _ _ Hr)|done..].
Qed.

(** What node [i] knows to be committed. *)
Lemma node_committed f h i k :
  inv f h → i ∈ cluster → k ≤ p_commit (f i) ∨ k ≤ p_applied (f i) →
  commit_ok h (p_term (f i)) (p_log (f i)) k.
Proof using Hsentinel.
  intros Hi Hin Hk. pose proof (inv_nodes _ _ Hi i Hin) as Hn.
  destruct Hk; eapply commit_ok_mono; try done; apply Hn.
Qed.

Lemma committed_agree f h i j k :
  reachable f h → i ∈ cluster → j ∈ cluster →
  k ≤ p_commit (f i) ∨ k ≤ p_applied (f i) → k ≤ p_commit (f j) ∨ k ≤ p_applied (f j) →
  ∃ e, p_log (f i) !! k = Some e ∧ p_log (f j) !! k = Some e.
Proof using Hsentinel.
  intros Hr%reachable_inv Hi Hj Hki Hkj.
  pose proof (ni_sentinel _ _ _ (inv_nodes _ _ Hr i Hi)) as Hs.
  pose proof (ni_sentinel _ _ _ (inv_nodes _ _ Hr j Hj)) as Hs'.
  pose proof (node_committed f h i k Hr Hi Hki) as Hc.
  pose proof (node_committed f h j k Hr Hj Hkj) as Hc'.
  destruct (lookup_lt_is_Some_2 (p_log (f i)) k) as [e He].
  { exact (commit_lt h _ _ _ Hs Hc (inv_hist _ _ Hr)). }
  exists e. split; [done|]. rewrite <-He. symmetry.
  exact (commit_agree h (inv_hist _ _ Hr) _ _ _ _ _ _ k Hc Hc' Hs Hs' (le_n k) (le_n k)).
Qed.

Lemma leader_has_committed f h i j k :
  reachable f h → i ∈ cluster → j ∈ cluster → p_role (f j) = Leader →
  (p_term (f i) ≤ p_term (f j))%Z → k ≤ p_commit (f i) ∨ k ≤ p_applied (f i) →
  p_log (f j) !! k = p_log (f i) !! k.
Proof using Hsentinel.
  intros Hr%reachable_inv Hi Hj Hl Ht Hk.
  pose proof (inv_nodes _ _ Hr i Hi) as Hn. pose proof (inv_nodes _ _ Hr j Hj) as Hn'.
  destruct (ni_leader _ _ _ Hn' Hl) as (_ & HL & _).
  destruct (node_committed f h i k Hr Hi Hk) as [->|(t & m & Lt & Htt & Hm & Hct & HLt & Hhas)].
  { by rewrite (ni_sentinel _ _ _ Hn), (ni_sentinel _ _ _ Hn'). }
  pose proof (leader_has h (inv_hist _ _ Hr) t m Lt (p_term (f j)) _ Hct HLt
    ltac:(lia) HL) as Hall.
  pose proof (committed_lt h t m Lt Hct HLt).
  destruct (lookup_lt_is_Some_2 Lt k) as [e He]; [lia|].
  by rewrite (has_lookup _ _ _ k e Hall Hm He), (has_lookup _ _ _ k e Hhas (le_n k) He).
Qed.

End protocol.
