(* ===== verification/RaftSim.v ===== *)
(** The handlers of [RaftNode.v] implement the protocol of [Protocol.v]: run on
    a node of a fixed cluster, each of them ends well (unless the database
    panics) and what it does is a sequence of protocol steps. *)

From stdpp Require Import functions.
From S2P Require Import Prelude Wp Bytes Float LogRecord RaftTypes LogStore RaftNode Protocol.

(** * Nodes and protocol nodes *)

(** What may be in the logs and on the way: commands that satisfy [allowed], no
    change of the membership, and terms up to [B]. *)
Section contents.
Context (allowed : Command → Prop) (B : Z).

Definition plain (e : LogEntry) : Prop :=
  match payload e with PCommand r => allowed (command r) | _ => False end.

(** Messages of clients. *)
Definition client (m : Message) : Prop :=
  match m with
  | MClientCommand c => allowed c
  | MClientRequest r => allowed (cr_command r)
  | MClientQuery _ | MStatusQuery _ | MClientResponse _ => True
  | _ => False
  end.

(** Messages of a cluster whose members do not change. *)
Definition static (m : Message) : Prop :=
  match m with
  | MRequestVote r => (rv_term r ≤ B)%Z
  | MRequestVoteResponse r => (vr_term r ≤ B)%Z
  | MAppendEntries a => (ae_term a ≤ B)%Z ∧ Forall plain (ae_entries a)
  | MAppendEntriesResponse r => (ar_term r ≤ B)%Z
  | _ => client m
  end.

End contents.

Section view.
Context {D : Type}.

Definition view (n : RaftNode D) : PNode :=
  {| p_term := current_term n; p_vote := voted_for n; p_log := log n; p_role := role n;
     p_votes := votes_received n; p_match := match_index n; p_commit := commit_index n;
     p_applied := last_applied n |}.

(** The part of a node that the theorems are about. *)
Definition core (n : RaftNode D) :=
  (id n, peers n, outbox n, next_index n, db n, view n).

Definition same (n n' : RaftNode D) : Prop := core n' = core n.

#[export] Instance same_equivalence : Equivalence same.
Proof. unfold same. split; congruence. Qed.

End view.

Section replay.
Context {D : Type} `{!KvStore D}.

(** The database after an entry was applied. *)
Definition apply_entry (d : D) (e : LogEntry) : D :=
  match payload e with
  | PCommand r => match command r with
                  | Set_ key value => (kv_insert key value d).2
                  | Delete key => (kv_delete key d).2
                  end
  | _ => d
  end.

Definition replay (d : D) (es : list LogEntry) : D := foldl apply_entry d es.

(** A command, or a read, panics on a database. *)
Definition write_panics (d : D) (c : Command) : Prop :=
  ∃ msg d', match c with
            | Set_ key value => kv_insert key value d = (Panic msg, d')
            | Delete key => kv_delete key d = (Panic msg, d')
            end.

Definition read_panics (d : D) : Prop := ∃ key msg d', kv_get key d = (Panic msg, d').

End replay.

(** Reading leaves the database as it is. *)
Class KvPure (D : Type) `{!KvStore D} : Prop :=
  kv_get_pure key (d : D) : (kv_get key d).2 = d.

Section sim.
Context {D : Type} `{!KvStore D} `{!F64Text} `{!Bincode} `{!RandomMillis}.
Context (cluster : gset NodeId) (i : NodeId) (Hi : i ∈ cluster) (db0 : D).
(* the commands that are used, and the last term that is reached *)
Context (allowed : Command → Prop) (B : Z).

Abbreviation Node := (RaftNode D).

Abbreviation reachable := (reachable sentinel cluster).
Abbreviation inv := (inv sentinel cluster).
Abbreviation plain := (plain allowed).
Abbreviation client := (client allowed).
Abbreviation static := (static allowed B).

(** The database panics on a part of the log of the node: on a command behind
    those that were applied to [db0], or when it is read after them. *)
Definition store_panics (n : Node) : Prop := Forall plain (log n) ∧ ∃ k,
  let d := replay db0 (take k (drop 1 (log n))) in
  read_panics d ∨
  ∃ e r, drop 1 (log n) !! k = Some e ∧ payload e = PCommand r ∧ write_panics d (command r).

Abbreviation wp := (wp (λ _, store_panics)).

Lemma sentinel_term : term sentinel = 0%Z.
Proof using Type. reflexivity. Qed.

(** Node [i] of some reachable cluster is [p]. *)
Definition at_node (p : PNode) (h : History) : Prop := ∃ f, reachable f h ∧ f i = p.

Definition pmove (x y : PNode * History) : Prop := pstep cluster i x.1 x.2 y.1 y.2.

(** Node [n] fits the protocol state of node [i] in history [h]. *)
Record ok (n : Node) (h : History) : Prop := {
  ok_id : id n = i;
  ok_nodup : NoDup (peers n);
  ok_peers p : p ∈ peers n ↔ p ∈ cluster ∧ p ≠ i;
  ok_outbox x : x ∈ outbox n → x ∈ sent h;
  ok_plain : Forall plain (log n);
  ok_static to m : (to, m) ∈ sent h → static m;
  ok_next p : role n = Leader → p ∈ peers n →
    ∃ ni, next_index n !! p = Some ni ∧ 1 ≤ ni ≤ length (log n);
  ok_match p : is_Some (match_index n !! p) → p ∈ peers n;
  ok_term : (current_term n ≤ B)%Z;
  ok_db : db n = replay db0 (take (last_applied n) (drop 1 (log n)));
  ok_at : at_node (view n) h;
}.

(** What a program that started in [n] and [h] has done. *)
Definition Post {A} (n : Node) (h : History) (E : A → Node → History → Prop)
    (a : A) (n' : Node) : Prop :=
  ∃ h', rtc pmove (view n, h) (view n', h') ∧ ok n' h' ∧ E a n' h'.

Lemma wp_step {A C} (m : M Node A) (k : A → M Node C) n h E E' :
  wp m (Post n h E) n →
  (∀ a n1 h1, ok n1 h1 → E a n1 h1 → wp (k a) (Post n1 h1 E') n1) →
  wp (m ≫= k) (Post n h E') n.
Proof using Type.
  intros Hm Hk. apply wp_bind. eapply wp_mono; [exact Hm|].
  intros a n1 (h1 & Hs & Hok & He). eapply wp_mono; [by apply Hk|].
  intros b n2 (h2 & Hs2 & Hok2 & He2). exists h2. split; [|done]. by etrans.
Qed.

(** Doing [s] first changes nothing that the postcondition speaks about. *)
Lemma Post_before {A} n n1 h h1 (E : A → Node → History → Prop) a n2 :
  rtc pmove (view n, h) (view n1, h1) → Post n1 h1 E a n2 → Post n h E a n2.
Proof using Type. intros Hs (h2 & Hs2 & Hok). exists h2. split; [by etrans|done]. Qed.

Lemma wp_Post_before {A} (m : M Node A) n n1 h h1 (E : A → Node → History → Prop) :
  rtc pmove (view n, h) (view n1, h1) → wp m (Post n1 h1 E) n1 → wp m (Post n h E) n1.
Proof using Type.
  intros Hs Hm. eapply wp_mono; [exact Hm|]. intros a n2. by apply Post_before.
Qed.

Lemma Post_here {A} n h (E : A → Node → History → Prop) a :
  ok n h → E a n h → Post n h E a n.
Proof using Type. intros Hok He. exists h. by split_and!. Qed.

Lemma Post_same {A} n n' h (E : A → Node → History → Prop) a :
  same n n' → ok n' h → E a n' h → Post n h E a n'.
Proof using Type.
  unfold same, core. intros Hs Hok He. exists h. split; [|done].
  assert (view n' = view n) as -> by congruence. done.
Qed.

Lemma ok_same n n' h : same n n' → ok n h → ok n' h.
Proof using Type.
  unfold same, core. intros [= E1 E2 E3 E4 E5 F1 F2 F3 F4 F5 F6 F7 F8] [].
  assert (view n' = view n) as Hview by (unfold view; congruence).
  split; rewrite ?E1, ?E2, ?E3, ?E4, ?E5, ?F1, ?F2, ?F3, ?F4, ?F5, ?F6, ?F7, ?F8; try done.
  by rewrite Hview.
Qed.

Lemma at_step p h p' h' : at_node p h → pstep cluster i p h p' h' → at_node p' h'.
Proof using Hi.
  intros (f & Hr & <-) Hs. exists (<[i := p']> f). split; [by eapply reach_step|].
  apply fn_lookup_insert.
Qed.

(** What the protocol knows of the node. *)
Lemma ok_inv n h : ok n h → ∃ f, inv f h ∧ f i = view n ∧ node_inv sentinel cluster h i (view n).
Proof using Hi.
  intros [_ _ _ _ _ _ _ _ _ _ (f & Hr & Hf)].
  pose proof (reachable_inv _ _ sentinel_term _ _ Hr) as Hinv.
  exists f. split_and!; [done..|]. rewrite <-Hf. by apply Hinv.
Qed.

Lemma ok_first n h : ok n h → log n !! 0 = Some sentinel.
Proof using Hi. intros Hok. destruct (ok_inv n h Hok) as (f & _ & _ & Hn). apply (ni_sentinel _ _ _ _ _ Hn). Qed.

Lemma ok_length n h : ok n h → 0 < length (log n).
Proof using Hi. intros Hok. by eapply lookup_lt_Some, ok_first. Qed.

Lemma ok_commit n h :
  ok n h → commit_index n < length (log n) ∧ last_applied n < length (log n).
Proof using Hi.
  intros Hok. destruct (ok_inv n h Hok) as (f & Hf & _ & Hn). pose proof (inv_hist _ _ _ _ Hf).
  split; eapply (commit_lt sentinel cluster sentinel_term h _ (log n)); try done; apply Hn.
Qed.

Lemma ok_last n h : ok n h → ∃ e, last (log n) = Some e ∧ log n !! (length (log n) - 1) = Some e.
Proof using Hi.
  intros Hok. destruct (sentinel_last _ _ (ok_first n h Hok)) as [e He]. exists e. split; [done|].
  rewrite <-He, last_lookup. f_equal. lia.
Qed.

(** The size of the cluster, as the node computes it. *)
Lemma ok_size n h : ok n h → size cluster = S (length (peers n)).
Proof using Hi.
  intros []. assert (cluster = {[ i ]} ∪ list_to_set (peers n)) as E.
  { apply leibniz_equiv. intros p. rewrite elem_of_union, elem_of_singleton, elem_of_list_to_set.
    rewrite ok_peers0. destruct (decide (p = i)); naive_solver. }
  rewrite E, size_union, size_singleton, size_list_to_set; [done..|].
  intros p ->%elem_of_singleton. rewrite elem_of_list_to_set, ok_peers0. naive_solver.
Qed.

Lemma ok_majority n h x : ok n h → majority (peers n) ≤ x → size cluster < 2 * x.
Proof using Hi.
  intros Hok. unfold majority. rewrite (ok_size n h Hok).
  pose proof (Nat.div_mod_eq (S (length (peers n))) 2).
  pose proof (Nat.mod_upper_bound (S (length (peers n))) 2). lia.
Qed.

(** ** Programs that leave the core of a node alone *)

Definition harmless {A} (m : M Node A) : Prop := ∀ n, ∃ a n', m n = (Ok a, n') ∧ same n n'.

Lemma harmless_bind {A C} (m : M Node A) (k : A → M Node C) :
  harmless m → (∀ a, harmless (k a)) → harmless (m ≫= k).
Proof using Type.
  intros Hm Hk n. destruct (Hm n) as (a & n1 & E1 & S1). destruct (Hk a n1) as (b & n2 & E2 & S2).
  exists b, n2. split; [by erewrite bind_Ok by exact E1|]. by etrans.
Qed.

Lemma harmless_modify (f : Node → Node) : (∀ n, same n (f n)) → harmless (modify f).
Proof using Type. intros Hf n. exists (), (f n). split; [done|apply Hf]. Qed.

Lemma harmless_ret {A} (a : A) : harmless (mret a).
Proof using Type. intros n. by exists a, n. Qed.

Lemma harmless_get (A : Type) (k : Node → M Node A) : (∀ n, harmless (k n)) → harmless (get ≫= k).
Proof using Type. intros Hk n. apply (Hk n n). Qed.

Lemma reset_election_timeout_harmless now : harmless (reset_election_timeout now).
Proof using Type.
  apply harmless_get. intros n. destruct (election_timeout n).
  - by apply harmless_modify.
  - apply harmless_bind; [by apply harmless_modify|]. intros _. by apply harmless_modify.
Qed.

Lemma persist_meta_harmless : harmless persist_meta.
Proof using Type.
  apply harmless_get. intros n n'. unfold with_store.
  destruct (meta_store n') as [s|]; [|by exists (), n'].
  eexists (), _. split; [reflexivity|done].
Qed.

Lemma wp_harmless {A} (m : M Node A) n h :
  harmless m → ok n h → wp m (Post n h (λ _ n1 h1, same n n1 ∧ h1 = h)) n.
Proof using Type.
  intros Hm Hok. destruct (Hm n) as (a & n' & E & S). unfold Wp.wp. rewrite E.
  eapply Post_same; [exact S| |done]. by eapply ok_same.
Qed.

(** Running a harmless program first. *)
Lemma wp_skip {A C} (m : M Node A) (k : A → M Node C) n h (E : C → Node → History → Prop) :
  harmless m → ok n h →
  (∀ a n1, same n n1 → ok n1 h → wp (k a) (Post n1 h E) n1) →
  wp (m ≫= k) (Post n h E) n.
Proof using Type.
  intros Hm Hok Hk. eapply wp_step; [by apply wp_harmless|].
  intros a n1 h1 Hok1 [S ->]. by apply Hk.
Qed.

Lemma same_view (n n' : Node) : same n n' → view n' = view n.
Proof using Type. unfold same, core. congruence. Qed.

(** ** Sending *)

(** The protocol allows the node to send [m] to [to]. *)
Definition sendable (p : PNode) (to : NodeId) (m : Message) : Prop :=
  (∀ h, pstep cluster i p h p (h <| sent := (to, m) :: sent h |>)) ∧ static m.

Lemma ok_sent n h to m :
  ok n h → (to, m) ∈ sent h → ok (n <| outbox := outbox n ++ [(to, m)] |>) h.
Proof using Type.
  intros [] Hin. split; try done. cbn. intros x [?|Hx%list_elem_of_singleton]%elem_of_app; [auto|by subst].
Qed.

Lemma ok_send n h to m :
  ok n h → sendable (view n) to m →
  ∃ h', pmove (view n, h) (view n, h') ∧ (to, m) ∈ sent h' ∧ ok n h'.
Proof using Hi.
  intros Hok [Hs Hst]. exists (h <| sent := (to, m) :: sent h |>). split_and!; [apply Hs|by left|].
  destruct Hok. split; try done.
  - intros x Hx. right. auto.
  - intros to' m' [[= -> ->]|]%elem_of_cons; [done|eauto].
  - eapply at_step; [done|apply Hs].
Qed.

Lemma push_sent n h to m (E : () → Node → History → Prop) :
  ok n h → (to, m) ∈ sent h → E () (n <| outbox := outbox n ++ [(to, m)] |>) h →
  wp (push to m) (Post n h E) n.
Proof using Type.
  intros Hok Hin He. apply wp_modify. exists h. split_and!; [done|by apply ok_sent|done].
Qed.

Lemma push_ok n h to m :
  ok n h → sendable (view n) to m →
  wp (push to m) (Post n h (λ _ n1 _, n1 = n <| outbox := outbox n ++ [(to, m)] |>)) n.
Proof using Hi.
  intros Hok Hs. destruct (ok_send n h to m Hok Hs) as (h' & Hm & Hin & Hok').
  eapply wp_Post_before; [by apply rtc_once|]. by apply push_sent.
Qed.

(** A list of messages is sent. *)
Lemma push_all n h msgs :
  ok n h → Forall (λ x, sendable (view n) x.1 x.2) msgs →
  ∃ h', rtc pmove (view n, h) (view n, h') ∧
    ok (n <| outbox := outbox n ++ msgs |>) h'.
Proof using Hi.
  intros Hok Hm. revert n h Hok Hm. induction msgs as [|[to m] msgs IH]; intros n h Hok Hm.
  { exists h. split; [done|]. rewrite app_nil_r. by destruct n. }
  apply Forall_cons in Hm as [Hs Hm]. cbn in Hs.
  destruct (ok_send n h to m Hok Hs) as (h1 & Hmove & Hin & Hok1).
  destruct (IH (n <| outbox := outbox n ++ [(to, m)] |>) h1) as (h2 & Hmoves & Hok2);
    [by apply ok_sent|done|].
  exists h2. split; [by eapply rtc_l|]. cbn in Hok2. by rewrite <-app_assoc in Hok2.
Qed.

Lemma client_sendable p to m : client m → sendable p to m.
Proof using Type. intros Hm. split; [|by destruct m]. intros h. apply p_other. by destruct m. Qed.

(** [Responder::send]. *)
Lemma send_ok n h r success value message leader term node role peers :
  ok n h →
  wp (send r success value message leader term node role peers)
    (Post n h (λ _ n1 _, view n1 = view n ∧ log n1 = log n)) n.
Proof using Hi.
  intros Hok. unfold send. destruct r as [tx|c q]; cbn [response].
  - apply wp_modify. exists h. split_and!; try done. by apply (ok_same n).
  - eapply wp_mono; [by apply push_ok, client_sendable|].
    intros [] n1 (h1 & Hs & Hok1 & ->). exists h1. by split_and!.
Qed.

(** ** Loops *)

Lemma wp_each {A} (I : Node → Prop) (l : list A) (f : A → M Node ()) n h :
  ok n h → I n →
  (∀ x n1 h1, x ∈ l → ok n1 h1 → I n1 → wp (f x) (Post n1 h1 (λ _ n2 _, I n2)) n1) →
  wp (for_each l f) (Post n h (λ _ n2 _, I n2)) n.
Proof using Type.
  intros Hok HI Hf. eapply wp_mono.
  - apply (wp_for_each _ (λ _ s, Post n h (λ _ n2 _, I n2) () s)); [by apply Post_here|].
    intros x l' s Hx (h1 & Hs & Hok1 & HI1). eapply wp_Post_before; [exact Hs|]. by apply Hf.
  - by intros [] s.
Qed.

(** ** Terms *)

Lemma step_down_ok n h t now :
  ok n h → (current_term n < t ≤ B)%Z →
  wp (step_down t now) (Post n h (λ _ n' _,
    log n' = log n ∧ current_term n' = t ∧ role n' = Follower ∧ voted_for n' = None ∧
    last_applied n' = last_applied n)) n.
Proof using Hi.
  intros Hok [Ht HtB]. unfold step_down. apply wp_bind, wp_modify.
  set (n1 := _ <| leader_id := _ |>).
  assert (Hs : pmove (view n, h) (view n1, h)) by (by apply (p_new_term cluster i (view n) h t)).
  assert (Hok1 : ok n1 h).
  { destruct Hok. split; try done. by eapply at_step. }
  eapply wp_Post_before; [by apply rtc_once|].
  apply wp_skip; [by apply reset_election_timeout_harmless|done|]. intros _ n2 S2 Hok2.
  apply wp_skip; [by apply persist_meta_harmless|done|]. intros _ n3 S3 Hok3.
  apply wp_bind, wp_get. apply wp_skip; [by apply harmless_modify|done|]. intros _ n4 S4 Hok4.
  assert (Hv : view n4 = view n1).
  { rewrite (same_view n3 n4), (same_view n2 n3), (same_view n1 n2); done. }
  eapply wp_mono.
  - apply (wp_each (λ n5, view n5 = view n4)); [done..|].
    intros [k r] n5 h5 _ Hok5 Hn5. eapply wp_mono; [by apply send_ok|].
    intros [] n6 (h6 & Hs6 & Hok6 & Hv6 & _). exists h6. split_and!; [done..|congruence].
  - intros [] n5 (h5 & Hs5 & Hok5 & Hv5). exists h5. split_and!; try done.
    all: assert (view n5 = view n1) as Hv5' by congruence; unfold view in Hv5'; by injection Hv5'.
Qed.

(** ** The log *)

Lemma log_store_append_total e s : ∃ s', log_store_append e s = (Ok (), s').
Proof using Type. eexists. reflexivity. Qed.

Lemma log_store_truncate_total from s : ∃ s', log_store_truncate_from from s = (Ok (), s').
Proof using Type.
  unfold log_store_truncate_from. rewrite bind_eq. cbn.
  destruct (decide (length (offsets s) ≤ from)) as [|Hl]; [by eexists|].
  destruct (lookup_lt_is_Some_2 (offsets s) from) as [o Ho]; [lia|].
  rewrite bind_eq, Ho. eexists. reflexivity.
Qed.

Lemma with_log_store (m : M RaftLogStore ()) (n : Node) :
  (∀ s, ∃ s', m s = (Ok (), s')) →
  ∃ ls, with_store log_store m n = (Ok (), n <| log_store := ls |>).
Proof using Type.
  intros Hm. unfold with_store. destruct (log_store n) as [s|] eqn:E.
  - destruct (Hm s) as [s' ->]. by exists (Some s').
  - exists None. by destruct n; cbn in *; subst.
Qed.

Lemma push_log_entry_eq e (n : Node) :
  ∃ ls, push_log_entry e n = (Ok (), n <| log := log n ++ [e] |> <| log_store := ls |>).
Proof using Type.
  destruct (with_log_store (log_store_append e) n) as [ls E].
  { intros s. apply log_store_append_total. }
  exists ls. unfold push_log_entry. by erewrite bind_Ok by exact E.
Qed.

Lemma truncate_log_eq from (n : Node) :
  ∃ ls, truncate_log from n = (Ok (), n <| log := take from (log n) |> <| log_store := ls |>).
Proof using Type.
  destruct (with_log_store (log_store_truncate_from from) n) as [ls E].
  { intros s. apply log_store_truncate_total. }
  exists ls. unfold truncate_log. by erewrite bind_Ok by exact E.
Qed.

Lemma entry_at_eq index e (n : Node) : log n !! index = Some e → entry_at index n = (Ok e, n).
Proof using Type. intros He. unfold entry_at. rewrite bind_eq. cbn. by rewrite He. Qed.

(** [append_loop] is [merge_log] on the log. *)
Lemma append_loop_eq index es (n : Node) :
  ∃ ls, append_loop index es n =
    (Ok (), n <| log := merge_log (log n) index es |> <| log_store := ls |>).
Proof using Type.
  revert index n. induction es as [|e es IH]; intros index n; cbn [append_loop merge_log].
  { exists (log_store n). by destruct n. }
  rewrite bind_eq. cbn [get]. destruct (log n !! index) as [e0|] eqn:E0.
  - rewrite decide_True by (by eapply lookup_lt_Some).
    rewrite bind_eq, bind_eq, (entry_at_eq _ e0) by done. destruct (decide (term e0 ≠ term e)) as [Hne|Heq].
    + rewrite bool_decide_true by done. cbn [when].
      destruct (truncate_log_eq index n) as [l1 E1]. erewrite bind_Ok by exact E1.
      destruct (push_log_entry_eq e (n <| log := take index (log n) |> <| log_store := l1 |>))
        as [l2 E2]. rewrite E2.
      destruct (IH (S index) (n <| log := take index (log n) ++ [e] |> <| log_store := l2 |>))
        as [l3 E3]. exists l3. exact E3.
    + rewrite bool_decide_false by done. apply IH.
  - apply lookup_ge_None in E0. rewrite decide_False by lia. rewrite bind_eq.
    destruct (push_log_entry_eq e n) as [l2 E2]. rewrite E2.
    destruct (IH (S index) (n <| log := log n ++ [e] |> <| log_store := l2 |>)) as [l3 E3].
    exists l3. exact E3.
Qed.

Lemma last_index_ok (n : Node) (Q : nat → Node → Prop) :
  0 < length (log n) → Q (length (log n) - 1) n → wp last_index Q n.
Proof using Type.
  intros Hl HQ. unfold last_index. apply wp_bind, wp_get.
  rewrite decide_False; [by apply wp_ret|]. intros E. rewrite E in Hl. cbn in Hl. lia.
Qed.

Lemma wp_entry_at index e (Q : LogEntry → Node → Prop) n :
  log n !! index = Some e → Q e n → wp (entry_at index) Q n.
Proof using Type. intros He HQ. unfold Wp.wp. by rewrite (entry_at_eq _ e). Qed.

(** ** Applying *)

Lemma attempt_zoom {A} (m : M D A) (n : Node) : attempt (zoom db m) n = zoom db (attempt m) n.
Proof using Type. unfold attempt, zoom. by destruct (m (db n)) as [[a|e|msg] d']. Qed.

Lemma wp_db_op {A} (m : M D A) (Q : A + io_error → Node → Prop) (n : Node) :
  (∀ msg d', m (db n) = (Panic msg, d') → store_panics n) →
  (∀ r, Q r (n <| db := (m (db n)).2 |>)) → wp (attempt (zoom db m)) Q n.
Proof using Type.
  intros Hp HQ. apply wp_attempt. unfold zoom.
  destruct (m (db n)) as [[a|e|msg] d'] eqn:E; cbn in *; [done..|]. by eapply Hp.
Qed.

Lemma apply_payload_ok e (n : Node) (Q : (() + io_error) * option PeerChange → Node → Prop) :
  plain e → (∀ r, payload e = PCommand r → write_panics (db n) (command r) → store_panics n) →
  (∀ r, Q (r, None) (n <| db := apply_entry (db n) e |>)) →
  wp (apply_payload (payload e)) Q n.
Proof using Type.
  intros He Hp HQ. unfold plain in He. unfold apply_entry in HQ.
  destruct (payload e) as [r| |]; [|done..]. cbn [apply_payload]. apply wp_bind.
  specialize (Hp r eq_refl). unfold write_panics in Hp.
  destruct (command r) as [k v|k]; apply wp_db_op; eauto; intros; by apply wp_ret.
Qed.

Lemma take_drop_snoc (l : list LogEntry) k e :
  l !! S k = Some e → take (S k) (drop 1 l) = take k (drop 1 l) ++ [e].
Proof using Type. intros He. apply take_S_r. by rewrite lookup_drop. Qed.

Lemma apply_next_ok n h :
  ok n h → last_applied n < commit_index n →
  wp apply_next (Post n h (λ _ n' _,
    log n' = log n ∧ role n' = role n ∧ current_term n' = current_term n ∧
    commit_index n' = commit_index n ∧ last_applied n' = S (last_applied n))) n.
Proof using Hi.
  intros Hok Hlt. destruct (ok_commit n h Hok) as [Hc _].
  destruct (lookup_lt_is_Some_2 (log n) (S (last_applied n))) as [e He]; [lia|].
  assert (Hpl : plain e) by (eapply Forall_lookup_1; [by apply Hok|done]).
  unfold apply_next. apply wp_bind, wp_get, wp_bind. eapply wp_entry_at; [done|].
  apply wp_bind, apply_payload_ok; [done| |].
  { intros r Hr Hw. split; [apply Hok|]. exists (last_applied n). right. exists e, r.
    rewrite lookup_drop, <-(ok_db n h Hok). done. }
  intros r.
  apply wp_bind, wp_modify. set (n1 := _ <| last_applied := _ |>).
  assert (Hs : pmove (view n, h) (view n1, h)) by (by apply (p_apply cluster i (view n))).
  assert (Hok1 : ok n1 h).
  { destruct Hok. split; try done; [|by eapply at_step]. cbn.
    rewrite (take_drop_snoc _ _ e) by done. unfold replay. rewrite foldl_snoc. by f_equal. }
  eapply wp_Post_before; [by apply rtc_once|]. cbn [send_peer_change].
  apply wp_bind, wp_ret, wp_bind, wp_get.
  destruct (pending_requests n1 !! _) as [rs|]; [|by apply wp_ret, Post_here].
  apply wp_skip; [by apply harmless_modify|done|]. intros _ n2 S2 Hok2.
  assert (Hv2 : view n2 = view n1) by (by apply same_view).
  assert (Hfields : ∀ n3 : Node, view n3 = view n2 →
    log n3 = log n ∧ role n3 = role n ∧ current_term n3 = current_term n ∧
    commit_index n3 = commit_index n ∧ last_applied n3 = S (last_applied n)).
  { intros n3 E. rewrite Hv2 in E. unfold view in E. by injection E. }
  destruct r; (eapply wp_mono; [by apply send_ok|]);
    intros [] n3 (h3 & Hs3 & Hok3 & Hv3 & _); exists h3; split_and!; try done; by apply Hfields.
Qed.

Lemma apply_loop_ok fuel n h :
  ok n h → commit_index n - last_applied n ≤ fuel →
  wp (apply_loop fuel) (Post n h (λ _ n' _,
    log n' = log n ∧ role n' = role n ∧ current_term n' = current_term n ∧
    commit_index n' = commit_index n ∧ commit_index n ≤ last_applied n')) n.
Proof using Hi.
  revert n h. induction fuel as [|fuel IH]; intros n h Hok Hf; cbn [apply_loop];
    apply wp_bind, wp_get.
  { rewrite decide_False by lia. apply wp_ret, Post_here; [done|]. split_and!; done || lia. }
  destruct (decide (last_applied n < commit_index n)) as [Hlt|Hge].
  - eapply wp_step; [by apply apply_next_ok|].
    intros [] n1 h1 Hok1 (El & Er & Et & Ec & Ea). eapply wp_mono; [apply IH; [done|lia]|].
    intros [] n2 (h2 & Hs2 & Hok2 & ? & ? & ? & ? & ?). exists h2.
    split_and!; done || congruence || lia.
  - apply wp_ret, Post_here; [done|]. split_and!; done || lia.
Qed.

Lemma apply_committed_entries_ok n h :
  ok n h →
  wp apply_committed_entries (Post n h (λ _ n' _,
    log n' = log n ∧ role n' = role n ∧ current_term n' = current_term n ∧
    commit_index n' = commit_index n ∧ commit_index n ≤ last_applied n')) n.
Proof using Hi. intros Hok. apply wp_bind, wp_get. by apply apply_loop_ok. Qed.

(** ** Committing *)

Lemma commit_loop_ok l n h :
  ok n h → role n = Leader → (∀ k, k ∈ l → k < length (log n)) →
  wp (commit_loop l) (Post n h (λ _ n' _,
    log n' = log n ∧ role n' = role n ∧ current_term n' = current_term n)) n.
Proof using Hi.
  revert n h. induction l as [|k l IH]; intros n h Hok Hr Hl; cbn [commit_loop].
  { by apply wp_ret, Post_here. }
  destruct (lookup_lt_is_Some_2 (log n) k) as [e He]; [apply Hl; by left|].
  apply wp_bind, wp_get, wp_bind. eapply wp_entry_at; [done|].
  eapply (wp_step _ _ _ _ (λ _ n1 _, log n1 = log n ∧ role n1 = role n ∧
    current_term n1 = current_term n)).
  - apply wp_when; [|by intros; apply Post_here].
    intros [Ht%bool_decide_eq_true Hm%bool_decide_eq_true]%andb_true_iff.
    apply wp_modify. exists h. split_and!; try done.
    + apply rtc_once. eapply (p_advance cluster i (view n) h k e); [done..|].
      by eapply ok_majority.
    + destruct Hok. split; try done. eapply at_step; [done|].
      eapply (p_advance cluster i (view n) h k e); [done..|].
      eapply ok_majority; [|exact Hm]. by split.
  - intros [] n1 h1 Hok1 (El & Er & Et). eapply wp_mono.
    + apply IH; [done|congruence|]. rewrite El. intros k' Hk'. apply Hl. by right.
    + intros [] n2 (h2 & Hs2 & Hok2 & ? & ? & ?). exists h2. split_and!; done || congruence.
Qed.

Lemma update_commit_index_ok n h :
  ok n h → role n = Leader →
  wp update_commit_index (Post n h (λ _ n' _,
    log n' = log n ∧ role n' = Leader ∧ current_term n' = current_term n)) n.
Proof using Hi.
  intros Hok Hr. unfold update_commit_index. apply wp_bind, wp_get.
  eapply wp_step; [apply commit_loop_ok; [done..|]|].
  { intros k Hk%elem_of_seq. lia. }
  intros [] n1 h1 Hok1 (El & Er & Et).
  apply wp_skip; [by apply persist_meta_harmless|done|]. intros _ n2 S2 Hok2.
  pose proof (same_view _ _ S2) as Hv. unfold view in Hv. injection Hv as V1 V2 V3 V4 V5 V6 V7 V8.
  eapply wp_mono; [by apply apply_committed_entries_ok|].
  intros [] n3 (h3 & Hs3 & Hok3 & ? & ? & ? & ?). exists h3. split_and!; done || congruence.
Qed.

(** ** Replicating *)

(** The request that a leader makes for a peer. *)
Lemma make_append_entries_ok peer n h (Q : AppendEntries → Node → Prop) :
  ok n h → role n = Leader → peer ∈ peers n →
  (∀ a, sendable (view n) peer (MAppendEntries a) → Q a n) →
  wp (make_append_entries peer) Q n.
Proof using Hi.
  intros Hok Hr Hp HQ. destruct (ok_next n h Hok peer Hr Hp) as (ni & Hni & Hpos & Hl).
  unfold make_append_entries. apply wp_bind, wp_get, wp_bind.
  eapply wp_lift_Some; [exact Hni|]. rewrite decide_False by lia. rewrite decide_False by lia.
  destruct (lookup_lt_is_Some_2 (log n) (ni - 1)) as [e He]; [lia|].
  apply wp_bind. eapply wp_entry_at; [done|]. apply wp_ret, HQ. split.
  - intros h'. rewrite (ok_id n h Hok). destruct ni as [|k]; [lia|].
    replace (S k - 1) with k in * by lia. apply (p_replicate cluster i (view n)); [|done..]. by apply (ok_peers n h Hok).
  - split; [apply (ok_term n h Hok)|]. by apply Forall_drop, (ok_plain n h Hok).
Qed.

Lemma replicate_peer_ok peer n h :
  ok n h → role n = Leader → peer ∈ peers n →
  wp (request ← make_append_entries peer; push peer (MAppendEntries request))
    (Post n h (λ _ n' _, same (n' <| outbox := outbox n |>) n)) n.
Proof using Hi.
  intros Hok Hr Hp. apply wp_bind. eapply make_append_entries_ok; [done..|].
  intros a Ha. eapply wp_mono; [by apply push_ok|].
  intros [] n' (h' & Hs & Hok' & ->). exists h'. split_and!; try done.
Qed.

(** A request is sent to every peer. *)
Lemma replicate_all_ok n h :
  ok n h → role n = Leader →
  wp (for_each (peers n) (λ peer,
        request ← make_append_entries peer; push peer (MAppendEntries request)))
    (Post n h (λ _ n' _, same (n' <| outbox := outbox n |>) n)) n.
Proof using Hi.
  intros Hok Hr. apply wp_each; [done..|]. intros peer n1 h1 Hp Hok1 S1.
  unfold same, core in S1. injection S1 as E1 E2 E3 E4 E5 E6 E7 E8 E9 E10 E11 E12.
  eapply wp_mono; [apply replicate_peer_ok; [done|congruence|]|].
  { by rewrite <-E2. }
  intros [] n2 (h2 & Hs2 & Hok2 & S2). exists h2. split_and!; try done.
  unfold same, core, view in *. cbn in *. injection S2. intros. congruence.
Qed.

(** The fields behind [same]. *)
Lemma same_fields (n n' : Node) :
  same (n' <| outbox := outbox n |>) n →
  id n = id n' ∧ peers n = peers n' ∧ log n = log n' ∧ role n = role n' ∧
  current_term n = current_term n' ∧ last_applied n = last_applied n'.
Proof using Type. unfold same, core, view. intros [=]. split_and!; congruence. Qed.

Lemma send_heartbeats_ok n h :
  ok n h → role n = Leader →
  wp send_heartbeats (Post n h (λ _ n' _, same (n' <| outbox := outbox n |>) n)) n.
Proof using Hi.
  intros Hok Hr. unfold send_heartbeats. apply wp_bind, wp_gets. by apply replicate_all_ok.
Qed.

(** A leader appends an entry of its term. *)
Lemma leader_push_ok e n h :
  ok n h → role n = Leader → term e = current_term n → plain e →
  wp (push_log_entry e) (Post n h (λ _ n' _,
    log n' = log n ++ [e] ∧ role n' = Leader ∧ current_term n' = current_term n ∧
    peers n' = peers n ∧ last_applied n' = last_applied n)) n.
Proof using Hi.
  intros Hok Hr Ht Hpl. destruct (push_log_entry_eq e n) as [ls E]. unfold Wp.wp. rewrite E.
  pose proof (p_append cluster i (view n) h e Hr Ht) as Hs.
  destruct (ok_commit n h Hok) as [_ Ha]. destruct Hok.
  eexists. split; [by apply rtc_once|]. split; [|done]. split; try done.
  - apply Forall_app. auto.
  - intros p _ Hp. destruct (ok_next0 p Hr Hp) as (ni & Hni & ?). exists ni. split; [done|].
    cbn. rewrite length_app. lia.
  - cbn. rewrite ok_db0. f_equal. rewrite !firstn_skipn_comm. f_equal.
    by rewrite take_app_le by lia.
  - by eapply at_step.
Qed.

(** What follows an append: commit alone, or ask the others. *)
Lemma append_command_ok c n h :
  ok n h → role n = Leader → allowed c →
  wp (append_command c) (Post n h (λ index n' _,
    index = length (log n) ∧ role n' = Leader ∧ current_term n' = current_term n ∧
    ∃ e, log n' = log n ++ [e] ∧ term e = current_term n ∧
      payload e = PCommand (new_record 0 c))) n.
Proof using Hi.
  intros Hok Hr Hc. unfold append_command. apply wp_bind, wp_get.
  rewrite decide_False by (by intros []). set (e := MkLogEntry _ _).
  eapply wp_step; [by apply (leader_push_ok e)|].
  intros [] n1 h1 Hok1 (El & Er & Et & Ep & Ea). apply wp_bind, wp_get.
  eapply (wp_step _ _ _ _ (λ _ n2 _, log n2 = log n1 ∧ role n2 = Leader ∧
    current_term n2 = current_term n1)).
  - destruct (decide (peers n1 = [])); [by apply update_commit_index_ok|].
    eapply wp_mono; [by apply replicate_all_ok|].
    intros [] n2 (h2 & Hs2 & Hok2 & S2%same_fields). exists h2. destruct_and!.
    split_and!; done || congruence.
  - intros [] n2 h2 Hok2 (? & ? & ?). apply wp_ret, Post_here; [done|].
    split_and!; try done; [congruence|]. exists e. split_and!; done || congruence.
Qed.

(** ** Elections *)

(** [m] with [v] for every key of [l]. *)
Definition set_all {V} (v : V) (l : list NodeId) (m : gmap NodeId V) : gmap NodeId V :=
  foldl (λ m p, <[p := v]> m) m l.
#[local] Arguments set_all : simpl never.

Lemma lookup_set_all {V} (v : V) l m p :
  set_all v l m !! p = if decide (p ∈ l) then Some v else m !! p.
Proof using Type.
  revert m. induction l as [|q l IH]; intros m.
  { by rewrite decide_False by (by apply not_elem_of_nil). }
  change (set_all v (q :: l) m) with (set_all v l (<[q := v]> m)). rewrite IH. destruct (decide (p = q)) as [->|Hne].
  - rewrite lookup_insert_eq, (decide_True (P := q ∈ q :: l)) by (by left).
    by destruct (decide (q ∈ l)).
  - rewrite lookup_insert_ne by done. destruct (decide (p ∈ l)) as [Hin|Hin].
    + by rewrite decide_True by (by right).
    + rewrite decide_False; [done|]. by intros [|]%elem_of_cons.
Qed.

(** The first request of a new leader, the same for every peer. *)
Definition probe (n : Node) (e : LogEntry) : AppendEntries :=
  {| ae_term := current_term n; ae_leader_id := id n;
     ae_prev_log_index := length (log n) - 1; ae_prev_log_term := term e;
     ae_entries := drop (length (log n)) (log n); ae_leader_commit := commit_index n |}.

Lemma become_leader_loop ps e (n : Node) :
  last (log n) = Some e →
  for_each ps (λ peer,
    modify (λ n : Node, n <| next_index := <[peer := length (log n)]> (next_index n) |>);;
    modify (λ n : Node, n <| match_index := <[peer := 0]> (match_index n) |>);;
    entries ← make_append_entries peer;
    push peer (MAppendEntries entries)) n =
  (Ok (), n <| next_index := set_all (length (log n)) ps (next_index n) |>
            <| match_index := set_all 0 ps (match_index n) |>
            <| outbox := outbox n ++ ((λ p, (p, MAppendEntries (probe n e))) <$> ps) |>).
Proof using Type.
  intros He. assert (Hl : 0 < length (log n)).
  { destruct (log n); [done|cbn; lia]. }
  assert (Hlast : log n !! (length (log n) - 1) = Some e).
  { rewrite <-He, last_lookup. f_equal. lia. }
  revert n He Hl Hlast. induction ps as [|p ps IH]; intros n He Hl Hlast.
  { cbn. rewrite app_nil_r. by destruct n. }
  cbn [for_each]. erewrite bind_Ok; cycle 1.
  { erewrite bind_Ok by reflexivity. erewrite bind_Ok by reflexivity.
    erewrite bind_Ok; cycle 1.
    { unfold make_append_entries. erewrite bind_Ok by reflexivity. cbn [next_index log upd upd_next_index upd_match_index].
      rewrite lookup_insert_eq. erewrite bind_Ok by reflexivity.
      rewrite decide_False by lia. rewrite decide_False by lia.
      erewrite bind_Ok by (by apply entry_at_eq). reflexivity. }
    reflexivity. }
  rewrite IH by done. cbn. by rewrite <-app_assoc.
Qed.

Lemma become_leader_ok now n h :
  ok n h → role n = Candidate → size cluster < 2 * size (votes_received n) →
  wp (become_leader now) (Post n h (λ _ n' _, log n' = log n)) n.
Proof using Hi.
  intros Hok Hr Hq. destruct (ok_last n h Hok) as (e & He & Hlast).
  unfold become_leader. apply wp_bind, wp_modify, wp_bind, wp_gets.
  set (n0 := _ <| leader_id := _ |>). apply wp_bind. unfold Wp.wp.
  rewrite (become_leader_loop _ e) by done.
  set (n1 := n0 <| next_index := set_all (length (log n0)) (peers n0) (next_index n0) |>
                <| match_index := set_all 0 (peers n0) (match_index n0) |>).
  assert (Hmatch : match_index n1 = gset_to_gmap 0 (cluster ∖ {[ i ]})).
  { apply map_eq. intros p. unfold n1. cbn. rewrite lookup_set_all, lookup_gset_to_gmap.
    pose proof (ok_peers n h Hok p) as Hp. pose proof (ok_match n h Hok p) as Hm.
    destruct (decide (p ∈ peers n)) as [Hin|Hin].
    - rewrite option_guard_True; [done|]. set_solver.
    - rewrite option_guard_False; [|set_solver]. apply eq_None_not_Some. auto. }
  assert (Hs : pmove (view n, h) (view n1, elected h i (current_term n) (log n))).
  { pose proof (p_win cluster i (view n) h Hr Hq) as Hw. unfold pmove. cbn [fst snd].
    unfold view. rewrite Hmatch. exact Hw. }
  assert (Hok1 : ok n1 (elected h i (current_term n) (log n))).
  { pose proof (ok_length n h Hok). destruct Hok. split; try done; cycle -1.
    - by eapply at_step.
    - intros p _ Hp. exists (length (log n)). split; [|change (log n1) with (log n); lia].
      unfold n1. cbn. by rewrite lookup_set_all, decide_True.
    - intros p. unfold n1. cbn. rewrite lookup_set_all. destruct (decide (p ∈ peers n)); auto. }
  destruct (push_all n1 _ ((λ p, (p, MAppendEntries (probe n0 e))) <$> peers n) Hok1)
    as (h2 & Hs2 & Hok2).
  { apply Forall_fmap, Forall_forall. intros p Hp. cbn. split.
    - intros h'. unfold probe. rewrite (ok_id n1 _ Hok1 : id n0 = i).
      pose proof (ok_length n h Hok) as Hl.
      assert (Hpi : p ≠ i) by (by apply (ok_peers n h Hok)).
      pose proof (p_replicate cluster i (view n1) h' p (length (log n) - 1) e Hpi eq_refl Hlast)
        as Hr1. by replace (S (length (log n) - 1)) with (length (log n)) in Hr1 by lia.
    - split; [apply (ok_term n h Hok)|]. cbn. by rewrite drop_ge. }
  apply wp_modify. exists h2. split_and!.
  - eapply rtc_l; [exact Hs|]. exact Hs2.
  - eapply ok_same; [|exact Hok2]. done.
  - done.
Qed.

(** A campaign, if a term is left. *)
Lemma start_election_ok now n h :
  ok n h → (current_term n < B)%Z → (B ≤ u64_max)%Z →
  wp (start_election now) (Post n h (λ _ _ _, True)) n.
Proof using Hi.
  intros Hok Ht HB. destruct (ok_inv n h Hok) as (f & Hf & Hfi & Hn).
  pose proof (ni_term _ _ _ _ _ Hn) as Ht0. cbn in Ht0.
  unfold start_election. do 3 (apply wp_bind, wp_modify).
  set (n1 := _ <| voted_for := _ |>).
  apply wp_bind. destruct (persist_meta_harmless n1) as ([] & n2 & E2 & S2).
  unfold Wp.wp at 1. rewrite E2. apply wp_bind, wp_modify.
  set (n3 := n2 <| votes_received := _ |>).
  set (h1 := h <| vlog := <[(i, (current_term n + 1)%Z) := (i, log n)]> (vlog h) |>).
  assert (Hwrap : wrap 64 (current_term n + 1) = (current_term n + 1)%Z).
  { apply wrap_small. unfold in_u, u64_max in *. lia. }
  unfold same, core in S2. injection S2 as E3 E4 E5 E6 E7 E8 E9 E10 E11 E12 E13 E14 E15.
  rewrite Hwrap in E8. rewrite (ok_id n h Hok) in E3, E9.
  assert (Hv : view n3 =
    {| p_term := current_term n + 1; p_vote := Some i; p_log := log n; p_role := Candidate;
       p_votes := {[ i ]}; p_match := match_index n; p_commit := commit_index n;
       p_applied := last_applied n |}).
  { unfold view, n3. cbn. by rewrite E3, E8, E9, E10, E11, E13, E14, E15. }
  assert (Hs : pmove (view n, h) (view n3, h1)).
  { unfold pmove. cbn [fst snd]. rewrite Hv. apply (p_campaign cluster i (view n)). }
  assert (Hok3 : ok n3 h1).
  { destruct Hok.
    split; unfold n3; cbn; rewrite ?E3, ?E4, ?E5, ?E6, ?E7, ?E8, ?E10, ?E11, ?E13, ?E15; try done.
    { lia. }
    pose proof (at_step _ _ _ _ ok_at0 Hs) as Hat. unfold n3 in Hat. by rewrite E3 in Hat. }
  assert (Hrole : role n3 = Candidate) by (by injection Hv).
  eapply wp_Post_before; [by apply rtc_once|]. apply wp_bind, wp_get.
  destruct (decide (majority (peers n3) ≤ size (votes_received n3))) as [Hm|_].
  - eapply wp_mono; [apply become_leader_ok; [done..|]|].
    + by eapply ok_majority.
    + intros [] n4 (h4 & Hs4 & Hok4 & _). exists h4. done.
  - apply wp_skip; [by apply reset_election_timeout_harmless|done|]. intros _ n4 S4 Hok4.
    apply wp_bind. apply last_index_ok; [by eapply ok_length|]. destruct (ok_last n4 h1 Hok4) as (e & He & Hlast).
    apply wp_bind. eapply wp_entry_at; [done|]. apply wp_bind, wp_get.
    apply (same_view n3 n4) in S4.
    assert (Hr4 : role n4 = Candidate) by (unfold view in S4; injection S4; congruence).
    eapply wp_mono; [apply (wp_each (λ n5, view n5 = view n4)); [done..|]|].
    + intros p n5 h5 _ Hok5 Hv5. eapply wp_mono; [apply push_ok; [done|]|].
      * split; [|apply (ok_term n4 h1 Hok4)]. intros h6. rewrite Hv5, (ok_id n4 h1 Hok4).
        by apply (p_request_vote cluster i (view n4)).
      * intros [] n6 (h6 & Hs6 & Hok6 & ->). by exists h6.
    + intros [] n5 (h5 & Hs5 & Hok5 & _). by exists h5.
Qed.

(** ** Handlers of messages *)

Lemma moves_sent x y m : rtc pmove x y → m ∈ sent x.2 → m ∈ sent y.2.
Proof using Type.
  induction 1 as [|x y z Hs _ IH]; [done|]. intros Hm. apply IH.
  destruct Hs; cbn; try done; by right.
Qed.

(** What was sent stays sent. *)
Lemma wp_sent {A} (m : M Node A) n h (E : A → Node → History → Prop) x :
  wp m (Post n h E) n → x ∈ sent h →
  wp m (Post n h (λ a n' h', E a n' h' ∧ x ∈ sent h')) n.
Proof using Type.
  intros Hm Hx. eapply wp_mono; [exact Hm|]. intros a n' (h' & Hs & Hok & He).
  exists h'. split_and!; try done. by apply (moves_sent _ _ _ Hs).
Qed.

(** An answer is sent before the program returns it. *)
Lemma Post_send {A} n h to m (E : A → Node → History → Prop) a :
  ok n h → sendable (view n) to m → (∀ h', (to, m) ∈ sent h' → E a n h') → Post n h E a n.
Proof using Hi.
  intros Hok Hs He. destruct (ok_send n h to m Hok Hs) as (h' & Hm & Hin & Hok').
  exists h'. split_and!; [by apply rtc_once|done|auto].
Qed.

(** [step_down], if the other side knows a later term. *)
Lemma catch_up_ok t now n h m :
  ok n h → m ∈ sent h → (t ≤ B)%Z → ¬ (t < current_term n)%Z →
  wp (when (bool_decide (current_term n < t)%Z) (step_down t now))
    (Post n h (λ _ n1 h1, m ∈ sent h1 ∧ current_term n1 = t)) n.
Proof using Hi.
  intros Hok Hm HtB Ht. apply wp_when.
  - intros Hlt%bool_decide_eq_true. eapply wp_mono; [apply step_down_ok; [done|lia]|].
    intros [] n1 (h1 & Hs1 & Hok1 & _ & Et & _). exists h1.
    split_and!; try done. by apply (moves_sent _ _ _ Hs1).
  - intros Hge%bool_decide_eq_false. apply Post_here; [done|]. split; [done|lia].
Qed.

Lemma handle_request_vote_ok request now n h :
  ok n h → (i, MRequestVote request) ∈ sent h →
  wp (handle_request_vote request now) (Post n h (λ response _ h',
    (rv_candidate_id request, MRequestVoteResponse response) ∈ sent h')) n.
Proof using Hi.
  intros Hok Hm. unfold handle_request_vote. apply wp_bind, wp_get.
  assert (Hno : ∀ n1 h1, ok n1 h1 → Post n1 h1 (λ response _ h',
    (rv_candidate_id request, MRequestVoteResponse response) ∈ sent h') (vote_response n1 false) n1).
  { intros n1 h1 Hok1. eapply Post_send; [done| |done].
    split; [|by apply (ok_term n1 h1)]. intros h'. by apply p_other. }
  pose proof (ok_static n h Hok _ _ Hm : rv_term request ≤ B)%Z as HtB.
  destruct (decide (rv_term request < current_term n)%Z) as [|Hge].
  { by apply wp_ret, Hno. }
  eapply wp_step; [by apply catch_up_ok|]. intros [] n1 h1 Hok1 [Hm1 Et].
  apply wp_bind, wp_get. destruct (negb _) eqn:Hcan; [by apply wp_ret, Hno|].
  apply wp_bind, last_index_ok; [by eapply ok_length|].
  destruct (ok_last n1 h1 Hok1) as (e & He & Hlast). apply wp_bind. eapply wp_entry_at; [done|].
  destruct (negb (_ || _)) eqn:Hup; [by apply wp_ret, Hno|].
  apply negb_false_iff in Hcan, Hup. apply wp_bind, wp_modify.
  assert (Hvote : voted_for n1 = None ∨ voted_for n1 = Some (rv_candidate_id request)).
  { destruct (voted_for n1); [right|by left]. apply bool_decide_eq_true in Hcan. by subst. }
  assert (Hup' : (term e < rv_last_log_term request)%Z ∨
    rv_last_log_term request = term e ∧ length (log n1) - 1 ≤ rv_last_log_index request).
  { apply orb_true_iff in Hup as [?%bool_decide_eq_true|Hup]; [by left|right].
    apply andb_true_iff in Hup as [?%bool_decide_eq_true ?%bool_decide_eq_true]. done. }
  pose proof (p_grant cluster i (view n1) h1 request e Hm1 (eq_sym Et) Hvote He Hup') as Hs.
  set (n2 := n1 <| voted_for := _ |>). match type of Hs with pstep _ _ _ _ _ ?h' => set (h2 := h') in Hs end.
  assert (Hok2 : ok n2 h2).
  { destruct Hok1. split; try done.
    - intros x Hx. right. auto.
    - intros to m [[= -> ->]|]%elem_of_cons; [done|eauto].
    - by eapply at_step. }
  eapply wp_Post_before; [by apply rtc_once|].
  apply wp_skip; [by apply persist_meta_harmless|done|]. intros _ n3 S3 Hok3.
  apply wp_skip; [by apply reset_election_timeout_harmless|done|]. intros _ n4 S4 Hok4.
  assert (view n4 = view n2) as E by (by rewrite (same_view _ _ S4), (same_view _ _ S3)).
  assert (vote_response n4 true =
    {| vr_term := p_term (view n1); vr_voter_id := i; vr_vote_granted := true |}) as Hresp.
  { unfold vote_response. rewrite (ok_id n4 _ Hok4). f_equal. unfold view in E. by injection E. }
  apply wp_bind, wp_get, wp_ret, Post_here; [done|]. rewrite Hresp. by left.
Qed.

Lemma handle_vote_response_ok response now n h :
  ok n h → (i, MRequestVoteResponse response) ∈ sent h →
  wp (handle_vote_response response now) (Post n h (λ _ _ _, True)) n.
Proof using Hi.
  intros Hok Hm. pose proof (ok_static n h Hok _ _ Hm : vr_term response ≤ B)%Z as HtB.
  unfold handle_vote_response. apply wp_bind, wp_get.
  destruct (decide (current_term n < vr_term response)%Z) as [Hlt|Hge1].
  { eapply wp_mono; [apply step_down_ok; [done|lia]|]. intros [] n1 (h1 & ? & ? & _). by exists h1. }
  destruct (decide (vr_term response < current_term n)%Z) as [Hlt|Hge2]; [by apply wp_ret, Post_here|].
  destruct (decide (role n ≠ Candidate)) as [Hr|Hr%dec_stable]; [by apply wp_ret, Post_here|].
  eapply (wp_step _ _ _ _ (λ _ n1 _, role n1 = Candidate)).
  - apply wp_when; [|intros; by apply Post_here]. intros Hg. apply wp_modify.
    set (n2 := n <| votes_received := _ |>).
    assert (Hs : pstep cluster i (view n) h (view n2) h)
      by (apply (p_count_vote cluster i (view n) h response); done || cbn; lia).
    exists h. split; [by apply rtc_once|]. split; [|done].
    destruct Hok. split; try done. by eapply at_step.
  - intros [] n1 h1 Hok1 Hr1. apply wp_bind, wp_get.
    destruct (decide _) as [Hmaj|_]; [|by apply wp_ret, Post_here].
    eapply wp_mono; [apply become_leader_ok; [done..|by eapply ok_majority]|].
    intros [] n2 (h2 & ? & ? & _). by exists h2.
Qed.

(** The leader's entries are matched against the log. *)
Lemma accept_ok m n h e :
  ok n h → (i, MAppendEntries m) ∈ sent h → current_term n = ae_term m → role n = Follower →
  log n !! ae_prev_log_index m = Some e → term e = ae_prev_log_term m →
  let log' := merge_log (log n) (S (ae_prev_log_index m)) (ae_entries m) in
  0 < length log' ∧
  ∀ ls, let n' := n <| log := log' |> <| log_store := ls |>
                    <| commit_index := ae_leader_commit m `min` (length log' - 1) |> in
  ∃ h', rtc pmove (view n, h) (view n', h') ∧ ok n' h' ∧
    (ae_leader_id m, MAppendEntriesResponse
      (append_response n' true (ae_prev_log_index m + length (ae_entries m)))) ∈ sent h'.
Proof using Hi.
  intros Hok Hm Ht Hr He Hpt log'. destruct (ok_inv n h Hok) as (f & Hf & Hfi & _).
  assert (Hap : take (S (last_applied n)) log' = take (S (last_applied n)) (log n)).
  { pose proof (accept_applied sentinel cluster sentinel_term f h i m e Hf Hi Hm) as Ha.
    rewrite Hfi in Ha. by apply Ha. }
  assert (Hlen : 0 < length log').
  { apply (f_equal length) in Hap. rewrite !length_take in Hap.
    pose proof (ok_length n h Hok). lia. }
  split; [done|]. intros ls n'.
  pose proof (p_accept cluster i (view n) h m e Hm (eq_sym Ht) Hr He Hpt) as Hs.
  eexists. split; [apply rtc_once; exact Hs|]. split.
  - destruct Hok. split; try done.
    + intros x Hx. right. auto.
    + apply merge_log_Forall; [done|]. by destruct (ok_static0 _ _ Hm).
    + intros to m' [[= -> ->]|]%elem_of_cons; [done|eauto].
    + intros p Hr'. cbn in Hr'. congruence.
    + cbn. rewrite ok_db0, !firstn_skipn_comm. f_equal. cbn. by rewrite Hap.
    + by eapply at_step.
  - unfold append_response, n'. cbn. rewrite (ok_id n h Hok). by left.
Qed.

Lemma refuse_sendable n h to k :
  ok n h → to ≠ i → sendable (view n) to (MAppendEntriesResponse (append_response n false k)).
Proof using Type.
  intros Hok Hto. split; [|apply (ok_term n h Hok)]. intros h'. apply p_other. cbn.
  split_and!; [done|by eapply ok_id|done].
Qed.

Lemma handle_append_entries_ok m now n h :
  ok n h → (i, MAppendEntries m) ∈ sent h →
  wp (handle_append_entries m now) (Post n h (λ response _ h',
    (ae_leader_id m, MAppendEntriesResponse response) ∈ sent h')) n.
Proof using Hi.
  intros Hok Hm. destruct (ok_static n h Hok _ _ Hm) as [HtB _]. unfold handle_append_entries. apply wp_bind, wp_get.
  assert (Hto : ae_leader_id m ≠ i).
  { destruct (ok_inv n h Hok) as (f & Hf & _). by destruct (inv_msgs _ _ _ _ Hf _ _ Hm). }
  assert (Hno : ∀ n1 h1 k, ok n1 h1 →
    Post n1 h1 (λ response _ h', (ae_leader_id m, MAppendEntriesResponse response) ∈ sent h')
      (append_response n1 false k) n1).
  { intros n1 h1 k Hok1. eapply Post_send; [done|by eapply refuse_sendable|done]. }
  destruct (decide (ae_term m < current_term n)%Z) as [Hlt|Hge].
  { apply wp_bind, last_index_ok; [by eapply ok_length|]. by apply wp_ret, Hno. }
  eapply wp_step; [by apply catch_up_ok|]. intros [] n1 h1 Hok1 [Hm1 Et].
  apply wp_bind, wp_modify. set (n2 := _ <| leader_id := _ |>).
  assert (Hs : pmove (view n1, h1) (view n2, h1))
    by (apply (p_follow cluster i (view n1) h1 (votes_received n1) (match_index n1))).
  assert (Hok2 : ok n2 h1).
  { destruct Hok1. split; try done. by eapply at_step. }
  eapply wp_Post_before; [by apply rtc_once|].
  apply wp_skip; [by apply reset_election_timeout_harmless|done|]. intros _ n3 S3 Hok3.
  apply (same_view n2 n3) in S3. apply wp_bind, wp_get.
  destruct (decide (length (log n3) ≤ ae_prev_log_index m)) as [Hshort|Hlong].
  { apply wp_bind, last_index_ok; [by eapply ok_length|]. by apply wp_ret, Hno. }
  destruct (lookup_lt_is_Some_2 (log n3) (ae_prev_log_index m)) as [e He]; [lia|].
  apply wp_bind. eapply wp_entry_at; [done|].
  destruct (decide (term e ≠ ae_prev_log_term m)) as [Hne|Hpt%dec_stable].
  { apply wp_bind, last_index_ok; [by eapply ok_length|]. by apply wp_ret, Hno. }
  assert (current_term n3 = ae_term m ∧ role n3 = Follower) as [Et3 Er3].
  { unfold view in S3. injection S3 as V1 _ _ V4 _ _ _ _. by rewrite V1, V4. }
  destruct (accept_ok m n3 h1 e Hok3 Hm1 Et3 Er3 He Hpt) as [Hlen Hacc].
  destruct (append_loop_eq (S (ae_prev_log_index m)) (ae_entries m) n3) as [ls Els].
  apply wp_bind. unfold Wp.wp at 1. rewrite Els. apply wp_bind, last_index_ok; [done|].
  apply wp_bind, wp_modify. destruct (Hacc ls) as (h4 & Hs4 & Hok4 & Hack).
  set (n4 := _ <| commit_index := _ |>) in *. eapply wp_Post_before; [exact Hs4|].
  apply wp_skip; [by apply persist_meta_harmless|done|]. intros _ n5 S5 Hok5.
  apply (same_view n4 n5) in S5.
  eapply wp_step; [apply wp_sent; [by apply apply_committed_entries_ok|exact Hack]|].
  intros [] n6 h6 Hok6 ((_ & _ & Etm & _) & Hack6). apply wp_bind, wp_get, wp_ret, Post_here; [done|].
  enough (append_response n6 true (ae_prev_log_index m + length (ae_entries m)) =
          append_response n4 true (ae_prev_log_index m + length (ae_entries m))) as -> by done.
  unfold append_response. rewrite (ok_id n6 _ Hok6), (ok_id n4 _ Hok4), Etm. f_equal.
  unfold view in S5. by injection S5.
Qed.

Lemma handle_append_entries_response_ok m now n h :
  ok n h → (i, MAppendEntriesResponse m) ∈ sent h →
  wp (handle_append_entries_response m now) (Post n h (λ _ _ _, True)) n.
Proof using Hi.
  intros Hok Hm. pose proof (ok_static n h Hok _ _ Hm : ar_term m ≤ B)%Z as HtB.
  unfold handle_append_entries_response. apply wp_bind, wp_get.
  destruct (ok_inv n h Hok) as (f & Hf & Hfi & Hn).
  destruct (inv_msgs _ _ _ _ Hf _ _ Hm) as (Hfc & Hfi' & Hack).
  destruct (decide (current_term n < ar_term m)%Z) as [Hlt|Hge1].
  { eapply wp_mono; [apply step_down_ok; [done|lia]|]. intros [] n1 (h1 & ? & ? & _). by exists h1. }
  destruct (decide (role n ≠ Leader)) as [Hr|Hr%dec_stable]; [by apply wp_ret, Post_here|].
  destruct (decide (ar_term m < current_term n)%Z) as [Hlt|Hge2]; [by apply wp_ret, Post_here|].
  assert (Ht : ar_term m = current_term n) by lia.
  assert (Hp : ar_follower_id m ∈ peers n) by (by apply (ok_peers n h Hok)).
  destruct (ar_success m) eqn:Hsucc.
  - apply wp_bind, wp_modify, wp_bind, wp_modify. set (n1 := _ <| next_index := _ |>).
    assert (Hs : pstep cluster i (view n) h (view n1) h)
      by (by apply (p_count_ack cluster i (view n) h m)).
    assert (Hlen : ar_match_index m < length (log n)).
    { destruct (Hack eq_refl) as (_ & Lt & HLt & Hlt).
      destruct (ni_leader _ _ _ _ _ Hn Hr) as (_ & HL & _). cbn in HL. rewrite Ht in HLt. congruence. }
    assert (Hok1 : ok n1 h).
    { destruct Hok. split; try done.
      - intros p _ Hpp. unfold n1. cbn. destruct (decide (p = ar_follower_id m)) as [->|Hne].
        + eexists. rewrite lookup_insert_eq. split; [done|lia].
        + rewrite lookup_insert_ne by done. by apply ok_next0.
      - intros p. unfold n1. cbn. intros [<-|[_ ?]]%lookup_insert_is_Some; auto.
      - by eapply at_step. }
    eapply wp_Post_before; [by apply rtc_once|].
    eapply wp_mono; [by apply update_commit_index_ok|].
    intros [] n2 (h2 & ? & ? & _). by exists h2.
  - destruct (ok_next n h Hok _ Hr Hp) as (ni & Hni & Hpos & Hle).
    apply wp_bind. eapply wp_lift_Some; [exact Hni|].
    eapply (wp_step _ _ _ _ (λ _ n1 _, role n1 = Leader ∧ peers n1 = peers n)).
    + apply wp_when; [|intros; by apply Post_here]. intros Hgt%bool_decide_eq_true.
      apply wp_modify. set (n1 := n <| next_index := _ |>). exists h.
      split; [done|]. split; [|done]. destruct Hok. split; try done.
      intros p _ Hpp. unfold n1. cbn. destruct (decide (p = ar_follower_id m)) as [->|Hne].
      * eexists. rewrite lookup_insert_eq. split; [done|lia].
      * rewrite lookup_insert_ne by done. by apply ok_next0.
    + intros [] n1 h1 Hok1 [Hr1 Ep]. eapply wp_mono; [apply replicate_peer_ok; [done..|]|].
      * by rewrite Ep.
      * intros [] n2 (h2 & ? & ? & _). by exists h2.
Qed.

(** ** Clients and time *)

(** [send] as the last thing that is done. *)
Lemma send_last n h r success value message leader term node role peers :
  ok n h →
  wp (send r success value message leader term node role peers) (Post n h (λ _ _ _, True)) n.
Proof using Hi.
  intros Hok. eapply wp_mono; [by apply send_ok|]. intros [] n1 (h1 & ? & ? & _). by exists h1.
Qed.

Lemma submit_store_write_ok c r n h :
  ok n h → allowed c → wp (submit_store_write c r) (Post n h (λ _ _ _, True)) n.
Proof using Hi.
  intros Hok Hc. unfold submit_store_write. apply wp_bind, wp_get.
  destruct (decide (role n ≠ Leader)) as [Hr|Hr%dec_stable]; [by apply send_last|].
  eapply wp_step; [by apply append_command_ok|].
  intros index n1 h1 Hok1 (-> & Hr1 & Et & e & El & _).
  apply wp_bind. eapply wp_entry_at.
  { rewrite El, lookup_app_r, Nat.sub_diag by done. reflexivity. }
  apply wp_bind, wp_get. destruct (decide _); [by apply send_last|].
  apply wp_modify. eapply Post_same; [|by apply (ok_same n1)|done]. done.
Qed.

Context `{!KvPure D}.

Lemma kv_get_ok key n h :
  ok n h →
  wp (attempt (zoom db (kv_get key))) (Post n h (λ _ n' _, n' = n)) n.
Proof using KvPure0.
  intros Hok. apply wp_db_op.
  - intros msg d' E. split; [apply Hok|]. exists (last_applied n). left. rewrite <-(ok_db n h Hok). by exists key, msg, d'.
  - intros r. rewrite kv_get_pure. assert (n <| db := db n |> = n) as -> by by destruct n.
    by apply Post_here.
Qed.

(** What a client may ask for. *)
Definition request_ok (request : StoreRequest) : Prop :=
  match to_command (operation request) with Some c => allowed c | None => True end.

Lemma handle_store_request_ok request now n h :
  ok n h → request_ok request → wp (handle_store_request request now) (Post n h (λ _ _ _, True)) n.
Proof using Hi KvPure0.
  intros Hok Hc. unfold handle_store_request, request_ok in *. destruct (operation request) as [k v|k|k|].
  - by apply submit_store_write_ok.
  - by apply submit_store_write_ok.
  - eapply wp_step; [by apply kv_get_ok|]. intros r n1 h1 Hok1 ->.
    apply wp_bind, wp_get. destruct r; by apply send_last.
  - apply wp_bind, wp_get. by apply send_last.
Qed.

(** A term is left for a campaign. *)
Definition terms_left (n : Node) : Prop := (current_term n < B ≤ u64_max)%Z.

Lemma tick_ok now n h :
  ok n h → terms_left n → wp (tick now) (Post n h (λ _ _ _, True)) n.
Proof using Hi.
  intros Hok Ht. unfold tick. apply wp_bind, wp_get.
  assert (He : wp (when (bool_decide (election_deadline n ≤ now)%Z) (start_election now))
    (Post n h (λ _ _ _, True)) n).
  { apply wp_when; [|intros; by apply Post_here]. intros _. by destruct Ht; apply start_election_ok. }
  destruct (role n) eqn:Hr; [done..|].
  apply wp_when; [|intros; by apply Post_here]. intros _.
  eapply wp_step; [by apply send_heartbeats_ok|]. intros [] n1 h1 Hok1 _.
  apply wp_modify. eapply Post_same; [|by apply (ok_same n1)|done]. done.
Qed.

Lemma restart_ok now n h :
  ok n h → wp (restart now) (Post n h (λ _ _ _, True)) n.
Proof using Hi.
  intros Hok. unfold restart. apply wp_bind, wp_modify. set (n1 := _ <| pending_requests := _ |>).
  assert (Hs : pmove (view n, h) (view n1, h)) by (apply (p_follow cluster i (view n) h ∅ ∅)).
  assert (Hok1 : ok n1 h).
  { destruct Hok. split; try done.
    - intros x Hx. by apply elem_of_nil in Hx.
    - intros p. unfold n1. cbn. rewrite lookup_empty. by intros [].
    - by eapply at_step. }
  eapply wp_Post_before; [by apply rtc_once|].
  eapply wp_mono; [apply wp_harmless; [apply reset_election_timeout_harmless|done]|].
  intros [] n2 (h2 & ? & ? & _). by exists h2.
Qed.

(** A command that is submitted to the node itself. *)
Lemma submit_command_ok c now n h :
  ok n h → allowed c → wp (submit_command c now) (Post n h (λ _ _ _, True)) n.
Proof using Hi.
  intros Hok Hc. unfold submit_command. cbn [handle_message]. apply wp_bind, wp_get.
  destruct (decide (role n = Leader)).
  - eapply wp_step; [by apply append_command_ok|]. intros k n1 h1 Hok1 _.
    by apply wp_ret, Post_here.
  - destruct (leader_id n) as [l|]; [|by apply wp_ret, Post_here].
    eapply wp_mono; [by apply push_ok, client_sendable|].
    intros [] n1 (h1 & ? & ? & _). by exists h1.
Qed.

(** ** [handle_message] *)

(** A message that the node may receive: one that was sent to it, or one from
    outside of the cluster. *)
Definition receivable (h : History) (m : Message) : Prop :=
  (i, m) ∈ sent h ∨ client m ∨ m = MTimeout.

Lemma handle_message_ok m now n h :
  ok n h → receivable h m → (m = MTimeout → terms_left n) →
  wp (handle_message m now) (Post n h (λ _ _ _, True)) n.
Proof using Hi KvPure0.
  intros Hok Hm Ht.
  assert (Hst : m = MTimeout ∨ static m ∧ ((i, m) ∈ sent h ∨ client m)).
  { destruct Hm as [Hm|[Hm| ->]]; [right|right|by left]; (split; [|by auto]).
    - by eapply ok_static.
    - by destruct m. }
  destruct Hst as [->|[Hst Hin]]; [destruct (Ht eq_refl); by apply start_election_ok|].
  destruct m; cbn [handle_message]; cbn in Hst, Hin.
  - destruct Hin as [Hin|[]]. eapply wp_step; [by apply handle_request_vote_ok|].
    intros r n1 h1 Hok1 Hr. by apply push_sent.
  - destruct Hin as [Hin|[]]. by apply handle_vote_response_ok.
  - destruct Hin as [Hin|[]]. eapply wp_step; [by apply handle_append_entries_ok|].
    intros r n1 h1 Hok1 Hr. by apply push_sent.
  - destruct Hin as [Hin|[]]. by apply handle_append_entries_response_ok.
  - by apply (submit_command_ok c now).
  - apply handle_store_request_ok; [done|]. unfold request_ok. cbn. by destruct (cr_command m).
  - by apply handle_store_request_ok.
  - by apply handle_store_request_ok.
  - by apply wp_ret, Post_here.
  - done.
  - done.
  - done.
Qed.

End sim.
