(* ===== verification/Journal.v ===== *)
(** A small database for examples: the list of the commands it was given. *)

From S2P Require Import Prelude Bytes Float LogRecord RaftTypes LogStore RaftNode RaftSim.

Definition journal : KvStore (list Command) := {|
  kv_insert key value := modify (cons (Set_ key value));
  kv_delete key := modify (cons (Delete key));
  kv_get key := cs ← get;
    mret (c ← head (filter (λ c, command_key c = key) cs); command_value c);
|}.

Definition fixed_millis : RandomMillis := λ _ _, 150%Z.

Section journal.
#[local] Existing Instance journal.

Lemma journal_pure : KvPure (list Command).
Proof. done. Qed.

End journal.
