(* ===== verification/Runtime.v ===== *)
(** [src/runtime/runtime.rs] and [ServiceOperation] of [src/runtime/service.rs]:
    one turn of the loop that runs a node. *)

From S2P Require Import Prelude Bytes Float LogRecord RaftTypes LogStore RaftNode.

Inductive ServiceOperation : Type :=
  | SvcSet (key : str) (value : Value)
  | SvcDelete (key : str)
  | SvcGet (key : str)
  | SvcStatus
  | SvcAddNode (id : Z) (addr : str)
  | SvcRemoveNode (id : Z).

Record ServiceRequest : Type := MkServiceRequest {
  svc_operation : ServiceOperation;
  response_tx : nat;
}.

(** What [select!] found ready. *)
Inductive Incoming : Type :=
  | InMessage (msg : Message)
  | InService (request : ServiceRequest)
  | InTick.

(** The answer to a membership request: it was submitted. *)
Definition submitted (message : str) : ServiceResponse :=
  {| sr_success := true; sr_value := None; sr_message := message; sr_leader_id := None;
     sr_term := 0 |}.

Definition is_timeout (m : Message) : bool :=
  match m with MTimeout => true | _ => false end.

Section runtime.
Context {D : Type} `{!KvStore D} `{!F64Text} `{!Bincode} `{!RandomMillis}.

Abbreviation Node := (RaftNode D).

(** [flush_outbox]: the messages handed to the transport. *)
Definition flush_outbox : M Node (list (NodeId * Message)) :=
  messages ← gets outbox;
  modify (λ n : Node, n <| outbox := [] |>);;
  mret (filter (λ x, is_timeout x.2 = false) messages).

Definition handle_service_request (request : ServiceRequest) (now : Instant) : M Node () :=
  let answer message :=
    modify (λ n : Node,
      n <| replies := replies n ++ [(response_tx request, submitted message)] |>) in
  let store op :=
    handle_store_request
      {| operation := op; responder := Oneshot (response_tx request) |} now in
  match svc_operation request with
  | SvcAddNode id addr =>
      handle_message (MAddNode {| an_id := MkNodeId id; an_addr := addr |}) now;;
      answer (lit "Add-node request submitted to Raft")
  | SvcRemoveNode id =>
      handle_message (MRemoveNode {| rn_id := MkNodeId id |}) now;;
      answer (lit "Remove-node request submitted to Raft")
  | SvcSet key value => store (OpSet key value)
  | SvcDelete key => store (OpDelete key)
  | SvcGet key => store (OpGet key)
  | SvcStatus => store OpStatus
  end.

(** One turn of the loop of [Runtime::start]: the handler, then [flush_outbox]. *)
Definition turn (event : Incoming) (now : Instant) : M Node (list (NodeId * Message)) :=
  match event with
  | InMessage msg => handle_message msg now
  | InService request => handle_service_request request now
  | InTick => tick now
  end;;
  flush_outbox.

End runtime.
