(* ===== verification/NodeSpec.v ===== *)
(** What single handlers of [RaftNode.v] decide, on any node: votes, the commit
    rule, and requests that are dropped. *)

From S2P Require Import Prelude Wp Bytes Float LogRecord RaftTypes LogStore RaftNode Protocol.
From S2P Require Import RaftSim Journal Runtime.

Section spec.
Context {D : Type} `{!KvStore D} `{!F64Text} `{!Bincode} `{!RandomMillis}.

Abbreviation Node := (RaftNode D).

(** ** Programs that only send, save and set timers *)

(** Everything but the outbox, the timers, the files and the answers. *)
Definition quiet (n n' : Node) : Prop :=
  (id n', peers n', next_index n', db n', view n') = (id n, peers n, next_index n, db n, view n).

#[local] Instance quiet_preorder : PreOrder quiet.
Proof. unfold quiet. split; congruence. Qed.

Definition calm {A} (m : M Node A) : Prop := ∀ n, ∃ a n', m n = (Ok a, n') ∧ quiet n n'.

Lemma calm_bind {A C} (m : M Node A) (k : A → M Node C) :
  calm m → (∀ a, calm (k a)) → calm (m ≫= k).
Proof using Type.
  intros Hm Hk n. destruct (Hm n) as (a & n1 & E1 & S1). destruct (Hk a n1) as (b & n2 & E2 & S2).
  exists b, n2. split; [by erewrite bind_Ok by exact E1|by etrans].
Qed.

Lemma calm_modify (f : Node → Node) : (∀ n, quiet n (f n)) → calm (modify f).
Proof using Type. intros Hf n. by exists (), (f n). Qed.

Lemma calm_get {A} (k : Node → M Node A) : (∀ n, calm (k n)) → calm (get ≫= k).
Proof using Type. intros Hk n. apply (Hk n n). Qed.

Lemma calm_for_each {A} (l : list A) (f : A → M Node ()) :
  (∀ x, calm (f x)) → calm (for_each l f).
Proof using Type.
  intros Hf. induction l as [|x l IH]; [intros n; by exists (), n|].
  cbn [for_each]. by apply calm_bind.
Qed.

Lemma calm_harmless {A} (m : M Node A) : harmless m → calm m.
Proof using Type.
  intros Hm n. destruct (Hm n) as (a & n' & E & S). exists a, n'. split; [done|].
  unfold same, core, quiet in *. congruence.
Qed.

Lemma calm_send r success value message leader_id term node role peers :
  calm (send r success value message leader_id term node role peers).
Proof using Type.
  unfold send. destruct (response _ _ _ _ _ _ _ _ _) as [reply|[to m]]; by apply calm_modify.
Qed.

(** ** [step_down] *)

Lemma step_down_quiet t now n :
  ∃ n', step_down t now n = (Ok (), n') ∧
    quiet (n <| current_term := t |> <| role := Follower |>
             <| voted_for := None |> <| leader_id := None |>) n'.
Proof using Type.
  unfold step_down. rewrite bind_eq. cbn [modify].
  set (n1 := n <| current_term := t |> <| role := Follower |> <| voted_for := None |>
               <| leader_id := None |>).
  assert (Hc : calm (reset_election_timeout now;; persist_meta;; n ← get;
    modify (λ n : Node, n <| pending_requests := ∅ |>);;
    for_each (map_to_list (pending_requests n)) (λ '(_, responder),
      send responder false None
        (lit "Leadership changed before confirmation; write outcome may be uncertain")
        None t (id n) (role n) (peers n)))).
  { apply calm_bind; [apply calm_harmless, reset_election_timeout_harmless|]. intros _.
    apply calm_bind; [apply calm_harmless, persist_meta_harmless|]. intros _.
    apply calm_get. intros n2. apply calm_bind; [by apply calm_modify|]. intros _.
    apply calm_for_each. intros [k r]. apply calm_send. }
  destruct (Hc n1) as ([] & n' & E & Hq). by exists n'.
Qed.

(** ** Votes *)

(** The candidate's log is at least as up to date: [log_is_up_to_date]. *)
Definition up_to_date (r : RequestVote) (n : Node) : bool :=
  match last (log n) with
  | Some e =>
      bool_decide (term e < rv_last_log_term r)%Z ||
      bool_decide (rv_last_log_term r = term e) &&
      bool_decide (length (log n) - 1 ≤ rv_last_log_index r)
  | None => false
  end.

(** The vote of a node: not for an old term, one candidate per term, and not
    for a candidate that lacks entries. *)
Definition decision (r : RequestVote) (n : Node) : bool :=
  bool_decide (current_term n ≤ rv_term r)%Z &&
  (bool_decide (current_term n < rv_term r)%Z ||
   match voted_for n with
   | None => true
   | Some i => bool_decide (i = rv_candidate_id r)
   end) && up_to_date r n.

(** The node after it learned of the candidate's term. *)
Definition in_term (t : Z) (n : Node) : Node :=
  if decide (current_term n < t)%Z
  then n <| current_term := t |> <| role := Follower |> <| voted_for := None |>
         <| leader_id := None |>
  else n.

Lemma in_term_log t n : log (in_term t n) = log n.
Proof using Type. unfold in_term. by case_decide. Qed.

Lemma in_term_id t n : id (in_term t n) = id n.
Proof using Type. unfold in_term. by case_decide. Qed.

Lemma in_term_term t n : current_term (in_term t n) = Z.max (current_term n) t.
Proof using Type. unfold in_term. case_decide; cbn; lia. Qed.

Lemma quiet_fields n n' :
  quiet n n' →
  id n' = id n ∧ log n' = log n ∧ current_term n' = current_term n ∧
  voted_for n' = voted_for n ∧ role n' = role n.
Proof using Type. unfold quiet, view. intros [=]. done. Qed.

Lemma enter_term t now n :
  ∃ n', when (bool_decide (current_term n < t)%Z) (step_down t now) n = (Ok (), n') ∧
    quiet (in_term t n) n'.
Proof using Type.
  unfold in_term. case_decide as Ht.
  - rewrite bool_decide_true by done. apply step_down_quiet.
  - rewrite bool_decide_false by done. by exists n.
Qed.

Lemma last_entry n :
  log n ≠ [] →
  ∃ e, last (log n) = Some e ∧ last_index n = (Ok (length (log n) - 1), n) ∧
    entry_at (D := D) (length (log n) - 1) n = (Ok e, n).
Proof using Type.
  intros Hl. destruct (last (log n)) as [e|] eqn:E; [|by apply last_None in E].
  exists e. split; [done|]. unfold last_index. rewrite bind_eq. cbn [get].
  rewrite decide_False by done. split; [done|]. unfold entry_at. rewrite bind_eq. cbn [gets].
  rewrite last_lookup in E. replace (length (log n) - 1) with (pred (length (log n))) by lia.
  by rewrite E.
Qed.

(** C22: A vote request is answered on every branch: the vote is granted exactly
    when [decision] says so, the node adopts a newer term as a follower, the
    answer has the node's term, a granted vote is recorded, and an earlier
    vote is kept unless the term is new. *)
Theorem vote_decided r now n :
  log n ≠ [] →
  ∃ resp n', handle_request_vote r now n = (Ok resp, n') ∧
    vr_vote_granted resp = decision r n ∧
    vr_term resp = current_term n' ∧ vr_voter_id resp = id n ∧
    current_term n' = Z.max (current_term n) (rv_term r) ∧
    role n' = role (in_term (rv_term r) n) ∧ log n' = log n ∧
    voted_for n' = if decision r n then Some (rv_candidate_id r)
                   else voted_for (in_term (rv_term r) n).
Proof using Type.
  intros Hl. unfold handle_request_vote, decision. rewrite bind_eq. cbn [get].
  case_decide as Hold.
  { rewrite bool_decide_false by lia. exists (vote_response n false), n. unfold in_term.
    rewrite decide_False by lia. cbn. split_and!; try done. lia. }
  rewrite (bool_decide_true (current_term n ≤ rv_term r)%Z) by lia. cbn [andb]. rewrite bind_eq.
  destruct (enter_term (rv_term r) now n) as (n1 & -> & Hq). cbn [mbind M_bind get].
  apply quiet_fields in Hq as (Hid & Hlog & Hterm & Hvote & Hrole).
  rewrite in_term_log in Hlog. rewrite in_term_id in Hid. rewrite in_term_term in Hterm.
  rewrite bind_eq. cbn [get].
  assert (match voted_for n1 with
          | None => true
          | Some i => bool_decide (i = rv_candidate_id r)
          end = bool_decide (current_term n < rv_term r)%Z ||
          match voted_for n with
          | None => true
          | Some i => bool_decide (i = rv_candidate_id r)
          end) as ->.
  { rewrite Hvote. unfold in_term. case_decide; [by rewrite bool_decide_true|].
    by rewrite bool_decide_false. }
  destruct (_ || _); cbn [negb andb]; cycle 1.
  { exists (vote_response n1 false), n1. cbn. split_and!; [done|congruence..]. }
  destruct (last_entry n1) as (e & Hlast & Ei & Ee); [by rewrite Hlog|].
  rewrite bind_eq, Ei. rewrite bind_eq, Ee. unfold up_to_date. rewrite <-Hlog, Hlast.
  destruct (_ || _); cbn [negb]; cycle 1.
  { exists (vote_response n1 false), n1. cbn. split_and!; [done|congruence..]. }
  rewrite bind_eq. cbn [modify].
  set (n2 := n1 <| voted_for := Some (rv_candidate_id r) |>).
  destruct (calm_harmless _ persist_meta_harmless n2) as ([] & n3 & E3 & Q3).
  destruct (calm_harmless _ (reset_election_timeout_harmless now) n3) as ([] & n4 & E4 & Q4).
  rewrite bind_eq, E3, bind_eq, E4. rewrite bind_eq. cbn [get].
  exists (vote_response n4 true), n4.
  assert (quiet n2 n4) as (Hid' & Hlog' & Hterm' & Hvote' & Hrole')%quiet_fields by by etrans.
  cbn in *. split_and!; [done|congruence..].
Qed.

(** ** The commit rule *)

(** An index that the leader may commit: its entry has the current term, and a
    majority has it. *)
Definition committable (n : Node) (k : nat) : Prop :=
  (∃ e, log n !! k = Some e ∧ term e = current_term n) ∧ majority (peers n) ≤ replicated n k.

Lemma commit_loop_from n len start c0 :
  start + len = length (log n) → c0 < start →
  ∃ c, commit_loop (seq start len) (n <| commit_index := c0 |>) =
         (Ok (), n <| commit_index := c |>) ∧
    c0 ≤ c < length (log n) ∧ (c = c0 ∨ committable n c) ∧
    ∀ k, start ≤ k → committable n k → k ≤ c.
Proof using Type.
  revert start c0. induction len as [|len IH]; intros start c0 Hs Hlt; cbn [seq commit_loop].
  { exists c0. split_and!; [done|lia|lia|by left|].
    intros k Hk [(e & He & _) _]. apply lookup_lt_Some in He. lia. }
  destruct (lookup_lt_is_Some_2 (log n) start) as [e He]; [lia|].
  rewrite bind_eq. cbn [get]. rewrite bind_eq. unfold entry_at. cbn [gets]. rewrite bind_eq.
  cbn [gets]. change (log (n <| commit_index := c0 |>)) with (log n). rewrite He.
  cbn [lift expect]. rewrite bind_eq.
  destruct (_ && _) eqn:Hb; cbn [when].
  - apply andb_true_iff in Hb as [Ht%bool_decide_eq_true Hm%bool_decide_eq_true].
    assert (committable n start) as Hcom by (split; [by exists e|done]).
    destruct (IH (S start) start) as (c & E & Hc & Hor & Hmax); [lia..|].
    exists c. split; [exact E|]. split; [lia|]. split.
    + destruct Hor as [->|Hor]; by right.
    + intros k Hk Hcom'. destruct (decide (k = start)) as [->|]; [lia|]. apply Hmax; [lia|done].
  - destruct (IH (S start) c0) as (c & E & Hc & Hor & Hmax); [lia..|].
    exists c. split; [exact E|]. split; [lia|]. split; [done|].
    intros k Hk Hcom. destruct (decide (k = start)) as [->|]; [|apply Hmax; [lia|done]].
    destruct Hcom as [(e' & He' & Ht) Hm]. rewrite He in He'. injection He' as <-.
    apply andb_false_iff in Hb as [Hb|Hb]; by apply bool_decide_eq_false in Hb.
Qed.

(** C23: The loop of [update_commit_index] moves the commit index to the last
    entry of the leader's own term that a majority has, and nowhere if there
    is none; it never moves it backwards or past the log. *)
Theorem commit_loop_commits n :
  commit_index n < length (log n) →
  ∃ c, commit_loop (seq (S (commit_index n)) (length (log n) - S (commit_index n))) n =
         (Ok (), n <| commit_index := c |>) ∧
    commit_index n ≤ c < length (log n) ∧
    (c = commit_index n ∨ committable n c) ∧
    ∀ k, commit_index n < k → committable n k → k ≤ c.
Proof using Type.
  intros Hc. destruct (commit_loop_from n (length (log n) - S (commit_index n))
    (S (commit_index n)) (commit_index n)) as (c & E & Hc1 & Hc2 & Hc3); [lia..|].
  exists c. split; [by destruct n|done].
Qed.

(** ** Requests that are dropped *)

(** A request to add or remove a node is acknowledged as submitted even if
    it is dropped: a node that is not the leader and knows of none answers
    with success and changes nothing else. *)
Theorem dropped_request_is_acknowledged n now tx op :
  role n ≠ Leader → leader_id n = None →
  (∃ i a, op = SvcAddNode i a) ∨ (∃ i, op = SvcRemoveNode i) →
  ∃ message, handle_service_request {| svc_operation := op; response_tx := tx |} now n =
    (Ok (), n <| replies := replies n ++ [(tx, submitted message)] |>).
Proof using Type.
  intros Hr Hl [(i & a & ->)|(i & ->)]; unfold handle_service_request;
    cbn [svc_operation response_tx handle_message]; eexists; rewrite bind_eq, bind_eq;
    cbn [get]; rewrite decide_True by done; rewrite Hl; reflexivity.
Qed.

End spec.

(** ** Examples: node 1 of a new cluster of three. *)
Module Example.

#[local] Existing Instances number_bincode journal bits_text fixed_millis.

Definition new_node : res (RaftNode (list Command)) :=
  new_in_dir [] [] (Ok []) (MkNodeId 1) [MkNodeId 2; MkNodeId 3] 0.

Definition request : RequestVote :=
  {| rv_term := 1; rv_candidate_id := MkNodeId 2; rv_last_log_index := 0; rv_last_log_term := 0 |}.

Lemma vote_decided_witness :
  ∃ n, new_node = Ok n ∧ decision request n = true ∧
    ∃ resp n', handle_request_vote request 10 n = (Ok resp, n') ∧
      vr_vote_granted resp = decision request n ∧
      vr_term resp = current_term n' ∧ vr_voter_id resp = id n ∧
      current_term n' = Z.max (current_term n) (rv_term request) ∧
      role n' = role (in_term (rv_term request) n) ∧ log n' = log n ∧
      voted_for n' = if decision request n then Some (rv_candidate_id request)
                     else voted_for (in_term (rv_term request) n).
Proof.
  eexists. split; [vm_compute; reflexivity|]. split; [reflexivity|].
  apply (vote_decided request 10). discriminate.
Defined.

Lemma commit_loop_commits_witness :
  ∃ n, new_node = Ok n ∧
    ∃ c, commit_loop (seq (S (commit_index n)) (length (log n) - S (commit_index n))) n =
           (Ok (), n <| commit_index := c |>) ∧
      commit_index n ≤ c < length (log n) ∧ (c = commit_index n ∨ committable n c) ∧
      ∀ k, commit_index n < k → committable n k → k ≤ c.
Proof.
  eexists. split; [vm_compute; reflexivity|]. apply commit_loop_commits. vm_compute. lia.
Defined.

Lemma dropped_request_is_acknowledged_witness :
  ∃ n, new_node = Ok n ∧
    ∃ message, handle_service_request
      {| svc_operation := SvcRemoveNode 3; response_tx := 4 |} 10 n =
      (Ok (), n <| replies := replies n ++ [(4, submitted message)] |>).
Proof.
  eexists. split; [vm_compute; reflexivity|].
  apply (dropped_request_is_acknowledged _ 10 4 (SvcRemoveNode 3)); [discriminate|done|].
  right. by exists 3%Z.
Defined.

End Example.
