(* ===== verification/Persist.v ===== *)
(** The term, the vote and the commit index of a node are on its disk at the end
    of every turn of its loop. *)

From S2P Require Import Prelude Bytes Float LogRecord RaftTypes LogStore RaftNode Runtime.

Section persist.
Context {D : Type} `{!KvStore D} `{!F64Text} `{!Bincode} `{!RandomMillis}.

Abbreviation Node := (RaftNode D).

(** The metadata file has just been written with the state of the node, or is
    empty and the node has not left the initial state. *)
Definition saved (n : Node) : Prop :=
  match meta_store n with
  | None => True
  | Some f =>
      (∃ f0, meta_save (commit_index n) (current_term n) (node_id <$> voted_for n) f0 =
             (Ok (), f)) ∨
      contents f = [] ∧ commit_index n = 0 ∧ current_term n = 0%Z ∧ voted_for n = None
  end.

(** The part of a node that [saved] is about. *)
Definition durable (n : Node) := (meta_store n, commit_index n, current_term n, voted_for n).

(** Programs that leave it alone, that keep it saved, and that save it. *)
Definition still {A} (m : M Node A) : Prop :=
  ∀ n a n', m n = (Ok a, n') → durable n' = durable n.
Definition saves {A} (m : M Node A) : Prop :=
  ∀ n a n', m n = (Ok a, n') → saved n → saved n'.
Definition fixes {A} (m : M Node A) : Prop :=
  ∀ n a n', m n = (Ok a, n') → saved n'.

Lemma saved_durable n n' : durable n' = durable n → saved n → saved n'.
Proof using Type. unfold durable, saved. by intros [= -> -> -> ->]. Qed.

Lemma still_saves {A} (m : M Node A) : still m → saves m.
Proof using Type. intros Hm n a n' E. by eapply saved_durable, Hm. Qed.

Lemma fixes_saves {A} (m : M Node A) : fixes m → saves m.
Proof using Type. intros Hm n a n' E _. by eapply Hm. Qed.

Lemma bind_Ok_inv {A C} (m : M Node A) (k : A → M Node C) n c n' :
  (m ≫= k) n = (Ok c, n') → ∃ a n1, m n = (Ok a, n1) ∧ k a n1 = (Ok c, n').
Proof using Type. rewrite bind_eq. destruct (m n) as [[a|e|p] n1]; [eauto|done..]. Qed.

Lemma still_bind {A C} (m : M Node A) (k : A → M Node C) :
  still m → (∀ a, still (k a)) → still (m ≫= k).
Proof using Type.
  intros Hm Hk n c n' (a & n1 & E & E')%bind_Ok_inv. etrans; [by eapply Hk|by eapply Hm].
Qed.

Lemma saves_bind {A C} (m : M Node A) (k : A → M Node C) :
  saves m → (∀ a, saves (k a)) → saves (m ≫= k).
Proof using Type.
  intros Hm Hk n c n' (a & n1 & E & E')%bind_Ok_inv Hn. eapply Hk; [exact E'|]. by eapply Hm.
Qed.

Lemma fixes_after {A C} (m : M Node A) (k : A → M Node C) :
  (∀ a, fixes (k a)) → fixes (m ≫= k).
Proof using Type. intros Hk n c n' (a & n1 & E & E')%bind_Ok_inv. by eapply Hk. Qed.

Lemma fixes_bind {A C} (m : M Node A) (k : A → M Node C) :
  fixes m → (∀ a, saves (k a)) → fixes (m ≫= k).
Proof using Type.
  intros Hm Hk n c n' (a & n1 & E & E')%bind_Ok_inv. eapply Hk; [exact E'|]. by eapply Hm.
Qed.

(** ** Primitive programs *)

Lemma still_ret {A} (a : A) : still (mret a).
Proof using Type. by intros n b n' [= _ ->]. Qed.

Lemma still_get : still get.
Proof using Type. by intros n b n' [= _ ->]. Qed.

Lemma still_gets {A} (f : Node → A) : still (gets f).
Proof using Type. by intros n b n' [= _ ->]. Qed.

Lemma still_lift {A} (r : res A) : still (lift r).
Proof using Type. by intros n b n' [= _ ->]. Qed.

Lemma still_panic {A} p : still (panic (A := A) p).
Proof using Type. by intros n b n'. Qed.

Lemma still_modify f : (∀ n, durable (f n) = durable n) → still (modify f).
Proof using Type. by intros Hf n b n' [= _ <-]. Qed.

Lemma still_when b m : still m → still (when b m).
Proof using Type. intros Hm. destruct b; [done|apply still_ret]. Qed.

Lemma saves_when b m : saves m → saves (when b m).
Proof using Type. intros Hm. destruct b; [done|apply still_saves, still_ret]. Qed.

Lemma still_for_each {A} (l : list A) f : (∀ x, still (f x)) → still (for_each l f).
Proof using Type.
  intros Hf. induction l as [|x l IH]; [apply still_ret|]. cbn [for_each]. by apply still_bind.
Qed.

Lemma still_zoom_db {A} (m : M D A) : still (zoom db m).
Proof using Type. intros n a n'. unfold zoom. destruct (m (db n)). by intros [= _ <-]. Qed.

Lemma still_attempt {A} (m : M Node A) :
  (∀ n, durable (m n).2 = durable n) → still (attempt m).
Proof using Type.
  intros Hm n a n'. specialize (Hm n). unfold attempt.
  destruct (m n) as [[x|e|p] n1]; by intros [= _ <-].
Qed.

Lemma still_attempt_db {A} (m : M D A) : still (attempt (zoom db m)).
Proof using Type. apply still_attempt. intros n. unfold zoom. destruct (m (db n)). reflexivity. Qed.

Lemma still_log_store m : still (with_store log_store m).
Proof using Type.
  intros n a n'. unfold with_store. destruct (log_store n) as [s|]; [|by intros [= _ <-]].
  destruct (m s) as [[?|?|?] s']; by intros [= _ <-].
Qed.

Create HintDb still discriminated.
Hint Resolve still_bind still_ret still_get still_gets still_lift still_panic still_when
  still_for_each still_zoom_db still_attempt_db still_log_store : still.
Hint Extern 1 (still (modify _)) => by apply still_modify : still.
Hint Extern 2 (still (match ?x with _ => _ end)) => destruct x : still.
Hint Extern 2 (still (if ?x then _ else _)) => destruct x : still.

Ltac still := auto 60 with still.

Lemma persist_meta_fixes : fixes persist_meta.
Proof using Type.
  intros n a n'. unfold persist_meta. rewrite bind_eq. cbn [get]. unfold with_store.
  destruct (meta_store n) as [f|] eqn:Hf; [|intros [= _ <-]; unfold saved; by rewrite Hf].
  destruct (meta_save _ _ _ f) as [r f'] eqn:E. destruct r as [[]|e|p]; intros [= _ <-].
  - left. cbn. by exists f.
  - unfold meta_save in E. rewrite bind_eq in E. cbn in E. by injection E as [= ?].
Qed.

(** ** The parts of the handlers *)

Lemma reset_election_timeout_still now : still (reset_election_timeout now).
Proof using Type. unfold reset_election_timeout. still. Qed.

Lemma push_still to m : still (push to m).
Proof using Type. unfold push. still. Qed.

Lemma entry_at_still k : still (entry_at k).
Proof using Type. unfold entry_at. still. Qed.

Lemma last_index_still : still last_index.
Proof using Type. unfold last_index. still. Qed.
Hint Resolve reset_election_timeout_still push_still entry_at_still last_index_still : still.

Lemma send_still r success value message leader_id term node role peers :
  still (send r success value message leader_id term node role peers).
Proof using Type. unfold send. still. Qed.

Lemma push_log_entry_still e : still (push_log_entry e).
Proof using Type. unfold push_log_entry. still. Qed.

Lemma truncate_log_still k : still (truncate_log k).
Proof using Type. unfold truncate_log. still. Qed.

Lemma make_append_entries_still peer : still (make_append_entries peer).
Proof using Type. unfold make_append_entries. still. Qed.
Hint Resolve send_still push_log_entry_still truncate_log_still make_append_entries_still : still.

Lemma send_heartbeats_still : still send_heartbeats.
Proof using Type. unfold send_heartbeats. still. Qed.

Lemma apply_payload_still p : still (apply_payload p).
Proof using Type. unfold apply_payload. still. Qed.

Lemma send_peer_change_still c : still (send_peer_change c).
Proof using Type. unfold send_peer_change. still. Qed.

Lemma append_loop_still k es : still (append_loop k es).
Proof using Type. revert k. induction es; intros k; cbn [append_loop]; still. Qed.
Hint Resolve send_heartbeats_still apply_payload_still send_peer_change_still
  append_loop_still : still.

Lemma apply_next_still : still apply_next.
Proof using Type. unfold apply_next. still. Qed.
Hint Resolve apply_next_still : still.

Lemma apply_loop_still fuel : still (apply_loop fuel).
Proof using Type. induction fuel; cbn [apply_loop]; still. Qed.

Lemma apply_committed_entries_still : still apply_committed_entries.
Proof using Type. unfold apply_committed_entries. apply still_bind; [still|]. intros n. apply apply_loop_still. Qed.

Lemma become_leader_still now : still (become_leader now).
Proof using Type. unfold become_leader. still. Qed.
Hint Resolve apply_committed_entries_still become_leader_still : still.

(** ** The handlers *)

Lemma fixes_persist_then {A} (k : () → M Node A) :
  (∀ u, still (k u)) → fixes (persist_meta ≫= k).
Proof using Type.
  intros Hk. apply fixes_bind; [apply persist_meta_fixes|]. intros u. apply still_saves, Hk.
Qed.

Lemma step_down_fixes t now : fixes (step_down t now).
Proof using Type.
  unfold step_down. apply fixes_after. intros _. apply fixes_after. intros _.
  apply fixes_persist_then. still.
Qed.

Lemma update_commit_index_fixes : fixes update_commit_index.
Proof using Type.
  unfold update_commit_index. apply fixes_after. intros n. apply fixes_after. intros _.
  apply fixes_persist_then. still.
Qed.

Lemma start_election_fixes now : fixes (start_election now).
Proof using Type.
  unfold start_election. do 3 (apply fixes_after; intros _). apply fixes_persist_then. still.
Qed.

Create HintDb saves discriminated.
Hint Resolve saves_bind saves_when still_saves fixes_saves : saves.
Hint Resolve step_down_fixes update_commit_index_fixes start_election_fixes : saves.
Hint Extern 2 (saves (match ?x with _ => _ end)) => destruct x : saves.
Hint Extern 2 (saves (if ?x then _ else _)) => destruct x : saves.

Ltac saves := auto 60 with saves still.

Lemma handle_vote_response_saves r now : saves (handle_vote_response r now).
Proof using Type. unfold handle_vote_response. saves. Qed.

Lemma handle_append_entries_response_saves r now : saves (handle_append_entries_response r now).
Proof using Type. unfold handle_append_entries_response. saves. Qed.

Lemma append_command_saves c : saves (append_command c).
Proof using Type. unfold append_command. saves. Qed.
Hint Resolve append_command_saves : saves.

Lemma submit_store_write_saves c r : saves (submit_store_write c r).
Proof using Type. unfold submit_store_write. saves. Qed.
Hint Resolve submit_store_write_saves : saves.

Lemma handle_store_request_saves r now : saves (handle_store_request r now).
Proof using Type. unfold handle_store_request. saves. Qed.

Lemma append_membership_change_saves p : saves (append_membership_change p).
Proof using Type. unfold append_membership_change. saves. Qed.

Hint Resolve handle_store_request_saves append_membership_change_saves
  handle_vote_response_saves handle_append_entries_response_saves : saves.

Lemma handle_request_vote_saves r now : saves (handle_request_vote r now).
Proof using Type.
  unfold handle_request_vote. apply saves_bind; [saves|]. intros n. case_decide; [saves|].
  apply saves_bind; [saves|]. intros _. apply saves_bind; [saves|]. intros n1. cbv zeta.
  destruct (negb _); [saves|]. apply saves_bind; [saves|]. intros last.
  apply saves_bind; [saves|]. intros e. destruct (negb _); [saves|].
  apply fixes_saves, fixes_after. intros _. apply fixes_persist_then. still.
Qed.

Lemma handle_append_entries_saves es now : saves (handle_append_entries es now).
Proof using Type.
  unfold handle_append_entries. apply saves_bind; [saves|]. intros n. case_decide; [saves|].
  apply saves_bind; [saves|]. intros _. apply saves_bind; [saves|]. intros _.
  apply saves_bind; [saves|]. intros _. apply saves_bind; [saves|]. intros n1. cbv zeta.
  case_decide; [saves|]. apply saves_bind; [saves|]. intros prev. case_decide; [saves|].
  apply saves_bind; [saves|]. intros _. apply saves_bind; [saves|]. intros last.
  apply fixes_saves, fixes_after. intros _. apply fixes_persist_then. still.
Qed.
Hint Resolve handle_request_vote_saves handle_append_entries_saves : saves.

Lemma handle_message_saves m now : saves (handle_message m now).
Proof using Type. destruct m; cbn [handle_message]; saves. Qed.

Lemma tick_saves now : saves (tick now).
Proof using Type. unfold tick. saves. Qed.

Lemma restart_still now : still (restart now).
Proof using Type. unfold restart. still. Qed.

Lemma flush_outbox_still : still flush_outbox.
Proof using Type. unfold flush_outbox. still. Qed.
Hint Resolve handle_message_saves tick_saves flush_outbox_still : saves.

Lemma handle_service_request_saves r now : saves (handle_service_request r now).
Proof using Type. unfold handle_service_request. cbv zeta. saves. Qed.
Hint Resolve handle_service_request_saves : saves.

Lemma turn_saves event now : saves (turn event now).
Proof using Type. unfold turn. saves. Qed.

End persist.
