(* ===== verification/Network.v ===== *)
(** [src/raft/network.rs]: the frames on a connection between two nodes, and the
    table of connections. Sockets and tasks are what happens in between: the
    bytes that arrive are any prefix of those that were written, and the
    operations on the table run in any order. *)

From S2P Require Import Prelude Bytes RaftTypes.

(** * Frames *)

(** [bincode] on [Message]; serializing may fail. *)
Class MessageBincode : Type := {
  serialize_message : Message → option bytes;
  deserialize_message : bytes → option Message;
}.

(** [to_be_bytes] and [from_be_bytes]. *)
Definition u32_to_be (z : Z) : bytes := reverse (u32_to_le z).
Definition u64_to_be (z : Z) : bytes := reverse (u64_to_le z).
Definition from_be (b : bytes) : Z := from_le (reverse b).

Definition MAX_MESSAGE_SIZE : Z := 16 * 1024 * 1024.

(** Why a reader task ends. *)
Inductive ReaderEnd : Type :=
  | Disconnected
  | TooLarge (len : Z)
  | Undecodable.

Section frames.
Context `{MessageBincode}.

(** What the writer task writes for one message: nothing if it cannot be
    serialized. *)
Definition write_message (m : Message) : bytes :=
  match serialize_message m with
  | None => []
  | Some buf => u32_to_be (wrap 32 (Z.of_nat (length buf))) ++ buf
  end.

(** The writer task, until its channel is closed. *)
Definition writer_task (ms : list Message) : bytes := mjoin (write_message <$> ms).

(** What the reader task finds in the bytes that arrive before the connection
    ends: a message and the bytes behind it, or why it stops. *)
Inductive Frame : Type :=
  | Arrived (msg : Message) (rest : bytes)
  | Ended (e : ReaderEnd).

(** One turn of the loop of the reader task. *)
Definition reader_turn (s : bytes) : Frame :=
  match read_exact 4 s with
  | (Ok len_buf, s) =>
      let len := from_be len_buf in
      if decide (MAX_MESSAGE_SIZE < len)%Z then Ended (TooLarge len) else
      match read_exact (Z.to_nat len) s with
      | (Ok msg_buf, s) =>
          match deserialize_message msg_buf with
          | Some msg => Arrived msg s
          | None => Ended Undecodable
          end
      | _ => Ended Disconnected
      end
  | _ => Ended Disconnected
  end.

(** The loop, with the messages given to the node. Every turn takes at least
    the four bytes of a length. *)
Fixpoint reader_loop (fuel : nat) (received : list Message) (s : bytes) :
    res (list Message * ReaderEnd) :=
  match fuel with
  | O => Panic "out of fuel"
  | S fuel' =>
      match reader_turn s with
      | Arrived msg s => reader_loop fuel' (received ++ [msg]) s
      | Ended e => Ok (received, e)
      end
  end.

Definition reader_task (s : bytes) : res (list Message * ReaderEnd) :=
  reader_loop (S (length s)) [] s.

(** The handshake: the dialing node writes its id, the accepting one reads it. *)
Definition write_handshake (local_id : NodeId) : bytes := u64_to_be (node_id local_id).

Definition read_handshake (s : bytes) : option (NodeId * bytes) :=
  match read_exact 8 s with
  | (Ok id_buf, s) => Some (MkNodeId (from_be id_buf), s)
  | _ => None
  end.

End frames.

(** * The table of connections *)

Record Network : Type := MkNetwork {
  local_id : NodeId;
  registry : gmap NodeId str;
  (* the connection whose channel a message to a peer goes to *)
  active_senders : gmap NodeId nat;
  (* what was put into the channels of the open connections *)
  channels : gmap nat (list Message);
  next_connection : nat;
}.

#[export] Instance eta_Network : Eta Network := λ n,
  MkNetwork (local_id n) (registry n) (active_senders n) (channels n) (next_connection n).
#[export] Instance upd_registry : Upd registry. Proof. derive_upd. Defined.
#[export] Instance upd_active_senders : Upd active_senders. Proof. derive_upd. Defined.
#[export] Instance upd_channels : Upd channels. Proof. derive_upd. Defined.
#[export] Instance upd_next_connection : Upd next_connection. Proof. derive_upd. Defined.

Definition network_new (local_id : NodeId) (peers : gmap NodeId str) : Network :=
  {| local_id := local_id; registry := peers; active_senders := ∅; channels := ∅;
     next_connection := 0 |}.

(** [NetworkTransport::send]; a channel whose connection has ended swallows the
    message. *)
Definition transport_send (to : NodeId) (message : Message) : M Network () :=
  n ← get;
  match active_senders n !! to with
  | None => mret ()
  | Some c => modify (λ n, n <| channels := alter (λ q, q ++ [message]) c (channels n) |>)
  end.

(** [spawn_connection_tasks]: the new connection replaces an older one. *)
Definition spawn_connection_tasks (peer_id : NodeId) : M Network () :=
  n ← get;
  let c := next_connection n in
  modify (λ n, n <| active_senders := <[peer_id := c]> (active_senders n) |>
                 <| channels := <[c := []]> (channels n) |>
                 <| next_connection := S c |>).

(** The end of the writer task of connection [c]. *)
Definition writer_end (c : nat) : M Network () :=
  modify (λ n, n <| channels := delete c (channels n) |>).

(** The end of the reader task of a connection with [peer_id], whichever. *)
Definition reader_end (peer_id : NodeId) : M Network () :=
  modify (λ n, n <| active_senders := delete peer_id (active_senders n) |>).

Definition handle_incoming_connection (handshake : bytes) : M Network () :=
  match read_handshake handshake with
  | None => mret ()
  | Some (peer_id, _) => spawn_connection_tasks peer_id
  end.

(** [handle_outgoing_connection]; [greeted] tells if the handshake was written. *)
Definition handle_outgoing_connection (peer_id : NodeId) (greeted : bool) : M Network () :=
  if negb greeted then mret () else
  n ← get;
  if decide (is_Some (active_senders n !! peer_id)) then mret ()
  else spawn_connection_tasks peer_id.

(** What [TcpStream::connect] and the handshake give at an address. *)
Inductive Dial : Type := Refused | Connected (greeted : bool).

(** One turn of the reconnection loop over the registered peers. *)
Definition reconnect_peer (dial : NodeId → str → Dial) (peer : NodeId * str) : M Network () :=
  let '(peer_id, peer_addr) := peer in
  n ← get;
  if decide (node_id (local_id n) ≤ node_id peer_id)%Z then mret () else
  if decide (is_Some (active_senders n !! peer_id)) then mret () else
  match dial peer_id peer_addr with
  | Refused => mret ()
  | Connected greeted => handle_outgoing_connection peer_id greeted
  end.

(** One round of the loop, every 500 ms. *)
Definition reconnect (dial : NodeId → str → Dial) : M Network () :=
  n ← get;
  for_each (map_to_list (registry n)) (reconnect_peer dial).

(** One turn of [handle_peer_changes]. *)
Definition handle_peer_change (dial : NodeId → str → Dial) (change : PeerChange) :
    M Network () :=
  match change with
  | AddPeer id addr =>
      modify (λ n, n <| registry := <[id := addr]> (registry n) |>);;
      n ← get;
      if decide (node_id id < node_id (local_id n))%Z then
        match dial id addr with
        | Refused => mret ()
        | Connected greeted => handle_outgoing_connection id greeted
        end
      else mret ()
  | RemovePeer id =>
      modify (λ n, n <| registry := delete id (registry n) |>);;
      modify (λ n, n <| active_senders := delete id (active_senders n) |>)
  end.

(** * Properties *)

Lemma length_u32_to_be z : length (u32_to_be z) = 4.
Proof. unfold u32_to_be. by rewrite length_reverse, length_u32_to_le. Qed.

Lemma from_u32_to_be z : in_u32 z → from_be (u32_to_be z) = z.
Proof. intros Hz. unfold from_be, u32_to_be. rewrite reverse_involutive. by apply from_u32_to_le. Qed.

Lemma read_write_handshake id (s : bytes) :
  in_u64 (node_id id) → read_handshake (write_handshake id ++ s) = Some (id, s).
Proof.
  intros Hid. unfold read_handshake, write_handshake, u64_to_be.
  rewrite read_exact_app by (by rewrite length_reverse, length_u64_to_le).
  unfold from_be. rewrite reverse_involutive, from_u64_to_le by done. by destruct id.
Qed.

Section arrival.
Context `{MessageBincode}.

(** A message that [bincode] can write and read back, in a frame that the
    reader accepts. *)
Definition deliverable (m : Message) : Prop :=
  ∃ buf, serialize_message m = Some buf ∧ deserialize_message buf = Some m ∧
    (Z.of_nat (length buf) ≤ MAX_MESSAGE_SIZE)%Z.

Lemma write_message_eq m buf :
  serialize_message m = Some buf → (Z.of_nat (length buf) ≤ u32_max)%Z →
  write_message m = u32_to_be (Z.of_nat (length buf)) ++ buf.
Proof using Type.
  intros E Hb. unfold write_message. rewrite E. f_equal. f_equal. unfold wrap, u32_max in *.
  rewrite Z.mod_small; lia.
Qed.

(** The reader at the start of a frame. *)
Lemma reader_turn_frame (buf s : bytes) :
  (Z.of_nat (length buf) ≤ u32_max)%Z →
  reader_turn (u32_to_be (Z.of_nat (length buf)) ++ s) =
  if decide (MAX_MESSAGE_SIZE < Z.of_nat (length buf))%Z
  then Ended (TooLarge (Z.of_nat (length buf)))
  else match read_exact (length buf) s with
       | (Ok msg_buf, s) =>
           match deserialize_message msg_buf with
           | Some msg => Arrived msg s
           | None => Ended Undecodable
           end
       | _ => Ended Disconnected
       end.
Proof using Type.
  intros Hb. unfold reader_turn. rewrite read_exact_app by (by rewrite length_u32_to_be).
  rewrite from_u32_to_be by (unfold in_u32, in_u, u32_max in *; lia). by rewrite Nat2Z.id.
Qed.

Lemma reader_turn_short (s : bytes) : length s < 4 → reader_turn s = Ended Disconnected.
Proof using Type. intros Hs. unfold reader_turn. by rewrite read_exact_short. Qed.

Lemma reader_loop_short fuel acc (s : bytes) :
  length s < 4 → reader_loop (S fuel) acc s = Ok (acc, Disconnected).
Proof using Type. intros Hs. cbn [reader_loop]. by rewrite reader_turn_short. Qed.

Lemma length_write_message m buf :
  serialize_message m = Some buf → length (write_message m) = 4 + length buf.
Proof using Type.
  intros Es. unfold write_message. by rewrite Es, length_app, length_u32_to_be.
Qed.

(** A whole message, or a part of one, at the reader. *)
Lemma reader_turn_message m buf s :
  serialize_message m = Some buf → deserialize_message buf = Some m →
  (Z.of_nat (length buf) ≤ MAX_MESSAGE_SIZE)%Z → reader_turn (write_message m ++ s) = Arrived m s.
Proof using Type.
  intros Es Ed Hb. assert (Z.of_nat (length buf) ≤ u32_max)%Z
    by (unfold MAX_MESSAGE_SIZE, u32_max in *; lia).
  rewrite (write_message_eq m buf), <-app_assoc, reader_turn_frame, decide_False by (done || lia).
  by rewrite read_exact_app, Ed by done.
Qed.

Lemma reader_turn_large m buf s :
  serialize_message m = Some buf → (MAX_MESSAGE_SIZE < Z.of_nat (length buf) ≤ u32_max)%Z →
  reader_turn (write_message m ++ s) = Ended (TooLarge (Z.of_nat (length buf))).
Proof using Type.
  intros Es [Hb Hu]. by rewrite (write_message_eq m buf), <-app_assoc, reader_turn_frame,
    decide_True by done.
Qed.

Lemma reader_turn_part m buf s :
  serialize_message m = Some buf → (Z.of_nat (length buf) ≤ u32_max)%Z →
  length s < length (write_message m) → s `prefix_of` write_message m →
  reader_turn s = Ended Disconnected ∨
  (MAX_MESSAGE_SIZE < Z.of_nat (length buf))%Z ∧
    reader_turn s = Ended (TooLarge (Z.of_nat (length buf))).
Proof using Type.
  intros Es Hb Hl [s' E]. rewrite (write_message_eq m buf) in * by done.
  pose proof (length_u32_to_be (Z.of_nat (length buf))) as H4.
  destruct (decide (length s < 4)) as [Hs|Hs]; [left; by apply reader_turn_short|].
  assert (s = u32_to_be (Z.of_nat (length buf)) ++ drop 4 s) as Es'.
  { rewrite <-(take_drop 4 s) at 1. f_equal. apply (f_equal (take 4)) in E.
    rewrite take_app_le in E by lia. rewrite take_app_le in E by lia.
    rewrite (take_ge (u32_to_be _)) in E by lia. done. }
  rewrite Es', reader_turn_frame by done. case_decide; [by right|left].
  rewrite length_app in Hl. by rewrite read_exact_short by (rewrite length_drop; lia).
Qed.

Lemma reader_loop_prefix ms k fuel (acc : list Message) :
  Forall deliverable ms → length (take k (writer_task ms)) < fuel →
  ∃ j, reader_loop fuel acc (take k (writer_task ms)) = Ok (acc ++ take j ms, Disconnected) ∧
    (length (writer_task ms) ≤ k → length ms ≤ j).
Proof using Type.
  intros Hms. revert k fuel acc. induction Hms as [|m ms (buf & Es & Ed & Hb) _ IH];
    intros k fuel acc Hf; (destruct fuel as [|fuel]; [lia|]).
  { change (writer_task []) with (@nil u8). exists 0. rewrite !take_nil, app_nil_r.
    split; [by apply reader_loop_short, Nat.lt_0_succ|done]. }
  change (writer_task (m :: ms)) with (write_message m ++ writer_task ms) in *.
  cbn [reader_loop]. destruct (decide (k < length (write_message m))) as [Hk|Hk].
  - exists 0. rewrite app_nil_r. rewrite take_app_le by lia. split; [|rewrite length_app; lia].
    destruct (reader_turn_part m buf (take k (write_message m))) as [->|[? _]]; [done| | | |done|lia].
    + unfold MAX_MESSAGE_SIZE, u32_max in *; lia.
    + rewrite length_take. lia.
    + exists (drop k (write_message m)). by rewrite take_drop.
  - rewrite take_app_ge in * by lia. rewrite (reader_turn_message m buf) by done.
    pose proof (length_write_message m buf Es) as H4. rewrite length_app in Hf.
    destruct (IH (k - length (write_message m)) fuel (acc ++ [m])) as (j & -> & Hj); [lia|].
    exists (S j). rewrite <-app_assoc. split; [done|]. rewrite length_app. cbn [length]. lia.
Qed.

(** C26: The messages arrive in the order in which they were sent, whole and
    once: wherever the connection breaks off, the node is given a prefix of
    them, and all of them if every byte arrives. *)
Theorem messages_arrive_in_order ms k :
  Forall deliverable ms →
  ∃ j, reader_task (take k (writer_task ms)) = Ok (take j ms, Disconnected) ∧
    (length (writer_task ms) ≤ k → take j ms = ms).
Proof using Type.
  intros Hms. destruct (reader_loop_prefix ms k (S (length (take k (writer_task ms)))) [] Hms)
    as (j & E & Hj); [lia|].
  exists j. split; [exact E|]. intros Hk. apply take_ge. auto.
Qed.

Lemma reader_loop_all ms rest fuel (acc : list Message) :
  Forall deliverable ms → length ms < fuel →
  ∃ fuel', reader_loop fuel acc (writer_task ms ++ rest) = reader_loop (S fuel') (acc ++ ms) rest.
Proof using Type.
  intros Hms. revert fuel acc. induction Hms as [|m ms (buf & Es & Ed & Hb) _ IH];
    intros fuel acc Hf; cbn [length] in Hf; (destruct fuel as [|fuel]; [lia|]).
  { exists fuel. by rewrite app_nil_r. }
  change (writer_task (m :: ms)) with (write_message m ++ writer_task ms).
  cbn [reader_loop]. rewrite <-app_assoc, (reader_turn_message m buf) by done.
  destruct (IH fuel (acc ++ [m])) as (fuel' & ->); [lia|]. exists fuel'. by rewrite <-app_assoc.
Qed.

(** A message that is longer than the reader accepts ends the connection: it
    and everything sent behind it is lost, on every connection, so a peer
    that needs a log suffix of more than 16 MiB never gets it. *)
Theorem large_message_ends_connection ms m buf ms' :
  Forall deliverable ms → serialize_message m = Some buf →
  (MAX_MESSAGE_SIZE < Z.of_nat (length buf) ≤ u32_max)%Z →
  reader_task (writer_task (ms ++ m :: ms')) = Ok (ms, TooLarge (Z.of_nat (length buf))).
Proof using Type.
  intros Hms Es Hb. unfold reader_task.
  assert (writer_task (ms ++ m :: ms') = writer_task ms ++ write_message m ++ writer_task ms') as ->.
  { unfold writer_task. by rewrite fmap_app, join_app. }
  assert (length ms ≤ length (writer_task ms)) as Hlen.
  { clear -Hms. induction Hms as [|m' ms' (b & Eb & _) _ IH]; [done|].
    change (writer_task (m' :: ms')) with (write_message m' ++ writer_task ms').
    rewrite length_app, (length_write_message m' b) by done. cbn [length]. lia. }
  destruct (reader_loop_all ms (write_message m ++ writer_task ms')
    (S (length (writer_task ms ++ write_message m ++ writer_task ms'))) [] Hms) as (fuel' & ->).
  { rewrite length_app. lia. }
  cbn [reader_loop]. by rewrite (reader_turn_large m buf) by done.
Qed.

End arrival.

(** ** The table *)

(** Every connection has its own number, and serves one peer. *)
Record table_ok (n : Network) : Prop := {
  to_connection p c : active_senders n !! p = Some c → c < next_connection n;
  to_channel c : is_Some (channels n !! c) → c < next_connection n;
  to_one_peer p q c : active_senders n !! p = Some c → active_senders n !! q = Some c → p = q;
}.

(** Operations that keep the table in order and the connections of the peers. *)
Definition tidy {A} (m : M Network A) : Prop := ∀ n, table_ok n →
  ∃ a n', m n = (Ok a, n') ∧ table_ok n'.

Lemma tidy_ret {A} (a : A) : tidy (mret a).
Proof. intros n Hn. by exists a, n. Qed.

Lemma tidy_bind {A B} (m : M Network A) (k : A → M Network B) :
  tidy m → (∀ a, tidy (k a)) → tidy (m ≫= k).
Proof.
  intros Hm Hk n Hn. destruct (Hm n Hn) as (a & n1 & E & Hn1).
  destruct (Hk a n1 Hn1) as (b & n2 & E2 & Hn2). exists b, n2.
  split; [by erewrite bind_Ok by exact E|done].
Qed.

Lemma tidy_get {A} (k : Network → M Network A) : (∀ n, tidy (k n)) → tidy (get ≫= k).
Proof. intros Hk n. apply (Hk n n). Qed.

Lemma tidy_modify f : (∀ n, table_ok n → table_ok (f n)) → tidy (modify f).
Proof. intros Hf n Hn. exists (), (f n). split; [done|by apply Hf]. Qed.

Lemma tidy_for_each {A} (l : list A) f : (∀ x, tidy (f x)) → tidy (for_each l f).
Proof.
  intros Hf. induction l as [|x l IH]; [apply tidy_ret|]. cbn [for_each]. by apply tidy_bind.
Qed.

Lemma spawn_tidy p : tidy (spawn_connection_tasks p).
Proof.
  intros n []. unfold spawn_connection_tasks. rewrite bind_eq. cbn.
  eexists (), _. split; [reflexivity|]. split; cbn.
  - intros q c [[<- <-]|[_ Hq]]%lookup_insert_Some; [lia|]. apply to_connection0 in Hq. lia.
  - intros c. rewrite lookup_insert_is_Some. intros [->|[_ Hc]]; [lia|].
    apply to_channel0 in Hc. lia.
  - intros q q' c Hq Hq'. apply lookup_insert_Some in Hq, Hq'.
    destruct Hq as [[<- <-]|[Hn Hq]], Hq' as [[<- E]|[Hn' Hq']]; try done.
    + apply to_connection0 in Hq'. lia.
    + subst. apply to_connection0 in Hq. lia.
    + by eapply to_one_peer0.
Qed.

Lemma outgoing_tidy p greeted : tidy (handle_outgoing_connection p greeted).
Proof.
  unfold handle_outgoing_connection. destruct (negb greeted); [apply tidy_ret|].
  apply tidy_get. intros n. case_decide; [apply tidy_ret|apply spawn_tidy].
Qed.

Lemma reconnect_tidy dial : tidy (reconnect dial).
Proof.
  apply tidy_get. intros n. apply tidy_for_each. intros [p a]. apply tidy_get. intros n1.
  case_decide; [apply tidy_ret|]. case_decide; [apply tidy_ret|].
  destruct (dial p a); [apply tidy_ret|apply outgoing_tidy].
Qed.

(** What may happen to the table, from any task. *)
Inductive NetworkEvent : Type :=
  | Send (to : NodeId) (message : Message)
  | Accept (handshake : bytes)
  | WriterEnd (c : nat)
  | ReaderEnds (peer_id : NodeId)
  | Reconnect (dial : NodeId → str → Dial)
  | Change (dial : NodeId → str → Dial) (change : PeerChange).

Definition network_event (e : NetworkEvent) : M Network () :=
  match e with
  | Send to message => transport_send to message
  | Accept handshake => handle_incoming_connection handshake
  | WriterEnd c => writer_end c
  | ReaderEnds peer_id => reader_end peer_id
  | Reconnect dial => reconnect dial
  | Change dial change => handle_peer_change dial change
  end.

Lemma network_event_tidy e : tidy (network_event e).
Proof.
  destruct e as [to m|hs|c|p|dial|dial [p a|p]]; cbn [network_event].
  - apply tidy_get. intros n. destruct (active_senders n !! to) as [c|]; [|apply tidy_ret].
    apply tidy_modify. intros n1 []. split; try done. cbn. intros c'.
    rewrite lookup_alter_is_Some. apply to_channel0.
  - unfold handle_incoming_connection. destruct (read_handshake hs) as [[p s]|];
      [apply spawn_tidy|apply tidy_ret].
  - apply tidy_modify. intros n []. split; try done. cbn. intros c' Hc.
    apply lookup_delete_is_Some in Hc as [_ Hc]. by apply to_channel0.
  - apply tidy_modify. intros n []. split; cbn; try done.
    + intros q c [_ Hq]%lookup_delete_Some. by eapply to_connection0.
    + intros q q' c [_ Hq]%lookup_delete_Some [_ Hq']%lookup_delete_Some. by eapply to_one_peer0.
  - apply reconnect_tidy.
  - apply tidy_bind; [by apply tidy_modify; intros n []|]. intros _. apply tidy_get. intros n.
    case_decide; [|apply tidy_ret]. destruct (dial p a); [apply tidy_ret|apply outgoing_tidy].
  - apply tidy_bind; [by apply tidy_modify; intros n []|]. intros _.
    apply tidy_modify. intros n []. split; cbn; try done.
    + intros q c [_ Hq]%lookup_delete_Some. by eapply to_connection0.
    + intros q q' c [_ Hq]%lookup_delete_Some [_ Hq']%lookup_delete_Some. by eapply to_one_peer0.
Qed.

(** Whatever the tasks of the network do in whatever order, nothing fails, and
    a message for one peer is never put on the connection of another. *)
Theorem connections_stay_apart id peers es :
  ∃ n, for_each es network_event (network_new id peers) = (Ok (), n) ∧
    ∀ p q c, active_senders n !! p = Some c → active_senders n !! q = Some c → p = q.
Proof.
  destruct (tidy_for_each es network_event network_event_tidy (network_new id peers))
    as ([] & n & E & Hn).
  - split; cbn; intros *; rewrite ?lookup_empty; done.
  - exists n. split; [done|]. apply Hn.
Qed.

(** A registered peer that this node has to dial, since its own id is larger. *)
Definition to_dial (n : Network) (p : NodeId) : Prop :=
  is_Some (registry n !! p) ∧ (node_id p < node_id (local_id n))%Z.

Lemma spawn_sender p n :
  ∃ n', spawn_connection_tasks p n = (Ok (), n') ∧ is_Some (active_senders n' !! p) ∧
    local_id n' = local_id n ∧
    ∀ q, q ≠ p → active_senders n' !! q = active_senders n !! q.
Proof.
  unfold spawn_connection_tasks. rewrite bind_eq. cbn. eexists. split; [reflexivity|]. cbn.
  rewrite lookup_insert_eq. split_and!; [by eexists|done|]. intros q Hq.
  by rewrite lookup_insert_ne.
Qed.

Lemma reconnect_peer_ok dial p a n :
  ((node_id p < node_id (local_id n))%Z → dial p a = Connected true) →
  ∃ n', reconnect_peer dial (p, a) n = (Ok (), n') ∧ local_id n' = local_id n ∧
    ((node_id p < node_id (local_id n))%Z → is_Some (active_senders n' !! p)) ∧
    ∀ q c, active_senders n !! q = Some c → active_senders n' !! q = Some c.
Proof.
  intros Hd. unfold reconnect_peer. rewrite bind_eq. cbn [get]. case_decide as Hlt.
  { exists n. split_and!; [done..|lia|done]. }
  case_decide as Hs; [by exists n|]. rewrite Hd by lia.
  unfold handle_outgoing_connection. cbn [negb]. rewrite bind_eq. cbn [get].
  rewrite decide_False by done.
  destruct (spawn_sender p n) as (n' & E & Hp & Hl & Ho). exists n'. split_and!; [done..|].
  intros q c Hq. rewrite Ho; [done|]. intros ->. by destruct Hs.
Qed.

(** A round of the reconnection loop connects to every registered peer with a
    smaller id that answers, and keeps the connections that there are. *)
Theorem reconnect_connects dial n :
  (∀ p a, registry n !! p = Some a → (node_id p < node_id (local_id n))%Z →
     dial p a = Connected true) →
  ∃ n', reconnect dial n = (Ok (), n') ∧
    (∀ p, to_dial n p → is_Some (active_senders n' !! p)) ∧
    (∀ q c, active_senders n !! q = Some c → active_senders n' !! q = Some c).
Proof.
  intros Hd. unfold reconnect. rewrite bind_eq. cbn [get].
  assert (∀ l n0, local_id n0 = local_id n →
    (∀ p a, (p, a) ∈ l → registry n !! p = Some a) →
    ∃ n', for_each l (reconnect_peer dial) n0 = (Ok (), n') ∧
      (∀ p a, (p, a) ∈ l → (node_id p < node_id (local_id n))%Z →
         is_Some (active_senders n' !! p)) ∧
      ∀ q c, active_senders n0 !! q = Some c → active_senders n' !! q = Some c) as Hl.
  { induction l as [|[p a] l IH]; intros n0 Hid Hl.
    - exists n0. split_and!; [done|by intros p a ?%elem_of_nil|done].
    - destruct (reconnect_peer_ok dial p a n0) as (n1 & E1 & Hid1 & Hp & Hk).
      { rewrite Hid. apply Hd, Hl. by left. }
      destruct (IH n1) as (n' & E & Hc & Hk'); [congruence|intros q b Hq; apply Hl; by right|].
      exists n'. cbn [for_each]. erewrite bind_Ok by exact E1. split_and!; [done| |auto].
      intros q b [[= -> ->]|Hq]%elem_of_cons Hlt; [|by eapply Hc].
      rewrite Hid in Hp. destruct (Hp Hlt) as [c Hq]. exists c. by apply Hk'. }
  destruct (Hl (map_to_list (registry n)) n) as (n' & E & Hc & Hk); [done| |].
  { by intros p a ?%elem_of_map_to_list. }
  exists n'. split_and!; [done| |done]. intros p [[a Ha] Hlt]. eapply Hc; [|done].
  by apply elem_of_map_to_list.
Qed.

(** A connection can be open and unused: a peer with a larger id has dialed
    again, and only then the reader of its first connection ends. It removes
    the sender of the second one; messages to the peer are dropped, and no
    round of the reconnection loop repairs that, since the peer has to dial. *)
Theorem stale_reader_mutes_peer dial :
  let peer := MkNodeId 2 in
  ∃ n, for_each [Accept (write_handshake peer); Accept (write_handshake peer);
                 ReaderEnds peer; Send peer MTimeout; Reconnect dial] network_event
         (network_new (MkNodeId 1) {[ peer := [] ]}) = (Ok (), n) ∧
    channels n !! 1 = Some [] ∧ active_senders n !! peer = None.
Proof. eexists. split; [vm_compute; reflexivity|by vm_compute]. Qed.

(** ** Examples *)
Module Example.

(** A stand-in for [bincode] on two messages. *)
#[local] Instance tiny : MessageBincode := {|
  serialize_message m :=
    match m with
    | MTimeout => Some [z_u8 7]
    | MStatusQuery _ => Some (replicate (Z.to_nat 16777217) (z_u8 0))
    | _ => None
    end;
  deserialize_message b := if decide (b = [z_u8 7]) then Some MTimeout else None;
|}.

Lemma timeouts_deliverable : Forall deliverable [MTimeout; MTimeout].
Proof. repeat constructor; exists [z_u8 7]; split_and!; done. Qed.

Lemma messages_arrive_in_order_witness :
  ∃ j, reader_task (take 7 (writer_task [MTimeout; MTimeout])) =
         Ok (take j [MTimeout; MTimeout], Disconnected) ∧
    (length (writer_task [MTimeout; MTimeout]) ≤ 7 → take j [MTimeout; MTimeout] =
       [MTimeout; MTimeout]).
Proof. apply (messages_arrive_in_order [MTimeout; MTimeout] 7), timeouts_deliverable. Defined.

Lemma large_message_ends_connection_witness :
  let big := MStatusQuery {| sq_request_id := 1; sq_client_id := MkNodeId 9 |} in
  ∃ buf, serialize_message big = Some buf ∧
    reader_task (writer_task ([MTimeout; MTimeout] ++ big :: [MTimeout])) =
    Ok ([MTimeout; MTimeout], TooLarge (Z.of_nat (length buf))).
Proof.
  eexists. split; [reflexivity|]. apply large_message_ends_connection.
  - apply timeouts_deliverable.
  - reflexivity.
  - rewrite length_replicate, Z2Nat.id by done. by vm_compute.
Defined.

Lemma reconnect_connects_witness :
  let n := network_new (MkNodeId 3) {[ MkNodeId 1 := lit "node1:7001" ]} in
  ∃ n', reconnect (λ _ _, Connected true) n = (Ok (), n') ∧
    (∀ p, to_dial n p → is_Some (active_senders n' !! p)) ∧
    (∀ q c, active_senders n !! q = Some c → active_senders n' !! q = Some c).
Proof. by apply (reconnect_connects (λ _ _, Connected true)). Defined.

End Example.
