(* ===== verification/Service.v ===== *)
(** [src/runtime/service.rs] and [src/runtime/grpc_service.rs]: the two services
    in front of the runtime, one for lines of JSON, one for gRPC. *)

From S2P Require Import Prelude Bytes Float LogRecord RaftTypes Runtime.

(** What sending a request to the runtime and waiting for the answer gives. An
    answer may be outstanding for ever: a leader that has no majority neither
    answers a write nor drops it. *)
Inductive Answer : Type :=
  | Unavailable
  | Outstanding
  | Dropped
  | Answered (response : ServiceResponse).

(** * [service.rs] *)

Inductive WireValue : Type :=
  | WInt (v : Z)
  | WFloat (v : f64)
  | WString (v : str).

Inductive WireRequest : Type :=
  | WSet (key : str) (value : WireValue)
  | WGet (key : str)
  | WDelete (key : str)
  | WStatus
  | WAddNode (id : Z) (addr : str)
  | WRemoveNode (id : Z).

Record WireResponse : Type := MkWireResponse {
  w_success : bool;
  w_value : option WireValue;
  w_message : str;
  w_leader_id : option Z;
  w_term : Z;
}.

Definition value_of_wire (v : WireValue) : Value :=
  match v with WInt v => Int v | WFloat v => Float v | WString v => String v end.

Definition wire_of_value (v : Value) : WireValue :=
  match v with Int v => WInt v | Float v => WFloat v | String v => WString v end.

(** [serde_json] on these types: a request or the error as text, and a response
    as bytes. *)
Class Json : Type := {
  parse_request : str → WireRequest + str;
  print_response : WireResponse → res bytes;
}.

(** ** The registry of [ClusterManager]

    The handlers change it in tasks of their own, which run at any time. *)
Inductive RegistryTask : Type :=
  | RegisterNode (id : Z) (addr : str)
  | UnregisterNode (id : Z).

Record ApiState : Type := MkApiState {
  cluster_nodes : gmap Z str;
  spawned : list RegistryTask;
}.

#[export] Instance eta_ApiState : Eta ApiState := λ s, MkApiState (cluster_nodes s) (spawned s).
#[export] Instance upd_cluster_nodes : Upd cluster_nodes. Proof. derive_upd. Defined.
#[export] Instance upd_spawned : Upd spawned. Proof. derive_upd. Defined.

Definition cluster_manager_new (initial : list (Z * str)) : ApiState :=
  {| cluster_nodes := foldl (λ m '(id, addr), <[id := addr]> m) ∅ initial; spawned := [] |}.

Definition cluster_manager_default : ApiState :=
  cluster_manager_new [(1%Z, lit "node1:7001"); (2%Z, lit "node2:7002"); (3%Z, lit "node3:7003")].

Definition get_address (id : Z) (s : ApiState) : option str := cluster_nodes s !! id.

Definition add_node (id : Z) (addr : str) : M ApiState () :=
  modify (λ s, s <| cluster_nodes := <[id := addr]> (cluster_nodes s) |>).

Definition remove_node (id : Z) : M ApiState () :=
  modify (λ s, s <| cluster_nodes := delete id (cluster_nodes s) |>).

(** One of the tasks that were spawned runs. *)
Definition run_spawned (k : nat) : M ApiState () :=
  s ← get;
  match spawned s !! k with
  | None => mret ()
  | Some task =>
      modify (λ s, s <| spawned := take k (spawned s) ++ drop (S k) (spawned s) |>);;
      match task with
      | RegisterNode id addr => add_node id addr
      | UnregisterNode id => remove_node id
      end
  end.

(** ** Lines *)

(** The characters of [char::is_whitespace], as UTF-8. *)
Definition whitespace : list bytes :=
  ((λ z, [z_u8 z]) <$> [9; 10; 11; 12; 13; 32])%Z ++
  ((λ z, [z_u8 0xC2; z_u8 z]) <$> [0x85; 0xA0])%Z ++
  [[z_u8 0xE1; z_u8 0x9A; z_u8 0x80]] ++
  ((λ z, [z_u8 0xE2; z_u8 0x80; z_u8 z]) <$>
     [0x80; 0x81; 0x82; 0x83; 0x84; 0x85; 0x86; 0x87; 0x88; 0x89; 0x8A; 0xA8; 0xA9; 0xAF])%Z ++
  [[z_u8 0xE2; z_u8 0x81; z_u8 0x9F]; [z_u8 0xE3; z_u8 0x80; z_u8 0x80]].

(** What is left of [s] behind one of the prefixes. *)
Fixpoint strip_one (prefixes : list bytes) (s : bytes) : option bytes :=
  match prefixes with
  | [] => None
  | p :: ps => if decide (take (length p) s = p) then Some (drop (length p) s) else strip_one ps s
  end.

Fixpoint strip_all (fuel : nat) (prefixes : list bytes) (s : bytes) : bytes :=
  match fuel with
  | O => s
  | S fuel' => match strip_one prefixes s with
               | Some s' => strip_all fuel' prefixes s'
               | None => s
               end
  end.

(** [str::trim]. *)
Definition trim (s : str) : str :=
  let s := strip_all (length s) whitespace s in
  reverse (strip_all (length s) (reverse <$> whitespace) (reverse s)).

Definition newline : u8 := z_u8 10.

(** The first line of [s], with its end, and the rest. *)
Fixpoint split_line (s : bytes) : bytes * bytes :=
  match s with
  | [] => ([], [])
  | b :: s' => if decide (b = newline) then ([b], s')
               else let '(l, r) := split_line s' in (b :: l, r)
  end.

Section service.
Context `{Json}.
(* the runtime: the answer to the [n]-th request *)
Context (answer : nat → ServiceOperation → Answer).

(** A connection of a client: what it sends, what it is sent, the shared state,
    and how many requests were made. [capacity] is the number of bytes that
    can still be written, if the connection breaks at some point. *)
Record Connection : Type := MkConnection {
  input : bytes;
  output : bytes;
  capacity : option nat;
  api : ApiState;
  asked : nat;
}.

#[export] Instance eta_Connection : Eta Connection := λ c,
  MkConnection (input c) (output c) (capacity c) (api c) (asked c).
#[export] Instance upd_input : Upd input. Proof. derive_upd. Defined.
#[export] Instance upd_output : Upd output. Proof. derive_upd. Defined.
#[export] Instance upd_capacity : Upd capacity. Proof. derive_upd. Defined.
#[export] Instance upd_api : Upd api. Proof. derive_upd. Defined.
#[export] Instance upd_asked : Upd asked. Proof. derive_upd. Defined.

(** [read_line]: an error if the line is not UTF-8. *)
Definition read_line : M Connection str :=
  c ← get;
  let '(line, rest) := split_line (input c) in
  modify (λ c, c <| input := rest |>);;
  lift (ok_or (invalid_data "stream did not contain valid UTF-8") (from_utf8 line)).

Definition broken_pipe : io_error := IoError BrokenPipe "Broken pipe".

(** [write_all] on the connection. *)
Definition write_all (b : bytes) : M Connection () :=
  c ← get;
  match capacity c with
  | None => modify (λ c, c <| output := output c ++ b |>)
  | Some k =>
      modify (λ c, c <| output := output c ++ take k b |> <| capacity := Some (k - length b) |>);;
      if decide (length b ≤ k) then mret () else fail broken_pipe
  end.

Definition spawn (task : RegistryTask) : M Connection () :=
  modify (λ c, c <| api := (api c) <| spawned := spawned (api c) ++ [task] |> |>).

(** The operation of a request; the registry is told at once. *)
Definition operation_of (request : WireRequest) : M Connection ServiceOperation :=
  match request with
  | WSet key value => mret (SvcSet key (value_of_wire value))
  | WGet key => mret (SvcGet key)
  | WDelete key => mret (SvcDelete key)
  | WStatus => mret SvcStatus
  | WAddNode id addr => spawn (RegisterNode id addr);; mret (SvcAddNode id addr)
  | WRemoveNode id => spawn (UnregisterNode id);; mret (SvcRemoveNode id)
  end.

Definition failure (message : str) : WireResponse :=
  {| w_success := false; w_value := None; w_message := message; w_leader_id := None;
     w_term := 0 |}.

Definition wire_response (r : ServiceResponse) : WireResponse :=
  {| w_success := sr_success r; w_value := wire_of_value <$> sr_value r;
     w_message := sr_message r; w_leader_id := sr_leader_id r; w_term := sr_term r |}.

(** The response to a line; none while the answer is outstanding. *)
Definition handle_line (line : str) : M Connection (option WireResponse) :=
  match parse_request (trim line) with
  | inr e => mret (Some (failure (lit "Invalid JSON request: " ++ e)))
  | inl request =>
      operation ← operation_of request;
      n ← gets asked;
      modify (λ c, c <| asked := S n |>);;
      mret match answer n operation with
           | Unavailable => Some (failure (lit "Raft runtime unavailable"))
           | Outstanding => None
           | Dropped => Some (failure (lit "Raft runtime dropped the response"))
           | Answered response => Some (wire_response response)
           end
  end.

(** Where the handler is when it has nothing more to do: at its end, since the
    client has closed the connection, or waiting for an answer. *)
Inductive Finish : Type := Closed | Waiting.

(** The loop of [handle_connection]; every turn takes a byte at least. *)
Fixpoint connection_loop (fuel : nat) : M Connection Finish :=
  match fuel with
  | O => panic "out of fuel"
  | S fuel' =>
      line ← read_line;
      if decide (line = []) then mret Closed else
      response ← handle_line line;
      match response with
      | None => mret Waiting
      | Some response =>
          out ← lift (print_response response);
          write_all (out ++ [newline]);;
          connection_loop fuel'
      end
  end.

Definition handle_connection : M Connection Finish :=
  c ← get;
  connection_loop (S (length (input c))).

End service.

(** * [grpc_service.rs] *)

(** The messages of [proto/kvraft.proto]. *)
Inductive Data : Type :=
  | IntValue (v : Z)
  | FloatValue (v : f64)
  | StringValue (v : str).

Record ProtoValue : Type := MkProtoValue { proto_data : option Data }.
Record SetRequest : Type := MkSetRequest { set_key : str; set_value : option ProtoValue }.

Record KvResponse : Type := MkKvResponse {
  kv_success : bool;
  kv_value : option ProtoValue;
  kv_message : str;
  kv_leader_id : option Z;
  kv_term : Z;
}.

Inductive Code : Type := CodeUnavailable | CodeInternal | CodeInvalidArgument.
Record Status : Type := MkStatus { code : Code; details : string }.

Definition from_proto (value : ProtoValue) : Value + Status :=
  match proto_data value with
  | Some (IntValue v) => inl (Int v)
  | Some (FloatValue v) =>
      if negb (f64_is_finite v)
      then inr (MkStatus CodeInvalidArgument "float value must be finite")
      else inl (Float v)
  | Some (StringValue v) => inl (String v)
  | None => inr (MkStatus CodeInvalidArgument "value is required")
  end.

Definition to_proto (value : Value) : ProtoValue :=
  {| proto_data := Some match value with
                        | Int v => IntValue v
                        | Float v => FloatValue v
                        | String v => StringValue v
                        end |}.

Definition to_response (r : ServiceResponse) : KvResponse :=
  {| kv_success := sr_success r; kv_value := to_proto <$> sr_value r;
     kv_message := sr_message r; kv_leader_id := sr_leader_id r; kv_term := sr_term r |}.

Section grpc.
Context (answer : ServiceOperation → Answer).

(** [dispatch]; the state is the list of the operations given to the runtime.
    There is no result while the answer is outstanding. *)
Definition dispatch (operation : ServiceOperation) :
    M (list ServiceOperation) (option (ServiceResponse + Status)) :=
  match answer operation with
  | Unavailable => mret (Some (inr (MkStatus CodeUnavailable "Raft runtime unavailable")))
  | Outstanding => modify (λ l, l ++ [operation]);; mret None
  | Dropped =>
      modify (λ l, l ++ [operation]);;
      mret (Some (inr (MkStatus CodeInternal "Raft runtime dropped the response")))
  | Answered response => modify (λ l, l ++ [operation]);; mret (Some (inl response))
  end.

(** [self.dispatch(..).await?] and the response. *)
Definition respond (operation : ServiceOperation) :
    M (list ServiceOperation) (option (KvResponse + Status)) :=
  result ← dispatch operation;
  mret ((λ r, match r with
              | inl response => inl (to_response response)
              | inr status => inr status
              end) <$> result).

Definition grpc_get (key : str) := respond (SvcGet key).

Definition grpc_set (request : SetRequest) :
    M (list ServiceOperation) (option (KvResponse + Status)) :=
  match set_value request with
  | None => mret (Some (inr (MkStatus CodeInvalidArgument "value is required")))
  | Some v =>
      match from_proto v with
      | inr status => mret (Some (inr status))
      | inl value => respond (SvcSet (set_key request) value)
      end
  end.

Definition grpc_delete (key : str) := respond (SvcDelete key).
Definition grpc_status := respond SvcStatus.

End grpc.

(** * Properties *)

(** The lines of a text, each with its end; the last one may lack it. *)
Fixpoint lines (s : bytes) : list bytes :=
  match s with
  | [] => []
  | b :: s' =>
      if decide (b = newline) then [b] :: lines s' else
      match lines s' with
      | [] => [[b]]
      | l :: ls => (b :: l) :: ls
      end
  end.

Lemma split_line_lines s l r :
  s ≠ [] → split_line s = (l, r) → l ≠ [] ∧ lines s = l :: lines r ∧ length r < length s.
Proof.
  revert l r. induction s as [|b s IH]; [done|]. intros l r _. cbn [split_line lines].
  case_decide as Hb; [intros [= <- <-]; cbn; split_and!; [done|done|lia]|].
  destruct (split_line s) as [l' r'] eqn:E. intros [= <- <-].
  destruct s as [|b' s']; [injection E as <- <-; cbn; split_and!; [done..|lia]|].
  destruct (IH l' r') as (Hl & -> & Hr); [done..|]. split_and!; [done..|cbn in *; lia].
Qed.

Section answers.
Context `{Json} (answer : nat → ServiceOperation → Answer).

Definition wire_operation (request : WireRequest) : ServiceOperation :=
  match request with
  | WSet key value => SvcSet key (value_of_wire value)
  | WGet key => SvcGet key
  | WDelete key => SvcDelete key
  | WStatus => SvcStatus
  | WAddNode id addr => SvcAddNode id addr
  | WRemoveNode id => SvcRemoveNode id
  end.

(** What the service is for: the response to a line, if [n] requests were made
    before; none while it is outstanding. *)
Definition response_to (n : nat) (l : str) : option WireResponse :=
  match parse_request (trim l) with
  | inr e => Some (failure (lit "Invalid JSON request: " ++ e))
  | inl request =>
      match answer n (wire_operation request) with
      | Unavailable => Some (failure (lit "Raft runtime unavailable"))
      | Outstanding => None
      | Dropped => Some (failure (lit "Raft runtime dropped the response"))
      | Answered response => Some (wire_response response)
      end
  end.

(** The requests among some lines. *)
Definition is_request (l : str) : bool := 
  match parse_request (trim l) with inl _ => true | inr _ => false end.
Definition requests_in (ls : list str) : nat := length (filter is_request ls).

(** A response as a line. *)
Definition printed (r : WireResponse) : bytes :=
  match print_response r with Ok out => out ++ [newline] | _ => [] end.

(** The handler has given the responses [rs], each to its line, and is at its end
    with the result [r]: the lines are used up, or the next one has no answer or
    is not UTF-8. *)
Definition finished_by (n : nat) (ls : list str) (rs : list WireResponse) (r : res Finish) : Prop :=
  (∀ i x, rs !! i = Some x → ∃ l, ls !! i = Some l ∧ utf8_valid l = true ∧
     response_to (n + requests_in (take i ls)) l = Some x) ∧
  match ls !! length rs with
  | None => r = Ok Closed ∧ length rs = length ls
  | Some l =>
      if utf8_valid l
      then response_to (n + requests_in (take (length rs) ls)) l = None ∧ r = Ok Waiting
      else r = Err (invalid_data "stream did not contain valid UTF-8")
  end.

Lemma handle_line_ok line c :
  ∃ c', handle_line answer line c = (Ok (response_to (asked c) line), c') ∧ input c' = input c ∧
    output c' = output c ∧ capacity c' = capacity c ∧
    asked c' = asked c + requests_in [line].
Proof using Type.
  unfold handle_line, response_to, requests_in, is_request. cbn [filter list_filter].
  destruct (parse_request (trim line)) as [request|e]; cbn [length].
  2: { exists c. rewrite Nat.add_0_r. by split_and!. }
  assert (∃ c1, operation_of request c = (Ok (wire_operation request), c1) ∧ input c1 = input c ∧
    output c1 = output c ∧ capacity c1 = capacity c ∧ asked c1 = asked c)
    as (c1 & E & Hi & Ho & Hc & Ha) by (destruct request; eexists; (split; [reflexivity|done])).
  rewrite bind_eq, E, <-Ha. eexists. split; [reflexivity|]. cbn. rewrite Hi, Ho, Hc.
  split_and!; try done. rewrite decide_True by done. cbn. lia.
Qed.

(** One more line is answered. *)
Lemma finished_cons n l ls x rs r :
  utf8_valid l = true → response_to n l = Some x →
  finished_by (n + requests_in [l]) ls rs r → finished_by n (l :: ls) (x :: rs) r.
Proof using Type.
  intros Hu Hx [Hrs Hend].
  assert (∀ k, n + requests_in (take (S k) (l :: ls)) =
    n + requests_in [l] + requests_in (take k ls)) as Hn.
  { intros k. unfold requests_in. cbn [take firstn]. rewrite !filter_cons, filter_nil.
    destruct (decide (is_request l)); cbn [length]; lia. }
  split.
  - intros [|i] y; cbn [lookup list_lookup].
    + intros [= <-]. exists l. rewrite take_0. cbn. by rewrite Nat.add_0_r.
    + rewrite Hn. apply Hrs.
  - cbn [length]. rewrite Hn. cbn [lookup list_lookup]. destruct (ls !! length rs); [done|].
    destruct Hend as [-> ->]. done.
Qed.

Lemma connection_loop_ok fuel c :
  length (input c) < fuel → capacity c = None →
  (∀ r, ∃ out, print_response r = Ok out) →
  ∃ r c' rs, connection_loop answer fuel c = (r, c') ∧
    finished_by (asked c) (lines (input c)) rs r ∧
    output c' = output c ++ mjoin (printed <$> rs).
Proof using Type.
  revert c. induction fuel as [|fuel IH]; intros c Hf Hcap Hp; [lia|].
  cbn [connection_loop]. rewrite bind_eq. unfold read_line. rewrite bind_eq. cbn [get].
  destruct (decide (input c = [])) as [Hi|Hi].
  { rewrite Hi. cbn. eexists _, _, []. split; [reflexivity|]. split; [done|]. by rewrite app_nil_r. }
  destruct (split_line (input c)) as [l rest] eqn:E.
  destruct (split_line_lines (input c) l rest Hi E) as (Hl & -> & Hlen).
  rewrite bind_eq. cbn [modify]. unfold from_utf8. destruct (utf8_valid l) eqn:Hu; cycle 1.
  { eexists _, _, []. split; [reflexivity|]. split; [|by rewrite app_nil_r].
    split; [done|]. cbn. by rewrite Hu. }
  cbn [ok_or lift]. rewrite decide_False by done. set (c1 := c <| input := rest |>).
  destruct (handle_line_ok l c1) as (c2 & E2 & Hi2 & Ho2 & Hc2 & Ha2).
  change (asked c1) with (asked c) in *. rewrite bind_eq, E2.
  destruct (response_to (asked c) l) as [x|] eqn:Ex; cycle 1.
  { eexists _, _, []. split; [reflexivity|]. split; [|by rewrite Ho2, app_nil_r].
    split; [done|]. cbn. rewrite Hu. unfold requests_in. cbn. by rewrite Nat.add_0_r. }
  destruct (Hp x) as [out Eout]. rewrite bind_eq, Eout. cbn [lift]. rewrite bind_eq.
  unfold write_all. rewrite bind_eq. cbn [get]. rewrite Hc2. change (capacity c1) with (capacity c).
  rewrite Hcap. cbn [modify].
  destruct (IH (c2 <| output := output c2 ++ out ++ [newline] |>)) as (r & c' & rs & E' & Hfin & Ho').
  - cbn. rewrite Hi2. cbn. lia.
  - cbn. by rewrite Hc2.
  - done.
  - exists r, c', (x :: rs). split; [exact E'|]. split.
    + apply finished_cons; [done..|]. cbn in Hfin. by rewrite Ha2, Hi2 in Hfin.
    + rewrite Ho'. cbn. rewrite Ho2. unfold printed at 2. by rewrite Eout, <-app_assoc.
Qed.

(** Printed responses are lines. *)
Lemma lines_line out s : newline ∉ out → lines (out ++ newline :: s) = (out ++ [newline]) :: lines s.
Proof using Type.
  induction out as [|b out IH]; intros Hn; cbn [app lines]; [by rewrite decide_True|].
  apply not_elem_of_cons in Hn as [Hb Hn]. rewrite decide_False by done. by rewrite IH.
Qed.

Lemma lines_printed rs :
  (∀ r, ∃ out, print_response r = Ok out ∧ newline ∉ out) →
  lines (mjoin (printed <$> rs)) = printed <$> rs.
Proof using Type.
  intros Hp. induction rs as [|r rs IH]; [done|].
  change (mjoin (printed <$> r :: rs)) with (printed r ++ mjoin (printed <$> rs)).
  rewrite fmap_cons. destruct (Hp r) as (out & E & Hn). unfold printed at 1 3. rewrite E, <-app_assoc.
  cbn [app]. by rewrite lines_line, IH.
Qed.

(** C33: A client is answered line by line: on a connection that does not break,
    the output is one line for each line of the input from the first on, in
    order, each the response to its line, malformed requests included; it ends
    with the input, or before the first line that is not UTF-8, which ends the
    connection, or before the first whose answer is outstanding, for which the
    handler waits. *)
Theorem one_response_per_line c :
  (∀ r, ∃ out, print_response r = Ok out ∧ newline ∉ out) → capacity c = None →
  ∃ r c' out rs, handle_connection answer c = (r, c') ∧ output c' = output c ++ out ∧
    lines out = printed <$> rs ∧ finished_by (asked c) (lines (input c)) rs r.
Proof using Type.
  intros Hp Hc. destruct (connection_loop_ok (S (length (input c))) c) as (r & c' & rs & E & Hfin & Ho);
    [lia|done|intros x; destruct (Hp x) as (out & ? & _); eauto|].
  exists r, c', (mjoin (printed <$> rs)), rs. split; [exact E|]. split; [done|].
  split; [by apply lines_printed|done].
Qed.

(** A node is registered whether or not it joins the cluster: the request to
    add it fails since the runtime is gone, and once the task that was
    spawned has run, its address is found. *)
Theorem refused_node_is_registered id addr line c :
  parse_request (trim line) = inl (WAddNode id addr) →
  answer (asked c) (SvcAddNode id addr) = Unavailable → spawned (api c) = [] →
  ∃ c' s, handle_line answer line c = (Ok (Some (failure (lit "Raft runtime unavailable"))), c') ∧
    run_spawned 0 (api c') = (Ok (), s) ∧ get_address id s = Some addr.
Proof using Type.
  intros Hp Ha Hs. unfold handle_line. rewrite Hp. cbn [operation_of]. rewrite !bind_eq.
  unfold spawn. cbn. rewrite bind_eq. cbn. rewrite bind_eq. cbn. rewrite Ha, Hs. eexists _, _. split; [reflexivity|]. split; [reflexivity|].
  unfold get_address. cbn. by rewrite lookup_insert_eq.
Qed.

End answers.

(** The tasks that change the registry race: of a request to add a node and
    one to remove it, made one after the other on one connection, either may
    take effect last. *)
Theorem registry_tasks_race nodes id addr :
  let s := {| cluster_nodes := nodes;
              spawned := [RegisterNode id addr; UnregisterNode id] |} in
  (∃ s', (run_spawned 0;; run_spawned 0) s = (Ok (), s') ∧ get_address id s' = None) ∧
  (∃ s', (run_spawned 1;; run_spawned 0) s = (Ok (), s') ∧ get_address id s' = Some addr).
Proof.
  split; eexists; (split; [reflexivity|]); unfold get_address; cbn.
  - by rewrite lookup_delete_eq.
  - by rewrite lookup_insert_eq.
Qed.

(** An operation whose command is equal to itself: no NaN. *)
Definition op_comparable (op : ServiceOperation) : Prop :=
  match op with
  | SvcSet key value => command_eqb (Set_ key value) (Set_ key value) = true
  | _ => True
  end.

Lemma from_proto_comparable key p v :
  from_proto p = inl v → op_comparable (SvcSet key v).
Proof.
  unfold from_proto. destruct (proto_data p) as [[z|f|s]|]; [|case_match eqn:Hf| |done];
    try done; intros [= <-]; cbn; rewrite !bool_decide_true by done; [done| |done].
  unfold f64_eqb. assert (f64_is_nan f = false) as ->.
  { unfold f64_is_nan. apply bool_decide_false. intros [He _].
    apply negb_false_iff in Hf. unfold f64_is_finite in Hf. by apply bool_decide_eq_true in Hf. }
  cbn. by rewrite bool_decide_true.
Qed.

(** No value that is not a number gets to the runtime through gRPC: a [set]
    without a finite value is refused, and what the runtime is given can be
    compared with itself. *)
Theorem grpc_set_comparable answer request ops r ops' :
  Forall op_comparable ops → grpc_set answer request ops = (Ok r, ops') →
  Forall op_comparable ops' ∧
  ((∀ v, set_value request = Some v → ∃ s, from_proto v = inr s) →
     ops' = ops ∧ ∃ d, r = Some (inr (MkStatus CodeInvalidArgument d))).
Proof.
  intros Hops. unfold grpc_set. destruct (set_value request) as [v|]; cycle 1.
  { intros [= <- <-]. split; [done|]. intros _. split; [done|]. by eexists. }
  destruct (from_proto v) as [value|s] eqn:Ev; cycle 1.
  { intros [= <- <-]. split; [done|]. intros _. split; [done|]. unfold from_proto in Ev.
    destruct (proto_data v) as [[z|f|t]|]; try done; [case_match; [|done]|];
      injection Ev as <-; by eexists. }
  intros E. split; cycle 1.
  { intros Hv. destruct (Hv v eq_refl) as [s Hs]. by rewrite Ev in Hs. }
  pose proof (from_proto_comparable (set_key request) v value Ev) as Hc.
  unfold respond, dispatch in E. rewrite bind_eq in E.
  destruct (answer _); cbn in E; injection E as _ <-; [done|..];
    (apply Forall_app; split; [done|by constructor]).
Qed.

(** ** Examples *)
Module Example.

(** A stand-in for [serde_json]: two requests, and responses that say if they
    were successful. *)
#[local] Instance tiny_json : Json := {|
  parse_request s :=
    if decide (s = lit "STATUS") then inl WStatus else
    if decide (s = lit "ADD") then inl (WAddNode 4 (lit "node4:7004")) else inr (lit "?");
  print_response r := Ok (if w_success r then lit "ok" else lit "error");
|}.

Definition no_runtime (_ : nat) (_ : ServiceOperation) : Answer := Unavailable.

(** A runtime that answers the first request, and never the second. *)
Definition slow_runtime (n : nat) (_ : ServiceOperation) : Answer :=
  if decide (n = 0)
  then Answered {| sr_success := true; sr_value := None; sr_message := []; sr_leader_id := None;
                   sr_term := 1 |}
  else Outstanding.

Definition client_text : bytes :=
  lit "  STATUS " ++ [newline] ++ lit "hello" ++ [newline] ++ lit "STATUS" ++ [newline] ++
  lit "hello" ++ [newline].

Definition client_connection : Connection :=
  {| input := client_text; output := []; capacity := None; api := cluster_manager_default;
     asked := 0 |}.

Lemma one_response_per_line_witness :
  (handle_connection slow_runtime client_connection).1 = Ok Waiting ∧
  output (handle_connection slow_runtime client_connection).2 =
    lit "ok" ++ [newline] ++ lit "error" ++ [newline] ∧
  ∃ r c' out rs, handle_connection slow_runtime client_connection = (r, c') ∧
    output c' = [] ++ out ∧ lines out = printed <$> rs ∧
    finished_by slow_runtime 0 (lines client_text) rs r.
Proof.
  split; [by vm_compute|]. split; [by vm_compute|].
  apply (one_response_per_line slow_runtime client_connection); [|reflexivity].
  intros r. eexists. split; [reflexivity|]. destruct (w_success r); apply (bool_decide_unpack _); by vm_compute.
Defined.

Lemma refused_node_is_registered_witness :
  ∃ c' s, handle_line no_runtime (lit "ADD") client_connection =
      (Ok (Some (failure (lit "Raft runtime unavailable"))), c') ∧
    run_spawned 0 (api c') = (Ok (), s) ∧ get_address 4 s = Some (lit "node4:7004").
Proof. by apply (refused_node_is_registered no_runtime). Defined.

Lemma grpc_set_comparable_witness :
  let request := {| set_key := lit "k";
                    set_value := Some {| proto_data := Some (FloatValue 0x7FF0000000000000%Z) |} |} in
  ∃ r, grpc_set (λ _, Unavailable) request [] = (Ok r, []) ∧
    Forall op_comparable [] ∧
    ((∀ v, set_value request = Some v → ∃ s, from_proto v = inr s) →
       @nil ServiceOperation = [] ∧ ∃ d, r = Some (inr (MkStatus CodeInvalidArgument d))).
Proof.
  eexists. split; [vm_compute; reflexivity|].
  eapply (grpc_set_comparable (λ _, Unavailable) _ []); [constructor|vm_compute; reflexivity].
Defined.

End Example.
