(* ===== verification/Cluster.v ===== *)
(** A cluster of nodes: what the protocol guarantees of the real node states,
    kept by every program that runs on one of the nodes; and the cluster of
    [Runtime.v] over a network that may lose, repeat and reorder messages. *)

From stdpp Require Import functions.
From S2P Require Import Prelude Wp Bytes Float LogRecord RaftTypes LogStore RaftNode Protocol.
From S2P Require Import RaftSim Runtime.

Section cluster.
Context {D : Type} `{!KvStore D} `{!F64Text} `{!Bincode} `{!RandomMillis}.
Context (cluster : gset NodeId) (db0 : D) (allowed : Command → Prop).

Abbreviation Node := (RaftNode D).
Abbreviation reachable := (Protocol.reachable sentinel cluster).
Abbreviation ok := (λ i, ok cluster i db0 allowed).

(** The nodes are those of some reachable protocol state. *)
Record fits (B : Z) (nodes : gmap NodeId Node) (h : History) : Prop := {
  fits_dom : dom nodes = cluster;
  fits_protocol : ∃ f, reachable f h ∧ ∀ i n, nodes !! i = Some n → f i = view n;
  fits_node i n : nodes !! i = Some n → ok i B n h;
}.

(** Steps of one node, in the cluster. *)
Lemma lift_moves f i x y :
  i ∈ cluster → rtc (pmove cluster i) x y → reachable f x.2 → f i = x.1 →
  ∃ f', reachable f' y.2 ∧ f' i = y.1 ∧ ∀ j, j ≠ i → f' j = f j.
Proof using Type.
  intros Hi Hs. revert f. induction Hs as [x|x y z Hs _ IH]; intros f Hr Hf; [by exists f|].
  destruct (IH (<[i := y.1]> f)) as (f' & Hr' & Hf' & Ho).
  - eapply reach_step; [exact Hr|done|]. rewrite Hf. exact Hs.
  - apply fn_lookup_insert.
  - exists f'. split_and!; [done..|]. intros j Hj. rewrite Ho by done.
    by apply fn_lookup_insert_ne.
Qed.

(** The steps of another node do not disturb a node. *)
Lemma ok_other B i j n n' h h' :
  i ∈ cluster → (∀ x, x ∈ sent h → x ∈ sent h') →
  ok j B n' h' → at_node cluster i (view n) h' → ok i B n h → ok i B n h'.
Proof using Type.
  intros Hi Hs Hj Hat []. destruct Hj. split; auto.
Qed.

(** A program on node [i] that is correct for the protocol keeps the cluster
    in order. *)
Lemma fits_run {A} B nodes i n h (m : M Node A) (E : A → Node → History → Prop) :
  fits B nodes h → nodes !! i = Some n →
  wp (λ _, store_panics db0 allowed) m (Post cluster i db0 allowed B n h E) n →
  match m n with
  | (Ok a, n') => ∃ h', fits B (<[i := n']> nodes) h' ∧ E a n' h' ∧
      (∀ x, x ∈ sent h → x ∈ sent h') ∧ (∀ x, x ∈ outbox n' → x ∈ sent h')
  | (Err _, _) => False
  | (Panic _, n') => store_panics db0 allowed n'
  end.
Proof using Type.
  intros [Hdom (f & Hr & Hf) Hok] Hn Hm. unfold wp in Hm.
  destruct (m n) as [[a|e|p] n']; [|done..].
  destruct Hm as (h' & Hs & Hok' & He). exists h'.
  assert (Hi : i ∈ cluster) by (rewrite <-Hdom; by eapply elem_of_dom_2).
  pose proof (λ x, moves_sent cluster i (view n, h) (view n', h') x Hs) as Hsent. cbn in Hsent.
  destruct (lift_moves f i _ _ Hi Hs Hr (Hf i n Hn)) as (f' & Hr' & Hf' & Ho). cbn in *.
  split_and!; [|done|done|by apply Hok'].
  assert (Hf'' : ∀ j m, <[i := n']> nodes !! j = Some m → f' j = view m).
  { intros j m' [[<- <-]|[Hne Hj]]%lookup_insert_Some; [done|]. rewrite Ho by done. by apply Hf. }
  split.
  - rewrite dom_insert_L. set_solver.
  - by exists f'.
  - intros j m' Hj. pose proof (Hf'' j m' Hj) as Hv.
    apply lookup_insert_Some in Hj as [[<- <-]|[Hne Hj]]; [done|].
    eapply (ok_other B j i m' n' h h'); [|done|done|by exists f'|by apply Hok].
    rewrite <-Hdom. by eapply elem_of_dom_2.
Qed.

(** A node may forget messages that it has not sent. *)
Lemma ok_outbox_sub i B n h msgs :
  (∀ x, x ∈ msgs → x ∈ outbox n) → ok i B n h → ok i B (n <| outbox := msgs |>) h.
Proof using Type. intros Hm []. split; try done. cbn. auto. Qed.

Lemma fits_outbox B nodes i n h msgs :
  fits B nodes h → nodes !! i = Some n → (∀ x, x ∈ msgs → x ∈ outbox n) →
  fits B (<[i := n <| outbox := msgs |>]> nodes) h.
Proof using Type.
  intros [Hdom (f & Hr & Hf) Hok] Hn Hm. split.
  - rewrite dom_insert_L. apply elem_of_dom_2 in Hn. set_solver.
  - exists f. split; [done|]. intros j m [[<- <-]|[_ Hj]]%lookup_insert_Some; [|auto].
    by rewrite (Hf i n Hn).
  - intros j m [[<- <-]|[_ Hj]]%lookup_insert_Some; [|auto].
    apply ok_outbox_sub; auto.
Qed.

(** Raising the bound on the terms. *)
Lemma fits_bound B B' nodes h : (B ≤ B')%Z → fits B nodes h → fits B' nodes h.
Proof using Type.
  intros HB [Hdom Hp Hok]. split; [done..|]. intros i n Hn. destruct (Hok i n Hn).
  split; try done; [|lia]. intros to m Hm. specialize (ok_static to m Hm).
  destruct m; cbn in *; lia || (destruct ok_static; split; [lia|done]) || done.
Qed.

(** ** Starting *)

(** A node as [RaftNode::new_in_dir] makes it in an empty directory. *)
Lemma start_fresh (i : NodeId) ps now n :
  new_in_dir [] [] (Ok db0) i ps now = Ok n →
  id n = i ∧ peers n = ps ∧ outbox n = [] ∧ db n = db0 ∧ view n = p_init sentinel.
Proof using Type.
  unfold new_in_dir. cbn. unfold reset_election_timeout. cbn. by intros [= <-].
Qed.

Lemma fresh_ok B (i : NodeId) ps now n f :
  (0 ≤ B)%Z → (∀ j, j ∈ cluster → f j = p_init sentinel) → i ∈ cluster →
  NoDup ps → (∀ p, p ∈ ps ↔ p ∈ cluster ∧ p ≠ i) → allowed (Set_ [] (String [])) →
  new_in_dir [] [] (Ok db0) i ps now = Ok n → ok i B n (h_init sentinel).
Proof using Type.
  intros HB Hf Hi Hnd Hps Hal Hn.
  destruct (start_fresh i ps now n Hn) as (E1 & E2 & E3 & E4 & Hv).
  unfold view in Hv. injection Hv as V1 V2 V3 V4 V5 V6 V7 V8.
  split; rewrite ?E1, ?E2, ?E3, ?E4, ?V1, ?V2, ?V3, ?V4, ?V5, ?V6, ?V7, ?V8; try done.
  - by apply Forall_singleton.
  - intros to m Hm. by apply elem_of_nil in Hm.
  - intros p. rewrite lookup_empty. by intros [].
  - exists f. split; [by apply reach_init|]. rewrite (Hf i Hi). unfold view.
    by rewrite V1, V2, V3, V4, V5, V6, V7, V8.
Qed.

(** A cluster in which every node was just made. *)
Definition fresh (nodes : gmap NodeId Node) : Prop :=
  dom nodes = cluster ∧
  ∀ i n, nodes !! i = Some n → ∃ ps now m,
    NoDup ps ∧ (∀ p, p ∈ ps ↔ p ∈ cluster ∧ p ≠ i) ∧
    new_in_dir [] [] (Ok db0) i ps now = Ok m ∧
    core n = core m ∧ meta_store n = meta_store m.

Lemma fresh_fits B nodes :
  (0 ≤ B)%Z → allowed (Set_ [] (String [])) → fresh nodes → fits B nodes (h_init sentinel).
Proof using Type.
  intros HB Hal [Hdom Hn]. set (f := λ _ : NodeId, p_init sentinel). split; [done| |].
  - exists f. split; [by apply reach_init|]. intros i n (ps & now & m & _ & _ & Hm & Hc & _)%Hn.
    destruct (start_fresh i ps now m Hm) as (_ & _ & _ & _ & Hv).
    rewrite (same_view m n) by done. done.
  - intros i n Hni. destruct (Hn i n Hni) as (ps & now & m & Hnd & Hps & Hm & Hc & _).
    apply (ok_same _ _ _ _ _ m); [done|]. eapply fresh_ok; try done.
    rewrite <-Hdom. by eapply elem_of_dom_2.
Qed.

(** ** What holds of the nodes *)

Section safety.
Context {B : Z} {nodes : gmap NodeId Node} {h : History}.
Hypothesis (Hfits : fits B nodes h).

Lemma fits_in i n : nodes !! i = Some n → i ∈ cluster.
Proof using Hfits. intros Hn. rewrite <-(fits_dom _ _ _ Hfits). by eapply elem_of_dom_2. Qed.

Lemma fits_election_safe i j a b :
  nodes !! i = Some a → nodes !! j = Some b → role a = Leader → role b = Leader →
  current_term a = current_term b → i = j.
Proof using Hfits.
  intros Ha Hb Hra Hrb Ht. destruct (fits_protocol _ _ _ Hfits) as (f & Hr & Hf).
  eapply (election_safe sentinel cluster); [done|exact Hr|by eapply fits_in|by eapply fits_in|..];
    by rewrite ?(Hf i a Ha), ?(Hf j b Hb).
Qed.

Lemma fits_logs_match i j a b k x y :
  nodes !! i = Some a → nodes !! j = Some b → log a !! k = Some x → log b !! k = Some y →
  term x = term y → take (S k) (log a) = take (S k) (log b).
Proof using Hfits.
  intros Ha Hb Hx Hy Ht. destruct (fits_protocol _ _ _ Hfits) as (f & Hr & Hf).
  pose proof (logs_match sentinel cluster eq_refl f h i j k x y Hr) as Hm.
  rewrite (Hf i a Ha), (Hf j b Hb) in Hm.
  apply Hm; [by eapply fits_in|by eapply fits_in|done..].
Qed.

Lemma fits_committed_agree i j a b k :
  nodes !! i = Some a → nodes !! j = Some b →
  k ≤ commit_index a ∨ k ≤ last_applied a → k ≤ commit_index b ∨ k ≤ last_applied b →
  ∃ e, log a !! k = Some e ∧ log b !! k = Some e.
Proof using Hfits.
  intros Ha Hb Hka Hkb. destruct (fits_protocol _ _ _ Hfits) as (f & Hr & Hf).
  pose proof (committed_agree sentinel cluster eq_refl f h i j k Hr) as Hm.
  rewrite (Hf i a Ha), (Hf j b Hb) in Hm.
  apply Hm; [by eapply fits_in|by eapply fits_in|done..].
Qed.

Lemma fits_leader_complete i j a b k :
  nodes !! i = Some a → nodes !! j = Some b → role b = Leader →
  (current_term a ≤ current_term b)%Z → k ≤ commit_index a ∨ k ≤ last_applied a →
  log b !! k = log a !! k.
Proof using Hfits.
  intros Ha Hb Hrb Ht Hk. destruct (fits_protocol _ _ _ Hfits) as (f & Hr & Hf).
  pose proof (leader_has_committed sentinel cluster eq_refl f h i j k Hr) as Hm.
  rewrite (Hf i a Ha), (Hf j b Hb) in Hm.
  apply Hm; [by eapply fits_in|by eapply fits_in|done..].
Qed.

(** What a node has applied, another node that has applied as much has too. *)
Lemma fits_applied_agree i j a b :
  nodes !! i = Some a → nodes !! j = Some b → last_applied a ≤ last_applied b →
  take (last_applied a) (drop 1 (log a)) = take (last_applied a) (drop 1 (log b)).
Proof using Hfits.
  intros Ha Hb Hle. rewrite !firstn_skipn_comm. f_equal. apply list_eq. intros k.
  destruct (decide (k < 1 + last_applied a)) as [Hk|Hk].
  - rewrite !lookup_take_lt by done.
    destruct (fits_committed_agree i j a b k Ha Hb) as (e & -> & ->); [lia..|done].
  - by rewrite !lookup_take_ge by lia.
Qed.

(** A node that applied more has the database of the other one, and what
    follows. *)
Lemma fits_databases_agree i j a b :
  nodes !! i = Some a → nodes !! j = Some b → last_applied a ≤ last_applied b →
  db b = replay (db a) (take (last_applied b - last_applied a) (drop (S (last_applied a)) (log b))).
Proof using Hfits.
  intros Ha Hb Hle.
  rewrite (ok_db _ _ _ _ _ _ _ (fits_node _ _ _ Hfits j b Hb)).
  rewrite (ok_db _ _ _ _ _ _ _ (fits_node _ _ _ Hfits i a Ha)).
  rewrite (fits_applied_agree i j a b) by done.
  unfold replay. rewrite <-foldl_app. f_equal.
  rewrite <-(take_drop (last_applied a) (take (last_applied b) (drop 1 (log b)))). f_equal.
  - rewrite take_take. f_equal. lia.
  - rewrite skipn_firstn_comm, drop_drop. done.
Qed.

End safety.

(** ** One turn of the runtime *)

Context `{!KvPure D}.

(** What the loop may be given: a message that was sent to the node or comes
    from a client, a request of the service that changes no membership, or time. *)
Definition incoming_ok (i : NodeId) (delivered : list (NodeId * Message)) (event : Incoming) :
    Prop :=
  match event with
  | InMessage m => (i, m) ∈ delivered ∨ client allowed m ∨ m = MTimeout
  | InService r =>
      match svc_operation r with
      | SvcSet key value => allowed (Set_ key value)
      | SvcDelete key => allowed (Delete key)
      | SvcGet _ | SvcStatus => True
      | SvcAddNode _ _ | SvcRemoveNode _ => False
      end
  | InTick => True
  end.

Abbreviation wp := (wp (λ _, store_panics db0 allowed)).

Lemma flush_outbox_ok B i n h :
  ok i B n h →
  wp flush_outbox (Post cluster i db0 allowed B n h (λ msgs _ h', ∀ x, x ∈ msgs → x ∈ sent h')) n.
Proof using Type.
  intros Hok. unfold flush_outbox. apply wp_bind, wp_gets, wp_bind, wp_modify, wp_ret.
  exists h. split_and!; [done| |].
  - apply ok_outbox_sub; [|done]. intros x Hx. by apply elem_of_nil in Hx.
  - intros x [_ Hx]%list_elem_of_filter. by apply (ok_outbox _ _ _ _ _ _ _ Hok).
Qed.

Lemma turn_ok B i n h event now delivered :
  i ∈ cluster → ok i B n h → incoming_ok i delivered event →
  (∀ x, x ∈ delivered → x ∈ sent h) → terms_left B n →
  wp (turn event now)
    (Post cluster i db0 allowed B n h (λ msgs _ h', ∀ x, x ∈ msgs → x ∈ sent h')) n.
Proof using KvPure0.
  intros Hi Hok Hin Hd Ht. unfold turn.
  eapply wp_step with (E := λ _ _ _, True); [|intros; by apply flush_outbox_ok].
  destruct event as [m|[op tx]|]; cbn in Hin.
  - apply handle_message_ok; [done..| |done]. destruct Hin as [Hin|Hin]; [left; auto|by right].
  - unfold handle_service_request. cbn [svc_operation response_tx].
    destruct op; try done; by apply handle_store_request_ok.
  - by apply tick_ok.
Qed.

(** ** The cluster on a network

    [wire] has every message that was sent; a step delivers any of them, so
    messages can be lost, repeated, delayed and reordered. A stopped node
    (crashed, or its task panicked) does nothing more, unless it is restarted
    with [restart]. *)
Record Net : Type := MkNet {
  net_nodes : gmap NodeId Node;
  wire : list (NodeId * Message);
}.

Inductive net_step (c : Net) : Net → Prop :=
  | net_turn i n event now msgs n' :
      net_nodes c !! i = Some n → incoming_ok i (wire c) event →
      (current_term n < u64_max)%Z →
      turn event now n = (Ok msgs, n') →
      net_step c {| net_nodes := <[i := n']> (net_nodes c); wire := msgs ++ wire c |}
  | net_restart i n now n' :
      net_nodes c !! i = Some n → restart now n = (Ok (), n') →
      net_step c {| net_nodes := <[i := n']> (net_nodes c); wire := wire c |}.

(** The networks that a fresh cluster can get to. *)
Definition net_reachable (c : Net) : Prop :=
  ∃ nodes, fresh nodes ∧ rtc net_step {| net_nodes := nodes; wire := [] |} c.

Definition net_inv (c : Net) : Prop :=
  ∃ h, fits u64_max (net_nodes c) h ∧ ∀ x, x ∈ wire c → x ∈ sent h.

Lemma net_step_inv c c' : net_step c c' → net_inv c → net_inv c'.
Proof using KvPure0.
  intros Hs (h & Hfits & Hw). destruct Hs as [i n event now msgs n' Hn Hin Ht E|i n now n' Hn E].
  - pose proof (fits_run u64_max _ i n h (turn event now) _ Hfits Hn
      (turn_ok _ i n h event now _ (fits_in Hfits i n Hn) (fits_node _ _ _ Hfits i n Hn) Hin Hw
        (conj Ht (Z.le_refl _)))) as Hrun.
    rewrite E in Hrun. destruct Hrun as (h' & Hfits' & Hmsgs & Hsent & _).
    exists h'. split; [done|]. cbn. intros x [Hx|Hx]%elem_of_app; auto.
  - pose proof (fits_run u64_max _ i n h (restart now) _ Hfits Hn
      (restart_ok cluster i (fits_in Hfits i n Hn) db0 allowed _ now n h
        (fits_node _ _ _ Hfits i n Hn))) as Hrun.
    rewrite E in Hrun. destruct Hrun as (h' & Hfits' & _ & Hsent & _).
    exists h'. split; [done|]. auto.
Qed.

Lemma net_reachable_inv c : allowed (Set_ [] (String [])) → net_reachable c → net_inv c.
Proof using KvPure0.
  intros Hal (nodes & Hf & Hs).
  assert (net_inv {| net_nodes := nodes; wire := [] |}) as Hinit.
  { exists (h_init sentinel). split; [by apply fresh_fits|]. done. }
  revert Hinit. induction Hs as [|x y z Hxy _ IH]; intros Hx; [done|].
  by apply IH, (net_step_inv x).
Qed.

End cluster.
