(* ===== verification/Fault.v ===== *)
(** [src/runtime/fault.rs]: the faults of the simulator, their schedule, the
    policies of links, the deterministic random numbers and the violations. *)

From Stdlib Require Import SpecFloat.
From S2P Require Import Prelude Bytes Float LogRecord RaftTypes.

(** [u64::cmp] and [Instant::cmp], reversed: min-heaps. *)
Definition earlier (t1 s1 t2 s2 : Z) : comparison :=
  match (t2 ?= t1)%Z with Eq => (s2 ?= s1)%Z | c => c end.

Inductive Fault : Type :=
  | CrashNode (id : NodeId)
  | RestartNode (id : NodeId)
  | PauseNode (id : NodeId)
  | ResumeNode (id : NodeId)
  | BlockLink (from to : NodeId)
  | UnblockLink (from to : NodeId)
  | Partition (group_a group_b : list Z)
  | HealAllPartitions
  | IsolateNode (id : NodeId)
  | ReconnectNode (id : NodeId)
  | DropPackets (from to : NodeId) (count : nat)
  | DelayLink (from to : NodeId) (delay : Duration)
  | ClearLinkDelay (from to : NodeId)
  | DuplicatePackets (from to : NodeId) (count : nat) (delay : Duration)
  | TriggerElection (id : NodeId)
  | SubmitCommand (node_id : NodeId) (command : Command).

Record ScheduledFault : Type := MkScheduledFault {
  trigger_at : Instant;
  fault : Fault;
  fault_sequence : Z;
}.

(** [Ord for ScheduledFault]. *)
Definition scheduled_cmp (a b : ScheduledFault) : comparison :=
  earlier (trigger_at a) (fault_sequence a) (trigger_at b) (fault_sequence b).

Record LinkFaultPolicy : Type := MkLinkFaultPolicy {
  drop_remaining : nat;
  link_delay : option Duration;
  duplicate_remaining : nat;
  duplicate_delay : Duration;
}.

#[export] Instance eta_LinkFaultPolicy : Eta LinkFaultPolicy := λ p,
  MkLinkFaultPolicy (drop_remaining p) (link_delay p) (duplicate_remaining p)
    (duplicate_delay p).
#[export] Instance upd_drop_remaining : Upd drop_remaining. Proof. derive_upd. Defined.
#[export] Instance upd_link_delay : Upd link_delay. Proof. derive_upd. Defined.
#[export] Instance upd_duplicate_remaining : Upd duplicate_remaining.
Proof. derive_upd. Defined.
#[export] Instance upd_duplicate_delay : Upd duplicate_delay. Proof. derive_upd. Defined.

Definition default_policy : LinkFaultPolicy :=
  {| drop_remaining := 0; link_delay := None; duplicate_remaining := 0; duplicate_delay := 0 |}.

(** * Probabilities

    The probabilities are only added, compared and drawn; they are floating-point
    numbers as [SpecFloat] defines them. *)

Abbreviation prob := spec_float.
Definition prob_of (z : Z) : prob := binary_normalize 53 1024 z 0 false.
Definition prob_add : prob → prob → prob := SFadd 53 1024.
Definition prob_div : prob → prob → prob := SFdiv 53 1024.
Definition prob_ltb : prob → prob → bool := SFltb.

(** The literal [0.nn]. *)
Definition percent (z : Z) : prob := prob_div (prob_of z) (prob_of 100).

Record ChaosConfig : Type := MkChaosConfig {
  crash_prob : prob;
  restart_prob : prob;
  partition_prob : prob;
  heal_prob : prob;
  packet_drop_prob : prob;
  packet_delay_prob : prob;
  max_packet_delay : Duration;
}.

Definition default_chaos : ChaosConfig :=
  {| crash_prob := percent 5; restart_prob := percent 10; partition_prob := percent 8;
     heal_prob := percent 15; packet_drop_prob := percent 5; packet_delay_prob := percent 10;
     max_packet_delay := 50 |}.

(** * [DeterministicRng] *)

Record Rng : Type := MkRng { rng_state : Z }.

Definition next_u64 : M Rng Z :=
  r ← get;
  let state := wrap 64 (rng_state r + 0x9E3779B97F4A7C15) in
  modify (λ _, {| rng_state := state |});;
  let z := state in
  let z := wrap 64 (Z.lxor z (Z.shiftr z 30) * 0xBF58476D1CE4E5B9) in
  let z := wrap 64 (Z.lxor z (Z.shiftr z 27) * 0x94D049BB133111EB) in
  mret (Z.lxor z (Z.shiftr z 31)).

Definition next_f64 : M Rng prob :=
  u ← next_u64;
  mret (prob_div (prob_of (Z.shiftr u 11)) (prob_of (2 ^ 53))).

Definition gen_range (min max : Z) : M Rng Z :=
  if decide (max ≤ min)%Z then mret min else
  u ← next_u64;
  let n := wrap 64 (max - min + 1) in
  if decide (n = 0)%Z
  then panic "attempt to calculate the remainder with a divisor of zero"
  else mret (min + u `mod` n)%Z.

Definition choose {T} (slice : list T) : M Rng (option T) :=
  if decide (slice = []) then mret None else
  u ← next_u64;
  x ← lift (expect "index out of bounds"
              (slice !! Z.to_nat (u `mod` Z.of_nat (length slice))));
  mret (Some x).

(** * [InvariantViolation] *)

Inductive InvariantViolation : Type :=
  | ElectionSafetyViolation (term : Z) (leaders : list Z)
  | LogMatchingViolation (node_a node_b : Z) (index : nat) (term_a term_b : Z)
  | StateSafetyViolation (index : nat) (node_a node_b : Z) (entry_a entry_b : str).

(** [{:?}] of a [Vec<u64>]. *)
Fixpoint debug_numbers (l : list Z) : str :=
  match l with
  | [] => []
  | [x] => int_to_string x
  | x :: l' => int_to_string x ++ lit ", " ++ debug_numbers l'
  end.

(** [Display for InvariantViolation]. *)
Definition violation_message (v : InvariantViolation) : str :=
  match v with
  | ElectionSafetyViolation term leaders =>
      lit "Election Safety Violated: Multiple leaders in term " ++ int_to_string term ++
      lit ": [" ++ debug_numbers leaders ++ lit "]"
  | LogMatchingViolation node_a node_b index term_a term_b =>
      lit "Log Matching Violated: At index " ++ int_to_string (Z.of_nat index) ++
      lit ", Node " ++ int_to_string node_a ++ lit " has term " ++ int_to_string term_a ++
      lit " but Node " ++ int_to_string node_b ++ lit " has term " ++ int_to_string term_b
  | StateSafetyViolation index node_a node_b entry_a entry_b =>
      lit "State Machine Safety Violated: Conflicting committed entries at index " ++
      int_to_string (Z.of_nat index) ++ lit ": Node " ++ int_to_string node_a ++ lit " (" ++
      entry_a ++ lit ") vs Node " ++ int_to_string node_b ++ lit " (" ++ entry_b ++ lit ")"
  end.

(** * Properties *)

Lemma next_u64_total r : ∃ a r', next_u64 r = (Ok a, r') ∧ in_u 64 a.
Proof.
  unfold next_u64. rewrite bind_eq. cbn [get]. rewrite bind_eq. do 2 eexists.
  split; [reflexivity|]. set (z := wrap 64 (Z.lxor _ _ * 0x94D049BB133111EB)).
  assert (in_u 64 z) as [Hz0 Hz] by (unfold z, wrap, in_u; apply Z.mod_pos_bound; lia).
  clearbody z. unfold in_u. split; [apply Z.lxor_nonneg; rewrite Z.shiftr_nonneg; lia|].
  destruct (decide (z = 0)%Z) as [->|Hne]; [by cbn|].
  apply Z.log2_lt_cancel. rewrite Z.log2_pow2 by lia.
  eapply Z.le_lt_trans; [apply Z.log2_lxor; [lia|rewrite Z.shiftr_nonneg; lia]|].
  rewrite Z.log2_shiftr by lia. pose proof (Z.log2_nonneg z).
  assert (Z.log2 z < 64)%Z by (apply Z.log2_lt_pow2; lia). lia.
Qed.

(** C35: [gen_range] gives a number between its bounds, both included, for all
    bounds but those of the whole type, for which it divides by zero. *)
Theorem gen_range_bounds min max r :
  (0 ≤ min ≤ max)%Z → (max ≤ u64_max)%Z →
  if decide (min = 0 ∧ max = u64_max)%Z
  then (gen_range min max r).1 =
       Panic "attempt to calculate the remainder with a divisor of zero"
  else ∃ v r', gen_range min max r = (Ok v, r') ∧ (min ≤ v ≤ max)%Z.
Proof.
  intros Hmin Hmax. destruct (next_u64_total r) as (u & r' & E & Hu). unfold gen_range.
  unfold u64_max in *. case_decide as Hall.
  { destruct Hall as [-> ->]. rewrite decide_False by lia. rewrite bind_eq, E. by cbn. }
  case_decide as Hmm; [exists min, r; split; [done|lia]|]. rewrite bind_eq, E.
  unfold wrap. rewrite Z.mod_small by lia. rewrite decide_False by lia.
  exists (min + u `mod` (max - min + 1))%Z, r'. split; [done|].
  pose proof (Z.mod_pos_bound u (max - min + 1)). lia.
Qed.

Lemma gen_range_bounds_witness :
  ∃ v r', gen_range 10 50 {| rng_state := 42 |} = (Ok v, r') ∧ (10 ≤ v ≤ 50)%Z.
Proof. by apply (gen_range_bounds 10 50 {| rng_state := 42 |}). Defined.
