(* ===== verification/Simulator.v ===== *)
(** [src/runtime/simulator.rs]: a deterministic simulation of a cluster, its
    faults, its safety check and the chaos test. *)

From S2P Require Import Prelude Bytes Float LogRecord RaftTypes LogStore RaftNode Heap Runtime.
From S2P Require Import Fault.

(** [format!("{:?}", payload)], derived by the compiler. *)
Class DebugPayload : Type := debug_payload : EntryPayload → str.

Record Event : Type := MkEvent {
  deliver_at : Instant;
  sequence : Z;
  from : NodeId;
  to : NodeId;
  message : Message;
}.

#[export] Instance eta_Event : Eta Event := λ e,
  MkEvent (deliver_at e) (sequence e) (from e) (to e) (message e).
#[export] Instance upd_deliver_at : Upd deliver_at. Proof. derive_upd. Defined.

(** [Ord for Event]. *)
Definition event_cmp (a b : Event) : comparison :=
  earlier (deliver_at a) (sequence a) (deliver_at b) (sequence b).

(** [PartialEq for Event], which is when [cmp] answers [Equal]. *)
Definition event_eqb (a b : Event) : bool :=
  bool_decide (deliver_at a = deliver_at b) && bool_decide (sequence a = sequence b).

Lemma event_eqb_cmp a b : event_eqb a b = true ↔ event_cmp a b = Eq.
Proof.
  unfold event_eqb, event_cmp, earlier. rewrite andb_true_iff, !bool_decide_eq_true.
  split; [intros [-> ->]; by rewrite !Z.compare_refl|].
  destruct (_ ?= _)%Z eqn:E; [|done..]. intros E'. apply Z.compare_eq in E, E'. done.
Qed.

Record Simulation (D : Type) : Type := MkSimulation {
  clock : Instant;
  events : list Event;
  sequence_counter : Z;
  nodes : gmap NodeId (RaftNode D);
  disabled_nodes : gset NodeId;
  paused_nodes : gset NodeId;
  paused_events : gmap NodeId (list Event);
  blocked_links : gset (NodeId * NodeId);
  link_policies : gmap (NodeId * NodeId) LinkFaultPolicy;
  scheduled_faults : list ScheduledFault;
  fault_sequence_counter : Z;
}.

Arguments MkSimulation {D}. Arguments clock {D}. Arguments events {D}.
Arguments sequence_counter {D}. Arguments nodes {D}. Arguments disabled_nodes {D}.
Arguments paused_nodes {D}. Arguments paused_events {D}. Arguments blocked_links {D}.
Arguments link_policies {D}. Arguments scheduled_faults {D}.
Arguments fault_sequence_counter {D}.

Section updates.
Context {D : Type}.
#[export] Instance eta_Simulation : Eta (Simulation D) := λ s,
  MkSimulation (clock s) (events s) (sequence_counter s) (nodes s) (disabled_nodes s)
    (paused_nodes s) (paused_events s) (blocked_links s) (link_policies s)
    (scheduled_faults s) (fault_sequence_counter s).
#[export] Instance upd_clock : Upd (@clock D). Proof. derive_upd. Defined.
#[export] Instance upd_events : Upd (@events D). Proof. derive_upd. Defined.
#[export] Instance upd_sequence_counter : Upd (@sequence_counter D).
Proof. derive_upd. Defined.
#[export] Instance upd_nodes : Upd (@nodes D). Proof. derive_upd. Defined.
#[export] Instance upd_disabled_nodes : Upd (@disabled_nodes D). Proof. derive_upd. Defined.
#[export] Instance upd_paused_nodes : Upd (@paused_nodes D). Proof. derive_upd. Defined.
#[export] Instance upd_paused_events : Upd (@paused_events D). Proof. derive_upd. Defined.
#[export] Instance upd_blocked_links : Upd (@blocked_links D). Proof. derive_upd. Defined.
#[export] Instance upd_link_policies : Upd (@link_policies D). Proof. derive_upd. Defined.
#[export] Instance upd_scheduled_faults : Upd (@scheduled_faults D).
Proof. derive_upd. Defined.
#[export] Instance upd_fault_sequence_counter : Upd (@fault_sequence_counter D).
Proof. derive_upd. Defined.
End updates.

(** The order of the keys of a [BTreeMap]. *)
Definition node_le (a b : NodeId) : Prop := (node_id a ≤ node_id b)%Z.
#[export] Instance node_le_dec : RelDecision node_le.
Proof. intros a b. unfold node_le. apply _. Defined.

(** The order of the entries of a [BTreeMap] with terms for keys. *)
Definition by_term (a b : Z * list Z) : Prop := (a.1 ≤ b.1)%Z.
#[export] Instance by_term_dec : RelDecision by_term.
Proof. intros a b. unfold by_term. apply _. Defined.

Definition in_order (s : gset NodeId) : list NodeId := merge_sort node_le (elements s).

Section simulator.
Context {D : Type} `{!KvStore D} `{!F64Text} `{!Bincode} `{!RandomMillis} `{!DebugPayload}.

Abbreviation Sim := (Simulation D).
Abbreviation Node := (RaftNode D).

Definition node_ids (s : Sim) : list NodeId := in_order (dom (nodes s)).

(** [if let Some(node) = self.nodes.get_mut(&id) { .. }]. *)
Definition with_node (node_id : NodeId) (m : M Node ()) : M Sim () := λ s,
  match nodes s !! node_id with
  | None => (Ok (), s)
  | Some n => let '(r, n') := m n in (r, s <| nodes := <[node_id := n']> (nodes s) |>)
  end.

Definition clear_outbox : M Node () := modify (λ n, n <| outbox := [] |>).

(** * Making a simulation *)

Definition sim_new (clock : Instant) (nodes : gmap NodeId Node) : Sim :=
  {| clock := clock; events := []; sequence_counter := 0; nodes := nodes;
     disabled_nodes := ∅; paused_nodes := ∅; paused_events := ∅; blocked_links := ∅;
     link_policies := ∅; scheduled_faults := []; fault_sequence_counter := 0 |}.

(** The loop of [new_cluster] over the ids; [RaftNode::new] opens a database in
    a new directory at the instant [created]. *)
Fixpoint make_nodes (opened : NodeId → res D) (created : NodeId → Instant)
    (all_node_ids : list NodeId) (ids : list NodeId) (nodes : gmap NodeId Node) :
    res (gmap NodeId Node) :=
  match ids with
  | [] => Ok nodes
  | id :: ids' =>
      let peers := filter (λ node, node_id node ≠ node_id id) all_node_ids in
      node ← new_in_dir [] [] (opened id) id peers (created id);
      make_nodes opened created all_node_ids ids' (<[id := node]> nodes)
  end.

(** The timeout of [new_cluster]: [150 + id * 50]. *)
Definition cluster_timeout (id : NodeId) : Duration :=
  wrap 64 (150 + wrap 64 (node_id id * 50)).

Definition new_cluster (opened : NodeId → res D) (created : NodeId → Instant)
    (started : Instant) (ids : list Z) : res Sim :=
  let all_node_ids := MkNodeId <$> ids in
  nodes ← make_nodes opened created all_node_ids all_node_ids ∅;
  let sim := sim_new started nodes in
  match for_each (node_ids sim) (λ id,
          with_node id (set_election_timeout (cluster_timeout id) started)) sim with
  | (Ok _, sim) => Ok sim
  | (Err e, _) => Err e
  | (Panic p, _) => Panic p
  end.

(** * Faults of nodes *)

(** [SimulatedTransport::send]. *)
Definition transport_send (from to : NodeId) (message : Message) : M Sim () :=
  s ← get;
  modify (λ s : Sim, s <| sequence_counter := wrap 64 (sequence_counter s + 1) |>);;
  modify (λ s' : Sim, s' <| events := heap_push
    {| deliver_at := clock s; sequence := sequence_counter s; from := from; to := to;
       message := message |} (events s') |>).

Definition disable_node (node_id : NodeId) : M Sim () :=
  modify (λ s : Sim, s <| disabled_nodes := {[ node_id ]} ∪ disabled_nodes s |>);;
  with_node node_id clear_outbox.

Definition enable_node (node_id : NodeId) : M Sim () :=
  modify (λ s : Sim, s <| disabled_nodes := disabled_nodes s ∖ {[ node_id ]} |>).

Definition crash_node (node_id : NodeId) : M Sim () := disable_node node_id.

Definition restart_node (node_id : NodeId) : M Sim () :=
  modify (λ s : Sim, s <| disabled_nodes := disabled_nodes s ∖ {[ node_id ]} |>);;
  modify (λ s : Sim, s <| paused_nodes := paused_nodes s ∖ {[ node_id ]} |>);;
  modify (λ s : Sim, s <| paused_events := delete node_id (paused_events s) |>);;
  now ← gets clock;
  with_node node_id (restart now).

Definition pause_node (node_id : NodeId) : M Sim () :=
  modify (λ s : Sim, s <| paused_nodes := {[ node_id ]} ∪ paused_nodes s |>).

(** ** [flush_node_outbox] *)

(** The next number of [sequence_counter]. *)
Definition next_sequence : M Sim Z :=
  s ← get;
  modify (λ s : Sim, s <| sequence_counter := wrap 64 (sequence_counter s + 1) |>);;
  mret (sequence_counter s).

Definition push_event (e : Event) : M Sim () :=
  modify (λ s : Sim, s <| events := heap_push e (events s) |>).

Definition set_policy (link : NodeId * NodeId) (p : LinkFaultPolicy) : M Sim () :=
  modify (λ s : Sim, s <| link_policies := <[link := p]> (link_policies s) |>).

(** The instants at which a message arrives on a link, if it is not dropped:
    the regular one and that of a duplicate. *)
Definition link_faults (link : NodeId * NodeId) (now : Instant) :
    M Sim (option (Instant * option Instant)) :=
  s ← get;
  match link_policies s !! link with
  | None => mret (Some (now, None))
  | Some policy =>
      if decide (0 < drop_remaining policy) then
        set_policy link (policy <| drop_remaining := drop_remaining policy - 1 |>);;
        mret None
      else
      let deliver_at := (now + default 0 (link_delay policy))%Z in
      if decide (0 < duplicate_remaining policy) then
        set_policy link (policy <| duplicate_remaining := duplicate_remaining policy - 1 |>);;
        mret (Some (deliver_at, Some (deliver_at + duplicate_delay policy)%Z))
      else mret (Some (deliver_at, None))
  end.

(** One turn of the loop over the drained messages. *)
Definition route (node_id : NodeId) (now : Instant) (m : NodeId * Message) : M Sim () :=
  let '(to, message) := m in
  if is_timeout message then mret () else
  s ← get;
  if decide ((node_id, to) ∈ blocked_links s ∨ to ∈ disabled_nodes s) then mret () else
  arrival ← link_faults (node_id, to) now;
  match arrival with
  | None => mret ()
  | Some (deliver_at, duplicate) =>
      seq ← next_sequence;
      push_event {| deliver_at := deliver_at; sequence := seq; from := node_id; to := to;
                    message := message |};;
      match duplicate with
      | None => mret ()
      | Some dup_time =>
          dup_seq ← next_sequence;
          push_event {| deliver_at := dup_time; sequence := dup_seq; from := node_id;
                        to := to; message := message |}
      end
  end.

Definition flush_node_outbox (node_id : NodeId) : M Sim () :=
  s ← get;
  if decide (node_id ∈ disabled_nodes s) then with_node node_id clear_outbox else
  if decide (node_id ∈ paused_nodes s) then mret () else
  let messages := match nodes s !! node_id with Some node => outbox node | None => [] end in
  with_node node_id clear_outbox;;
  for_each messages (route node_id (clock s)).

Definition resume_node (node_id : NodeId) : M Sim () :=
  modify (λ s : Sim, s <| paused_nodes := paused_nodes s ∖ {[ node_id ]} |>);;
  s ← get;
  match paused_events s !! node_id with
  | None => mret ()
  | Some deferred =>
      modify (λ s : Sim, s <| paused_events := delete node_id (paused_events s) |>);;
      for_each deferred (λ event, push_event (event <| deliver_at := clock s |>))
  end;;
  flush_node_outbox node_id.

(** * Faults of the network *)

Definition block_link (from to : NodeId) : M Sim () :=
  modify (λ s : Sim, s <| blocked_links := {[ (from, to) ]} ∪ blocked_links s |>).

Definition unblock_link (from to : NodeId) : M Sim () :=
  modify (λ s : Sim, s <| blocked_links := blocked_links s ∖ {[ (from, to) ]} |>).

Definition partition (group_a group_b : list Z) : M Sim () :=
  for_each group_a (λ a, for_each group_b (λ b,
    block_link (MkNodeId a) (MkNodeId b);; block_link (MkNodeId b) (MkNodeId a))).

Definition heal_all_partitions : M Sim () :=
  modify (λ s : Sim, s <| blocked_links := ∅ |>).

(** The peers that [isolate_node] and [reconnect_node] go through. *)
Definition others (s : Sim) (node_id : NodeId) : list NodeId :=
  filter (λ p, p ≠ node_id) (node_ids s).

Definition isolate_node (node_id : NodeId) : M Sim () :=
  s ← get;
  for_each (others s node_id) (λ peer, block_link node_id peer;; block_link peer node_id).

Definition reconnect_node (node_id : NodeId) : M Sim () :=
  s ← get;
  for_each (others s node_id) (λ peer, unblock_link node_id peer;; unblock_link peer node_id).

(** [link_policies.entry(key).or_default()], changed by [f]. *)
Definition update_policy (from to : NodeId) (f : LinkFaultPolicy → LinkFaultPolicy) :
    M Sim () :=
  s ← get;
  set_policy (from, to) (f (default default_policy (link_policies s !! (from, to)))).

Definition drop_packets (from to : NodeId) (count : nat) : M Sim () :=
  update_policy from to (λ p, p <| drop_remaining := drop_remaining p + count |>).

Definition delay_link (from to : NodeId) (delay : Duration) : M Sim () :=
  update_policy from to (λ p, p <| link_delay := Some delay |>).

Definition clear_link_delay (from to : NodeId) : M Sim () :=
  s ← get;
  match link_policies s !! (from, to) with
  | None => mret ()
  | Some p => set_policy (from, to) (p <| link_delay := None |>)
  end.

Definition duplicate_packets (from to : NodeId) (count : nat) (delay : Duration) : M Sim () :=
  update_policy from to (λ p,
    p <| duplicate_remaining := duplicate_remaining p + count |> <| duplicate_delay := delay |>).

(** * The schedule *)

Definition schedule_fault (trigger_at : Instant) (fault : Fault) : M Sim () :=
  modify (λ s : Sim, s <| fault_sequence_counter := wrap 64 (fault_sequence_counter s + 1) |>);;
  modify (λ s : Sim, s <| scheduled_faults := heap_push
    {| trigger_at := trigger_at; fault := fault;
       fault_sequence := fault_sequence_counter s |} (scheduled_faults s) |>).

Definition schedule_fault_after (delay : Duration) (fault : Fault) : M Sim () :=
  now ← gets clock;
  schedule_fault (now + delay)%Z fault.

Definition sim_start_election (node_id : NodeId) : M Sim () :=
  s ← get;
  if decide (node_id ∈ disabled_nodes s ∨ node_id ∈ paused_nodes s) then mret () else
  with_node node_id (start_election (clock s));;
  flush_node_outbox node_id.

Definition apply_fault (fault : Fault) : M Sim () :=
  match fault with
  | CrashNode id => disable_node id
  | RestartNode id => restart_node id
  | PauseNode id => pause_node id
  | ResumeNode id => resume_node id
  | BlockLink from to => block_link from to
  | UnblockLink from to => unblock_link from to
  | Partition group_a group_b => partition group_a group_b
  | HealAllPartitions => heal_all_partitions
  | IsolateNode id => isolate_node id
  | ReconnectNode id => reconnect_node id
  | DropPackets from to count => drop_packets from to count
  | DelayLink from to delay => delay_link from to delay
  | ClearLinkDelay from to => clear_link_delay from to
  | DuplicatePackets from to count delay => duplicate_packets from to count delay
  | TriggerElection id => sim_start_election id
  | SubmitCommand node_id command =>
      now ← gets clock;
      with_node node_id (submit_command command now);;
      flush_node_outbox node_id
  end.

(** The loop of [trigger_due_faults]; no fault schedules another one. *)
Fixpoint trigger_loop (fuel : nat) (now : Instant) : M Sim () :=
  s ← get;
  match heap_pop scheduled_cmp (scheduled_faults s) with
  | None => mret ()
  | Some (scheduled, rest) =>
      if decide (trigger_at scheduled ≤ now)%Z then
        match fuel with
        | O => panic "out of fuel"
        | S fuel' =>
            modify (λ s : Sim, s <| scheduled_faults := rest |>);;
            apply_fault (fault scheduled);;
            trigger_loop fuel' now
        end
      else mret ()
  end.

Definition trigger_due_faults : M Sim () :=
  s ← get;
  trigger_loop (length (scheduled_faults s)) (clock s).

(** * Leaders *)

(** A leader that is neither disabled nor paused. *)
Definition active_leader (s : Sim) (id : NodeId) (node : Node) : bool :=
  bool_decide (id ∉ disabled_nodes s) && bool_decide (id ∉ paused_nodes s) &&
  bool_decide (role node = Leader).

Definition in_key_order (s : Sim) : list (NodeId * Node) :=
  omap (λ id, pair id <$> nodes s !! id) (node_ids s).

Definition get_leader (s : Sim) : option Z :=
  snd <$> foldl (λ best '(id, node),
    if active_leader s id node then
      match best with
      | Some (best_term, _) =>
          if decide (best_term < current_term node)%Z
          then Some (current_term node, node_id id) else best
      | None => Some (current_term node, node_id id)
      end
    else best) None (in_key_order s).

Definition leader_count (s : Sim) : nat :=
  length (filter (λ x, active_leader s x.1 x.2 = true) (in_key_order s)).

(** * Running *)

Definition flush_all_outboxes : M Sim () :=
  s ← get;
  for_each (node_ids s) flush_node_outbox.

Definition advance_time (millis : Z) : M Sim () :=
  modify (λ s : Sim, s <| clock := (clock s + millis)%Z |>);;
  trigger_due_faults;;
  now ← gets clock;
  s ← get;
  for_each (node_ids s) (λ node_id,
    s ← get;
    if decide (node_id ∈ disabled_nodes s ∨ node_id ∈ paused_nodes s) then mret () else
    with_node node_id (tick now);;
    flush_node_outbox node_id).

(** [deliver_next] for the event that was popped. *)
Definition deliver (event : Event) : M Sim bool :=
  modify (λ s : Sim, s <| clock := Z.max (clock s) (deliver_at event) |>);;
  trigger_due_faults;;
  s ← get;
  if decide (from event ∈ disabled_nodes s ∨ to event ∈ disabled_nodes s ∨
             (from event, to event) ∈ blocked_links s) then mret true else
  if decide (to event ∈ paused_nodes s) then
    modify (λ s : Sim, s <| paused_events :=
      <[to event := default [] (paused_events s !! to event) ++ [event]]> (paused_events s) |>);;
    mret true
  else
  with_node (to event) (handle_message (message event) (clock s));;
  flush_node_outbox (to event);;
  mret true.

Definition deliver_next : M Sim bool :=
  trigger_due_faults;;
  s ← get;
  match heap_pop event_cmp (events s) with
  | Some (event, rest) =>
      modify (λ s : Sim, s <| events := rest |>);;
      deliver event
  | None =>
      match heap_peek scheduled_cmp (scheduled_faults s) with
      | Some next_fault =>
          if decide (clock s < trigger_at next_fault)%Z then
            advance_time (Z.max (trigger_at next_fault - clock s) 1);;
            mret true
          else mret false
      | None => mret false
      end
  end.

(** The loop of [run_until_idle], with the number of steps that are left. *)
Fixpoint idle_loop (left : nat) : M Sim () :=
  more ← deliver_next;
  if more : bool then
    match left with
    | O => panic "simulation exceeded 10000 steps"
    | S left' => idle_loop left'
    end
  else mret ().

Definition run_until_idle : M Sim () :=
  flush_all_outboxes;;
  idle_loop (Z.to_nat 10000).

Definition route_messages : M Sim () := run_until_idle.
Definition sim_step : M Sim bool := deliver_next.

Fixpoint steps_loop (max_steps : nat) (executed : nat) : M Sim nat :=
  match max_steps with
  | O => mret executed
  | S max_steps' =>
      more ← deliver_next;
      if more : bool then steps_loop max_steps' (S executed) else mret executed
  end.

Definition run_steps (max_steps : nat) : M Sim nat :=
  flush_all_outboxes;;
  steps_loop max_steps 0.

(** * The safety check *)

(** [PartialEq for EntryPayload]. *)
Definition payload_eqb (a b : EntryPayload) : bool :=
  match a, b with
  | PCommand x, PCommand y => record_eqb x y
  | PAddNode i x, PAddNode j y => bool_decide (i = j) && bool_decide (x = y)
  | PRemoveNode i, PRemoveNode j => bool_decide (i = j)
  | _, _ => false
  end.

(** The first violation that a list of checks finds. *)
Fixpoint first_violation {T} (l : list T) (f : T → option InvariantViolation) :
    option InvariantViolation :=
  match l with
  | [] => None
  | x :: l' => match f x with Some v => Some v | None => first_violation l' f end
  end.

(** The leaders of every term: [leaders_by_term.entry(term).or_default().push(id)]. *)
Definition add_leader (m : gmap Z (list Z)) (x : NodeId * Node) : gmap Z (list Z) :=
  let '(id, node) := x in
  if decide (role node = Leader)
  then <[current_term node := default [] (m !! current_term node) ++ [node_id id]]> m
  else m.

Definition term_leaders (s : Sim) : gmap Z (list Z) := foldl add_leader ∅ (in_key_order s).

Definition check_elections (s : Sim) : option InvariantViolation :=
  first_violation (merge_sort by_term (map_to_list (term_leaders s)))
    (λ '(term, leaders),
      if decide (1 < length leaders) then Some (ElectionSafetyViolation term leaders) else None).

(** All pairs [i < j] of a list. *)
Fixpoint pairs {T} (l : list T) : list (T * T) :=
  match l with
  | [] => []
  | x :: l' => (pair x <$> l') ++ pairs l'
  end.

(** [node.log[k].term] for an index that is in range. *)
Definition term_at (node : Node) (k : nat) : Z :=
  match log node !! k with Some e => term e | None => 0 end.

Definition check_logs (x : (NodeId * Node) * (NodeId * Node)) : option InvariantViolation :=
  let '((id_a, node_a), (id_b, node_b)) := x in
  let min_len := length (log node_a) `min` length (log node_b) in
  first_violation (seq 1 (min_len - 1)) (λ idx,
    if decide (term_at node_a idx = term_at node_b idx) then
      first_violation (seq 1 idx) (λ k,
        if decide (term_at node_a k ≠ term_at node_b k) then
          Some (LogMatchingViolation (node_id id_a) (node_id id_b) k
                  (term_at node_a k) (term_at node_b k))
        else None)
    else None).

Definition check_commits (x : (NodeId * Node) * (NodeId * Node)) : option InvariantViolation :=
  let '((id_a, node_a), (id_b, node_b)) := x in
  let common_commit := commit_index node_a `min` commit_index node_b in
  first_violation (seq 1 common_commit) (λ idx,
    match log node_a !! idx, log node_b !! idx with
    | Some a, Some b =>
        if payload_eqb (payload a) (payload b) then None
        else Some (StateSafetyViolation idx (node_id id_a) (node_id id_b)
                     (debug_payload (payload a)) (debug_payload (payload b)))
    | _, _ => None
    end).

Definition check_invariants (s : Sim) : () + InvariantViolation :=
  match check_elections s with
  | Some v => inr v
  | None =>
      match first_violation (pairs (in_key_order s)) check_logs with
      | Some v => inr v
      | None =>
          match first_violation (pairs (in_key_order s)) check_commits with
          | Some v => inr v
          | None => inl ()
          end
      end
  end.

(** * The chaos test *)

Record Chaos : Type := MkChaos { sim : Sim; rng : Rng }.

#[export] Instance eta_Chaos : Eta Chaos := λ c, MkChaos (sim c) (rng c).
#[export] Instance upd_sim : Upd sim. Proof. derive_upd. Defined.
#[export] Instance upd_rng : Upd rng. Proof. derive_upd. Defined.

(** [*rng.choose(slice).unwrap()]. *)
Definition choose_one {T} (slice : list T) : M Chaos T :=
  o ← zoom rng (choose slice);
  lift (expect "called `Option::unwrap()` on a `None` value" o).

(** [slice.swap(i, j)]. *)
Definition swap {T} (i j : nat) (l : list T) : list T :=
  match l !! i, l !! j with
  | Some x, Some y => <[j := x]> (<[i := y]> l)
  | _, _ => l
  end.

(** The Fisher-Yates loop, for the indices that are left. *)
Fixpoint shuffle {T} (indices : list nat) (shuffled : list T) : M Chaos (list T) :=
  match indices with
  | [] => mret shuffled
  | i :: indices' =>
      u ← zoom rng next_u64;
      let j := Z.to_nat (u `mod` Z.of_nat (i + 1)) in
      shuffle indices' (swap i j shuffled)
  end.

(** [self.apply_fault(fault.clone()); return Some(fault)]. *)
Definition inject (fault : Fault) : M Chaos (option Fault) :=
  zoom sim (apply_fault fault);;
  mret (Some fault).

(** The cases of [inject_random_fault], from the last to the first: each one
    comes with the part of [cumulative] before it. *)
Definition delay_case (config : ChaosConfig) (node_ids : list NodeId) (roll cumulative : prob) :
    M Chaos (option Fault) :=
  let cumulative := prob_add cumulative (packet_delay_prob config) in
  if prob_ltb roll cumulative then
    from ← choose_one node_ids;
    to ← choose_one node_ids;
    if decide (from ≠ to) then
      millis ← zoom rng (gen_range 5 (Z.max (max_packet_delay config) 6));
      inject (DelayLink from to millis)
    else mret None
  else mret None.

Definition drop_case (config : ChaosConfig) (node_ids : list NodeId) (roll cumulative : prob) :
    M Chaos (option Fault) :=
  let cumulative := prob_add cumulative (packet_drop_prob config) in
  let next := delay_case config node_ids roll cumulative in
  if prob_ltb roll cumulative then
    from ← choose_one node_ids;
    to ← choose_one node_ids;
    if decide (from ≠ to) then
      count ← zoom rng (gen_range 1 3);
      inject (DropPackets from to (Z.to_nat count))
    else next
  else next.

Definition heal_case (config : ChaosConfig) (node_ids : list NodeId) (roll cumulative : prob) :
    M Chaos (option Fault) :=
  let cumulative := prob_add cumulative (heal_prob config) in
  let next := drop_case config node_ids roll cumulative in
  if prob_ltb roll cumulative then
    s ← gets sim;
    if decide (blocked_links s ≠ ∅) then inject HealAllPartitions else next
  else next.

Definition partition_case (config : ChaosConfig) (node_ids : list NodeId)
    (roll cumulative : prob) : M Chaos (option Fault) :=
  let cumulative := prob_add cumulative (partition_prob config) in
  let next := heal_case config node_ids roll cumulative in
  if prob_ltb roll cumulative then
    shuffled ← shuffle (reverse (seq 1 (length node_ids - 1))) node_ids;
    let split_idx := 1 `max` (length shuffled / 2) in
    inject (Partition (node_id <$> take split_idx shuffled)
                      (node_id <$> drop split_idx shuffled))
  else next.

Definition restart_case (config : ChaosConfig) (node_ids : list NodeId)
    (roll cumulative : prob) : M Chaos (option Fault) :=
  let cumulative := prob_add cumulative (restart_prob config) in
  let next := partition_case config node_ids roll cumulative in
  if prob_ltb roll cumulative then
    s ← gets sim;
    let crashed_nodes := in_order (disabled_nodes s) in
    if decide (crashed_nodes ≠ []) then
      target ← choose_one crashed_nodes;
      inject (RestartNode target)
    else next
  else next.

Definition crash_case (config : ChaosConfig) (node_ids : list NodeId)
    (roll cumulative : prob) : M Chaos (option Fault) :=
  let cumulative := prob_add cumulative (crash_prob config) in
  let next := restart_case config node_ids roll cumulative in
  if prob_ltb roll cumulative then
    s ← gets sim;
    let active_nodes := filter (λ id, id ∉ disabled_nodes s) node_ids in
    if decide (1 < length active_nodes) then
      target ← choose_one active_nodes;
      inject (CrashNode target)
    else next
  else next.

Definition inject_random_fault (config : ChaosConfig) : M Chaos (option Fault) :=
  c ← get;
  let ids := node_ids (sim c) in
  if decide (length ids < 2) then mret None else
  roll ← zoom rng next_f64;
  crash_case config ids roll (prob_of 0).

(** The command of a chaos step. *)
Definition chaos_command (ops_applied : nat) : Command :=
  Set_ (lit "chaos_key_" ++ int_to_string (Z.of_nat ops_applied)) (Int (Z.of_nat ops_applied)).

(** The first part of a step: every eighth step submits a command. *)
Definition chaos_submit (ids : list NodeId) (step ops_applied : nat) : M Chaos nat :=
  if decide (step `mod` 8 = 0) then
    c ← get;
    target ← match get_leader (sim c) with
             | Some id => mret (MkNodeId id)
             | None => choose_one ids
             end;
    if decide (target ∉ disabled_nodes (sim c) ∧ target ∉ paused_nodes (sim c)) then
      zoom sim (apply_fault (SubmitCommand target (chaos_command ops_applied)));;
      mret (S ops_applied)
    else mret ops_applied
  else mret ops_applied.

(** The second part: a fault, and time passes or an event is delivered. *)
Definition chaos_advance (config : ChaosConfig) : M Chaos () :=
  inject_random_fault config;;
  roll ← zoom rng next_f64;
  if prob_ltb roll (percent 35) then
    advance_ms ← zoom rng (gen_range 10 50);
    zoom sim (advance_time advance_ms)
  else
    zoom sim deliver_next;; mret ().

(** The loop of [run_chaos_test] over the steps that are left. *)
Fixpoint chaos_loop (config : ChaosConfig) (ids : list NodeId) (steps : list nat)
    (ops_applied : nat) : M Chaos (nat + InvariantViolation) :=
  match steps with
  | [] => mret (inl ops_applied)
  | step :: steps' =>
      ops_applied ← chaos_submit ids step ops_applied;
      chaos_advance config;;
      c ← get;
      match check_invariants (sim c) with
      | inr v => mret (inr v)
      | inl _ => chaos_loop config ids steps' ops_applied
      end
  end.

(** The end of [run_chaos_test]: the cluster converges. *)
Definition chaos_converge (ids : list NodeId) : M Sim (() + InvariantViolation) :=
  heal_all_partitions;;
  for_each ids (λ id,
    s ← get;
    when (bool_decide (id ∈ disabled_nodes s)) (restart_node id);;
    s ← get;
    when (bool_decide (id ∈ paused_nodes s)) (resume_node id));;
  run_until_idle;;
  s ← get;
  mret (check_invariants s).

Definition run_chaos_test (seed : Z) (steps : nat) (config : ChaosConfig) :
    M Sim (nat + InvariantViolation) := λ s,
  let ids := node_ids s in
  let run : M Chaos (nat + InvariantViolation) :=
    r ← chaos_loop config ids (seq 0 steps) 0;
    match r with
    | inr v => mret (inr v)
    | inl ops_applied =>
        c ← zoom sim (chaos_converge ids);
        match c with
        | inr v => mret (inr v)
        | inl _ => mret (inl ops_applied)
        end
    end in
  let '(r, c) := run {| sim := s; rng := {| rng_state := seed |} |} in
  (r, sim c).

End simulator.
