(* ===== verification/SimulatorSpec.v ===== *)
(** What single operations of [Simulator.v] do: elections in a healthy cluster,
    time, leaders and random partitions, and what the safety check looks for. *)

From S2P Require Import Prelude Wp Bytes Float LogRecord RaftTypes LogStore RaftNode RaftSim.
From S2P Require Import Journal Fault Simulator.

Section spec.
Context {D : Type} `{!KvStore D} `{!F64Text} `{!Bincode} `{!RandomMillis} `{!DebugPayload}.

Abbreviation Sim := (Simulation D).
Abbreviation Chaos := (Simulator.Chaos (D := D)).

(** ** Random partitions *)

Lemma swap_perm {T} i j (l : list T) : swap i j l ≡ₚ l.
Proof using Type.
  unfold swap. destruct (l !! i) as [x|] eqn:Hi; [|done].
  destruct (l !! j) as [y|] eqn:Hj; [|done].
  destruct (decide (i = j)) as [->|Hne].
  { rewrite Hi in Hj. injection Hj as ->.
    by rewrite (list_insert_id l j y), list_insert_id by done. }
  apply Permutation_inj. rewrite !length_insert. split; [done|].
  exists (λ k, if decide (k = i) then j else if decide (k = j) then i else k). split.
  - intros a b. repeat case_decide; congruence.
  - intros k. repeat case_decide; subst.
    + rewrite list_lookup_insert_ne, list_lookup_insert_eq by (done || by eapply lookup_lt_Some).
      done.
    + rewrite list_lookup_insert_eq; [done|]. rewrite length_insert. by eapply lookup_lt_Some.
    + by rewrite !list_lookup_insert_ne.
Qed.

Lemma shuffle_perm {T} indices (l : list T) (c : Chaos) :
  ∃ l' c', shuffle indices l c = (Ok l', c') ∧ l' ≡ₚ l ∧ sim c' = sim c.
Proof using Type.
  revert l c. induction indices as [|i indices IH]; intros l c; cbn [shuffle]; [by exists l, c|].
  rewrite bind_eq. unfold zoom. destruct (next_u64_total (rng c)) as (u & r & -> & _).
  match goal with |- context [shuffle indices ?l1 ?c1] =>
    destruct (IH l1 c1) as (l' & c' & -> & Hl & Hs) end.
  exists l', c'. split; [done|]. split; [by rewrite Hl, swap_perm|done].
Qed.

Lemma block_link_in from to link (s : Sim) :
  block_link from to s =
  (Ok (), s <| blocked_links := {[ (from, to) ]} ∪ blocked_links s |>) ∧
  (link ∈ blocked_links s → link ∈ {[ (from, to) ]} ∪ blocked_links s).
Proof using Type. split; [done|]. set_solver. Qed.

(** [partition] blocks every link between the groups, in both directions. *)
Lemma partition_blocks a b (s : Sim) :
  ∃ s', partition a b s = (Ok (), s') ∧ blocked_links s ⊆ blocked_links s' ∧
    ∀ x y, x ∈ a → y ∈ b → (MkNodeId x, MkNodeId y) ∈ blocked_links s' ∧
                             (MkNodeId y, MkNodeId x) ∈ blocked_links s'.
Proof using Type.
  assert (Hb : ∀ x l (s0 : Sim), ∃ s', for_each l (λ y,
    block_link (MkNodeId x) (MkNodeId y);; block_link (MkNodeId y) (MkNodeId x)) s0 = (Ok (), s') ∧
    blocked_links s0 ⊆ blocked_links s' ∧
    ∀ y, y ∈ l → (MkNodeId x, MkNodeId y) ∈ blocked_links s' ∧
                 (MkNodeId y, MkNodeId x) ∈ blocked_links s').
  { intros x l. induction l as [|y l IH]; intros s0; cbn [for_each].
    { exists s0. split_and!; [done..|]. by intros y ?%elem_of_nil. }
    rewrite bind_eq. unfold block_link at 1. rewrite bind_eq. cbn [modify]. unfold block_link at 1.
    cbn [modify].
    match goal with |- context [for_each l _ ?s1] => destruct (IH s1) as (s' & -> & Hk & Hl) end.
    cbn in Hk. exists s'. split; [done|]. split; [set_solver|].
    intros z [->|Hz]%elem_of_cons; [set_solver|by apply Hl]. }
  unfold partition. revert s. induction a as [|x a IH]; intros s; cbn [for_each].
  { exists s. split_and!; [done..|]. by intros x y ?%elem_of_nil. }
  destruct (Hb x b s) as (s1 & E1 & Hk1 & Hl1). destruct (IH s1) as (s' & E & Hk & Hl).
  exists s'. erewrite bind_Ok by exact E1. split; [done|]. split; [set_solver|].
  intros z y [->|Hz]%elem_of_cons Hy; [|by apply Hl]. destruct (Hl1 y Hy). set_solver.
Qed.

(** A random partition splits the cluster into two groups, neither of them
    empty, with every node in one of them, and blocks every link between
    them. *)
Theorem random_partition_splits config ids roll cumulative (c : Chaos) :
  2 ≤ length ids → prob_ltb roll (prob_add cumulative (partition_prob config)) = true →
  ∃ a b c', partition_case config ids roll cumulative c = (Ok (Some (Partition a b)), c') ∧
    a ++ b ≡ₚ node_id <$> ids ∧ a ≠ [] ∧ b ≠ [] ∧
    ∀ x y, x ∈ a → y ∈ b → (MkNodeId x, MkNodeId y) ∈ blocked_links (sim c') ∧
                             (MkNodeId y, MkNodeId x) ∈ blocked_links (sim c').
Proof using Type.
  intros Hlen Hroll. unfold partition_case. rewrite Hroll, bind_eq.
  destruct (shuffle_perm (reverse (seq 1 (length ids - 1))) ids c) as (l & c1 & -> & Hl & Hs).
  pose proof (Permutation_length Hl) as Hll. cbv zeta.
  set (k := 1 `max` (length l / 2)).
  assert (1 ≤ k < length l) as Hk.
  { unfold k. pose proof (Nat.div_lt (length l) 2). lia. }
  set (a := node_id <$> take k l). set (b := node_id <$> drop k l).
  destruct (partition_blocks a b (sim c1)) as (s' & E & _ & Hb).
  exists a, b, (c1 <| sim := s' |>). split_and!.
  - unfold inject. rewrite bind_eq. unfold zoom. cbn [apply_fault]. by rewrite E.
  - unfold a, b. by rewrite <-fmap_app, take_drop, Hl.
  - intros Ha%(f_equal length). unfold a in Ha. rewrite length_fmap, length_take in Ha. cbn in Ha. lia.
  - intros Hb'%(f_equal length). unfold b in Hb'. rewrite length_fmap, length_drop in Hb'.
    cbn in Hb'. lia.
  - exact Hb.
Qed.

(** ** Leaders *)

(** The loop of [get_leader]. *)
Definition best_leader (s : Sim) (l : list (NodeId * RaftNode D)) : option (Z * Z) :=
  foldl (λ best '(id, node),
    if active_leader s id node then
      match best with
      | Some (best_term, _) =>
          if decide (best_term < current_term node)%Z
          then Some (current_term node, node_id id) else best
      | None => Some (current_term node, node_id id)
      end
    else best) None l.

Lemma best_leader_ok (s : Sim) l :
  match best_leader s l with
  | Some (t, i) => ∃ id n, (id, n) ∈ l ∧ node_id id = i ∧ current_term n = t ∧
      active_leader s id n = true ∧
      ∀ id' n', (id', n') ∈ l → active_leader s id' n' = true → (current_term n' ≤ t)%Z
  | None => ∀ id n, (id, n) ∈ l → active_leader s id n = false
  end.
Proof using Type.
  induction l as [|[id n] l IH] using rev_ind; [by intros id n ?%elem_of_nil|].
  unfold best_leader in *. rewrite foldl_app. cbn [foldl].
  destruct (foldl _ None l) as [[t i]|] eqn:E; destruct (active_leader s id n) eqn:Ha.
  - destruct IH as (id0 & n0 & Hin & Hi & Ht & Ha0 & Hmax).
    case_decide as Hlt; [exists id, n|exists id0, n0]; rewrite elem_of_app, list_elem_of_singleton;
      (split; [auto|]; do 3 (split; [done|]));
      intros id' n' [Hin'|[= -> ->]%list_elem_of_singleton]%elem_of_app Ha'; try lia;
      pose proof (Hmax _ _ Hin' Ha'); lia.
  - destruct IH as (id0 & n0 & Hin & Hi & Ht & Ha0 & Hmax). exists id0, n0.
    rewrite elem_of_app. split; [auto|]. do 3 (split; [done|]).
    intros id' n' [Hin'|[= -> ->]%list_elem_of_singleton]%elem_of_app Ha'; [by eapply Hmax|congruence].
  - exists id, n. rewrite elem_of_app, list_elem_of_singleton. split; [auto|].
    do 3 (split; [done|]). intros id' n' [Hin'|[= -> ->]%list_elem_of_singleton]%elem_of_app Ha';
      [|lia]. rewrite (IH _ _ Hin') in Ha'. done.
  - intros id' n' [Hin'|[= -> ->]%list_elem_of_singleton]%elem_of_app; [by eapply IH|done].
Qed.

(** [get_leader] names an active leader of the newest term, if there is an
    active leader at all. *)
Theorem get_leader_newest (s : Sim) :
  match get_leader s with
  | Some i => ∃ id n, (id, n) ∈ in_key_order s ∧ node_id id = i ∧ active_leader s id n = true ∧
      ∀ id' n', (id', n') ∈ in_key_order s → active_leader s id' n' = true →
        (current_term n' ≤ current_term n)%Z
  | None => ∀ id n, (id, n) ∈ in_key_order s → active_leader s id n = false
  end.
Proof using Type.
  unfold get_leader. pose proof (best_leader_ok s (in_key_order s)) as Hb.
  unfold best_leader in Hb. destruct (foldl _ _ _) as [[t i]|]; cbn; [|done].
  destruct Hb as (id & n & Hin & Hi & <- & Ha & Hmax). exists id, n. done.
Qed.

(** ** The safety check *)

(** The nodes are visited once each, in the order of their ids. *)
Lemma elem_of_key_order (s : Sim) j n : (j, n) ∈ in_key_order s ↔ nodes s !! j = Some n.
Proof using Type.
  unfold in_key_order. rewrite list_elem_of_omap. split.
  - intros (p & _ & E). destruct (nodes s !! p) as [m|] eqn:Hm; [|done].
    cbn in E. by injection E as <- <-.
  - intros Hn. exists j. unfold node_ids, in_order.
    rewrite merge_sort_Permutation, elem_of_elements, elem_of_dom, Hn. split; [by eexists|done].
Qed.

Definition before {T} (x y : NodeId * T) : Prop := (node_id x.1 < node_id y.1)%Z.

Lemma key_order_sorted (s : Sim) : StronglySorted before (in_key_order s).
Proof using Type.
  unfold in_key_order.
  assert (StronglySorted node_le (node_ids s) ∧ NoDup (node_ids s)) as [Hs Hd].
  { unfold node_ids, in_order. split.
    { apply StronglySorted_merge_sort; unfold node_le; intros ?; [|lia]. intros ???; lia. }
    rewrite merge_sort_Permutation. apply NoDup_elements. }
  induction Hs as [|i l _ IH Hi]; [constructor|]. apply NoDup_cons in Hd as [Hni Hd]. cbn.
  destruct (nodes s !! i) as [n|]; cbn; [|by apply IH]. constructor; [by apply IH|].
  rewrite Forall_forall in Hi. apply Forall_forall. intros [j m] (k & Hk & E)%list_elem_of_omap.
  destruct (nodes s !! k); [|done]. cbn in E. injection E as -> _.
  pose proof (Hi j Hk) as Hle. unfold node_le in Hle. unfold before. cbn.
  assert (node_id i ≠ node_id j); [|lia]. destruct i, j; cbn; congruence.
Qed.

Lemma key_order_nodup (s : Sim) : NoDup (in_key_order s).
Proof using Type.
  induction (key_order_sorted s) as [|x l _ IH Hx]; constructor; [|done].
  rewrite Forall_forall in Hx. intros Hin%Hx. unfold before in Hin. lia.
Qed.

Lemma first_violation_None {T} (l : list T) f :
  first_violation l f = None ↔ ∀ x, x ∈ l → f x = None.
Proof using Type.
  rewrite <-Forall_forall. induction l as [|x l IH]; cbn; [by split; [constructor|]|].
  rewrite Forall_cons, <-IH. destruct (f x); [split; [done|by intros []]|tauto].
Qed.

Lemma elem_of_pairs {T} (l : list (NodeId * T)) x y :
  StronglySorted before l → (x, y) ∈ pairs l ↔ x ∈ l ∧ y ∈ l ∧ before x y.
Proof using Type.
  unfold before. induction 1 as [|z l _ IH Hz]; cbn.
  { split; [by intros ?%elem_of_nil|by intros (?%elem_of_nil & _)]. }
  rewrite Forall_forall in Hz. rewrite elem_of_app, list_elem_of_fmap, IH, !elem_of_cons. split.
  - intros [(y' & [= -> ->] & Hy)|(? & ? & ?)]; auto.
  - intros ([->|Hx] & [->|Hy] & Hlt); [lia| | |by auto].
    + left. by exists y.
    + apply Hz in Hx. lia.
Qed.

(** The check of two nodes at a time. *)
Lemma first_violation_pairs (s : Sim) f :
  first_violation (pairs (in_key_order s)) f = None ↔
  ∀ i j a b, nodes s !! i = Some a → nodes s !! j = Some b → (node_id i < node_id j)%Z →
    f ((i, a), (j, b)) = None.
Proof using Type.
  rewrite first_violation_None. split.
  - intros Hf i j a b Ha%elem_of_key_order Hb%elem_of_key_order Hlt. apply Hf.
    apply elem_of_pairs; [apply key_order_sorted|done].
  - intros Hf [[i a] [j b]] (Ha & Hb & Hlt)%elem_of_pairs; [|apply key_order_sorted].
    apply Hf; [by apply elem_of_key_order..|done].
Qed.

(** The leaders of a term, in the order of the list. *)
Definition leaders_in (t : Z) (l : list (NodeId * RaftNode D)) : list (NodeId * RaftNode D) :=
  filter (λ x, role x.2 = Leader ∧ current_term x.2 = t) l.

Lemma add_leaders l m t :
  default [] (foldl add_leader m l !! t) =
  default [] (m !! t) ++ (node_id ∘ fst <$> leaders_in t l).
Proof using Type.
  revert m. induction l as [|[i n] l IH]; intros m; [by rewrite app_nil_r|].
  cbn [foldl]. rewrite IH. unfold leaders_in. rewrite filter_cons. cbn [snd].
  unfold add_leader. destruct (decide (role n = Leader)) as [Hr|Hr]; cycle 1.
  { by rewrite decide_False by (intros [? _]; by apply Hr). }
  destruct (decide (current_term n = t)) as [<-|Ht].
  - rewrite lookup_insert_eq, decide_True by done. cbn. by rewrite <-app_assoc.
  - rewrite lookup_insert_ne, decide_False by tauto. done.
Qed.

Lemma check_elections_None (s : Sim) :
  check_elections s = None ↔
  ∀ i j a b, nodes s !! i = Some a → nodes s !! j = Some b →
    role a = Leader → role b = Leader → current_term a = current_term b → i = j.
Proof using Type.
  unfold check_elections. rewrite first_violation_None.
  pose proof (add_leaders (in_key_order s) ∅) as Hl. fold (term_leaders s) in Hl.
  setoid_rewrite lookup_empty in Hl. cbn in Hl. split.
  - intros Hf i j a b Ha%elem_of_key_order Hb%elem_of_key_order Hra Hrb Ht.
    assert (Hin : (i, a) ∈ leaders_in (current_term b) (in_key_order s) ∧
                  (j, b) ∈ leaders_in (current_term b) (in_key_order s))
      by (unfold leaders_in; rewrite !list_elem_of_filter; auto).
    specialize (Hl (current_term b)). destruct (leaders_in _ _) as [|x [|y l]].
    + by destruct Hin as [?%elem_of_nil _].
    + destruct Hin as [<-%list_elem_of_singleton E%list_elem_of_singleton]. by injection E.
    + destruct (term_leaders s !! current_term b) as [ids|] eqn:Ei; [|done]. cbn in Hl.
      specialize (Hf (current_term b, ids)); cbn in Hf. rewrite decide_True in Hf by (rewrite Hl; cbn; lia).
      discriminate Hf. rewrite merge_sort_Permutation. by apply elem_of_map_to_list.
  - intros Hone [t ids]. rewrite merge_sort_Permutation. intros Ei%elem_of_map_to_list.
    specialize (Hl t). rewrite Ei in Hl. cbn in Hl. rewrite decide_False; [done|].
    rewrite Hl, length_fmap. intros Hlen.
    assert (Hnd : NoDup (leaders_in t (in_key_order s))) by apply NoDup_filter, key_order_nodup.
    assert (Hel : ∀ x, x ∈ leaders_in t (in_key_order s) →
      nodes s !! x.1 = Some x.2 ∧ role x.2 = Leader ∧ current_term x.2 = t).
    { intros [i n] [[] Hin%elem_of_key_order]%list_elem_of_filter. done. }
    destruct (leaders_in t (in_key_order s)) as [|x [|y l]]; [cbn in Hlen; lia..|].
    destruct (Hel x) as (Hx & Hrx & Htx); [by left|].
    destruct (Hel y) as (Hy & Hry & Hty); [by right; left|].
    apply NoDup_cons in Hnd as [Hxy _]. apply Hxy.
    assert (E : x.1 = y.1) by (apply (Hone _ _ x.2 y.2); congruence).
    rewrite E, Hy in Hx. destruct x as [i a], y as [j b]. cbn in *. simplify_eq. by left.
Qed.

(** The entries of two logs that the check of the logs compares. *)
Definition logs_match (a b : RaftNode D) : Prop :=
  ∀ idx k, 1 ≤ k ≤ idx → idx < length (log a) `min` length (log b) →
    term_at a idx = term_at b idx → term_at a k = term_at b k.

Lemma check_logs_None i j a b : check_logs ((i, a), (j, b)) = None ↔ logs_match a b.
Proof using Type.
  unfold check_logs, logs_match. rewrite first_violation_None. split.
  - intros Hf idx k Hk Hidx Ht. specialize (Hf idx). rewrite decide_True in Hf by done.
    specialize (Hf ltac:(apply elem_of_seq; lia)). rewrite first_violation_None in Hf.
    specialize (Hf k ltac:(apply elem_of_seq; lia)). by case_decide.
  - intros Hm idx Hidx%elem_of_seq. case_decide as Ht; [|done]. apply first_violation_None.
    intros k Hk%elem_of_seq. rewrite decide_False; [done|]. intros Hne. apply Hne.
    apply (Hm idx); [lia..|done].
Qed.

(** What two nodes have committed is the same command, as [==] compares them. *)
Definition commits_agree (a b : RaftNode D) : Prop :=
  ∀ idx x y, 1 ≤ idx ≤ commit_index a `min` commit_index b →
    log a !! idx = Some x → log b !! idx = Some y → payload_eqb (payload x) (payload y) = true.

Lemma check_commits_None i j a b : check_commits ((i, a), (j, b)) = None ↔ commits_agree a b.
Proof using Type.
  unfold check_commits, commits_agree. rewrite first_violation_None. split.
  - intros Hf idx x y Hidx Hx Hy. specialize (Hf idx ltac:(apply elem_of_seq; lia)).
    rewrite Hx, Hy in Hf. by destruct (payload_eqb _ _).
  - intros Hc idx Hidx%elem_of_seq. destruct (log a !! idx) as [x|] eqn:Hx; [|done].
    destruct (log b !! idx) as [y|] eqn:Hy; [|done]. by rewrite (Hc idx x y) by (lia || done).
Qed.


End spec.

(** ** Elections *)
Module Example.

#[local] Existing Instances number_bincode journal bits_text fixed_millis.
#[local] Instance no_debug : DebugPayload := λ _, [].

(** A healthy cluster elects a leader: in a new cluster of three nodes there
    is none; after the first election timeout and the delivery of all messages
    there is exactly one, node 1. *)
Theorem three_node_cluster_elects_one_leader :
  ∃ s s', new_cluster (λ _, Ok ([] : list Command)) (λ _, 0%Z) 0 [1; 2; 3]%Z = Ok s ∧
    get_leader s = None ∧ leader_count s = 0 ∧
    (advance_time 200;; run_until_idle) s = (Ok (), s') ∧
    get_leader s' = Some 1%Z ∧ leader_count s' = 1.
Proof.
  eexists _, _. split; [vm_compute; reflexivity|]. split; [by vm_compute|].
  split; [by vm_compute|]. split; [vm_compute; reflexivity|]. split; by vm_compute.
Qed.

Lemma random_partition_splits_witness :
  ∃ s, new_cluster (λ _, Ok ([] : list Command)) (λ _, 0%Z) 0 [1; 2; 3]%Z = Ok s ∧
    ∃ a b c', partition_case default_chaos (node_ids s) (prob_of 0) (prob_of 0)
        {| sim := s; rng := {| rng_state := 42 |} |} = (Ok (Some (Partition a b)), c') ∧
      a ++ b ≡ₚ node_id <$> node_ids s ∧ a ≠ [] ∧ b ≠ [] ∧
      ∀ x y, x ∈ a → y ∈ b → (MkNodeId x, MkNodeId y) ∈ blocked_links (sim c') ∧
                               (MkNodeId y, MkNodeId x) ∈ blocked_links (sim c').
Proof.
  eexists. split; [vm_compute; reflexivity|]. apply random_partition_splits.
  - vm_compute. lia.
  - by vm_compute.
Defined.

End Example.
