(* ===== verification/SimulatorSafe.v ===== *)
(** Whatever faults are injected, the simulated cluster stays one that the
    protocol allows, and [check_invariants] finds no violation. *)

From stdpp Require Import functions.
From S2P Require Import Prelude Wp Bytes Float LogRecord RaftTypes LogStore RaftNode Heap.
From S2P Require Import Protocol RaftSim Runtime Cluster Fault Simulator.

Section safe.
Context {D : Type} `{!KvStore D} `{!F64Text} `{!Bincode} `{!RandomMillis} `{!DebugPayload}.
Context (cluster : gset NodeId) (db0 : D).

Abbreviation Sim := (Simulation D).
Abbreviation Node := (RaftNode D).

(** Commands that are equal to themselves: no NaN. *)
Definition comparable (c : Command) : Prop := command_eqb c c = true.

Abbreviation ok := (λ i, ok cluster i db0 comparable).
Abbreviation fits := (fits cluster db0 comparable).

(** What may go wrong in a simulation. *)
Definition sim_panics (p : string) (s : Sim) : Prop :=
  (∃ id n, nodes s !! id = Some n ∧ store_panics db0 comparable n) ∨ p = "simulation exceeded 10000 steps".

Abbreviation wp := (wp sim_panics).

Definition fault_ok (f : Fault) : Prop :=
  match f with SubmitCommand _ c => comparable c | _ => True end.

(** How many campaigns a fault starts. *)
Definition fault_cost (f : Fault) : Z :=
  match f with TriggerElection _ => 1 | _ => 0 end.

Definition schedule_cost (l : list ScheduledFault) : Z :=
  foldr (λ f k, fault_cost (fault f) + k)%Z 0%Z l.

(** The simulation [s] is in order: its terms are at most [B], and will be at
    most [T] once the scheduled elections have taken place. *)
Record sim_ok (T B : Z) (h : History) (s : Sim) : Prop := {
  so_bound : (0 ≤ B ∧ B + schedule_cost (scheduled_faults s) ≤ T)%Z;
  so_fits : fits B (nodes s) h;
  so_events e : e ∈ events s → (to e, message e) ∈ sent h;
  so_paused id l e : paused_events s !! id = Some l → e ∈ l → (to e, message e) ∈ sent h;
  so_schedule f : f ∈ scheduled_faults s → fault_ok (fault f);
}.

(** The same, with messages [X] that are known to be sent. *)
Definition Inv (T : Z) (X : list (NodeId * Message)) (s : Sim) : Prop :=
  ∃ B h, sim_ok T B h s ∧ ∀ x, x ∈ X → x ∈ sent h.

(** A program that keeps the simulation in order and starts at most [k]
    campaigns. *)
Definition spends {A} (k : Z) (m : M Sim A) : Prop := ∀ T X s,
  (T + k ≤ u64_max)%Z → Inv T X s → wp m (λ _ s', Inv (T + k) X s') s.

Lemma schedule_cost_nonneg l : (0 ≤ schedule_cost l)%Z.
Proof using Type.
  unfold schedule_cost. induction l as [|f l IH]; [done|]. cbn. assert (0 ≤ fault_cost (fault f))%Z by by destruct (fault f).
  lia.
Qed.

Lemma schedule_cost_perm l l' : l ≡ₚ l' → schedule_cost l = schedule_cost l'.
Proof using Type. unfold schedule_cost. induction 1; cbn; lia. Qed.

Lemma Inv_more T T' X s : (T ≤ T')%Z → Inv T X s → Inv T' X s.
Proof using Type.
  intros HT (B & h & [] & HX). exists B, h. split; [|done]. split; try done. lia.
Qed.

(** ** Composition *)

Lemma spends_bind {A C} k k' (m : M Sim A) (f : A → M Sim C) :
  (0 ≤ k')%Z → spends k m → (∀ a, spends k' (f a)) → spends (k + k') (m ≫= f).
Proof using Type.
  intros Hk Hm Hf T X s HT Hi. apply wp_bind.
  eapply wp_mono; [apply (Hm T X); [lia|done]|].
  intros a s' Hi'. rewrite Z.add_assoc. apply Hf; [lia|done].
Qed.

Lemma spends_more {A} k k' (m : M Sim A) : (k ≤ k')%Z → spends k m → spends k' m.
Proof using Type.
  intros Hk Hm T X s HT Hi. eapply wp_mono; [apply (Hm T X); [lia|done]|].
  intros a s'. apply Inv_more. lia.
Qed.

(** Programs without campaigns. *)
Lemma spends_seq {A C} (m : M Sim A) (f : A → M Sim C) :
  spends 0 m → (∀ a, spends 0 (f a)) → spends 0 (m ≫= f).
Proof using Type. intros. by apply (spends_bind 0 0). Qed.

Lemma spends_ret {A} (a : A) : spends 0 (mret a).
Proof using Type. intros T X s _ Hi. apply wp_ret. by rewrite Z.add_0_r. Qed.

Lemma spends_get {A} k (f : Sim → M Sim A) :
  (∀ s T X, (T + k ≤ u64_max)%Z → Inv T X s → wp (f s) (λ _ s', Inv (T + k) X s') s) →
  spends k (get ≫= f).
Proof using Type. intros Hf T X s HT Hi. apply wp_bind, wp_get. by apply Hf. Qed.

Lemma spends_read {A} k (f : Sim → M Sim A) : (∀ s0, spends k (f s0)) → spends k (get ≫= f).
Proof using Type. intros Hf. apply spends_get. intros s T X HT Hi. by apply Hf. Qed.

Lemma spends_gets {A C} k (g : Sim → A) (f : A → M Sim C) :
  (∀ a, spends k (f a)) → spends k (gets g ≫= f).
Proof using Type. intros Hf T X s HT Hi. apply wp_bind, wp_gets. by apply Hf. Qed.

Lemma spends_for_each {A} k (l : list A) (f : A → M Sim ()) :
  (0 ≤ k)%Z → (∀ x, x ∈ l → spends k (f x)) → spends (k * Z.of_nat (length l)) (for_each l f).
Proof using Type.
  intros Hk. induction l as [|x l IH]; intros Hf; cbn [for_each].
  { rewrite Z.mul_0_r. apply spends_ret. }
  replace (k * Z.of_nat (length (x :: l)))%Z with (k + k * Z.of_nat (length l))%Z
    by (cbn [length]; lia).
  apply spends_bind; [lia|apply Hf; by left|]. intros _. apply IH. intros y Hy. apply Hf. by right.
Qed.

Lemma spends_each {A} (l : list A) (f : A → M Sim ()) :
  (∀ x, x ∈ l → spends 0 (f x)) → spends 0 (for_each l f).
Proof using Type. intros Hf. by apply (spends_for_each 0). Qed.

Lemma spends_when b m : spends 0 m → spends 0 (when b m).
Proof using Type. intros Hm. destruct b; [done|apply spends_ret]. Qed.

(** Changes that the invariant does not see. *)
Lemma spends_modify (f : Sim → Sim) :
  (∀ s, nodes (f s) = nodes s ∧ events (f s) = events s ∧ paused_events (f s) = paused_events s ∧
        scheduled_faults (f s) = scheduled_faults s) →
  spends 0 (modify f).
Proof using Type.
  intros Hf T X s _ (B & h & Hs & HX). apply wp_modify. rewrite Z.add_0_r. exists B, h.
  split; [|done]. destruct (Hf s) as (E1 & E2 & E3 & E4), Hs.
  split; rewrite ?E1, ?E2, ?E3, ?E4; done.
Qed.

(** ** Programs of a node *)

Abbreviation Post B id := (Post cluster id db0 comparable B).

Lemma with_node_inv id (m : M Node ()) k T X s :
  (0 ≤ k)%Z → (T + k ≤ u64_max)%Z → Inv T X s →
  (∀ (n : Node) B h, id ∈ cluster → (0 ≤ B)%Z → (B + k ≤ u64_max)%Z → ok id (B + k)%Z n h →
     (current_term n ≤ B)%Z → (∀ x, x ∈ X → x ∈ sent h) →
     Wp.wp (λ _, store_panics db0 comparable) m (Post (B + k)%Z id n h (λ _ _ _, True)) n) →
  wp (with_node id m) (λ _, Inv (T + k) X) s.
Proof using Type.
  intros Hk HT (B & h & Hs & HX) Hm. unfold Wp.wp, with_node.
  destruct (nodes s !! id) as [n|] eqn:Hn; cycle 1.
  { apply (Inv_more T); [lia|]. by exists B, h. }
  pose proof (schedule_cost_nonneg (scheduled_faults s)) as Hc. destruct Hs.
  assert (fits (B + k)%Z (nodes s) h) as Hf by (apply (fits_bound _ _ _ B); [lia|done]).
  pose proof (fits_in cluster db0 comparable Hf id n Hn) as Hin.
  pose proof (fits_run cluster db0 comparable (B + k)%Z (nodes s) id n h m _ Hf Hn
    (Hm n B h Hin ltac:(lia) ltac:(lia) (fits_node _ _ _ _ _ _ Hf id n Hn)
      (ok_term _ _ _ _ _ _ _ (fits_node _ _ _ _ _ _ so_fits0 id n Hn)) HX)) as Hrun.
  destruct (m n) as [[u|e|p] n']; [|done|].
  2: { left. exists id, n'. cbn. by rewrite lookup_insert_eq. }
  destruct Hrun as (h' & Hf' & _ & Hsent & _). exists (B + k)%Z, h'. split; [|auto].
  split; [cbn -[schedule_cost]; lia|done|auto|eauto|auto].
Qed.

Lemma with_node_spends id (m : M Node ()) k :
  (0 ≤ k)%Z →
  (∀ (n : Node) B h, id ∈ cluster → (0 ≤ B)%Z → (B + k ≤ u64_max)%Z → ok id (B + k)%Z n h →
     (current_term n ≤ B)%Z →
     Wp.wp (λ _, store_panics db0 comparable) m (Post (B + k)%Z id n h (λ _ _ _, True)) n) →
  spends k (with_node id m).
Proof using Type. intros Hk Hm T X s HT Hi. apply with_node_inv; auto. Qed.

Lemma clear_outbox_spends id : spends 0 (with_node id clear_outbox).
Proof using Type.
  intros T X s _ (B & h & Hs & HX). unfold Wp.wp, with_node. rewrite Z.add_0_r.
  destruct (nodes s !! id) as [n|] eqn:Hn; cbn; exists B, h; (split; [|done]); [|done].
  destruct Hs. split; cbn; try done. apply fits_outbox; [done..|].
  intros x Hx. by apply elem_of_nil in Hx.
Qed.

(** ** The outbox becomes events *)

(** A message that was sent becomes an event. *)
Lemma push_event_spends T X s e :
  (to e, message e) ∈ X → Inv T X s → wp (push_event e) (λ _, Inv T X) s.
Proof using Type.
  intros He (B & h & [] & HX). apply wp_modify. exists B, h. split; [|done].
  split; try done. cbn. intros e' [->|]%elem_of_cons; auto.
Qed.

Lemma next_sequence_spends : spends 0 next_sequence.
Proof using Type.
  apply spends_read. intros s. apply spends_seq; [by apply spends_modify|].
  intros _. apply spends_ret.
Qed.

Lemma set_policy_spends link p : spends 0 (set_policy link p).
Proof using Type. by apply spends_modify. Qed.

Lemma link_faults_spends link now : spends 0 (link_faults link now).
Proof using Type.
  apply spends_read.
  intros s0. destruct (link_policies s0 !! link) as [policy|]; [|apply spends_ret].
  repeat case_decide; try apply spends_ret;
    (apply spends_seq; [apply set_policy_spends|intros; apply spends_ret]).
Qed.

Lemma route_spends id now m T X s :
  m ∈ X → (T ≤ u64_max)%Z → Inv T X s → wp (route id now m) (λ _, Inv T X) s.
Proof using Type.
  intros Hm HT Hi. destruct m as [to msg]. unfold route.
  destruct (is_timeout msg); [by apply wp_ret|]. apply wp_bind, wp_get.
  destruct (decide _) as [_|_]; [by apply wp_ret|]. apply wp_bind.
  eapply wp_mono; [apply (link_faults_spends _ _ T X); [lia|done]|]. rewrite Z.add_0_r.
  intros [[at1 dup]|] s1 Hi1; [|by apply wp_ret]. apply wp_bind.
  eapply wp_mono; [apply (next_sequence_spends T X); [lia|done]|]. rewrite Z.add_0_r.
  intros seq s2 Hi2. apply wp_bind. eapply wp_mono; [by apply (push_event_spends T X)|].
  intros [] s3 Hi3. destruct dup as [at2|]; [|by apply wp_ret]. apply wp_bind.
  eapply wp_mono; [apply (next_sequence_spends T X); [lia|done]|]. rewrite Z.add_0_r.
  intros seq' s4 Hi4. by apply (push_event_spends T X).
Qed.

(** Messages that are known to be sent may be forgotten. *)
Lemma Inv_forget T X Y s : (∀ x, x ∈ X → x ∈ Y) → Inv T Y s → Inv T X s.
Proof using Type. intros HXY (B & h & Hs & HY). exists B, h. auto. Qed.

Lemma flush_node_outbox_spends id : spends 0 (flush_node_outbox id).
Proof using Type.
  apply spends_get. intros s T X HT Hi.
  destruct (decide _) as [_|_]; [by apply clear_outbox_spends|].
  destruct (decide _) as [_|_]; [by apply spends_ret|]. rewrite Z.add_0_r in *.
  set (msgs := match nodes s !! id with Some node => outbox node | None => [] end).
  assert (Hi' : Inv T (msgs ++ X) s).
  { destruct Hi as (B & h & Hs & HX). exists B, h. split; [done|].
    intros x [Hx|Hx]%elem_of_app; [|auto]. unfold msgs in Hx.
    destruct (nodes s !! id) as [n|] eqn:Hn; [|by apply elem_of_nil in Hx].
    by apply (ok_outbox _ _ _ _ _ _ _ (fits_node _ _ _ _ _ _ (so_fits _ _ _ _ Hs) id n Hn)). }
  apply wp_bind. eapply wp_mono; [apply (clear_outbox_spends id T (msgs ++ X)); [lia|done]|].
  rewrite Z.add_0_r. intros [] s1 Hi1.
  eapply wp_mono; [apply (wp_for_each _ (λ _, Inv T (msgs ++ X))); [done|]|].
  - intros m l' s2 Hm Hi2. apply route_spends; [|lia|done]. apply elem_of_app. by left.
  - intros u s2. apply Inv_forget. intros x Hx. apply elem_of_app. by right.
Qed.

(** A program of a node, and what it sends. *)
Lemma node_then_flush id (m : M Node ()) k :
  (0 ≤ k)%Z → spends k (with_node id m) → spends k (with_node id m;; flush_node_outbox id).
Proof using Type.
  intros Hk Hm. replace k with (k + 0)%Z by lia. apply spends_bind; [lia|done|].
  intros _. apply flush_node_outbox_spends.
Qed.

(** ** Faults *)

Lemma disable_node_spends id : spends 0 (disable_node id).
Proof using Type.
  apply spends_seq; [by apply spends_modify|]. intros _. apply clear_outbox_spends.
Qed.

Lemma restart_node_spends id : spends 0 (restart_node id).
Proof using Type.
  apply spends_seq; [by apply spends_modify|]. intros _.
  apply spends_seq; [by apply spends_modify|]. intros _. apply spends_seq.
  - intros T X s _ (B & h & [] & HX). apply wp_modify. rewrite Z.add_0_r. exists B, h.
    split; [|done]. split; try done. cbn.
    intros id' l e [_ Hl]%lookup_delete_Some. by eapply so_paused0.
  - intros _. apply spends_gets. intros now. apply with_node_spends; [done|].
    intros n B h Hin _ _ Hok _. by apply restart_ok.
Qed.

Lemma resume_node_spends id : spends 0 (resume_node id).
Proof using Type.
  apply spends_seq; [by apply spends_modify|]. intros _.
  apply (spends_seq _ (λ _, flush_node_outbox id)); [|intros; apply flush_node_outbox_spends].
  apply spends_get. intros s T X HT Hi. rewrite Z.add_0_r in *.
  destruct (paused_events s !! id) as [deferred|] eqn:Hd; [|by apply wp_ret].
  set (Y := (λ e, (to e, message e)) <$> deferred). apply wp_bind, wp_modify.
  assert (Inv T (Y ++ X) (s <| paused_events := delete id (paused_events s) |>)) as Hi'.
  { destruct Hi as (B & h & [] & HX). exists B, h. split.
    - split; try done. cbn. intros id' l e [_ Hl]%lookup_delete_Some. by eapply so_paused0.
    - intros x [Hx|Hx]%elem_of_app; [|auto]. unfold Y in Hx.
      apply list_elem_of_fmap in Hx as (e & -> & He). by eapply so_paused0. }
  eapply wp_mono; [apply (wp_for_each _ (λ _, Inv T (Y ++ X))); [done|]|].
  - intros e l' s2 He Hi2. apply push_event_spends; [|done]. apply elem_of_app. left.
    apply list_elem_of_fmap. by exists e.
  - intros u s2. apply Inv_forget. intros x Hx. apply elem_of_app. by right.
Qed.

Lemma sim_start_election_spends id : spends 1 (sim_start_election id).
Proof using Type.
  apply spends_get. intros s T X HT Hi. destruct (decide _) as [_|_].
  { apply wp_ret. eapply Inv_more; [|done]. lia. }
  apply (node_then_flush id (start_election (clock s)) 1); [done| |done|done].
  apply with_node_spends; [done|]. intros n B h Hin HB HBT Hok Ht.
  apply start_election_ok; [done..|lia|lia].
Qed.

Lemma submit_command_spends id c now :
  comparable c → spends 0 (with_node id (submit_command c now)).
Proof using Type.
  intros Hc. apply with_node_spends; [done|]. intros n B h Hin _ _ Hok _.
  apply submit_command_ok; done.
Qed.

Lemma update_policy_spends from to f : spends 0 (update_policy from to f).
Proof using Type. apply spends_read. intros s. apply set_policy_spends. Qed.

Lemma link_pair_spends {A} (l : list A) (f g : A → M Sim ()) :
  (∀ x, spends 0 (f x)) → (∀ x, spends 0 (g x)) → spends 0 (for_each l (λ x, f x;; g x)).
Proof using Type. intros Hf Hg. apply spends_each. intros x _. by apply spends_seq. Qed.

Lemma block_link_spends from to : spends 0 (block_link from to).
Proof using Type. by apply spends_modify. Qed.

Lemma unblock_link_spends from to : spends 0 (unblock_link from to).
Proof using Type. by apply spends_modify. Qed.

Lemma apply_fault_spends f : fault_ok f → spends (fault_cost f) (apply_fault f).
Proof using Type.
  intros Hf. destruct f; cbn [apply_fault fault_cost].
  - apply disable_node_spends.
  - apply restart_node_spends.
  - by apply spends_modify.
  - apply resume_node_spends.
  - apply block_link_spends.
  - apply unblock_link_spends.
  - apply spends_each. intros a _. apply link_pair_spends; intros; apply block_link_spends.
  - by apply spends_modify.
  - apply spends_read. intros s. apply link_pair_spends; intros; apply block_link_spends.
  - apply spends_read. intros s. apply link_pair_spends; intros; apply unblock_link_spends.
  - apply update_policy_spends.
  - apply update_policy_spends.
  - apply spends_read. intros s. destruct (link_policies s !! _);
      [apply set_policy_spends|apply spends_ret].
  - apply update_policy_spends.
  - apply sim_start_election_spends.
  - apply spends_gets. intros now. apply node_then_flush; [done|]. by apply submit_command_spends.
Qed.

(** ** No fault changes the schedule *)

Definition leaves_schedule {A} (m : M Sim A) : Prop :=
  ∀ s, scheduled_faults (m s).2 = scheduled_faults s.

Lemma leaves_bind {A C} (m : M Sim A) (f : A → M Sim C) :
  leaves_schedule m → (∀ a, leaves_schedule (f a)) → leaves_schedule (m ≫= f).
Proof using Type.
  intros Hm Hf s. rewrite bind_eq. specialize (Hm s). destruct (m s) as [[a|e|p] s1]; try done.
  cbn in *. by rewrite Hf.
Qed.

Lemma leaves_for_each {A} (l : list A) (f : A → M Sim ()) :
  (∀ x, leaves_schedule (f x)) → leaves_schedule (for_each l f).
Proof using Type.
  intros Hf. induction l as [|x l IH]; [done|]. cbn [for_each]. by apply leaves_bind.
Qed.

Lemma leaves_with_node id (m : M Node ()) : leaves_schedule (with_node id m).
Proof using Type.
  intros s. unfold with_node. destruct (nodes s !! id) as [n|]; [|done]. by destruct (m n).
Qed.

Lemma leaves_route id now m : leaves_schedule (route id now m).
Proof using Type.
  destruct m as [to msg]. unfold route. destruct (is_timeout msg); [done|].
  apply leaves_bind; [done|]. intros s. destruct (decide _); [done|].
  apply leaves_bind.
  - unfold link_faults. apply leaves_bind; [done|]. intros s'.
    destruct (link_policies s' !! _) as [policy|]; [|done].
    repeat case_decide; try done; by apply leaves_bind.
  - intros [[t [t'|]]|]; try done; repeat (apply leaves_bind; [done|intros ?]); done.
Qed.

Lemma leaves_flush id : leaves_schedule (flush_node_outbox id).
Proof using Type.
  apply leaves_bind; [done|]. intros s. repeat case_decide; [apply leaves_with_node|done|].
  apply leaves_bind; [apply leaves_with_node|]. intros _. apply leaves_for_each. apply leaves_route.
Qed.

Lemma leaves_node_then_flush id (m : M Node ()) :
  leaves_schedule (with_node id m;; flush_node_outbox id).
Proof using Type. apply leaves_bind; [apply leaves_with_node|]. intros _. apply leaves_flush. Qed.

Lemma leaves_two {A} (l : list A) (f g : A → M Sim ()) :
  (∀ x, leaves_schedule (f x)) → (∀ x, leaves_schedule (g x)) →
  leaves_schedule (for_each l (λ x, f x;; g x)).
Proof using Type. intros Hf Hg. apply leaves_for_each. intros x. by apply leaves_bind. Qed.

Lemma apply_fault_leaves f : leaves_schedule (apply_fault f).
Proof using Type.
  destruct f; cbn [apply_fault]; try done.
  - apply leaves_bind; [done|]. intros _. apply leaves_with_node.
  - repeat (apply leaves_bind; [done|intros ?]). apply leaves_with_node.
  - apply leaves_bind; [done|]. intros _. apply leaves_bind; [done|]. intros s.
    apply (leaves_bind _ (λ _, flush_node_outbox id)); [|intros; apply leaves_flush].
    destruct (paused_events s !! id); [|done].
    apply leaves_bind; [done|]. intros _. by apply leaves_for_each.
  - apply leaves_for_each. intros a. by apply leaves_two.
  - apply leaves_bind; [done|]. intros s. by apply leaves_two.
  - apply leaves_bind; [done|]. intros s. by apply leaves_two.
  - apply leaves_bind; [done|]. intros s. by destruct (link_policies s !! _).
  - apply leaves_bind; [done|]. intros s. case_decide; [done|]. apply leaves_node_then_flush.
  - apply leaves_bind; [done|]. intros now. apply leaves_node_then_flush.
Qed.

(** ** The schedule *)

(** A fault that is taken from the schedule frees its cost. *)
Lemma pop_fault T X s f rest :
  heap_pop scheduled_cmp (scheduled_faults s) = Some (f, rest) → Inv T X s →
  fault_ok (fault f) ∧ Inv (T - fault_cost (fault f)) X (s <| scheduled_faults := rest |>).
Proof using Type.
  intros Hp%heap_pop_perm (B & h & [] & HX). split.
  - apply so_schedule0. rewrite <-Hp. by left.
  - exists B, h. split; [|done]. split; try done; cbn -[schedule_cost].
    + rewrite <-(schedule_cost_perm _ _ Hp) in so_bound0. cbn in so_bound0.
      fold (schedule_cost rest) in so_bound0. lia.
    + intros f' Hf'. apply so_schedule0. rewrite <-Hp. by right.
Qed.

Lemma wp_and_leaves {A} (m : M Sim A) Q s :
  leaves_schedule m → wp m Q s →
  wp m (λ a s', scheduled_faults s' = scheduled_faults s ∧ Q a s') s.
Proof using Type. intros Hm. specialize (Hm s). unfold Wp.wp. by destruct (m s) as [[a|e|p] s1]. Qed.

Lemma trigger_loop_spends fuel now T X s :
  (T ≤ u64_max)%Z → length (scheduled_faults s) ≤ fuel → Inv T X s →
  wp (trigger_loop fuel now) (λ _, Inv T X) s.
Proof using Type.
  revert s. induction fuel as [|fuel IH]; intros s HT Hl Hi; cbn [trigger_loop];
    apply wp_bind, wp_get;
    (destruct (heap_pop scheduled_cmp (scheduled_faults s)) as [[f rest]|] eqn:Hp;
      [|by apply wp_ret]);
    (destruct (decide _) as [_|_]; [|by apply wp_ret]);
    pose proof (Permutation_length (heap_pop_perm _ _ _ _ Hp)) as Hlen; cbn in Hlen; [lia|].
  destruct (pop_fault T X s f rest Hp Hi) as [Hf Hi1]. apply wp_bind, wp_modify, wp_bind.
  set (s1 := s <| scheduled_faults := rest |>) in *.
  eapply wp_mono; [apply wp_and_leaves; [apply apply_fault_leaves|];
    apply (apply_fault_spends (fault f) Hf (T - fault_cost (fault f))%Z X); [lia|done]|].
  intros [] s2 [Es Hi2]. apply IH; [done| |].
  - rewrite Es. cbn. lia.
  - by replace (T - fault_cost (fault f) + fault_cost (fault f))%Z with T in Hi2 by lia.
Qed.

Lemma trigger_due_faults_spends : spends 0 trigger_due_faults.
Proof using Type.
  apply spends_get. intros s T X HT Hi. rewrite Z.add_0_r in *. by apply trigger_loop_spends.
Qed.

(** ** Time and events *)

Lemma node_ids_length T X s : Inv T X s → length (node_ids s) = size cluster.
Proof using Type.
  intros (B & h & [] & _). unfold node_ids, in_order. rewrite merge_sort_Permutation.
  rewrite (fits_dom _ _ _ _ _ _ so_fits0). done.
Qed.

Lemma tick_spends id now : spends 1 (with_node id (tick now)).
Proof using Type.
  apply with_node_spends; [done|]. intros n B h Hin HB HBT Hok Ht.
  apply tick_ok; [done..|]. unfold terms_left. lia.
Qed.

Lemma advance_time_spends millis : spends (Z.of_nat (size cluster)) (advance_time millis).
Proof using Type.
  replace (Z.of_nat (size cluster)) with (0 + (0 + Z.of_nat (size cluster)))%Z by lia.
  apply spends_bind; [lia|by apply spends_modify|]. intros _.
  apply spends_bind; [lia|apply trigger_due_faults_spends|]. intros _.
  apply spends_gets. intros now. apply spends_get. intros s T X HT Hi.
  rewrite <-(node_ids_length T X s Hi) in *.
  replace (Z.of_nat (length (node_ids s))) with (1 * Z.of_nat (length (node_ids s)))%Z in * by lia.
  apply spends_for_each; [done| |done|done]. intros id _. apply spends_read. intros s0.
  destruct (decide _) as [_|_]; [apply (spends_more 0); [done|apply spends_ret]|].
  apply node_then_flush; [done|apply tick_spends].
Qed.

(** ** Messages *)

Context `{!KvPure D}.

Lemma handle_message_spends id msg now T X s :
  (id, msg) ∈ X → (T ≤ u64_max)%Z → Inv T X s →
  wp (with_node id (handle_message msg now)) (λ _, Inv T X) s.
Proof using KvPure0.
  intros Hm HT Hi. rewrite <-(Z.add_0_r T). apply with_node_inv; [done|lia|done|].
  intros n B h Hin HB _ Hok _ HX. apply handle_message_ok; [done..|left; auto|].
  intros ->. by apply HX, (ok_static _ _ _ _ _ _ _ Hok) in Hm.
Qed.

(** ** Delivering events *)

Lemma pop_event T X s e rest :
  heap_pop event_cmp (events s) = Some (e, rest) → Inv T X s →
  Inv T ((to e, message e) :: X) (s <| events := rest |>).
Proof using Type.
  intros Hp%heap_pop_perm (B & h & [] & HX). exists B, h. split.
  - split; try done. cbn. intros e' He'. apply so_events0. rewrite <-Hp. by right.
  - intros x [->|Hx]%elem_of_cons; [|auto]. apply so_events0. rewrite <-Hp. by left.
Qed.

Lemma defer_spends T X s e :
  (to e, message e) ∈ X → Inv T X s →
  Inv T X (s <| paused_events :=
    <[to e := default [] (paused_events s !! to e) ++ [e]]> (paused_events s) |>).
Proof using Type.
  intros He (B & h & [] & HX). exists B, h. split; [|done]. split; try done. cbn.
  intros id l e' [[<- <-]|[_ Hl]]%lookup_insert_Some Hin; [|by eapply so_paused0].
  apply elem_of_app in Hin as [Hin| ->%list_elem_of_singleton]; [|auto].
  destruct (paused_events s !! to e) as [l|] eqn:Hl; [by eapply so_paused0|].
  by apply elem_of_nil in Hin.
Qed.

Lemma deliver_spends T X s e :
  (to e, message e) ∈ X → (T ≤ u64_max)%Z → Inv T X s → wp (deliver e) (λ _, Inv T X) s.
Proof using KvPure0.
  intros He HT Hi. unfold deliver. apply wp_bind. eapply wp_mono.
  { apply (spends_modify (λ s, s <| clock := Z.max (clock s) (deliver_at e) |>)
      ltac:(done) T X); [lia|done]. }
  rewrite Z.add_0_r. intros [] s1 Hi1. apply wp_bind. eapply wp_mono.
  { apply (trigger_due_faults_spends T X); [lia|done]. }
  rewrite Z.add_0_r. intros [] s2 Hi2. apply wp_bind, wp_get.
  destruct (decide _) as [_|_]; [by apply wp_ret|].
  destruct (decide _) as [_|_].
  { apply wp_bind, wp_modify, wp_ret. by apply defer_spends. }
  apply wp_bind. eapply wp_mono; [by apply handle_message_spends|]. intros [] s3 Hi3.
  apply wp_bind. eapply wp_mono; [apply (flush_node_outbox_spends (to e) T X); [lia|done]|].
  rewrite Z.add_0_r. intros [] s4 Hi4. by apply wp_ret.
Qed.

(** A delivery may advance the time, and every node may time out. *)
Definition step_cost : Z := Z.of_nat (size cluster).

Lemma deliver_next_spends : spends step_cost deliver_next.
Proof using KvPure0.
  apply (spends_bind 0 step_cost); [unfold step_cost; lia|apply trigger_due_faults_spends|].
  intros _. apply spends_get. intros s T X HT Hi.
  destruct (heap_pop event_cmp (events s)) as [[e rest]|] eqn:Hp.
  - apply wp_bind, wp_modify. pose proof (pop_event T X s e rest Hp Hi) as Hi1.
    eapply wp_mono; [apply (deliver_spends T ((to e, message e) :: X) _ e);
      [by left|unfold step_cost in *; lia|done]|].
    intros b s' Hi'. apply (Inv_more T); [unfold step_cost; lia|].
    eapply Inv_forget; [|exact Hi']. intros x Hx. by right.
  - assert (Inv (T + step_cost) X s) by (apply (Inv_more T); [unfold step_cost; lia|done]).
    destruct (heap_peek _ _) as [f|]; [|by apply wp_ret].
    destruct (decide _) as [_|_]; [|by apply wp_ret]. apply wp_bind.
    by eapply wp_mono; [apply (advance_time_spends _ T X)|].
Qed.

End safe.
