(* ===== verification/ChaosSafe.v ===== *)
(** The safety check never fails on a cluster that is in order, and the chaos
    test keeps the cluster in order: it never reports a violation. *)

From stdpp Require Import functions.
From S2P Require Import Prelude Wp Bytes Float LogRecord RaftTypes LogStore RaftNode Heap.
From S2P Require Import Protocol RaftSim Journal Runtime Cluster Fault Simulator SimulatorSpec SimulatorSafe.

(** ** The parts of [check_invariants] *)

Section check.
Context {D : Type} `{!KvStore D} `{!F64Text} `{!Bincode} `{!RandomMillis} `{!DebugPayload}.
Context (cluster : gset NodeId) (db0 : D).

Abbreviation Sim := (Simulation D).
Abbreviation Node := (RaftNode D).
Abbreviation Inv := (Inv cluster db0).
Abbreviation spends := (spends cluster db0).

Section safe.
Context (T : Z) (X : list (NodeId * Message)) (s : Sim).
Hypothesis (Hinv : Inv T X s).

Lemma payload_eqb_refl e : plain comparable e → payload_eqb (payload e) (payload e) = true.
Proof using Type.
  unfold plain, comparable. destruct (payload e); [|done..]. cbn. unfold record_eqb.
  intros ->. by rewrite !bool_decide_true.
Qed.

Lemma logs_match_ok i j a b :
  nodes s !! i = Some a → nodes s !! j = Some b → logs_match a b.
Proof using Hinv.
  destruct Hinv as (B & h & Hs & _). pose proof (so_fits _ _ _ _ _ _ Hs) as Hf.
  intros Ha Hb idx k Hk Hi Ht.
  destruct (lookup_lt_is_Some_2 (log a) idx) as [x Hx]; [lia|].
  destruct (lookup_lt_is_Some_2 (log b) idx) as [y Hy]; [lia|].
  unfold term_at in Ht. rewrite Hx, Hy in Ht.
  pose proof (fits_logs_match _ _ _ Hf i j a b idx x y Ha Hb Hx Hy Ht) as Htake.
  apply (f_equal (lookup k)) in Htake. rewrite !lookup_take_lt in Htake by lia.
  unfold term_at. by rewrite Htake.
Qed.

Lemma commits_agree_ok i j a b :
  nodes s !! i = Some a → nodes s !! j = Some b → commits_agree a b.
Proof using Hinv.
  destruct Hinv as (B & h & Hs & _). pose proof (so_fits _ _ _ _ _ _ Hs) as Hf.
  intros Ha Hb idx x y Hi Hx Hy.
  destruct (fits_committed_agree _ _ _ Hf i j a b idx Ha Hb) as (e & He & He'); [lia..|].
  rewrite He in Hx. rewrite He' in Hy. simplify_eq. apply payload_eqb_refl.
  eapply Forall_lookup_1; [|exact He].
  apply (ok_plain _ _ _ _ _ _ _ (fits_node _ _ _ _ _ _ Hf i a Ha)).
Qed.

Lemma check_invariants_ok : check_invariants s = inl ().
Proof using Hinv.
  destruct Hinv as (B & h & Hs & _). pose proof (so_fits _ _ _ _ _ _ Hs) as Hf.
  unfold check_invariants.
  rewrite (proj2 (check_elections_None s)) by (intros i j a b; apply (fits_election_safe _ _ _ Hf)).
  rewrite (proj2 (first_violation_pairs s check_logs))
    by (intros; by apply check_logs_None; eapply logs_match_ok).
  by rewrite (proj2 (first_violation_pairs s check_commits))
    by (intros; by apply check_commits_None; eapply commits_agree_ok).
Qed.

End safe.

(** ** The chaos test *)

Abbreviation Chaos := (Simulator.Chaos (D := D)).
Abbreviation wp := (Wp.wp (λ p c, sim_panics db0 p (sim c))).
Abbreviation cost := (step_cost cluster).

(** A program of the chaos test that keeps the simulation in order, starts at
    most [k] campaigns, and gives a result that satisfies [Q]. *)
Definition runs {A} (k : Z) (m : M Chaos A) (Q : A → Prop) : Prop := ∀ T X c,
  (T + k ≤ u64_max)%Z → Inv T X (sim c) → wp m (λ a c', Q a ∧ Inv (T + k) X (sim c')) c.

Lemma runs_bind {A C} k k' (m : M Chaos A) (f : A → M Chaos C) P Q :
  (0 ≤ k')%Z → runs k m P → (∀ a, P a → runs k' (f a) Q) → runs (k + k') (m ≫= f) Q.
Proof using Type.
  intros Hk Hm Hf T X c HT Hi. apply wp_bind.
  eapply wp_mono; [apply (Hm T X); [lia|done]|].
  intros a c' [Ha Hi']. rewrite Z.add_assoc. apply Hf; [done|lia|done].
Qed.

Lemma runs_then {A C} k (m : M Chaos A) (f : A → M Chaos C) Q :
  (0 ≤ k)%Z → runs 0 m (λ _, True) → (∀ a, runs k (f a) Q) → runs k (m ≫= f) Q.
Proof using Type. intros Hk Hm Hf. apply (runs_bind 0 k _ _ (λ _, True)); auto. Qed.

Lemma runs_ret {A} (a : A) (Q : A → Prop) : Q a → runs 0 (mret a) Q.
Proof using Type. intros Ha T X c _ Hi. apply wp_ret. by rewrite Z.add_0_r. Qed.

Lemma runs_get {A} k (f : Chaos → M Chaos A) Q :
  (∀ c T X, (T + k ≤ u64_max)%Z → Inv T X (sim c) → wp (f c) (λ a c', Q a ∧ Inv (T + k) X (sim c')) c) →
  runs k (get ≫= f) Q.
Proof using Type. intros Hf T X c HT Hi. apply wp_bind, wp_get. by apply Hf. Qed.

Lemma runs_gets {A C} k (g : Chaos → C) (f : C → M Chaos A) Q :
  (∀ a, runs k (f a) Q) → runs k (gets g ≫= f) Q.
Proof using Type. intros Hf T X c HT Hi. apply wp_bind, wp_gets. by apply Hf. Qed.

(** Programs of the simulation. *)
Lemma runs_sim {A} k (m : M Sim A) : spends k m → runs k (zoom sim m) (λ _, True).
Proof using Type.
  intros Hm T X c HT Hi. specialize (Hm T X (sim c) HT Hi). unfold Wp.wp, zoom in *.
  by destruct (m (sim c)) as [[a|e|p] s'].
Qed.

(** Programs of the random numbers. *)
Lemma runs_rng {A} (m : M Rng A) (Q : A → Prop) :
  (∀ r, ∃ a r', m r = (Ok a, r') ∧ Q a) → runs 0 (zoom rng m) Q.
Proof using Type.
  intros Hm T X c _ Hi. destruct (Hm (rng c)) as (a & r' & E & Ha). unfold Wp.wp, zoom.
  rewrite E, Z.add_0_r. done.
Qed.

Lemma runs_next_u64 : runs 0 (zoom rng next_u64) (λ _, True).
Proof using Type.
  apply runs_rng. intros r. destruct (next_u64_total r) as (a & r' & -> & _). by exists a, r'.
Qed.

Lemma runs_next_f64 : runs 0 (zoom rng next_f64) (λ _, True).
Proof using Type.
  apply runs_rng. intros r. unfold next_f64. rewrite bind_eq.
  destruct (next_u64_total r) as (a & r' & -> & _). by do 2 eexists.
Qed.

Lemma runs_gen_range min max :
  (max - min + 1 < 2 ^ 64)%Z → runs 0 (zoom rng (gen_range min max)) (λ _, True).
Proof using Type.
  intros Hm. apply runs_rng. intros r. unfold gen_range.
  case_decide as Hmm; [by exists min, r|]. rewrite bind_eq.
  destruct (next_u64_total r) as (u & r' & -> & _). rewrite decide_False; [by do 2 eexists|].
  unfold wrap. rewrite Z.mod_small; lia.
Qed.

Lemma runs_choose_one {A} (l : list A) : l ≠ [] → runs 0 (choose_one l) (λ _, True).
Proof using Type.
  intros Hl. unfold choose_one.
  apply (runs_bind 0 0 _ _ is_Some); [done| |].
  - apply runs_rng. intros r. unfold choose. rewrite decide_False by done.
    rewrite bind_eq. destruct (next_u64_total r) as (u & r' & -> & _).
    assert (length l ≠ 0) as Hlen by (by intros ->%nil_length_inv).
    destruct (lookup_lt_is_Some_2 l (Z.to_nat (u `mod` Z.of_nat (length l)))) as [x Hx].
    { pose proof (Z.mod_pos_bound u (Z.of_nat (length l))). lia. }
    rewrite bind_eq, Hx. do 2 eexists. split; [done|]. by exists x.
  - intros o [x ->]. by apply runs_ret.
Qed.

Lemma runs_shuffle {A} indices (l : list A) : runs 0 (shuffle indices l) (λ _, True).
Proof using Type.
  revert l. induction indices as [|i indices IH]; intros l; [by apply runs_ret|].
  apply runs_then; [done|apply runs_next_u64|]. intros u. apply IH.
Qed.

Lemma runs_inject f :
  fault_ok f → fault_cost f = 0%Z → runs 0 (inject f) (λ _, True).
Proof using Type.
  intros Hf Hc. apply runs_then; [done| |intros; by apply runs_ret].
  apply runs_sim. rewrite <-Hc. by apply apply_fault_spends.
Qed.

(** Whatever the configuration, the steps that it can take. *)
Section config.
Context (config : ChaosConfig).
Hypothesis (Hdelay : in_u 64 (max_packet_delay config)).

(** A case of [inject_random_fault] that may not apply. *)
Lemma runs_case {A} (b : bool) (m m' : M Chaos A) Q :
  runs 0 m Q → runs 0 m' Q → runs 0 (if b then m else m') Q.
Proof using Type. by destruct b. Qed.

Lemma runs_none : runs 0 (mret (M := M Chaos) (@None Fault)) (λ _, True).
Proof using Type. by apply runs_ret. Qed.

Section ids.
Context (ids : list NodeId).
Hypothesis (Hids : ids ≠ []).

Lemma delay_case_runs roll cumulative :
  runs 0 (delay_case config ids roll cumulative) (λ _, True).
Proof using Hdelay Hids.
  unfold delay_case. apply runs_case; [|apply runs_none].
  apply runs_then; [done|by apply runs_choose_one|]. intros a.
  apply runs_then; [done|by apply runs_choose_one|]. intros b.
  case_decide; [|apply runs_none].
  apply runs_then; [done|apply runs_gen_range; unfold in_u in Hdelay; lia|]. intros d.
  by apply runs_inject.
Qed.

Lemma drop_case_runs roll cumulative :
  runs 0 (drop_case config ids roll cumulative) (λ _, True).
Proof using Hdelay Hids.
  unfold drop_case. apply runs_case; [|apply delay_case_runs].
  apply runs_then; [done|by apply runs_choose_one|]. intros a.
  apply runs_then; [done|by apply runs_choose_one|]. intros b.
  case_decide; [|apply delay_case_runs].
  apply runs_then; [done|by apply runs_gen_range|]. intros n. by apply runs_inject.
Qed.

Lemma heal_case_runs roll cumulative :
  runs 0 (heal_case config ids roll cumulative) (λ _, True).
Proof using Hdelay Hids.
  unfold heal_case. apply runs_case; [|apply drop_case_runs].
  apply runs_gets. intros s. case_decide; [by apply runs_inject|apply drop_case_runs].
Qed.

Lemma partition_case_runs roll cumulative :
  runs 0 (partition_case config ids roll cumulative) (λ _, True).
Proof using Hdelay Hids.
  unfold partition_case. apply runs_case; [|apply heal_case_runs].
  apply runs_then; [done|apply runs_shuffle|]. intros l. by apply runs_inject.
Qed.

Lemma restart_case_runs roll cumulative :
  runs 0 (restart_case config ids roll cumulative) (λ _, True).
Proof using Hdelay Hids.
  unfold restart_case. apply runs_case; [|apply partition_case_runs].
  apply runs_gets. intros s. case_decide; [|apply partition_case_runs].
  apply runs_then; [done|by apply runs_choose_one|]. intros t. by apply runs_inject.
Qed.

Lemma crash_case_runs roll cumulative :
  runs 0 (crash_case config ids roll cumulative) (λ _, True).
Proof using Hdelay Hids.
  unfold crash_case. apply runs_case; [|apply restart_case_runs].
  apply runs_gets. intros s. case_decide as Hl; [|apply restart_case_runs].
  apply runs_then; [done|apply runs_choose_one|].
  - intros E. rewrite E in Hl. cbn in Hl. lia.
  - intros t. by apply runs_inject.
Qed.

Lemma chaos_submit_runs step n : runs 0 (chaos_submit ids step n) (λ _, True).
Proof using Hids.
  unfold chaos_submit. case_decide; [|by apply runs_ret].
  apply runs_get. intros c T X HT Hi.
  apply (runs_bind 0 0 _ _ (λ _, True)); [done| | |done|done].
  - destruct (get_leader (sim c)); [by apply runs_ret|by apply runs_choose_one].
  - intros target _. case_decide; [|by apply runs_ret].
    apply runs_then; [done| |intros; by apply runs_ret].
    apply runs_sim. apply (apply_fault_spends cluster db0 (SubmitCommand target (chaos_command n))).
    cbn. unfold comparable. cbn. by rewrite !bool_decide_true.
Qed.

End ids.

Lemma inject_random_fault_runs : runs 0 (inject_random_fault config) (λ _, True).
Proof using Hdelay.
  apply runs_get. intros c T X HT Hi. cbv zeta.
  destruct (decide _) as [Hl|Hl]; [by apply runs_none|].
  apply (runs_then 0); [done|apply runs_next_f64| |done|done].
  intros roll. apply crash_case_runs. intros E. rewrite E in Hl. cbn in Hl. lia.
Qed.

Context `{!KvPure D}.

Lemma chaos_advance_runs : runs cost (chaos_advance config) (λ _, True).
Proof using Hdelay KvPure0.
  assert (0 ≤ cost)%Z as Hc by (unfold step_cost; lia).
  apply runs_then; [done|apply inject_random_fault_runs|]. intros _.
  apply runs_then; [done|apply runs_next_f64|]. intros roll.
  destruct (prob_ltb roll (percent 35)).
  - apply runs_then; [done|by apply runs_gen_range|]. intros ms.
    apply runs_sim, advance_time_spends.
  - replace cost with (cost + 0)%Z by lia.
    apply (runs_bind cost 0 _ _ (λ _, True)); [done|by apply runs_sim, deliver_next_spends|].
    intros b _. by apply runs_ret.
Qed.

(** No step reports a violation. *)
Lemma chaos_loop_runs ids steps n :
  ids ≠ [] →
  runs (Z.of_nat (length steps) * cost) (chaos_loop config ids steps n)
    (λ r, ∃ n', r = inl n').
Proof using Hdelay KvPure0.
  intros Hids. assert (0 ≤ cost)%Z as Hc by (unfold step_cost; lia).
  revert n. induction steps as [|step steps IH]; intros n; cbn [chaos_loop].
  { apply runs_ret. by exists n. }
  replace (Z.of_nat (length (step :: steps)) * cost)%Z
    with (0 + (cost + Z.of_nat (length steps) * cost))%Z by (cbn [length]; lia).
  eapply runs_bind; [lia|by apply chaos_submit_runs|]. intros n' _.
  eapply runs_bind; [lia|apply chaos_advance_runs|]. intros _ _.
  apply runs_get. intros c T X HT Hi. rewrite (check_invariants_ok T X) by done. by apply IH.
Qed.

End config.

(** ** Convergence *)

Lemma flush_all_outboxes_spends : spends 0 flush_all_outboxes.
Proof using Type.
  apply spends_read. intros s. apply spends_each. intros id _. apply flush_node_outbox_spends.
Qed.

Context `{!KvPure D}.

(** [run_until_idle] stops, or panics after 10000 steps. *)
Lemma idle_loop_spends left : spends ((Z.of_nat left + 1) * cost) (idle_loop left).
Proof using KvPure0.
  assert (0 ≤ cost)%Z as Hc by (unfold step_cost; lia).
  induction left as [|left IH]; cbn [idle_loop].
  - replace ((Z.of_nat 0 + 1) * cost)%Z with (cost + 0)%Z by lia.
    apply spends_bind; [done|by apply deliver_next_spends|]. intros [|]; [|apply spends_ret].
    intros T X s _ _. by right.
  - replace ((Z.of_nat (S left) + 1) * cost)%Z
      with (cost + (Z.of_nat left + 1) * cost)%Z by lia.
    apply spends_bind; [lia|by apply deliver_next_spends|]. intros [|]; [done|].
    apply (spends_more cluster db0 0); [lia|apply spends_ret].
Qed.

Lemma run_until_idle_spends : spends (10001 * cost) run_until_idle.
Proof using KvPure0.
  apply (spends_bind cluster db0 0 (10001 * cost)); [unfold step_cost; lia|apply flush_all_outboxes_spends|].
  intros _. apply (idle_loop_spends (Z.to_nat 10000)).
Qed.

Lemma recover_spends id :
  spends 0 (s ← get;
    when (bool_decide (id ∈ disabled_nodes s)) (restart_node id);;
    s ← get;
    when (bool_decide (id ∈ paused_nodes s)) (resume_node id)).
Proof using Type.
  apply spends_read. intros s. apply spends_seq; [apply spends_when, restart_node_spends|].
  intros _. apply spends_read. intros s'. apply spends_when, resume_node_spends.
Qed.

Lemma chaos_converge_ok ids T X s :
  (T + 10001 * cost ≤ u64_max)%Z → Inv T X s →
  Wp.wp (sim_panics db0) (chaos_converge ids) (λ r s', r = inl () ∧ Inv (T + 10001 * cost) X s') s.
Proof using KvPure0.
  intros HT Hi. assert (0 ≤ cost)%Z as Hc by (unfold step_cost; lia).
  apply wp_bind. eapply wp_mono.
  { apply (spends_modify cluster db0 (λ s : Sim, s <| blocked_links := ∅ |>) ltac:(done) T X); [lia|done]. }
  rewrite Z.add_0_r. intros [] s1 Hi1. apply wp_bind. eapply wp_mono.
  { apply (spends_each cluster db0 ids _ (λ id _, recover_spends id) T X); [lia|done]. }
  rewrite Z.add_0_r. intros [] s2 Hi2. apply wp_bind.
  eapply wp_mono; [by apply (run_until_idle_spends T X)|]. intros [] s3 Hi3.
  apply wp_bind, wp_get, wp_ret. split; [|done]. by eapply check_invariants_ok.
Qed.

(** ** Any use of the simulator *)

Lemma steps_loop_spends n k : spends (Z.of_nat n * cost) (steps_loop n k).
Proof using KvPure0.
  assert (0 ≤ cost)%Z as Hc by (unfold step_cost; lia).
  revert k. induction n as [|n IH]; intros k; cbn [steps_loop]; [apply spends_ret|].
  replace (Z.of_nat (S n) * cost)%Z with (cost + Z.of_nat n * cost)%Z by lia.
  apply spends_bind; [lia|by apply deliver_next_spends|]. intros [|]; [done|].
  apply (spends_more cluster db0 0); [lia|apply spends_ret].
Qed.

Lemma schedule_fault_spends at_ f :
  fault_ok f → spends (fault_cost f) (schedule_fault at_ f).
Proof using Type.
  intros Hf. apply (spends_bind cluster db0 0 (fault_cost f));
    [by destruct f|by apply spends_modify|].
  intros _ T X s HT (B & h & [] & HX). apply wp_modify. exists B, h. split; [|done].
  split; try done; cbn -[schedule_cost].
  - unfold heap_push. cbn [schedule_cost foldr fault]. fold (schedule_cost (scheduled_faults s)).
    lia.
  - intros f' [->|Hf']%elem_of_cons; [done|auto].
Qed.

(** What a test may do with a simulation. *)
Inductive SimOp : Type :=
  | DoFault (f : Fault)
  | DoSchedule (at_ : Instant) (f : Fault)
  | DoAdvance (millis : Z)
  | DoDeliver
  | DoSteps (n : nat)
  | DoRunUntilIdle.

Definition sim_op (o : SimOp) : M Sim () :=
  match o with
  | DoFault f => apply_fault f
  | DoSchedule at_ f => schedule_fault at_ f
  | DoAdvance millis => advance_time millis
  | DoDeliver => deliver_next;; mret ()
  | DoSteps n => run_steps n;; mret ()
  | DoRunUntilIdle => run_until_idle
  end.

(** Commands are comparable. *)
Definition op_ok (o : SimOp) : Prop :=
  match o with DoFault f | DoSchedule _ f => fault_ok f | _ => True end.

(** The elections that an operation may start in a cluster of [size] nodes. *)
Definition op_cost (size : Z) (o : SimOp) : Z :=
  match o with
  | DoFault f | DoSchedule _ f => fault_cost f
  | DoAdvance _ | DoDeliver => size
  | DoSteps n => Z.of_nat n * size
  | DoRunUntilIdle => 10001 * size
  end.

Definition ops_cost (size : Z) (ops : list SimOp) : Z :=
  foldr (λ o k, op_cost size o + k)%Z 0%Z ops.

Lemma op_cost_nonneg size o : (0 ≤ size)%Z → (0 ≤ op_cost size o)%Z.
Proof using Type. destruct o as [f|at_ f|ms| |n|]; cbn; try lia; by destruct f. Qed.

Lemma ops_cost_nonneg size ops : (0 ≤ size)%Z → (0 ≤ ops_cost size ops)%Z.
Proof using Type.
  intros Hs. induction ops as [|o ops IH]; [done|].
  change (0 ≤ op_cost size o + ops_cost size ops)%Z.
  pose proof (op_cost_nonneg size o Hs). lia.
Qed.

Lemma sim_op_spends o : op_ok o → spends (op_cost cost o) (sim_op o).
Proof using KvPure0.
  assert (0 ≤ cost)%Z as Hc by (unfold step_cost; lia).
  assert (Hret : ∀ {A} k (m : M Sim A), spends k m → spends k (m;; mret ())).
  { intros A k m Hm. replace k with (k + 0)%Z by lia.
    apply spends_bind; [done..|]. intros _. apply spends_ret. }
  destruct o as [f|at_ f|ms| |n|]; intros Ho; cbn [sim_op op_cost].
  - by apply apply_fault_spends.
  - by apply schedule_fault_spends.
  - apply advance_time_spends.
  - by apply Hret, deliver_next_spends.
  - apply Hret. apply (spends_bind cluster db0 0 (Z.of_nat n * cost)%Z);
      [nia|apply flush_all_outboxes_spends|].
    intros _. apply steps_loop_spends.
  - apply run_until_idle_spends.
Qed.

Lemma sim_ops_spends ops : Forall op_ok ops → spends (ops_cost cost ops) (for_each ops sim_op).
Proof using KvPure0.
  assert (0 ≤ cost)%Z as Hc by (unfold step_cost; lia).
  intros Hops. induction Hops as [|o ops Ho _ IH]; cbn [for_each ops_cost foldr];
    [apply spends_ret|].
  apply spends_bind; [|by apply sim_op_spends|by intros _].
  by apply ops_cost_nonneg.
Qed.

(** ** The whole test *)

Lemma run_chaos_test_ok config seed steps T X s :
  in_u 64 (max_packet_delay config) → cluster ≠ ∅ →
  (T + (Z.of_nat steps + 10001) * cost ≤ u64_max)%Z → Inv T X s →
  Wp.wp (sim_panics db0) (run_chaos_test seed steps config) (λ r _, ∃ n, r = inl n) s.
Proof using KvPure0.
  intros Hd Hne HT Hi. assert (0 ≤ cost)%Z as Hc by (unfold step_cost; lia).
  assert (node_ids s ≠ []) as Hids.
  { intros E%(f_equal length). rewrite (node_ids_length _ _ _ _ _ Hi) in E. cbn in E.
    by apply size_empty_inv, leibniz_equiv in E. }
  unfold run_chaos_test. unfold Wp.wp at 1.
  set (run := (_ ≫= _) : M Chaos (nat + InvariantViolation)).
  assert (wp run (λ r _, ∃ n, r = inl n) {| sim := s; rng := {| rng_state := seed |} |}) as Hrun.
  { apply wp_bind. eapply wp_mono.
    { apply (chaos_loop_runs config Hd (node_ids s) (seq 0 steps) 0 Hids T X); [|done].
      rewrite length_seq. lia. }
    intros r c ([n ->] & Hi1). rewrite length_seq in Hi1. apply wp_bind.
    pose proof (chaos_converge_ok (node_ids s) (T + Z.of_nat steps * cost)%Z X (sim c) ltac:(lia) Hi1) as Hconv.
    unfold Wp.wp, zoom in *. destruct (chaos_converge _ _) as [[r|e|p] s']; [|done..].
    destruct Hconv as [-> _]. by exists n. }
  unfold Wp.wp in Hrun. by destruct (run _) as [[r|e|p] c].
Qed.

End check.

(** * A new cluster *)

Section new_cluster.
Context {D : Type} `{!KvStore D} `{!F64Text} `{!Bincode} `{!RandomMillis} `{!DebugPayload}.

Abbreviation Sim := (Simulation D).
Abbreviation Node := (RaftNode D).

(** Setting the timeouts changes nothing that matters. *)
Definition like (s s' : Sim) : Prop :=
  s' = s <| nodes := nodes s' |> ∧ dom (nodes s') = dom (nodes s) ∧
  ∀ i n', nodes s' !! i = Some n' → ∃ n, nodes s !! i = Some n ∧
    core n' = core n ∧ meta_store n' = meta_store n ∧ pending_requests n' = pending_requests n.

#[local] Instance like_preorder : PreOrder like.
Proof using Type.
  split.
  - intros s. split_and!; [by destruct s|done|eauto].
  - intros s s1 s2 (E & Hd & Hn) (E' & Hd' & Hn'). split_and!.
    + rewrite E', E. done.
    + congruence.
    + intros i n' (n1 & (n & ? & ? & ? & ?)%Hn & ? & ? & ?)%Hn'. exists n. split_and!; congruence.
Qed.

Lemma set_timeouts_ok started ids (s : Sim) :
  ∃ s', for_each ids (λ id,
          with_node id (set_election_timeout (cluster_timeout id) started)) s = (Ok (), s') ∧
    like s s'.
Proof using Type.
  revert s. induction ids as [|i ids IH]; intros s; cbn [for_each]; [by exists s|].
  rewrite bind_eq. unfold with_node at 1.
  destruct (nodes s !! i) as [n|] eqn:Hn; [|by apply IH]. cbn.
  assert (∃ n', set_election_timeout (cluster_timeout i) started n = (Ok (), n') ∧
    core n' = core n ∧ meta_store n' = meta_store n ∧ pending_requests n' = pending_requests n)
    as (n1 & -> & Hc) by by eexists.
  destruct (IH (s <| nodes := <[i := n1]> (nodes s) |>)) as (s' & -> & Hl).
  exists s'. split; [done|]. etrans; [|exact Hl]. split_and!; [by destruct s| |]; cbn.
  - apply elem_of_dom_2 in Hn. rewrite dom_insert_L. set_solver.
  - intros j m [[<- <-]|[_ Hj]]%lookup_insert_Some; eauto.
Qed.

Context (db0 : D) (created : NodeId → Instant).
Abbreviation opened := (λ _ : NodeId, Ok db0).

Lemma new_in_dir_total (i : NodeId) ps now : ∃ n, new_in_dir [] [] (Ok db0) i ps now = Ok n.
Proof using Type. eexists. reflexivity. Qed.

(** The nodes that the loop of [new_cluster] has made. *)
Definition made (all : list NodeId) (nodes : gmap NodeId Node) : Prop :=
  ∀ i n, nodes !! i = Some n →
    new_in_dir [] [] (Ok db0) i (filter (λ node, node_id node ≠ node_id i) all) (created i) = Ok n.

Lemma make_nodes_ok all ids nodes :
  made all nodes →
  ∃ nodes', make_nodes opened created all ids nodes = Ok nodes' ∧ made all nodes' ∧
    dom nodes' = list_to_set ids ∪ dom nodes.
Proof using Type.
  revert nodes. induction ids as [|i ids IH]; intros nodes Hm; cbn [make_nodes].
  { exists nodes. split_and!; [done..|set_solver]. }
  destruct (new_in_dir_total i (filter (λ node, node_id node ≠ node_id i) all) (created i))
    as [n Hn]. rewrite Hn. cbn.
  destruct (IH (<[i := n]> nodes)) as (nodes' & E & Hm' & Hd).
  { by intros j m [[<- <-]|[_ Hj]]%lookup_insert_Some; [|apply Hm]. }
  exists nodes'. split_and!; [done..|]. rewrite Hd, dom_insert_L. set_solver.
Qed.

(** The cluster that the ids name. *)
Definition members (ids : list Z) : gset NodeId := list_to_set (MkNodeId <$> ids).

Lemma members_size ids : NoDup ids → size (members ids) = length ids.
Proof using Type.
  intros Hnd. unfold members. rewrite size_list_to_set; [apply length_fmap|].
  apply NoDup_fmap_2; [|done]. by intros x y [= ->].
Qed.

(** [new_cluster] ends well, and makes a cluster in order. *)
Lemma new_cluster_ok started ids :
  NoDup ids →
  ∃ s, new_cluster opened created started ids = Ok s ∧ Inv (members ids) db0 0 [] s.
Proof using Type.
  intros Hnd. unfold new_cluster. set (all := MkNodeId <$> ids).
  destruct (make_nodes_ok all all ∅) as (nodes0 & -> & Hm & Hd).
  { intros i n. by rewrite lookup_empty. }
  cbn. destruct (set_timeouts_ok started (node_ids (sim_new started nodes0))
    (sim_new started nodes0)) as (s & -> & E & Hd' & Hn).
  exists s. split; [done|]. exists 0%Z, (h_init sentinel). split; [|by intros x ?%elem_of_nil].
  rewrite dom_empty_L, union_empty_r_L in Hd. cbn in Hd', Hn.
  pose proof (f_equal events E) as E1. pose proof (f_equal paused_events E) as E2.
  pose proof (f_equal scheduled_faults E) as E3. cbn in E1, E2, E3. clear E.
  split; rewrite ?E1, ?E2, ?E3; cbn; [lia| |by intros e ?%elem_of_nil| |by intros f ?%elem_of_nil].
  - apply fresh_fits; [done| |split].
    + unfold comparable. cbn. by rewrite bool_decide_true.
    + rewrite Hd', Hd. done.
    + intros i n' (n & Hi & Hc & Hms & _)%Hn. pose proof (Hm i n Hi) as Hmade.
      eexists _, _, n. split_and!; [| |exact Hmade|done|done].
      * apply NoDup_filter, NoDup_fmap_2; [|done]. by intros x y [= ->].
      * intros p. rewrite list_elem_of_filter. unfold members. rewrite elem_of_list_to_set.
        destruct p, i. cbn. naive_solver.
  - intros id l e. rewrite lookup_empty. done.
Qed.

Lemma members_cost ids : NoDup ids → step_cost (members ids) = Z.of_nat (length ids).
Proof using Type. intros Hnd. unfold step_cost. by rewrite members_size. Qed.

Context `{!KvPure D}.

(** C17: Whatever a test does with the simulator, faults, schedules, time and
    deliveries in any order, [check_invariants] finds no violation, if none of
    the commands that are submitted has a float that is not a number for its
    value: that one differs from itself in the comparison of the check. *)
Theorem simulator_stays_safe started ids ops s s' :
  NoDup ids → Forall op_ok ops →
  (ops_cost (Z.of_nat (length ids)) ops ≤ u64_max)%Z →
  new_cluster opened created started ids = Ok s →
  for_each ops sim_op s = (Ok (), s') → check_invariants s' = inl ().
Proof using KvPure0.
  intros Hnd Hops Hc Hs E. destruct (new_cluster_ok started ids Hnd) as (s0 & Hs0 & Hi).
  rewrite Hs in Hs0. injection Hs0 as <-. rewrite <-members_cost in Hc by done.
  pose proof (sim_ops_spends (members ids) db0 ops Hops 0%Z [] s Hc Hi) as Hw.
  unfold wp in Hw. rewrite E in Hw. by eapply check_invariants_ok.
Qed.


End new_cluster.

(** ** An example *)

Module Example.

#[local] Existing Instances number_bincode journal journal_pure bits_text fixed_millis.
#[local] Instance no_debug : DebugPayload := λ _, [].

Abbreviation opened := (λ _ : NodeId, Ok ([] : list Command)).

Definition three_nodes : res (Simulation (list Command)) :=
  new_cluster opened (λ _, 0%Z) 0 [1%Z; 2%Z; 3%Z].

Definition busy : list SimOp :=
  [DoFault (TriggerElection (MkNodeId 1)); DoRunUntilIdle;
   DoFault (SubmitCommand (MkNodeId 1) (Set_ (lit "k") (Int 7))); DoSteps 3;
   DoSchedule 20 (TriggerElection (MkNodeId 2)); DoFault (CrashNode (MkNodeId 1));
   DoAdvance 30; DoRunUntilIdle; DoFault (RestartNode (MkNodeId 1)); DoAdvance 200; DoDeliver].

(** A value that is not a number. *)
Definition nan : Value := Float 0x7FF8000000000000%Z.

Definition nan_test : list SimOp :=
  [DoFault (TriggerElection (MkNodeId 1)); DoRunUntilIdle;
   DoFault (SubmitCommand (MkNodeId 1) (Set_ (lit "k") nan)); DoRunUntilIdle;
   DoAdvance 110; DoRunUntilIdle].

(** Comparable commands are needed: after one command with a value that is
    not a number, all logs are the same list and yet [check_invariants]
    reports that committed entries differ. *)
Theorem nan_reported_as_violation :
  ∃ s s', three_nodes = Ok s ∧ for_each nan_test sim_op s = (Ok (), s') ∧
    (∃ l, omap (λ x, Some (log x.2)) (in_key_order s') = [l; l; l]) ∧
    check_invariants s' = inr (StateSafetyViolation 1 1 2 [] []).
Proof.
  eexists _, _. split; [vm_compute; reflexivity|]. split; [vm_compute; reflexivity|].
  split; [eexists; vm_compute; reflexivity|by vm_compute].
Qed.

Lemma simulator_stays_safe_witness :
  ∃ s s', three_nodes = Ok s ∧ for_each busy sim_op s = (Ok (), s') ∧
    check_invariants s' = inl ().
Proof.
  eexists _, _. split; [vm_compute; reflexivity|]. split; [vm_compute; reflexivity|].
  eapply (simulator_stays_safe [] (λ _, 0%Z) 0 [1%Z; 2%Z; 3%Z] busy).
  - apply (bool_decide_unpack _). by vm_compute.
  - repeat constructor.
  - by vm_compute.
  - vm_compute; reflexivity.
  - vm_compute; reflexivity.
Defined.


End Example.
