(* ===== verification/RaftSafety.v ===== *)
(** What the real nodes guarantee, over a network that may lose, repeat and
    reorder messages: the safety properties of Raft. *)

From S2P Require Import Prelude Wp Bytes Float LogRecord RaftTypes LogStore RaftNode Protocol.
From S2P Require Import RaftSim Persist Runtime Cluster Journal.

(** ** Running a network by a script *)

Inductive Move : Type :=
  | Deliver (k : nat) (now : Instant)
  | Submit (i : NodeId) (c : Command) (now : Instant)
  | Ask (i : NodeId) (request : ServiceRequest) (now : Instant)
  | Tick (i : NodeId) (now : Instant)
  | Reboot (i : NodeId) (now : Instant).

Section scripts.
Context {D : Type} `{!KvStore D} `{!F64Text} `{!Bincode} `{!RandomMillis}.
Context (allowed : Command → Prop).

Abbreviation Net := (Net (D := D)).

Definition move_turn (c : Net) (i : NodeId) (event : Incoming) (now : Instant) : option Net :=
  n ← net_nodes c !! i;
  if decide (current_term n < u64_max)%Z then
    match turn event now n with
    | (Ok msgs, n') =>
        Some {| net_nodes := <[i := n']> (net_nodes c); wire := msgs ++ wire c |}
    | _ => None
    end
  else None.

Definition move (c : Net) (m : Move) : option Net :=
  match m with
  | Deliver k now => x ← wire c !! k; move_turn c x.1 (InMessage x.2) now
  | Submit i cmd now => move_turn c i (InMessage (MClientCommand cmd)) now
  | Ask i request now => move_turn c i (InService request) now
  | Tick i now => move_turn c i InTick now
  | Reboot i now =>
      n ← net_nodes c !! i;
      match restart now n with
      | (Ok _, n') => Some {| net_nodes := <[i := n']> (net_nodes c); wire := wire c |}
      | _ => None
      end
  end.

Definition script (c : Net) (ms : list Move) : option Net :=
  foldl (λ o m, c ← o; move c m) (Some c) ms.

Definition move_allowed (m : Move) : Prop :=
  match m with
  | Submit _ c _ => allowed c
  | Ask i request _ => incoming_ok allowed i [] (InService request)
  | _ => True
  end.

Lemma move_turn_ok c i event now c' :
  incoming_ok allowed i (wire c) event → move_turn c i event now = Some c' →
  net_step allowed c c'.
Proof using Type.
  intros Hin. unfold move_turn. destruct (net_nodes c !! i) as [n|] eqn:Hn; [|done]. cbn.
  case_decide; [|done]. destruct (turn event now n) as [[msgs|e|p] n'] eqn:E; [|done..].
  intros [= <-]. by eapply net_turn.
Qed.

Lemma move_ok c m c' : move_allowed m → move c m = Some c' → net_step allowed c c'.
Proof using Type.
  intros Hm. destruct m as [k now|i cmd now|i r now|i now|i now]; cbn.
  - destruct (wire c !! k) as [[i m]|] eqn:Hk; [|done]. cbn. apply move_turn_ok.
    left. by eapply list_elem_of_lookup_2.
  - apply move_turn_ok. right. by left.
  - by apply move_turn_ok.
  - by apply move_turn_ok.
  - destruct (net_nodes c !! i) as [n|] eqn:Hn; [|done]. cbn.
    destruct (restart now n) as [[[]|e|p] n'] eqn:E; [|done..]. intros [= <-].
    by eapply net_restart.
Qed.

Lemma script_ok ms c c' :
  Forall move_allowed ms → script c ms = Some c' → rtc (net_step allowed) c c'.
Proof using Type.
  intros Hms. revert c. unfold script. induction Hms as [|m ms Hm _ IH]; intros c; cbn.
  { by intros [= ->]. }
  destruct (move c m) as [c1|] eqn:E.
  - intros Hs. eapply rtc_l; [by eapply move_ok|by apply IH].
  - clear. induction ms; done.
Qed.

(** A cluster of just made nodes. *)
Definition first_node (db0 : D) (ids : list NodeId) (i : NodeId) : res (RaftNode D) :=
  new_in_dir [] [] (Ok db0) i (filter (λ j, j ≠ i) ids) 0.

Definition boot (db0 : D) (ids : list NodeId) : gmap NodeId (RaftNode D) :=
  list_to_map (omap (λ i, match first_node db0 ids i with
                          | Ok n => Some (i, n) | _ => None end) ids).

Lemma boot_fresh db0 ids :
  NoDup ids → fresh (list_to_set ids) db0 (boot db0 ids).
Proof using Type.
  intros Hnd.
  assert (Hb : ∀ i, ∃ n, first_node db0 ids i = Ok n) by (intros i; eexists; reflexivity).
  split.
  - unfold boot. generalize (Hb) as Hb'. generalize (first_node db0 ids) as f. clear.
    intros f Hf. induction ids as [|i ids IH]; cbn; [by rewrite dom_empty_L|].
    destruct (Hf i) as (n & ->). cbn. by rewrite dom_insert_L, IH.
  - intros i n Hi. apply elem_of_list_to_map_2, list_elem_of_omap in Hi as (j & Hj & E).
    destruct (first_node db0 ids j) as [m|e|p] eqn:Hm; [|done..]. injection E as -> ->.
    eexists _, 0%Z, n. split_and!; [| |exact Hm|done|done].
    + by apply NoDup_filter.
    + intros p. rewrite list_elem_of_filter, elem_of_list_to_set. naive_solver.
Qed.

(** The end of a script that works, or where it started. *)
Definition run_script (ms : list Move) (c : Net) : Net := default c (script c ms).

Lemma boot_reachable db0 ids :
  NoDup ids →
  net_reachable (list_to_set ids) db0 allowed {| net_nodes := boot db0 ids; wire := [] |}.
Proof using Type. intros Hnd. exists (boot db0 ids). split; [by apply boot_fresh|done]. Qed.

Lemma run_script_reachable cluster db0 ms c :
  Forall move_allowed ms → net_reachable cluster db0 allowed c →
  net_reachable cluster db0 allowed (run_script ms c).
Proof using Type.
  intros Hms (nodes & Hn & Hs). exists nodes. split; [done|]. etrans; [exact Hs|].
  unfold run_script. destruct (script c ms) as [c'|] eqn:E; [by eapply script_ok|done].
Qed.

End scripts.

(** ** Safety *)

Section safety.
Context {D : Type} `{!KvStore D} `{!F64Text} `{!Bincode} `{!RandomMillis} `{!KvPure D}.
Context (cluster : gset NodeId) (db0 : D) (allowed : Command → Prop).

Abbreviation net_reachable := (net_reachable cluster db0 allowed).

(** The command of the sentinel entry that starts every log. *)
Hypothesis (Hal : allowed (Set_ [] (String []))).

Lemma in_order c : net_reachable c → net_inv cluster db0 allowed c.
Proof using KvPure0 Hal. by apply net_reachable_inv. Qed.

(** C3: There are never two leaders in one term. *)
Theorem raft_election_safety c i j a b :
  net_reachable c →
  net_nodes c !! i = Some a → net_nodes c !! j = Some b →
  role a = Leader → role b = Leader → current_term a = current_term b → i = j.
Proof using All.
  intros (h & Hf & _)%in_order. by eapply fits_election_safe.
Qed.

(** C15: If two logs have an entry with the same index and term, they agree on
    all the entries up to there. *)
Theorem raft_log_matching c i j a b k x y :
  net_reachable c →
  net_nodes c !! i = Some a → net_nodes c !! j = Some b →
  log a !! k = Some x → log b !! k = Some y → term x = term y →
  take (S k) (log a) = take (S k) (log b).
Proof using All.
  intros (h & Hf & _)%in_order. by eapply fits_logs_match.
Qed.

(** C4: Every entry that some node has committed is in the log of every leader
    of that term or a later one. *)
Theorem raft_leader_completeness c i j a b k :
  net_reachable c →
  net_nodes c !! i = Some a → net_nodes c !! j = Some b →
  role b = Leader → (current_term a ≤ current_term b)%Z → k ≤ commit_index a →
  log b !! k = log a !! k.
Proof using All.
  intros (h & Hf & _)%in_order. intros. eapply fits_leader_complete; eauto.
Qed.

(** C1: Two nodes that have committed or applied an index have the same entry
    there. *)
Theorem raft_state_machine_safety c i j a b k :
  net_reachable c →
  net_nodes c !! i = Some a → net_nodes c !! j = Some b →
  k ≤ commit_index a ∨ k ≤ last_applied a → k ≤ commit_index b ∨ k ≤ last_applied b →
  ∃ e, log a !! k = Some e ∧ log b !! k = Some e.
Proof using All.
  intros (h & Hf & _)%in_order. by eapply fits_committed_agree.
Qed.

(** The database of a node that has applied more is the database of the
    other node with the rest of the applied entries on top; nodes that have
    applied as much have the same database. *)
Theorem raft_databases_agree c i j a b :
  net_reachable c →
  net_nodes c !! i = Some a → net_nodes c !! j = Some b →
  last_applied a ≤ last_applied b →
  db b = replay (db a)
    (take (last_applied b - last_applied a) (drop (S (last_applied a)) (log b))).
Proof using All.
  intros (h & Hf & _)%in_order. by eapply fits_databases_agree.
Qed.

(** C5: The handlers implement the abstract protocol: the states of the nodes
    are those of a reachable state of the protocol, every message on the wire
    was sent in it, and whatever a turn of a node does is a sequence of
    protocol steps of that node. *)
Theorem raft_refines_protocol c :
  net_reachable c →
  ∃ f h, Protocol.reachable sentinel cluster f h ∧
    (∀ i n, net_nodes c !! i = Some n → f i = view n) ∧
    (∀ x, x ∈ wire c → x ∈ sent h) ∧
    ∀ i n event now msgs n', net_nodes c !! i = Some n →
      incoming_ok allowed i (wire c) event → (current_term n < u64_max)%Z →
      turn event now n = (Ok msgs, n') →
      ∃ h', rtc (pmove cluster i) (view n, h) (view n', h') ∧ (∀ x, x ∈ msgs → x ∈ sent h').
Proof using All.
  intros (h & Hf & Hw)%in_order.
  destruct (fits_protocol _ _ _ _ _ _ Hf) as (f & Hr & Hfv).
  exists f, h. split_and!; [done..|]. intros i n event now msgs n' Hn Hin Ht E.
  pose proof (turn_ok cluster db0 allowed u64_max i n h event now (wire c)
    (fits_in _ _ _ Hf i n Hn) (fits_node _ _ _ _ _ _ Hf i n Hn) Hin Hw
    (conj Ht (Z.le_refl _))) as Hturn.
  unfold Wp.wp in Hturn. rewrite E in Hturn. destruct Hturn as (h' & Hs & _ & Hm). by exists h'.
Qed.

(** C25: The states of the nodes are well formed: the log starts with the
    sentinel, every index a node keeps lies within its log, its terms never
    exceed its own, a leader knows where each peer is, and the peers are the
    other members. *)
Theorem node_well_formed c i n :
  net_reachable c → net_nodes c !! i = Some n →
  log n !! 0 = Some sentinel ∧
  commit_index n < length (log n) ∧ last_applied n < length (log n) ∧
  (0 ≤ current_term n ≤ u64_max)%Z ∧ (∀ e, e ∈ log n → (term e ≤ current_term n)%Z) ∧
  id n = i ∧ NoDup (peers n) ∧ (∀ p, p ∈ peers n ↔ p ∈ cluster ∧ p ≠ i) ∧
  (role n = Leader → ∀ p, p ∈ peers n →
     ∃ ni, next_index n !! p = Some ni ∧ 1 ≤ ni ≤ length (log n)).
Proof using All.
  intros (h & Hf & _)%in_order Hn.
  pose proof (fits_node _ _ _ _ _ _ Hf i n Hn) as Hok. pose proof (fits_in _ _ _ Hf i n Hn) as Hi.
  destruct (ok_commit _ _ Hi _ _ _ _ _ Hok) as [Hci Hla].
  destruct (ok_inv _ _ Hi _ _ _ _ _ Hok) as (f & _ & _ & Hni).
  split; [by apply (ni_sentinel _ _ _ _ _ Hni)|]. split; [done|]. split; [done|].
  split; [split; [apply (ni_term _ _ _ _ _ Hni)|apply Hok]|].
  split; [apply (ni_terms _ _ _ _ _ Hni)|].
  destruct Hok. split_and!; try done. intros Hr p Hp. by apply ok_next.
Qed.

(** A turn ends normally, or with the panic of its database on commands of its
    log. *)
Lemma turn_ends c i n event now :
  net_reachable c →
  net_nodes c !! i = Some n → incoming_ok allowed i (wire c) event →
  (current_term n < u64_max)%Z →
  (∃ msgs, (turn event now n).1 = Ok msgs) ∨ store_panics db0 allowed (turn event now n).2.
Proof using All.
  intros (h & Hf & Hw)%in_order Hn Hin Ht.
  pose proof (turn_ok cluster db0 allowed u64_max i n h event now (wire c)
    (fits_in _ _ _ Hf i n Hn) (fits_node _ _ _ _ _ _ Hf i n Hn) Hin Hw
    (conj Ht (Z.le_refl _))) as Hturn.
  unfold Wp.wp in Hturn. destruct (turn event now n) as [[msgs|e|p] n']; [by eauto|done|by right].
Qed.

End safety.

(** ** Crashes *)

Section crash.
Context {D : Type} `{!KvStore D} `{!F64Text} `{HB : Bincode} `{!RandomMillis}.
Context (cluster : gset NodeId) (db0 : D) (allowed : Command → Prop).

Lemma fresh_saved nodes i n : fresh cluster db0 nodes → nodes !! i = Some n → saved n.
Proof using Type.
  intros [_ Hf] (ps & now & m & _ & _ & Hm & Hc & Hs)%Hf. unfold saved. rewrite Hs.
  unfold new_in_dir in Hm. cbn in Hm. unfold reset_election_timeout in Hm. cbn in Hm.
  injection Hm as <-. cbn. right. split; [done|]. unfold core, view in Hc. cbn in Hc.
  by injection Hc.
Qed.

Lemma net_saved c i n :
  net_reachable cluster db0 allowed c → net_nodes c !! i = Some n → saved n.
Proof using Type.
  intros (nodes & Hf & Hs).
  assert (∀ j m, net_nodes {| net_nodes := nodes; wire := [] |} !! j = Some m → saved m) as Hn.
  { intros j m. by apply fresh_saved. }
  revert i n. induction Hs as [x|x y z Hxy _ IH]; [exact Hn|]. apply IH. clear IH.
  destruct Hxy as [i n event now msgs n' Hi _ _ E|i n now n' Hi E];
    cbn [net_nodes]; intros j m [[<- <-]|[_ Hj]]%lookup_insert_Some; try by eapply Hn.
  - eapply turn_saves; [exact E|by eapply Hn].
  - eapply still_saves; [apply restart_still|exact E|by eapply Hn].
Qed.

(** What the metadata file holds. *)
Lemma saved_meta (n : RaftNode D) f :
  saved n → meta_store n = Some f →
  in_u64 (current_term n) → (Z.of_nat (commit_index n) ≤ u64_max)%Z →
  (∀ v, voted_for n = Some v → in_u64 (node_id v) ∧ node_id v ≠ 0%Z) →
  snd (meta_open (contents f)) =
    {| ms_commit_index := commit_index n; ms_current_term := current_term n;
       ms_voted_for := node_id <$> voted_for n |}.
Proof using Type.
  intros Hs Hf Ht Hc Hv. unfold saved in Hs. rewrite Hf in Hs.
  destruct Hs as [(f0 & Hs)|(-> & -> & -> & ->)]; [|done]. destruct f0 as [c0 p0].
  destruct (meta_save_open c0 p0 (commit_index n) (current_term n) (node_id <$> voted_for n))
    as (f' & E & Hf'); [done..| |].
  - destruct (voted_for n) as [v|]; [by apply Hv|done].
  - rewrite E in Hs. injection Hs as <-. rewrite Hf'. f_equal.
    destruct (voted_for n) as [v|]; [|done]. apply decide_False.
    intros [= Hv0]. by apply (Hv v).
Qed.

(** What a node takes from its files. *)
Lemma new_in_dir_files log_file meta_file d i ps now (m : RaftNode D) :
  new_in_dir log_file meta_file (Ok d) i ps now = Ok m →
  let meta := snd (meta_open meta_file) in
  current_term m = ms_current_term meta ∧ voted_for m = MkNodeId <$> ms_voted_for meta ∧
  commit_index m = ms_commit_index meta `min` (length (log m) - 1) ∧
  last_applied m = commit_index m ∧
  ∀ s e es, log_store_open log_file = Ok (s, e :: es) → log m = e :: es.
Proof using Type.
  unfold new_in_dir. destruct (log_store_open log_file) as [[store es]|e|p];
    destruct (meta_open meta_file) as [mf meta]; cbn;
    match goal with |- context [reset_election_timeout now ?n0] =>
      destruct (reset_election_timeout_harmless now n0) as (u & n' & -> & Hs) end;
    intros [= <-]; apply same_view in Hs; unfold view in Hs; cbn in Hs;
    injection Hs as E1 E2 E3 E4 E5 E6 E7 E8; rewrite E1, E2, E3, E7, E8; split_and!; try done.
  by intros s e es' [= -> ->].
Qed.

(** C18: The term and the vote of a node survive a crash: whatever happened in
    the cluster before, a node that is started again from its metadata file
    is in the same term and has given the same vote. *)
Theorem vote_survives_crash c i (n : RaftNode D) f log_file d ps now (m : RaftNode D) :
  net_reachable cluster db0 allowed c → net_nodes c !! i = Some n → meta_store n = Some f →
  in_u64 (current_term n) → (Z.of_nat (commit_index n) ≤ u64_max)%Z →
  (∀ v, voted_for n = Some v → in_u64 (node_id v) ∧ node_id v ≠ 0%Z) →
  new_in_dir log_file (contents f) (Ok d) i ps now = Ok m →
  current_term m = current_term n ∧ voted_for m = voted_for n.
Proof using Type.
  intros Hr Hi Hf Ht Hc Hv (-> & -> & _)%new_in_dir_files.
  rewrite (saved_meta n f) by (done || by eapply net_saved). cbn. split; [done|].
  by destruct (voted_for n) as [[v]|].
Qed.

(** C37: The log does not survive a crash as it was: the sentinel entry is never
    written to the file of the log, so a node that is started again from its
    files, which hold all its entries, has every entry one index earlier, and
    its commit index is cut to the shorter log. *)
Theorem restart_shifts_log `{!BincodeLaws HB} c i (n : RaftNode D) f s es d ps now
    (m : RaftNode D) :
  net_reachable cluster db0 allowed c → net_nodes c !! i = Some n → meta_store n = Some f →
  in_u64 (current_term n) → (Z.of_nat (commit_index n) ≤ u64_max)%Z →
  (∀ v, voted_for n = Some v → in_u64 (node_id v) ∧ node_id v ≠ 0%Z) →
  log_store n = Some s → store_ok s es → log n = sentinel :: es → es ≠ [] →
  new_in_dir (contents (ls_file s)) (contents f) (Ok d) i ps now = Ok m →
  (∀ k, log m !! k = log n !! S k) ∧
  commit_index m = commit_index n `min` (length es - 1) ∧ last_applied m = commit_index m.
Proof using Type.
  intros Hr Hi Hf Ht Hc Hv Hs [-> Hes] Hlog Hne (_ & _ & -> & -> & Hopen)%new_in_dir_files.
  rewrite (saved_meta n f) by (done || by eapply net_saved).
  destruct (log_store_open_ok es Hes) as (s & E & _). cbn [ls_file contents] in Hopen.
  destruct es as [|e es]; [done|]. rewrite (Hopen _ _ _ E), Hlog. done.
Qed.

(** C38: A conflicting entry that a follower removes from its log stays in the file
    of the log: [truncate_log] cuts the file at the index of the log, but the
    file, which has no sentinel entry, holds every entry one place earlier; so a
    node that is started again from the file has the entry that was removed. *)
Theorem removed_entry_stays_in_file `{!BincodeLaws HB} (n : RaftNode D) s es from :
  log_store n = Some s → store_ok s es → log n = sentinel :: es →
  0 < from < length (log n) →
  ∃ n' s', truncate_log from n = (Ok (), n') ∧ log n' = take from (log n) ∧
    log_store n' = Some s' ∧
    ∀ meta_file (d : D) i ps now (m : RaftNode D),
      new_in_dir (contents (ls_file s')) meta_file (Ok d) i ps now = Ok m →
      log m = take from es ∧ log m !! (from - 1) = log n !! from ∧
      length (log m) = length (log n').
Proof using Type.
  intros Hs Hok Hlog Hfrom. destruct (log_store_truncate_ok from s es Hok) as (s' & E & [-> Hes]).
  do 2 eexists. unfold truncate_log. split.
  { erewrite bind_Ok; [unfold modify; reflexivity|].
    unfold with_store. by rewrite Hs, E. }
  cbn. split; [done|]. split; [done|]. cbn [ls_file contents].
  intros meta_file d i ps now m (_ & _ & _ & _ & Hopen)%new_in_dir_files.
  destruct (log_store_open_ok _ Hes) as (s1 & Eo & _).
  rewrite Hlog in Hfrom |- *. cbn [length] in Hfrom.
  assert (log m = take from es) as ->.
  { destruct es as [|e es]; [cbn in Hfrom; lia|]. destruct from as [|from]; [lia|].
    by apply (Hopen _ _ _ Eo). }
  split; [done|]. destruct from as [|from]; [lia|]. cbn. rewrite Nat.sub_0_r.
  rewrite lookup_take_lt by lia. split; [done|]. rewrite !length_take. cbn [length]. lia.
Qed.

End crash.

(** ** An example

    Three nodes, whose databases are the lists of the commands they were given.
    Node 1 is elected and commits a command with node 2; then node 2 is elected
    by node 3, while node 1 still takes itself for the leader. *)
Module Example.

#[local] Existing Instances number_bincode journal journal_pure bits_text fixed_millis.

Definition n1 : NodeId := MkNodeId 1.
Definition n2 : NodeId := MkNodeId 2.
Definition n3 : NodeId := MkNodeId 3.
Definition three : list NodeId := [n1; n2; n3].
Definition put (v : Z) : Command := Set_ (lit "k") (Int v).

Definition moves : list Move :=
  [Tick n1 200; Deliver 0 201; Deliver 0 202; Submit n1 (put 7) 203; Deliver 0 204; Deliver 0 205;
   Tick n1 400; Deliver 0 401; Tick n2 1000; Deliver 1 1001; Deliver 0 1002].

Definition before : Net (D := list Command) :=
  {| net_nodes := boot [] three; wire := [] |}.
Definition after : Net (D := list Command) := run_script moves before.

Definition group : gset NodeId := list_to_set three.
Definition any_command (c : Command) : Prop := True.

Lemma after_reachable : net_reachable group [] any_command after.
Proof.
  apply run_script_reachable; [repeat constructor|]. apply boot_reachable.
  apply (bool_decide_unpack _). by vm_compute.
Qed.

Lemma raft_election_safety_witness :
  ∃ a b, net_nodes after !! n2 = Some a ∧ net_nodes after !! n2 = Some b ∧
    role a = Leader ∧ role b = Leader ∧ n2 = n2.
Proof.
  eexists _, _. split; [vm_compute; reflexivity|]. split; [vm_compute; reflexivity|].
  split; [reflexivity|]. split; [reflexivity|].
  eapply (raft_election_safety group [] any_command I after n2 n2 _ _ after_reachable);
    vm_compute; reflexivity.
Defined.

Lemma raft_log_matching_witness :
  ∃ a b, net_nodes after !! n1 = Some a ∧ net_nodes after !! n2 = Some b ∧
    length (log a) = 2 ∧ take 2 (log a) = take 2 (log b).
Proof.
  eexists _, _. split; [vm_compute; reflexivity|]. split; [vm_compute; reflexivity|].
  split; [reflexivity|].
  eapply (raft_log_matching group [] any_command I after n1 n2 _ _ 1 _ _ after_reachable);
    vm_compute; reflexivity.
Defined.

Lemma raft_leader_completeness_witness :
  ∃ a b, net_nodes after !! n1 = Some a ∧ net_nodes after !! n2 = Some b ∧
    commit_index a = 1 ∧ role b = Leader ∧ (current_term a < current_term b)%Z ∧
    log b !! 1 = log a !! 1.
Proof.
  eexists _, _. split; [vm_compute; reflexivity|]. split; [vm_compute; reflexivity|].
  split; [reflexivity|]. split; [reflexivity|]. split; [reflexivity|].
  eapply (raft_leader_completeness group [] any_command I after n1 n2 _ _ _ after_reachable);
    [vm_compute; reflexivity..| |]; vm_compute; [discriminate|lia].
Defined.

Lemma raft_state_machine_safety_witness :
  ∃ a b, net_nodes after !! n1 = Some a ∧ net_nodes after !! n2 = Some b ∧
    ∃ e, log a !! 1 = Some e ∧ log b !! 1 = Some e.
Proof.
  eexists _, _. split; [vm_compute; reflexivity|]. split; [vm_compute; reflexivity|].
  eapply (raft_state_machine_safety group [] any_command I after n1 n2 _ _ _ after_reachable);
    [vm_compute; reflexivity..|left; vm_compute; lia|left; vm_compute; lia].
Defined.

Lemma raft_databases_agree_witness :
  ∃ a b, net_nodes after !! n3 = Some a ∧ net_nodes after !! n1 = Some b ∧
    db a = [] ∧ db b = [put 7] ∧
    db b = replay (db a)
      (take (last_applied b - last_applied a) (drop (S (last_applied a)) (log b))).
Proof.
  eexists _, _. split; [vm_compute; reflexivity|]. split; [vm_compute; reflexivity|].
  split; [reflexivity|]. split; [reflexivity|].
  eapply (raft_databases_agree group [] any_command I after n3 n1 _ _ after_reachable);
    [vm_compute; reflexivity..|vm_compute; lia].
Defined.

Lemma raft_refines_protocol_witness :
  ∃ f h, Protocol.reachable sentinel group f h ∧
    (∀ i n, net_nodes after !! i = Some n → f i = view n) ∧
    (∀ x, x ∈ wire after → x ∈ sent h) ∧
    ∀ i n event now msgs n', net_nodes after !! i = Some n →
      incoming_ok any_command i (wire after) event → (current_term n < u64_max)%Z →
      turn event now n = (Ok msgs, n') →
      ∃ h', rtc (pmove group i) (view n, h) (view n', h') ∧ (∀ x, x ∈ msgs → x ∈ sent h').
Proof. apply (raft_refines_protocol group [] any_command I after after_reachable). Defined.

Lemma node_well_formed_witness :
  ∃ n, net_nodes after !! n2 = Some n ∧ role n = Leader ∧
    log n !! 0 = Some sentinel ∧
    commit_index n < length (log n) ∧ last_applied n < length (log n) ∧
    (0 ≤ current_term n ≤ u64_max)%Z ∧ (∀ e, e ∈ log n → (term e ≤ current_term n)%Z) ∧
    id n = n2 ∧ NoDup (peers n) ∧ (∀ p, p ∈ peers n ↔ p ∈ group ∧ p ≠ n2) ∧
    (role n = Leader → ∀ p, p ∈ peers n →
       ∃ ni, next_index n !! p = Some ni ∧ 1 ≤ ni ≤ length (log n)).
Proof.
  eexists. split; [vm_compute; reflexivity|]. split; [reflexivity|].
  eapply (node_well_formed group [] any_command I after n2 _ after_reachable).
  vm_compute; reflexivity.
Defined.

Lemma vote_survives_crash_witness :
  ∃ n f m, net_nodes after !! n3 = Some n ∧ meta_store n = Some f ∧
    voted_for n = Some n2 ∧
    new_in_dir [] (contents f) (Ok ([] : list Command)) n3 [n1; n2] 5000 = Ok m ∧
    current_term m = current_term n ∧ voted_for m = voted_for n.
Proof.
  eexists _, _, _. split; [vm_compute; reflexivity|]. split; [reflexivity|].
  split; [reflexivity|]. split; [vm_compute; reflexivity|].
  eapply (vote_survives_crash group [] any_command after n3 _ _ [] [] [n1; n2] 5000 _
    after_reachable).
  - vm_compute; reflexivity.
  - reflexivity.
  - vm_compute. split; [discriminate|reflexivity].
  - vm_compute. discriminate.
  - intros v [= <-]. vm_compute. split; [split; [discriminate|reflexivity]|discriminate].
  - vm_compute; reflexivity.
Defined.

(** Node 1 has committed the command at index 1. *)
Lemma restart_shifts_log_witness :
  ∃ n s f es m, net_nodes after !! n1 = Some n ∧ log_store n = Some s ∧
    meta_store n = Some f ∧ log n = sentinel :: es ∧ length es = 1 ∧ commit_index n = 1 ∧
    new_in_dir (contents (ls_file s)) (contents f) (Ok (db n)) n1 [n2; n3] 5000 = Ok m ∧
    (∀ k, log m !! k = log n !! S k) ∧
    commit_index m = commit_index n `min` (length es - 1) ∧ last_applied m = commit_index m.
Proof.
  eexists _, _, _, _, _. split; [vm_compute; reflexivity|]. split; [reflexivity|].
  split; [reflexivity|]. split; [reflexivity|]. split; [reflexivity|]. split; [reflexivity|].
  split; [vm_compute; reflexivity|].
  eapply (restart_shifts_log (BincodeLaws0 := number_bincode_laws) group [] any_command after n1
    _ _ _ _ _ [n2; n3] 5000 _ after_reachable).
  - vm_compute; reflexivity.
  - reflexivity.
  - vm_compute. split; [discriminate|reflexivity].
  - vm_compute. discriminate.
  - intros v [= <-]. vm_compute. split; [split; [discriminate|reflexivity]|discriminate].
  - reflexivity.
  - split; [vm_compute; reflexivity|]. by repeat constructor.
  - reflexivity.
  - discriminate.
  - vm_compute; reflexivity.
Defined.

Lemma removed_entry_stays_in_file_witness :
  ∃ n s es, net_nodes after !! n1 = Some n ∧ log_store n = Some s ∧ log n = sentinel :: es ∧
  ∃ n' s', truncate_log 1 n = (Ok (), n') ∧ log n' = take 1 (log n) ∧
    log_store n' = Some s' ∧
    ∀ meta_file (d : list Command) i ps now (m : RaftNode (list Command)),
      new_in_dir (contents (ls_file s')) meta_file (Ok d) i ps now = Ok m →
      log m = take 1 es ∧ log m !! (1 - 1) = log n !! 1 ∧ length (log m) = length (log n').
Proof.
  eexists _, _, _. split; [vm_compute; reflexivity|]. split; [reflexivity|].
  split; [reflexivity|].
  eapply (removed_entry_stays_in_file (BincodeLaws0 := number_bincode_laws)).
  - reflexivity.
  - split; [vm_compute; reflexivity|]. by repeat constructor.
  - reflexivity.
  - cbn. lia.
Defined.

End Example.
