(* ===== verification/ReplicatedStore.v ===== *)
(** The nodes of [RaftNode.v] on the database of [Database.v]: the replicated
    key-value store as a whole. *)

From S2P Require Import Prelude Wp Bytes Float LogRecord Bloom SSTable Database DatabaseSpec.
From S2P Require Import DatabaseRefine RaftTypes LogStore RaftNode Protocol RaftSim Journal.
From S2P Require Import Runtime Cluster RaftSafety.

(** ** Reading changes nothing *)

Definition reads {S A} (m : M S A) : Prop := ∀ s, (m s).2 = s.

Lemma reads_bind {S A B} (m : M S A) (f : A → M S B) :
  reads m → (∀ a, reads (f a)) → reads (m ≫= f).
Proof.
  intros Hm Hf s. rewrite bind_eq. specialize (Hm s). destruct (m s) as [[a|e|p] s1]; cbn in *;
    [rewrite Hf|..]; done.
Qed.

Lemma reads_zoom {S T} (p : S → T) `{!Upd p} {A} (m : M T A) :
  reads m → (∀ s, s <| p := p s |> = s) → reads (zoom p m).
Proof.
  intros Hm Hp s. unfold zoom. specialize (Hm (p s)). destruct (m (p s)) as [r t]. cbn in *.
  by rewrite Hm.
Qed.

Lemma reads_lift {S A} (r : res A) : reads (S := S) (lift r).
Proof. done. Qed.

Section store.
Context `{HT : F64Text} `{HM : F64Math} `{HX : Xxh3}.

(** The database is what a node needs. *)
#[export] Instance database_store : KvStore Database := {|
  kv_insert := insert;
  kv_delete := Database.delete;
  kv_get := Database.get;
|}.

Lemma search_reads tables key : reads (search tables key).
Proof using Type.
  induction tables as [|t tables IH]; [done|]. apply reads_bind; [|by intros [e|]].
  apply reads_bind; [done|]. intros b. destruct (negb b); [done|].
  apply reads_bind; [done|]. intros [offset|]; [|done].
  apply reads_bind; [by apply reads_bind|]. intros f.
  apply reads_bind; [done|]. by intros [[[k e]|] ?].
Qed.

#[export] Instance database_pure : KvPure Database.
Proof using Type.
  intros key. apply (reads_bind Prelude.get); [done|]. intros d.
  destruct (data d !! key); [done|]. apply reads_bind; [|done].
  apply reads_zoom; [apply search_reads|by intros []].
Qed.

(** ** What the nodes have applied *)

Definition entry_command (e : LogEntry) : option Command :=
  match payload e with PCommand r => Some (command r) | _ => None end.

Definition applied_commands (n : RaftNode Database) : list Command :=
  omap entry_command (take (last_applied n) (drop 1 (log n))).

Lemma replay_run es (d d' : Database) :
  run_commands (omap entry_command es) d = (Ok (), d') → replay d es = d'.
Proof using Type.
  revert d. induction es as [|e es IH]; intros d; [by intros [= ->]|].
  cbn [replay foldl]. change (omap entry_command (e :: es))
    with (match entry_command e with
          | Some c => c :: omap entry_command es | None => omap entry_command es end).
  unfold apply_entry at 2, entry_command at 1. destruct (payload e) as [r| |]; [|apply IH..].
  unfold run_commands. cbn [for_each]. rewrite bind_eq. unfold write at 1.
  destruct (command r) as [k v|k]; cbn;
    [destruct (insert k v d) as [[[]|?|?] d1]|destruct (Database.delete k d) as [[[]|?|?] d1]];
    intros E; try done; by apply IH.
Qed.

(** A read that the database answers. *)
Lemma get_request_ok `{!Bincode} `{!RandomMillis} (n : RaftNode Database) key tx now v :
  Database.get key (db n) = (Ok v, db n) →
  ∃ r, handle_store_request {| operation := OpGet key; responder := Oneshot tx |} now n =
      (Ok (), n <| replies := replies n ++ [(tx, r)] |>) ∧ sr_success r = true ∧ sr_value r = v.
Proof using Type.
  intros Hget. destruct n. cbn in *. unfold handle_store_request. cbn [operation responder].
  rewrite bind_eq. unfold attempt, zoom. cbn. rewrite Hget. cbn. eexists. by split.
Qed.

End store.

Section replicated.
Context `{HT : F64Text} `{HM : F64Math} `{HX : Xxh3}
  `{!F64TextLaws HT} `{!F64MathLaws HM} `{!BloomDims} `{!Bincode} `{!RandomMillis}.
Context (cluster : gset NodeId) (db0 : Database).

(* every node has opened its database in an empty directory *)
Context (cfg : Config) (fs : FS).
Hypothesis (Hopen : open_in_dir cfg ∅ = (Ok db0, fs)).
Hypothesis (Hlevels : cfg_sstable_level cfg ≠ 0).

Context (c : Net (D := Database)) (Hc : net_reachable cluster db0 command_ok c).

Lemma sentinel_ok : command_ok (Set_ [] (String [])).
Proof using Type. by repeat split. Qed.

(** What nodes have applied are prefixes of one history. *)
Lemma applied_prefix i j a b :
  net_nodes c !! i = Some a → net_nodes c !! j = Some b → last_applied a ≤ last_applied b →
  applied_commands a `prefix_of` applied_commands b.
Proof using Hc.
  intros Ha Hb Hle. destruct (in_order cluster db0 command_ok sentinel_ok c Hc) as (h & Hf & _).
  unfold applied_commands. rewrite (fits_applied_agree _ _ _ Hf i j a b) by done.
  rewrite <-(take_drop (last_applied a) (take (last_applied b) (drop 1 (log b)))), take_take.
  rewrite Nat.min_l by done. rewrite omap_app. by apply prefix_app_r.
Qed.

(** The database of a node is the result of the commands it has applied. *)
Lemma node_database i n :
  net_nodes c !! i = Some n →
  db n = replay db0 (take (last_applied n) (drop 1 (log n))) ∧
  Forall command_ok (applied_commands n).
Proof using Hc.
  intros Hn. destruct (in_order cluster db0 command_ok sentinel_ok c Hc) as (h & Hf & _).
  pose proof (fits_node _ _ _ _ _ _ Hf i n Hn) as [].
  split; [done|]. apply Forall_forall. intros cmd (e & He & Hcmd)%list_elem_of_omap.
  assert (e ∈ log n) as Hin.
  { apply (subseteq_drop 1), (subseteq_take (last_applied n)). done. }
  rewrite Forall_forall in ok_plain. specialize (ok_plain e Hin). unfold plain, entry_command in *.
  destruct (payload e); [|done..]. by injection Hcmd as <-.
Qed.

(** Reading on a node gives what the last applied command on a key says. *)
Lemma node_reads j b k :
  net_nodes c !! j = Some b →
  (Z.of_nat (commands_weight (applied_commands b)) ≤ 2 ^ 60)%Z →
  (Z.of_nat (length (applied_commands b) * cfg_sstable_level cfg) ≤ u32_max)%Z →
  Database.get k (db b) = (Ok (foldl apply_command ∅ (applied_commands b) !! k), db b).
Proof using All.
  intros Hb HW HN. destruct (node_database j b Hb) as [Edb Hcmds].
  destruct (disk_rel_open cfg ∅ ∅ 0 0 disk_rel_empty Hlevels) as (d0 & E0 & Hd0 & Hl & _).
  rewrite Hopen in E0. injection E0 as -> _.
  destruct (run_commands_ok (applied_commands b) d0 ∅ 0 0 Hd0 Hcmds) as (d & E & Hd & _);
    [lia|rewrite Hl; lia|].
  rewrite Edb, (replay_run _ _ _ E). by eapply db_rel_get.
Qed.

(** The replicas are one key-value map: on every node, reading a key gives
    what the last applied command on it says, and of two nodes, one has
    applied a prefix of the commands that the other one has applied; so two
    nodes that have applied as many answer every read alike. *)
Theorem replicated_map i j a b :
  net_nodes c !! i = Some a → net_nodes c !! j = Some b → last_applied a ≤ last_applied b →
  (Z.of_nat (commands_weight (applied_commands b)) ≤ 2 ^ 60)%Z →
  (Z.of_nat (length (applied_commands b) * cfg_sstable_level cfg) ≤ u32_max)%Z →
  applied_commands a `prefix_of` applied_commands b ∧
  ∀ k, Database.get k (db b) = (Ok (foldl apply_command ∅ (applied_commands b) !! k), db b).
Proof using All.
  intros Ha Hb Hle HW HN. split; [by eapply applied_prefix|]. intros k. by eapply node_reads.
Qed.

(** C36: A read is answered at once by the node that gets it, leader or not, with
    what the commands that this node has applied have left, and changes nothing;
    since they are a prefix of what any node that is further has applied, the
    answer may be older than writes that were acknowledged long ago: reads are
    not linearizable. *)
Theorem reads_are_local i n key tx now :
  net_nodes c !! i = Some n →
  (Z.of_nat (commands_weight (applied_commands n)) ≤ 2 ^ 60)%Z →
  (Z.of_nat (length (applied_commands n) * cfg_sstable_level cfg) ≤ u32_max)%Z →
  (∃ msgs r, turn (InService {| svc_operation := SvcGet key; response_tx := tx |}) now n =
      (Ok msgs, n <| replies := replies n ++ [(tx, r)] |> <| outbox := [] |>) ∧
    sr_success r = true ∧
    sr_value r = foldl apply_command ∅ (applied_commands n) !! key) ∧
  ∀ j b, net_nodes c !! j = Some b → last_applied n ≤ last_applied b →
    applied_commands n `prefix_of` applied_commands b.
Proof using All.
  intros Hn HW HN. split; [|intros j b; by eapply applied_prefix].
  pose proof (node_reads i n key Hn HW HN) as Hget.
  destruct (get_request_ok n key tx now _ Hget) as (r & E & Hr).
  do 2 eexists. split; [|exact Hr]. unfold turn, handle_service_request.
  cbn [svc_operation response_tx]. by erewrite bind_Ok by exact E.
Qed.

(** ** Turns *)

(** The commands of the log of a node. *)
Definition log_commands (n : RaftNode Database) : list Command :=
  omap entry_command (drop 1 (log n)).

(** The database has room for the commands of the log. *)
Definition room_for (n : RaftNode Database) : Prop :=
  (Z.of_nat (commands_weight (log_commands n)) ≤ 2 ^ 60)%Z ∧
  (Z.of_nat (length (log_commands n) * cfg_sstable_level cfg) ≤ u32_max)%Z.

Lemma plain_commands (es : list LogEntry) :
  Forall (plain command_ok) es → Forall command_ok (omap entry_command es).
Proof using Type.
  intros Hes. apply Forall_forall. intros cmd (e & He & Hcmd)%list_elem_of_omap.
  rewrite Forall_forall in Hes. specialize (Hes e He). unfold plain, entry_command in *.
  destruct (payload e); [|done..]. by injection Hcmd as <-.
Qed.

(** The commands of a part of a log that fits are applied without a failure. *)
Lemma replay_room n k :
  room_for n → Forall (plain command_ok) (log n) →
  ∃ d m W N, run_commands (omap entry_command (take k (drop 1 (log n)))) db0 = (Ok (), d) ∧
    db_rel d m W N.
Proof using All.
  intros [HW HN] Hplain.
  destruct (disk_rel_open cfg ∅ ∅ 0 0 disk_rel_empty Hlevels) as (d0 & E0 & Hd0 & Hl & _).
  rewrite Hopen in E0. injection E0 as -> _.
  unfold log_commands in *. rewrite <-(take_drop k (drop 1 (log n))) in HW, HN.
  rewrite omap_app in HW, HN. unfold commands_weight in HW.
  rewrite sum_list_with_app in HW. rewrite length_app in HN.
  destruct (run_commands_ok (omap entry_command (take k (drop 1 (log n)))) d0 ∅ 0 0 Hd0)
    as (d & E & Hd & _); [|unfold commands_weight; lia|rewrite Hl; lia|by do 4 eexists].
  apply plain_commands. by apply Forall_take, Forall_drop.
Qed.

Lemma room_never_panics n : room_for n → ¬ store_panics db0 command_ok n.
Proof using All.
  intros Hroom [Hplain (k & Hp)].
  destruct (replay_room n k Hroom Hplain) as (d & m & W & N & E & Hd).
  rewrite (replay_run _ _ _ E) in Hp. destruct Hp as [(key & msg & d' & Hp)|(e & r & He & Hr & Hw)].
  { cbn in Hp. by rewrite (db_rel_get d m W N key Hd) in Hp. }
  destruct (replay_room n (S k) Hroom Hplain) as (d1 & _ & _ & _ & E1 & _).
  rewrite (take_S_r _ _ _ He), omap_app in E1. unfold run_commands in E, E1.
  rewrite for_each_app, bind_eq, E in E1. cbn [omap list_omap] in E1.
  unfold entry_command in E1 at 1. rewrite Hr in E1. cbn [for_each] in E1. rewrite bind_eq in E1.
  destruct Hw as (msg & d' & Hw). unfold write in E1.
  by destruct (command r); cbn in Hw; rewrite Hw in E1.
Qed.

(** C7: The loop of a running node does not fail: every turn, on a message of the
    network, a request or a tick, in whatever order they come, ends normally,
    until the terms or the room of the database are used up. *)
Theorem turn_total i n event now :
  net_nodes c !! i = Some n → incoming_ok command_ok i (wire c) event →
  (current_term n < u64_max)%Z → room_for (turn event now n).2 →
  ∃ msgs n', turn event now n = (Ok msgs, n').
Proof using All.
  intros Hn Hin Ht Hroom.
  destruct (turn_ends cluster db0 command_ok sentinel_ok c i n event now Hc Hn Hin Ht)
    as [[msgs E]|Hp]; [|by apply room_never_panics in Hp].
  destruct (turn event now n) as [r n']. cbn in E. subst r. by exists msgs, n'.
Qed.

End replicated.

(** ** An example

    The three nodes of the example of [RaftSafety.v], on databases in empty
    directories. *)
Module Example.
Import RaftSafety.Example.

#[local] Existing Instances number_bincode bits_text micro_math fixed_millis.
#[local] Instance test_hash : Xxh3 := from_le.

Definition opened_res : res Database * FS := open_in_dir default_config ∅.

Lemma opened : {x : Database * FS | opened_res = (Ok x.1, x.2)}.
Proof.
  assert (match opened_res with (Ok _, _) => true | _ => false end = true) as E
    by (vm_compute; reflexivity).
  destruct opened_res as [[d|e|p] fs]; [exists (d, fs); reflexivity|discriminate E..].
Defined.

Definition empty_db : Database := (proj1_sig opened).1.

Definition stored : Net (D := Database) :=
  run_script moves {| net_nodes := boot empty_db three; wire := [] |}.

Lemma stored_reachable : net_reachable group empty_db command_ok stored.
Proof.
  apply run_script_reachable; [by repeat constructor|]. apply boot_reachable.
  apply (bool_decide_unpack _). by vm_compute.
Qed.

Lemma replicated_map_witness :
  ∃ a b, net_nodes stored !! n3 = Some a ∧ net_nodes stored !! n1 = Some b ∧
    applied_commands b = [put 7] ∧ applied_commands a `prefix_of` applied_commands b ∧
    ∀ k, Database.get k (db b) = (Ok (foldl apply_command ∅ (applied_commands b) !! k), db b).
Proof.
  eexists _, _. split; [vm_compute; reflexivity|]. split; [vm_compute; reflexivity|].
  split; [vm_compute; reflexivity|].
  eapply (replicated_map (HT := bits_text) (HM := micro_math) (HX := from_le)
    (F64TextLaws0 := bits_text_laws) (F64MathLaws0 := micro_math_laws) (H := micro_dims)
    group empty_db default_config _ (proj2_sig opened) ltac:(done) stored stored_reachable n3 n1);
    [vm_compute; reflexivity|vm_compute; reflexivity|vm_compute; lia|by vm_compute|by vm_compute].
Defined.

Lemma turn_total_witness :
  ∃ n, net_nodes stored !! n1 = Some n ∧
    ∃ msgs n', turn (InMessage (MClientCommand (put 8))) 2000 n = (Ok msgs, n').
Proof.
  eexists. split; [vm_compute; reflexivity|].
  eapply (turn_total (HT := bits_text) (HM := micro_math) (HX := from_le)
    (F64TextLaws0 := bits_text_laws) (F64MathLaws0 := micro_math_laws) (H := micro_dims)
    group empty_db default_config _ (proj2_sig opened) ltac:(done) stored stored_reachable n1);
    [vm_compute; reflexivity| |by vm_compute|by split; vm_compute].
  right. left. by repeat split.
Defined.

(** Node 2, the leader of term 2, is asked to write 8, commits it with node 3 and
    answers; node 1 still takes itself for the leader of term 1. *)
Definition write_8 : Move :=
  Ask n2 {| svc_operation := SvcSet (lit "k") (Int 8); response_tx := 5 |} 1010.
Definition asked : Net (D := Database) := run_script [write_8] stored.
Definition acknowledged : Net (D := Database) :=
  run_script [Deliver 1 1011; Deliver 0 1012; Deliver 0 1013; Deliver 0 1014] asked.

(** The answers of a node to a service request: success and message. *)
Definition answers (c : Net (D := Database)) (i : NodeId) (tx : nat) : list (bool * str) :=
  match net_nodes c !! i with
  | Some n => (λ r, (sr_success r.2, sr_message r.2)) <$> filter (λ r, r.1 = tx) (replies n)
  | None => []
  end.

Lemma acknowledged_reachable : net_reachable group empty_db command_ok acknowledged.
Proof. do 2 (apply run_script_reachable; [by repeat constructor|]). apply stored_reachable. Qed.

(** The read of node 1 comes after the acknowledged write, and gives 7. *)
Lemma reads_are_local_witness :
  move stored write_8 = Some asked ∧ answers stored n2 5 = [] ∧ answers asked n2 5 = [] ∧
  answers acknowledged n2 5 = [(true, lit "Write committed and applied at log index 2")] ∧
  ∃ a b, net_nodes acknowledged !! n1 = Some a ∧ net_nodes acknowledged !! n2 = Some b ∧
    role a = Leader ∧ applied_commands a = [put 7] ∧ applied_commands b = [put 7; put 8] ∧
    (∃ msgs r, turn (InService {| svc_operation := SvcGet (lit "k"); response_tx := 9 |}) 1020 a =
        (Ok msgs, a <| replies := replies a ++ [(9, r)] |> <| outbox := [] |>) ∧
      sr_success r = true ∧ sr_value r = Some (Int 7)) ∧
    ∀ j b, net_nodes acknowledged !! j = Some b → last_applied a ≤ last_applied b →
      applied_commands a `prefix_of` applied_commands b.
Proof.
  split; [vm_compute; reflexivity|]. split; [by vm_compute|]. split; [by vm_compute|].
  split; [by vm_compute|].
  eexists _, _. split; [vm_compute; reflexivity|]. split; [vm_compute; reflexivity|].
  split; [reflexivity|]. split; [vm_compute; reflexivity|]. split; [vm_compute; reflexivity|].
  eapply (reads_are_local (HT := bits_text) (HM := micro_math) (HX := from_le)
    (F64TextLaws0 := bits_text_laws) (F64MathLaws0 := micro_math_laws) (H := micro_dims)
    group empty_db default_config _ (proj2_sig opened) ltac:(done) acknowledged
    acknowledged_reachable n1); by vm_compute.
Defined.

End Example.
