(* ===== verification/Tcp.v ===== *)
(** [src/raft/network.rs] with [src/runtime/runtime.rs]: several running nodes,
    each with its tasks, and the TCP connections between them. [Network.v] has
    what one node does to its table of connections and the frames; here are
    the tasks that do it, as steps which can come in any order: the runtime,
    the listener, the reconnection loop, and a writer and a reader for each end
    of a connection. *)

From S2P Require Import Prelude Bytes Float LogRecord RaftTypes LogStore RaftNode Runtime Network.

(** ** Connections *)

(** One direction of a connection: the bytes that are on the way or not read
    yet, and whether more can follow. *)
Record Pipe : Type := MkPipe { unread : bytes; closed : bool }.

Definition empty_pipe : Pipe := {| unread := []; closed := false |}.

(** Nothing arrives that is written after the direction is closed. *)
Definition pipe_write (b : bytes) (p : Pipe) : Pipe :=
  if closed p then p else {| unread := unread p ++ b; closed := false |}.

(** The direction breaks off, and only [k] of the bytes on the way arrive. *)
Definition pipe_cut (k : nat) (p : Pipe) : Pipe :=
  {| unread := take k (unread p); closed := true |}.

(** One end of a connection, and the node that has it, if it is one of the
    nodes; [Running c] once its tasks are spawned, as connection [c] of the
    [Network] of that node. *)
Inductive Stage : Type := Waiting | Running (c : nat).

Record End : Type := MkEnd {
  owner : option NodeId;
  (* [peer_id]: the node that this end takes the other one for *)
  goes_by : NodeId;
  stage : Stage;
  (* whether the reader task is in its loop *)
  reading : bool;
  arriving : Pipe;
}.

#[export] Instance eta_End : Eta End := λ e,
  MkEnd (owner e) (goes_by e) (stage e) (reading e) (arriving e).
#[export] Instance upd_goes_by : Upd goes_by. Proof. derive_upd. Defined.
#[export] Instance upd_stage : Upd stage. Proof. derive_upd. Defined.
#[export] Instance upd_reading : Upd reading. Proof. derive_upd. Defined.
#[export] Instance upd_arriving : Upd arriving. Proof. derive_upd. Defined.

Record Link : Type := MkLink { dialer : End; acceptor : End }.

Inductive Side : Type := Dialing | Accepting.
#[export] Instance Side_eq_dec : EqDecision Side.
Proof. solve_decision. Defined.

Definition opposite (s : Side) : Side :=
  match s with Dialing => Accepting | Accepting => Dialing end.

Definition link_end (s : Side) (l : Link) : End :=
  match s with Dialing => dialer l | Accepting => acceptor l end.

Definition set_end (s : Side) (e : End) (l : Link) : Link :=
  match s with
  | Dialing => {| dialer := e; acceptor := acceptor l |}
  | Accepting => {| dialer := dialer l; acceptor := e |}
  end.

Definition new_end (o : option NodeId) (p : NodeId) : End :=
  {| owner := o; goes_by := p; stage := Waiting; reading := false; arriving := empty_pipe |}.

(** An end writes no more: what it has written still arrives. *)
Definition drop_stream (s : Side) (l : Link) : Link :=
  let f := link_end (opposite s) l in
  set_end (opposite s)
    (f <| arriving := pipe_cut (length (unread (arriving f))) (arriving f) |>) l.

(** ** Nodes *)

(** Where the reconnection loop of a node is: between two peers, connecting to
    one, before the check of [handle_outgoing_connection] on connection [t], and
    behind it. *)
Inductive Reconnecting : Type :=
  | Idle
  | Connecting (peer_id : NodeId) (peer_addr : str)
  | Greeted (t : nat)
  | Checked (t : nat).

Record Process {D : Type} : Type := MkProcess {
  proc_node : RaftNode D;
  proc_net : Network;
  (* [node_rx] *)
  queue : list Message;
  (* connections that the listener has not accepted *)
  backlog : list nat;
  reconnecting : Reconnecting;
}.
Arguments Process D : clear implicits.
Arguments MkProcess {D} _ _ _ _ _.

#[export] Instance eta_Process {D} : Eta (Process D) := λ p,
  MkProcess (proc_node p) (proc_net p) (queue p) (backlog p) (reconnecting p).
#[export] Instance upd_proc_node {D} : Upd (@proc_node D). Proof. derive_upd. Defined.
#[export] Instance upd_proc_net {D} : Upd (@proc_net D). Proof. derive_upd. Defined.
#[export] Instance upd_queue {D} : Upd (@queue D). Proof. derive_upd. Defined.
#[export] Instance upd_backlog {D} : Upd (@backlog D). Proof. derive_upd. Defined.
#[export] Instance upd_reconnecting {D} : Upd (@reconnecting D). Proof. derive_upd. Defined.

Record System {D : Type} : Type := MkSystem {
  procs : gmap NodeId (Process D);
  links : list Link;
}.
Arguments System D : clear implicits.
Arguments MkSystem {D} _ _.

(** What [Network::start_with_api] has before its tasks run. *)
Definition start_process {D} (i : NodeId) (peers : gmap NodeId str) (node : RaftNode D) :
    Process D :=
  {| proc_node := node; proc_net := network_new i peers; queue := []; backlog := [];
     reconnecting := Idle |}.

(** The writer task takes the next message of its channel. *)
Definition writer_recv (c : nat) (n : Network) : option (Message * Network) :=
  match channels n !! c with
  | Some (m :: q) => Some (m, n <| channels := <[c := q]> (channels n) |>)
  | _ => None
  end.

(** Its channel is empty and has no sender any more. *)
Definition writer_done (p : NodeId) (c : nat) (n : Network) : bool :=
  bool_decide (channels n !! c = Some [] ∧ active_senders n !! p ≠ Some c).

Section system.
Context {D : Type} `{!KvStore D} `{!F64Text} `{!Bincode} `{!RandomMillis} `{!MessageBincode}.
(** The node that listens at an address. *)
Context (listens : str → option NodeId).

Abbreviation Process := (Process D).
Abbreviation System := (System D).

Definition set_proc (i : NodeId) (p : Process) (s : System) : System :=
  {| procs := <[i := p]> (procs s); links := links s |}.

Definition set_link (t : nat) (l : Link) (s : System) : System :=
  {| procs := procs s; links := <[t := l]> (links s) |}.

(** An operation on the table of connections of node [i]; none of them fails. *)
Definition on_net (m : M Network ()) (p : Process) : option Process :=
  match m (proc_net p) with
  | (Ok _, n) => Some (p <| proc_net := n |>)
  | _ => None
  end.

(** A turn of the runtime, with [transport.send] for what it leaves to send. *)
Definition runtime_step (i : NodeId) (event : Incoming) (now : Instant) (s : System) :
    option System :=
  p ← procs s !! i;
  match turn event now (proc_node p) with
  | (Ok msgs, node) =>
      p ← on_net (for_each msgs (λ x, transport_send x.1 x.2)) (p <| proc_node := node |>);
      Some (set_proc i p s)
  | _ => None
  end.

(** The runtime finds a message in its channel. *)
Definition take_message (i : NodeId) (now : Instant) (s : System) : option System :=
  p ← procs s !! i;
  match queue p with
  | m :: q => runtime_step i (InMessage m) now (set_proc i (p <| queue := q |>) s)
  | [] => None
  end.

(** [listener.accept()] and [handle_incoming_connection]: the listener waits for
    the handshake of the first connection before it looks at the next. *)
Definition accept_step (i : NodeId) (s : System) : option System :=
  p ← procs s !! i;
  match backlog p with
  | [] => None
  | t :: rest =>
      let p := p <| backlog := rest |> in
      l ← links s !! t;
      let e := acceptor l in
      match read_handshake (unread (arriving e)) with
      | Some (peer_id, bytes) =>
          let c := next_connection (proc_net p) in
          p ← on_net (handle_incoming_connection (unread (arriving e))) p;
          let e := e <| goes_by := peer_id |> <| stage := Running c |> <| reading := true |>
                     <| arriving := {| unread := bytes; closed := closed (arriving e) |} |> in
          Some (set_link t (set_end Accepting e l) (set_proc i p s))
      | None =>
          if closed (arriving e)
          then Some (set_link t (drop_stream Accepting l) (set_proc i p s))
          else None
      end
  end.

(** The reconnection loop looks at a peer ... *)
Definition consider_peer (i peer_id : NodeId) (s : System) : option System :=
  p ← procs s !! i;
  match reconnecting p with
  | Idle =>
      let n := proc_net p in
      peer_addr ← registry n !! peer_id;
      if decide (node_id (local_id n) ≤ node_id peer_id)%Z then None else
      if decide (is_Some (active_senders n !! peer_id)) then None else
      Some (set_proc i (p <| reconnecting := Connecting peer_id peer_addr |>) s)
  | _ => None
  end.

(** ... connects to it, with what [TcpStream::connect] and the writing of the
    handshake give ... *)
Definition connect_step (i : NodeId) (d : Dial) (s : System) : option System :=
  p ← procs s !! i;
  match reconnecting p with
  | Connecting peer_id peer_addr =>
      match d with
      | Refused => Some (set_proc i (p <| reconnecting := Idle |>) s)
      | Connected greeted =>
          q ← listens peer_addr;
          pq ← procs s !! q;
          let t := length (links s) in
          let l := {| dialer := new_end (Some i) peer_id; acceptor := new_end (Some q) peer_id |} in
          let e := acceptor l in
          let l := if greeted
            then set_end Accepting
                   (e <| arriving := pipe_write (write_handshake (local_id (proc_net p))) empty_pipe |>) l
            else drop_stream Dialing l in
          let s := set_proc q (pq <| backlog := backlog pq ++ [t] |>)
                     {| procs := procs s; links := links s ++ [l] |} in
          p ← procs s !! i;
          Some (set_proc i (p <| reconnecting := if greeted then Greeted t else Idle |>) s)
      end
  | _ => None
  end.

(** ... sees that there is no other connection to it by now ... *)
Definition check_step (i : NodeId) (s : System) : option System :=
  p ← procs s !! i;
  match reconnecting p with
  | Greeted t =>
      l ← links s !! t;
      if decide (is_Some (active_senders (proc_net p) !! goes_by (dialer l)))
      then Some (set_link t (drop_stream Dialing l) (set_proc i (p <| reconnecting := Idle |>) s))
      else Some (set_proc i (p <| reconnecting := Checked t |>) s)
  | _ => None
  end.

(** ... and spawns the tasks of the connection. *)
Definition spawn_step (i : NodeId) (s : System) : option System :=
  p ← procs s !! i;
  match reconnecting p with
  | Checked t =>
      l ← links s !! t;
      let e := dialer l in
      let c := next_connection (proc_net p) in
      p ← on_net (spawn_connection_tasks (goes_by e)) (p <| reconnecting := Idle |>);
      Some (set_link t (set_end Dialing (e <| stage := Running c |> <| reading := true |>) l)
              (set_proc i p s))
  | _ => None
  end.

(** The end of connection [t] at [side], with the node and the number it has
    there. *)
Definition running_end (t : nat) (side : Side) (s : System) :
    option (Link * NodeId * Process * nat) :=
  l ← links s !! t;
  i ← owner (link_end side l);
  p ← procs s !! i;
  match stage (link_end side l) with
  | Running c => Some (l, i, p, c)
  | Waiting => None
  end.

(** A writer task writes its next message. *)
Definition write_step (t : nat) (side : Side) (s : System) : option System :=
  '(l, i, p, c) ← running_end t side s;
  '(m, n) ← writer_recv c (proc_net p);
  let f := link_end (opposite side) l in
  Some (set_link t (set_end (opposite side)
          (f <| arriving := pipe_write (write_message m) (arriving f) |>) l)
        (set_proc i (p <| proc_net := n |>) s)).

(** A writer task ends: the connection is lost, or nothing is left to send and
    the sender was dropped. *)
Definition writer_ends (t : nat) (side : Side) (s : System) : option System :=
  '(l, i, p, c) ← running_end t side s;
  if closed (arriving (link_end (opposite side) l)) ||
     writer_done (goes_by (link_end side l)) c (proc_net p)
  then p ← on_net (writer_end c) p;
       Some (set_link t (drop_stream side l) (set_proc i p s))
  else None.

(** A reader task reads a message, waits for one, or ends. *)
Definition read_step (t : nat) (side : Side) (s : System) : option System :=
  '(l, i, p, c) ← running_end t side s;
  let e := link_end side l in
  if negb (reading e) then None else
  match reader_turn (unread (arriving e)) with
  | Arrived msg rest =>
      let e := e <| arriving := {| unread := rest; closed := closed (arriving e) |} |> in
      Some (set_link t (set_end side e l) (set_proc i (p <| queue := queue p ++ [msg] |>) s))
  | Ended Disconnected =>
      if closed (arriving e)
      then p ← on_net (reader_end (goes_by e)) p;
           Some (set_link t (set_end side (e <| reading := false |>) l) (set_proc i p s))
      else None
  | Ended _ =>
      p ← on_net (reader_end (goes_by e)) p;
      Some (set_link t (set_end side (e <| reading := false |>) l) (set_proc i p s))
  end.

(** The connection breaks in the direction towards [side]. *)
Definition break_step (t : nat) (side : Side) (k : nat) (s : System) : option System :=
  l ← links s !! t;
  let e := link_end side l in
  Some (set_link t (set_end side (e <| arriving := pipe_cut k (arriving e) |>) l) s).

(** Another program, such as the client, connects to node [i] ... *)
Definition stranger_connects (i : NodeId) (s : System) : option System :=
  p ← procs s !! i;
  let t := length (links s) in
  Some (set_proc i (p <| backlog := backlog p ++ [t] |>)
    {| procs := procs s;
       links := links s ++ [{| dialer := new_end None i; acceptor := new_end (Some i) i |}] |}).

(** ... and writes what it likes. *)
Definition stranger_writes (t : nat) (b : bytes) (s : System) : option System :=
  l ← links s !! t;
  match owner (dialer l) with
  | None =>
      let e := acceptor l in
      Some (set_link t (set_end Accepting (e <| arriving := pipe_write b (arriving e) |>) l) s)
  | Some _ => None
  end.

Inductive Action : Type :=
  | TakeMessage (i : NodeId) (now : Instant)
  | Serve (i : NodeId) (request : ServiceRequest) (now : Instant)
  | TickNode (i : NodeId) (now : Instant)
  | AcceptOne (i : NodeId)
  | Consider (i peer_id : NodeId)
  | Connect (i : NodeId) (d : Dial)
  | CheckAgain (i : NodeId)
  | Spawn (i : NodeId)
  | WriteOne (t : nat) (side : Side)
  | EndWriter (t : nat) (side : Side)
  | ReadOne (t : nat) (side : Side)
  | Break (t : nat) (side : Side) (k : nat)
  | StrangerConnects (i : NodeId)
  | StrangerWrites (t : nat) (b : bytes).

Definition perform (a : Action) : System → option System :=
  match a with
  | TakeMessage i now => take_message i now
  | Serve i request now => runtime_step i (InService request) now
  | TickNode i now => runtime_step i InTick now
  | AcceptOne i => accept_step i
  | Consider i peer_id => consider_peer i peer_id
  | Connect i d => connect_step i d
  | CheckAgain i => check_step i
  | Spawn i => spawn_step i
  | WriteOne t side => write_step t side
  | EndWriter t side => writer_ends t side
  | ReadOne t side => read_step t side
  | Break t side k => break_step t side k
  | StrangerConnects i => stranger_connects i
  | StrangerWrites t b => stranger_writes t b
  end.

(** A run of the system: the actions one after the other. *)
Fixpoint perform_all (actions : list Action) (s : System) : option System :=
  match actions with
  | [] => Some s
  | a :: actions' => s' ← perform a s; perform_all actions' s'
  end.

End system.
