(* ===== verification/TcpSpec.v ===== *)
(** The nodes of [Tcp.v], with their tasks and connections, are the nodes of
    [Cluster.v] on a network that may lose, delay and reorder messages: what a
    node takes out of its channel was sent to it, or comes from a client. *)

From S2P Require Import Prelude Wp Bytes Float LogRecord RaftTypes LogStore RaftNode Protocol.
From S2P Require Import RaftSim Runtime Network Cluster RaftSafety Journal Tcp.

(** [bincode] gives back what it has written. *)
Class MessageBincodeLaws `{MessageBincode} : Prop :=
  message_back m buf : serialize_message m = Some buf → deserialize_message buf = Some m.

(** ** What a task does to the table of connections

    Connections keep their peers; what is new in a channel was sent to the peer
    whose connection it is. [w] are the messages that were sent. *)
Record evolves (w : list (NodeId * Message)) (n n' : Network) : Prop := {
  ev_id : local_id n' = local_id n;
  ev_registry : registry n' = registry n;
  ev_table : table_ok n → table_ok n';
  ev_next : next_connection n ≤ next_connection n';
  ev_senders p c : c < next_connection n →
    active_senders n' !! p = Some c → active_senders n !! p = Some c;
  ev_channels c q' m : c < next_connection n → channels n' !! c = Some q' → m ∈ q' →
    (∃ q, channels n !! c = Some q ∧ m ∈ q) ∨ ∃ to, active_senders n !! to = Some c ∧ (to, m) ∈ w;
}.

Lemma evolves_refl w n : evolves w n n.
Proof. split; eauto. Qed.

Lemma evolves_trans w n1 n2 n3 : evolves w n1 n2 → evolves w n2 n3 → evolves w n1 n3.
Proof.
  intros [] []. split; [congruence|congruence|auto|lia| |].
  - intros p c Hc Hp. apply ev_senders0, ev_senders1; [done|lia|done].
  - intros c q m Hc Hq Hm.
    destruct (ev_channels1 c q m) as [(q2 & Hq2 & Hm2)|(to & Hto & Hm2)]; [lia|done..| |].
    + by eapply ev_channels0.
    + right. exists to. auto.
Qed.

(** The table after an operation that cannot fail. *)
Lemma event_table e n n' :
  network_event e n = (Ok (), n') → table_ok n → table_ok n'.
Proof. intros E Hn. destruct (network_event_tidy e n Hn) as ([] & n1 & E' & ?). congruence. Qed.

Lemma send_evolves w to m n :
  (to, m) ∈ w → ∃ n', transport_send to m n = (Ok (), n') ∧ evolves w n n'.
Proof.
  intros Hw. pose proof (event_table (Send to m) n) as Ht. cbn [network_event] in Ht.
  unfold transport_send in *. rewrite bind_eq in *. cbn [get] in *.
  destruct (active_senders n !! to) as [c|] eqn:Ec; [|exists n; split; [done|apply evolves_refl]].
  eexists. split; [reflexivity|]. split; cbn; try done; [by apply Ht|].
  intros c' q' m' _ Hq Hm. destruct (decide (c = c')) as [<-|Hne].
  - rewrite lookup_alter_eq in Hq. apply fmap_Some in Hq as (q & Hq & ->).
    apply elem_of_app in Hm as [Hm| ->%list_elem_of_singleton]; [left|right]; by eexists.
  - rewrite lookup_alter_ne in Hq by done. left. by exists q'.
Qed.

Lemma sends_evolve w msgs n :
  (∀ x, x ∈ msgs → x ∈ w) →
  ∃ n', for_each msgs (λ x, transport_send x.1 x.2) n = (Ok (), n') ∧ evolves w n n'.
Proof.
  revert n. induction msgs as [|[to m] msgs IH]; intros n Hw.
  { exists n. split; [done|apply evolves_refl]. }
  destruct (send_evolves w to m n) as (n1 & E1 & H1); [apply Hw; by left|].
  destruct (IH n1) as (n2 & E2 & H2); [intros x Hx; apply Hw; by right|].
  exists n2. cbn [for_each]. erewrite bind_Ok by exact E1. split; [done|by eapply evolves_trans].
Qed.

Lemma spawn_evolves w p n n' :
  spawn_connection_tasks p n = (Ok (), n') →
  evolves w n n' ∧ next_connection n' = S (next_connection n) ∧
  channels n' !! next_connection n = Some [] ∧
  (table_ok n → ∀ q, active_senders n' !! q = Some (next_connection n) → q = p).
Proof.
  intros E. assert (table_ok n → table_ok n') as Ht.
  { intros Hn. destruct (spawn_tidy p n Hn) as ([] & n1 & E' & ?). congruence. }
  unfold spawn_connection_tasks in E. rewrite bind_eq in E. cbn in E. injection E as <-.
  split_and!; cbn in *; [|done|by rewrite lookup_insert_eq|].
  - split; cbn; [done|done|done|lia| |].
    + intros q c Hc [[<- <-]|[_ Hq]]%lookup_insert_Some; [lia|done].
    + intros c q m Hc [[<- <-]|[_ Hq]]%lookup_insert_Some Hm; [lia|left; by exists q].
  - intros Hn q [[<- _]|[_ Hq]]%lookup_insert_Some; [done|].
    apply (to_connection _ Hn) in Hq. lia.
Qed.

Lemma writer_end_evolves w c n n' : writer_end c n = (Ok (), n') → evolves w n n'.
Proof.
  intros E. pose proof (event_table (WriterEnd c) n n' E) as Ht. injection E as <-.
  split; cbn in *; try done. intros c' q m _ [_ Hq]%lookup_delete_Some Hm. left. by exists q.
Qed.

Lemma reader_end_evolves w p n n' : reader_end p n = (Ok (), n') → evolves w n n'.
Proof.
  intros E. pose proof (event_table (ReaderEnds p) n n' E) as Ht. injection E as <-.
  split; cbn in *; try done.
  - intros q c _ [_ Hq]%lookup_delete_Some. done.
  - intros c q m _ Hq Hm. left. by exists q.
Qed.

Lemma writer_recv_evolves w c n m n' :
  writer_recv c n = Some (m, n') → evolves w n n' ∧ ∃ q, channels n !! c = Some q ∧ m ∈ q.
Proof.
  unfold writer_recv. intros E. destruct (channels n !! c) as [[|m0 q]|] eqn:Ec; [done| |done].
  injection E as -> <-. split; [|exists (m :: q); split; [done|by left]].
  split; cbn; try done.
  - intros Hn. split; cbn; [apply Hn| |apply Hn]. intros c'. rewrite lookup_insert_is_Some.
    intros [<-|[_ Hc]]; apply (to_channel _ Hn); [by rewrite Ec|done].
  - intros c' q' m' _ [[<- <-]|[_ Hq]]%lookup_insert_Some Hm; left; [|by exists q'].
    exists (m :: q). split; [done|by right].
Qed.

(** ** What is on the way *)

Section pipes.
Context `{HB : MessageBincode}.

Definition frame_fits (m : Message) : Prop :=
  match serialize_message m with Some buf => (Z.of_nat (length buf) ≤ u32_max)%Z | None => True end.

(** What arrives at node [i]: [pre], then messages that were sent to it, if the
    direction is not broken. *)
Definition pipe_ok (w : list (NodeId * Message)) (i : NodeId) (pre : bytes) (p : Pipe) : Prop :=
  ∃ ms k, unread p = take k (pre ++ writer_task ms) ∧
    (closed p = false → unread p = pre ++ writer_task ms) ∧
    Forall (λ m, is_Some (serialize_message m) ∧ frame_fits m ∧ (i, m) ∈ w) ms.

Lemma pipe_ok_mono w w' i pre p :
  (∀ x, x ∈ w → x ∈ w') → pipe_ok w i pre p → pipe_ok w' i pre p.
Proof using Type.
  intros Hw (ms & k & E & Hc & Hms). exists ms, k. split_and!; [done..|].
  eapply Forall_impl; [exact Hms|]. naive_solver.
Qed.

Lemma pipe_ok_empty w i : pipe_ok w i [] empty_pipe.
Proof using Type. exists [], 0. by split_and!. Qed.

Lemma pipe_ok_cut w i pre k p : pipe_ok w i pre p → pipe_ok w i pre (pipe_cut k p).
Proof using Type.
  intros (ms & k' & E & _ & Hms). exists ms, (k `min` k'). cbn. rewrite E, take_take. by split_and!.
Qed.

Lemma writer_task_snoc ms m : writer_task (ms ++ [m]) = writer_task ms ++ write_message m.
Proof using Type. unfold writer_task. rewrite fmap_app, join_app. cbn. by rewrite app_nil_r. Qed.

Lemma pipe_ok_write w i pre m p :
  (i, m) ∈ w → frame_fits m → pipe_ok w i pre p → pipe_ok w i pre (pipe_write (write_message m) p).
Proof using Type.
  intros Hm Hf (ms & k & E & Hc & Hms). unfold pipe_write.
  destruct (closed p) eqn:Ec; [by exists ms, k; rewrite Ec|]. specialize (Hc eq_refl).
  destruct (serialize_message m) as [buf|] eqn:Es.
  - exists (ms ++ [m]), (length (pre ++ writer_task (ms ++ [m]))). cbn. rewrite take_ge by done.
    rewrite Hc, writer_task_snoc, app_assoc. split_and!; [done..|].
    apply Forall_app_2; [done|]. apply Forall_singleton. by rewrite Es.
  - exists ms, (length (pre ++ writer_task ms)). cbn. rewrite take_ge by done.
    unfold write_message. rewrite Es, app_nil_r. by split_and!.
Qed.

Context `{!MessageBincodeLaws}.

(** The reader takes a message that was sent to the node. *)
Lemma pipe_ok_read w i p m rest :
  pipe_ok w i [] p → reader_turn (unread p) = Arrived m rest →
  (i, m) ∈ w ∧ pipe_ok w i [] {| unread := rest; closed := closed p |}.
Proof using All.
  intros (ms & k & E & Hc & Hms) Ht. cbn [app] in *.
  destruct Hms as [|m0 ms ([buf Es] & Hf & Hm) Hms].
  { rewrite E in Ht. change (writer_task []) with (@nil u8) in Ht.
    rewrite take_nil, reader_turn_short in Ht by (cbn; lia). done. }
  change (writer_task (m0 :: ms)) with (write_message m0 ++ writer_task ms) in *.
  unfold frame_fits in Hf. rewrite Es in Hf. destruct (decide (k < length (write_message m0))) as [Hk|Hk].
  - rewrite E, take_app_le in Ht by lia.
    destruct (reader_turn_part m0 buf (take k (write_message m0))) as [H'|[_ H']];
      [done|done|rewrite length_take; lia| | |];
      [exists (drop k (write_message m0)); by rewrite take_drop|congruence..].
  - rewrite take_app_ge in E by lia. rewrite E in Ht.
    destruct (decide (Z.of_nat (length buf) ≤ MAX_MESSAGE_SIZE)%Z) as [Hs|Hs].
    + rewrite (reader_turn_message m0 buf) in Ht by (done || by apply message_back).
      injection Ht as <- <-. split; [done|]. exists ms, (k - length (write_message m0)).
      split_and!; [done| |done]. cbn. intros Hcl. specialize (Hc Hcl). rewrite E in Hc.
      by apply app_inv_head in Hc.
    + rewrite (reader_turn_large m0 buf) in Ht by (done || lia). done.
Qed.

(** The listener learns who has dialed. *)
Lemma pipe_ok_accept w i j p q rest :
  in_u64 (node_id j) → pipe_ok w i (write_handshake j) p →
  read_handshake (unread p) = Some (q, rest) →
  q = j ∧ pipe_ok w i [] {| unread := rest; closed := closed p |}.
Proof using Type.
  intros Hj (ms & k & E & Hc & Hms) Hr.
  assert (length (write_handshake j) = 8) as H8
    by (unfold write_handshake, u64_to_be; by rewrite length_reverse, length_u64_to_le).
  destruct (decide (k < 8)) as [Hk|Hk].
  - unfold read_handshake in Hr. rewrite E, read_exact_short in Hr; [done|].
    rewrite length_take. lia.
  - rewrite take_app_ge in E by lia. rewrite E, read_write_handshake in Hr by done.
    injection Hr as -> <-. split; [done|]. exists ms, (k - length (write_handshake q)).
    split_and!; [done| |done]. cbn. intros Hcl. specialize (Hc Hcl). rewrite E in Hc.
    by apply app_inv_head in Hc.
Qed.

End pipes.

(** ** The invariant *)

Section system.
Context {D : Type} `{!KvStore D} `{!F64Text} `{!Bincode} `{!RandomMillis} `{HB : MessageBincode}.
Context `{!MessageBincodeLaws} `{!KvPure D}.
Context (listens : str → option NodeId).
Context (cluster : gset NodeId) (db0 : D) (allowed : Command → Prop).

Abbreviation System := (System D).
Abbreviation Process := (Process D).
Abbreviation sends := (list (NodeId * Message)).

(** The end [e] of a connection, whose other end is [f]. What waits in its
    channel goes to the node at [f]: *)
Definition channel_ok (w : sends) (ps : gmap NodeId Process) (e f : End) : Prop :=
  ∀ i c p, owner e = Some i → stage e = Running c → ps !! i = Some p →
    c < next_connection (proc_net p) ∧
    (∀ q, active_senders (proc_net p) !! q = Some c → owner f = None ∨ owner f = Some q) ∧
    (∀ j q m, owner f = Some j → channels (proc_net p) !! c = Some q → m ∈ q → (j, m) ∈ w).

(** what arrives at it was sent to its node, behind the handshake if the
    connection is not accepted: *)
Definition handshake_before (side : Side) (e : End) (j : NodeId) : bytes :=
  match side, stage e with Accepting, Waiting => write_handshake j | _, _ => [] end.

Definition arriving_ok (w : sends) (side : Side) (e f : End) : Prop :=
  ∀ i j, owner e = Some i → owner f = Some j →
    pipe_ok w i (handshake_before side e j) (arriving e).

(** and a node dials whom it means. *)
Definition end_ok (w : sends) (ps : gmap NodeId Process) (l : Link) (side : Side) : Prop :=
  let e := link_end side l in let f := link_end (opposite side) l in
  channel_ok w ps e f ∧ arriving_ok w side e f ∧
  (side = Dialing → ∀ i, owner e = Some i → in_u64 (node_id i) ∧ owner f = Some (goes_by e)).

Definition dialed_by (i : NodeId) (ls : list Link) (t : nat) : Prop :=
  ∃ l, ls !! t = Some l ∧ owner (dialer l) = Some i.

Definition waits_at (i : NodeId) (ls : list Link) (t : nat) : Prop :=
  ∃ l, ls !! t = Some l ∧ owner (acceptor l) = Some i ∧ stage (acceptor l) = Waiting.

Definition reconnecting_ok (i : NodeId) (ls : list Link) (r : Reconnecting) : Prop :=
  match r with
  | Idle => True
  | Connecting peer_id peer_addr => listens peer_addr = Some peer_id
  | Greeted t | Checked t => dialed_by i ls t
  end.

Record proc_ok (w : sends) (ls : list Link) (i : NodeId) (p : Process) : Prop := {
  pr_id : local_id (proc_net p) = i;
  pr_range : in_u64 (node_id i);
  pr_table : table_ok (proc_net p);
  pr_registry j a : registry (proc_net p) !! j = Some a → listens a = Some j;
  pr_queue m : m ∈ queue p → (i, m) ∈ w ∨ client allowed m;
  pr_backlog : Forall (waits_at i ls) (backlog p);
  pr_once : NoDup (backlog p);
  pr_reconnecting : reconnecting_ok i ls (reconnecting p);
}.

Record sys_ok (w : sends) (s : System) : Prop := {
  sys_procs i p : procs s !! i = Some p → proc_ok w (links s) i p;
  sys_links t l side : links s !! t = Some l → end_ok w (procs s) l side;
}.

(** Links that are kept, except that connection [t] is accepted. *)
Definition keeps (t : nat) (ls ls' : list Link) : Prop :=
  ∀ u l, ls !! u = Some l → ∃ l', ls' !! u = Some l' ∧
    owner (dialer l') = owner (dialer l) ∧ owner (acceptor l') = owner (acceptor l) ∧
    (u ≠ t → stage (acceptor l') = stage (acceptor l)).

Lemma proc_ok_links w w' t ls ls' i p :
  (∀ x, x ∈ w → x ∈ w') → keeps t ls ls' → t ∉ backlog p → proc_ok w ls i p → proc_ok w' ls' i p.
Proof using Type.
  intros Hw Hk Ht []. split; try done.
  - intros m Hm. destruct (pr_queue0 m Hm); auto.
  - apply Forall_forall. intros u Hu. rewrite Forall_forall in pr_backlog0.
    destruct (pr_backlog0 u Hu) as (l & Hl & Ho & Hs).
    destruct (Hk u l Hl) as (l' & Hl' & _ & Ho' & Hs'). exists l'.
    split_and!; [done|congruence|]. rewrite Hs'; [done|]. by intros ->.
  - destruct (reconnecting p) as [|q a|u|u]; try done; destruct pr_reconnecting0 as (l & Hl & Ho);
      destruct (Hk u l Hl) as (l' & Hl' & Ho' & _); exists l'; split; congruence.
Qed.

Lemma channel_ok_evolves w w' ps i p p' e f :
  (∀ x, x ∈ w → x ∈ w') → ps !! i = Some p → evolves w' (proc_net p) (proc_net p') →
  channel_ok w ps e f → channel_ok w' (<[i := p']> ps) e f.
Proof using Type.
  intros Hw Hp Hev He j c pj Ho Hs [[<- <-]|[_ Hj]]%lookup_insert_Some.
  - destruct (He i c p Ho Hs Hp) as (Hc & Hpeer & Hq). pose proof (ev_next _ _ _ Hev).
    split_and!; [lia| |].
    + intros q Hq'. by apply Hpeer, (ev_senders _ _ _ Hev).
    + intros k q m Hf Hch Hm.
      destruct (ev_channels _ _ _ Hev c q m Hc Hch Hm) as [(q0 & Hq0 & Hm0)|(to & Hto & Hm0)].
      * apply Hw. by eapply Hq.
      * by destruct (Hpeer to Hto); simplify_eq.
  - destruct (He j c pj Ho Hs Hj) as (Hc & Hpeer & Hq). split_and!; eauto.
Qed.

Lemma arriving_ok_mono w w' side e f :
  (∀ x, x ∈ w → x ∈ w') → arriving_ok w side e f → arriving_ok w' side e f.
Proof using Type. intros Hw He i j Hi Hj. eapply pipe_ok_mono; [exact Hw|by apply He]. Qed.

(** One node changes ... *)
Lemma sys_proc w w' s i p p' :
  sys_ok w s → (∀ x, x ∈ w → x ∈ w') → procs s !! i = Some p →
  evolves w' (proc_net p) (proc_net p') → proc_ok w' (links s) i p' →
  sys_ok w' (set_proc i p' s).
Proof using Type.
  intros [Hps Hls] Hw Hp Hev Hp'. split; cbn.
  - intros j pj [[<- <-]|[_ Hj]]%lookup_insert_Some; [done|].
    eapply (proc_ok_links w w' (length (links s))); [done| | |by apply Hps].
    + intros u l Hl. by exists l.
    + intros Hin. pose proof (pr_backlog _ _ _ _ (Hps j pj Hj)) as Hb.
      rewrite Forall_forall in Hb. destruct (Hb _ Hin) as (l & Hl & _).
      apply lookup_lt_Some in Hl. lia.
  - intros t l side Hl. destruct (Hls t l side Hl) as (Hc & Ha & Hd). split_and!; [| |done].
    + by eapply channel_ok_evolves.
    + by eapply arriving_ok_mono.
Qed.

(** ... or one connection. *)
Lemma sys_link w s t l l' :
  sys_ok w s → links s !! t = Some l →
  owner (dialer l') = owner (dialer l) → owner (acceptor l') = owner (acceptor l) →
  (stage (acceptor l') = stage (acceptor l) ∨ ∀ i p, procs s !! i = Some p → t ∉ backlog p) →
  (∀ side, end_ok w (procs s) l' side) →
  sys_ok w (set_link t l' s).
Proof using Type.
  intros [Hps Hls] Hl Hd Ha Hs He. pose proof (lookup_lt_Some _ _ _ Hl) as Hlt. split; cbn.
  - intros i p Hp. destruct Hs as [Hs|Hs].
    + apply (proc_ok_links w w (length (links s)) (links s)); [done| | |by apply Hps].
      * intros u m Hm. destruct (decide (u = t)) as [->|Hne].
        -- exists l'. rewrite list_lookup_insert_eq by done. by simplify_eq.
        -- exists m. by rewrite list_lookup_insert_ne by done.
      * intros Hin. pose proof (pr_backlog _ _ _ _ (Hps i p Hp)) as Hb.
        rewrite Forall_forall in Hb. destruct (Hb _ Hin) as (m & Hm & _).
        apply lookup_lt_Some in Hm. lia.
    + apply (proc_ok_links w w t (links s)); [done| |by apply (Hs i)|by apply Hps].
      intros u m Hm. destruct (decide (u = t)) as [->|Hne].
      * exists l'. rewrite list_lookup_insert_eq by done. by simplify_eq.
      * exists m. by rewrite list_lookup_insert_ne by done.
  - intros u m side Hm. destruct (decide (u = t)) as [->|Hne].
    + rewrite list_lookup_insert_eq in Hm by done. by injection Hm as <-.
    + rewrite list_lookup_insert_ne in Hm by done. by eapply Hls.
Qed.

(** ** Every action keeps it *)

(** Nothing happens to the nodes themselves. *)
Definition quiet (s s' : System) : Prop := proc_node <$> procs s' = proc_node <$> procs s.

Lemma quiet_proc i p p' s :
  procs s !! i = Some p → proc_node p' = proc_node p → quiet s (set_proc i p' s).
Proof using Type.
  intros Hp Hn. unfold quiet, set_proc. cbn. rewrite fmap_insert, Hn. apply insert_id.
  by rewrite lookup_fmap, Hp.
Qed.

Lemma on_net_inv m (p p' : Process) :
  on_net m p = Some p' → ∃ n, m (proc_net p) = (Ok (), n) ∧ p' = p <| proc_net := n |>.
Proof using Type.
  unfold on_net. destruct (m (proc_net p)) as [[[]|e|x] n]; [|done..]. intros [= <-]. by exists n.
Qed.

Lemma proc_ok_net w ls i p n :
  proc_ok w ls i p → evolves w (proc_net p) n → proc_ok w ls i (p <| proc_net := n |>).
Proof using Type.
  intros [] []. split; cbn; try done; [congruence|auto|]. intros j a. rewrite ev_registry0. auto.
Qed.

Lemma set_end_ok w ps l s0 e' :
  (∀ side, end_ok w ps l side) → owner e' = owner (link_end s0 l) →
  end_ok w ps (set_end s0 e' l) s0 → ∀ side, end_ok w ps (set_end s0 e' l) side.
Proof using Type.
  intros Hl Ho He side. destruct (decide (side = s0)) as [->|Hne]; [done|].
  destruct (Hl side) as (Hc & Ha & Hd).
  destruct s0, side; try done; unfold end_ok, channel_ok, arriving_ok in *; cbn in *;
    rewrite Ho; split_and!; done.
Qed.

(** Something else arrives at an end, or its reader stops. *)
Lemma set_arriving_ok w ps l s0 e' :
  (∀ side, end_ok w ps l side) → let e := link_end s0 l in
  owner e' = owner e → stage e' = stage e → goes_by e' = goes_by e →
  (∀ i j, owner e = Some i → owner (link_end (opposite s0) l) = Some j →
     pipe_ok w i (handshake_before s0 e j) (arriving e) →
     pipe_ok w i (handshake_before s0 e j) (arriving e')) →
  ∀ side, end_ok w ps (set_end s0 e' l) side.
Proof using Type.
  intros Hl e Ho Hs Hg Hp. apply set_end_ok; [done..|]. destruct (Hl s0) as (Hc & Ha & Hd).
  assert (link_end s0 (set_end s0 e' l) = e' ∧
    link_end (opposite s0) (set_end s0 e' l) = link_end (opposite s0) l) as [E1 E2] by by destruct s0.
  unfold end_ok, channel_ok, arriving_ok in *. rewrite E1, E2, Ho, Hs, Hg.
  split_and!; [done| |done]. intros i j Hi Hj.
  assert (handshake_before s0 e' j = handshake_before s0 e j) as ->
    by (unfold handshake_before; by rewrite Hs).
  apply Hp; [done..|by apply Ha].
Qed.

(** A connection on which something else arrives at [side]. *)
Lemma sys_arriving w s t l side e' :
  sys_ok w s → links s !! t = Some l → let e := link_end side l in
  owner e' = owner e → stage e' = stage e → goes_by e' = goes_by e →
  (∀ i j, owner e = Some i → owner (link_end (opposite side) l) = Some j →
     pipe_ok w i (handshake_before side e j) (arriving e) →
     pipe_ok w i (handshake_before side e j) (arriving e')) →
  sys_ok w (set_link t (set_end side e' l) s).
Proof using Type.
  intros Hs Hl e Ho Hst Hg Hp. eapply sys_link; [done|exact Hl|..].
  - by destruct side.
  - by destruct side.
  - left. by destruct side.
  - apply set_arriving_ok; try done. intros side'. by eapply (sys_links _ _ Hs).
Qed.

Lemma drop_stream_ok w s t l side :
  sys_ok w s → links s !! t = Some l → sys_ok w (set_link t (drop_stream side l) s).
Proof using Type.
  intros Hs Hl. unfold drop_stream. apply sys_arriving; [done..|].
  intros i j _ _. apply pipe_ok_cut.
Qed.

Lemma break_ok w s s' t side k :
  sys_ok w s → break_step t side k s = Some s' → sys_ok w s' ∧ quiet s s'.
Proof using Type.
  intros Hs. unfold break_step. destruct (links s !! t) as [l|] eqn:Hl; cbn; [|done].
  intros [= <-]. split; [|done]. apply sys_arriving; [done..|]. intros i j _ _. apply pipe_ok_cut.
Qed.

Lemma stranger_writes_ok w s s' t b :
  sys_ok w s → stranger_writes t b s = Some s' → sys_ok w s' ∧ quiet s s'.
Proof using Type.
  intros Hs. unfold stranger_writes. destruct (links s !! t) as [l|] eqn:Hl; cbn; [|done].
  destruct (owner (dialer l)) eqn:Ho; [done|]. intros [= <-]. split; [|done].
  apply (sys_arriving w s t l Accepting); try done. cbn. intros i j _ Hj. congruence.
Qed.

Lemma running_end_inv t side (s : System) l i p c :
  running_end t side s = Some (l, i, p, c) →
  links s !! t = Some l ∧ owner (link_end side l) = Some i ∧ procs s !! i = Some p ∧
  stage (link_end side l) = Running c.
Proof using Type.
  unfold running_end. destruct (links s !! t) as [l0|] eqn:Hl; cbn; [|done].
  destruct (owner (link_end side l0)) as [i0|] eqn:Ho; cbn; [|done].
  destruct (procs s !! i0) as [p0|] eqn:Hp; cbn; [|done].
  destruct (stage (link_end side l0)) eqn:Hst; [done|]. by intros [= <- <- <- <-].
Qed.

Lemma read_ok w s s' t side :
  (∀ l i p c m rest, running_end t side s = Some (l, i, p, c) →
     owner (link_end (opposite side) l) = None →
     reader_turn (unread (arriving (link_end side l))) = Arrived m rest → client allowed m) →
  sys_ok w s → read_step t side s = Some s' → sys_ok w s' ∧ quiet s s'.
Proof using Type*.
  intros Hstr Hs. unfold read_step.
  destruct (running_end t side s) as [[[[l i] p] c]|] eqn:Hr; [|done]. cbn [mbind option_bind].
  specialize (Hstr l i p c). destruct (running_end_inv _ _ _ _ _ _ _ Hr) as (Hl & Ho & Hp & Hst).
  destruct (negb (reading (link_end side l))); [done|].
  pose proof (sys_procs _ _ Hs i p Hp) as Hpr.
  assert (Hb : ∀ j, handshake_before side (link_end side l) j = []).
  { intros j. unfold handshake_before. rewrite Hst. by destruct side. }
  destruct (reader_turn (unread (arriving (link_end side l)))) as [m rest|e] eqn:Ht.
  - intros [= <-]. split; [|by apply (quiet_proc i p)].
    destruct (sys_links _ _ Hs t l side Hl) as (_ & Ha & _).
    apply (sys_arriving w (set_proc i _ s)); try done.
    + apply (sys_proc w w s i p); [done..|by apply evolves_refl|].
      destruct Hpr. split; try done. cbn. intros m' [Hm|Hm]%elem_of_app; [auto|].
      apply list_elem_of_singleton in Hm as ->.
      destruct (owner (link_end (opposite side) l)) as [j|] eqn:Hj.
      * left. pose proof (Ha i j Ho Hj) as Hpipe. rewrite Hb in Hpipe. by eapply pipe_ok_read.
      * right. by eapply Hstr.
    + cbn. intros i' j _ _. rewrite Hb. intros Hpipe. by eapply pipe_ok_read.
  - assert (∀ p', on_net (reader_end (goes_by (link_end side l))) p = Some p' →
      sys_ok w (set_link t (set_end side ((link_end side l) <| reading := false |>) l)
        (set_proc i p' s)) ∧ quiet s (set_proc i p' s)) as Hend.
    { intros p' (n & E & ->)%on_net_inv. split; [|by apply (quiet_proc i p)].
      apply (reader_end_evolves w) in E.
      apply (sys_arriving w (set_proc i _ s)); try done.
      apply (sys_proc w w s i p); [done..|by apply proc_ok_net]. }
    destruct (on_net _ p) as [p'|] eqn:E.
    + destruct (Hend p' eq_refl) as [Hs' Hq].
      destruct e; [destruct (closed _)|..]; intros [= <-]; (split; [exact Hs'|exact Hq]).
    + destruct e; [destruct (closed _)|..]; done.
Qed.

Lemma write_step_ok w s s' t side :
  (∀ l i p c m n, running_end t side s = Some (l, i, p, c) →
     writer_recv c (proc_net p) = Some (m, n) → frame_fits m) →
  sys_ok w s → write_step t side s = Some s' → sys_ok w s' ∧ quiet s s'.
Proof using Type.
  intros Hfit Hs. unfold write_step.
  destruct (running_end t side s) as [[[[l i] p] c]|] eqn:Hr; [|done]. cbn [mbind option_bind].
  specialize (Hfit l i p c). destruct (running_end_inv _ _ _ _ _ _ _ Hr) as (Hl & Ho & Hp & Hst).
  destruct (writer_recv c (proc_net p)) as [[m n]|] eqn:Hw; [|done]. cbn. intros [= <-].
  split; [|by apply (quiet_proc i p)]. specialize (Hfit m n eq_refl eq_refl).
  destruct (writer_recv_evolves w _ _ _ _ Hw) as (Hev & q & Hq & Hm).
  destruct (sys_links _ _ Hs t l side Hl) as (Hc & _ & _).
  destruct (Hc i c p Ho Hst Hp) as (_ & _ & Hsent).
  apply (sys_arriving w (set_proc i _ s)); try done.
  - apply (sys_proc w w s i p); [done..|]. by apply proc_ok_net, Hev; apply (sys_procs _ _ Hs).
  - cbn. intros j k Hj Hk. apply pipe_ok_write; [by eapply Hsent|done].
Qed.

Lemma writer_ends_ok w s s' t side :
  sys_ok w s → writer_ends t side s = Some s' → sys_ok w s' ∧ quiet s s'.
Proof using Type.
  intros Hs. unfold writer_ends.
  destruct (running_end t side s) as [[[[l i] p] c]|] eqn:Hr; [|done]. cbn [mbind option_bind].
  destruct (running_end_inv _ _ _ _ _ _ _ Hr) as (Hl & Ho & Hp & Hst).
  destruct (_ || _); [|done]. destruct (on_net _ p) as [p'|] eqn:E; [|done]. cbn. intros [= <-].
  apply on_net_inv in E as (n & E & ->). apply (writer_end_evolves w) in E.
  split; [|by apply (quiet_proc i p)]. apply (drop_stream_ok w (set_proc i _ s)); [|done].
  apply (sys_proc w w s i p); [done..|]. by apply proc_ok_net; [apply (sys_procs _ _ Hs)|].
Qed.

(** A new connection, in the backlog of a node. *)
Lemma dial_in_ok w s q pq l :
  sys_ok w s → procs s !! q = Some pq → owner (acceptor l) = Some q → stage (acceptor l) = Waiting →
  (∀ side, end_ok w (procs s) l side) →
  sys_ok w (set_proc q (pq <| backlog := backlog pq ++ [length (links s)] |>)
    {| procs := procs s; links := links s ++ [l] |}).
Proof using Type.
  intros Hs Hq Ho Hst He. pose proof (sys_procs _ _ Hs q pq Hq) as Hpq.
  assert (Hlen : ∀ i p, procs s !! i = Some p → length (links s) ∉ backlog p).
  { intros i p Hp Hin. pose proof (pr_backlog _ _ _ _ (sys_procs _ _ Hs i p Hp)) as Hb.
    rewrite Forall_forall in Hb. destruct (Hb _ Hin) as (m & Hm & _).
    apply lookup_lt_Some in Hm. lia. }
  assert (Hk : keeps (length (links s)) (links s) (links s ++ [l])).
  { intros u m Hm. exists m. rewrite lookup_app_l by (by eapply lookup_lt_Some). done. }
  assert (sys_ok w {| procs := procs s; links := links s ++ [l] |}) as Hs'.
  { split; cbn.
    - intros i p Hp. eapply proc_ok_links; [done|exact Hk|by eapply Hlen|by apply (sys_procs _ _ Hs)].
    - intros t m side [Hm|[_ Hm]]%lookup_app_Some; [by eapply (sys_links _ _ Hs)|].
      apply list_lookup_singleton_Some in Hm as [_ <-]. apply He. }
  apply (sys_proc w w {| procs := procs s; links := links s ++ [l] |} q pq);
    [done..|apply evolves_refl|].
  destruct (sys_procs _ _ Hs' q pq Hq). split; try done; cbn in *.
  - apply Forall_app_2; [done|]. apply Forall_singleton. exists l.
    rewrite lookup_app_r, Nat.sub_diag by done. done.
  - apply NoDup_app. split_and!; [done| |apply NoDup_singleton].
    intros u Hu ->%list_elem_of_singleton. by eapply Hlen.
Qed.

Lemma stranger_connects_ok w s s' i :
  sys_ok w s → stranger_connects i s = Some s' → sys_ok w s' ∧ quiet s s'.
Proof using Type.
  intros Hs. unfold stranger_connects. destruct (procs s !! i) as [p|] eqn:Hp; [|done].
  cbn [mbind option_bind]. intros [= <-]. split.
  - apply dial_in_ok; try done.
    intros [|]; split_and!; unfold channel_ok, arriving_ok; cbn; naive_solver.
  - by apply (quiet_proc i p _ {| procs := procs s; links := _ |}).
Qed.

Lemma consider_ok w s s' i q :
  sys_ok w s → consider_peer i q s = Some s' → sys_ok w s' ∧ quiet s s'.
Proof using Type.
  intros Hs. unfold consider_peer. destruct (procs s !! i) as [p|] eqn:Hp; [|done].
  cbn [mbind option_bind]. destruct (reconnecting p); try done.
  destruct (registry (proc_net p) !! q) as [a|] eqn:Ha; [|done]. cbn [mbind option_bind].
  case_decide; [done|]. case_decide; [done|]. intros [= <-]. split; [|by apply (quiet_proc i p)].
  pose proof (sys_procs _ _ Hs i p Hp) as [].
  apply (sys_proc w w s i p); [done..|apply evolves_refl|]. split; try done. by apply pr_registry0.
Qed.

(** A change of the reconnection loop. *)
Lemma set_reconnecting_ok w s i p r :
  sys_ok w s → procs s !! i = Some p → reconnecting_ok i (links s) r →
  sys_ok w (set_proc i (p <| reconnecting := r |>) s) ∧
  quiet s (set_proc i (p <| reconnecting := r |>) s).
Proof using Type.
  intros Hs Hp Hr. split; [|by apply (quiet_proc i p)].
  pose proof (sys_procs _ _ Hs i p Hp) as [].
  by apply (sys_proc w w s i p); [done..|apply evolves_refl|].
Qed.

Lemma connect_ok w s s' i d :
  sys_ok w s → connect_step listens i d s = Some s' → sys_ok w s' ∧ quiet s s'.
Proof using Type.
  intros Hs. unfold connect_step. destruct (procs s !! i) as [p|] eqn:Hp; [|done].
  cbn [mbind option_bind]. pose proof (sys_procs _ _ Hs i p Hp) as Hpr.
  destruct (reconnecting p) as [|q a| |] eqn:Hr; try done.
  destruct d as [|greeted]; [intros [= <-]; by apply set_reconnecting_ok|].
  assert (listens a = Some q) as -> by (pose proof (pr_reconnecting _ _ _ _ Hpr) as H'; by rewrite Hr in H').
  cbn [mbind option_bind]. destruct (procs s !! q) as [pq|] eqn:Hq; [|done]. cbn [mbind option_bind].
  match goal with |- context [links s ++ [?m]] => set (l := m) end.
  assert (owner (acceptor l) = Some q ∧ owner (dialer l) = Some i ∧ stage (acceptor l) = Waiting ∧
    stage (dialer l) = Waiting ∧ goes_by (dialer l) = q ∧
    pipe_ok w q (write_handshake i) (arriving (acceptor l)) ∧
    pipe_ok w i [] (arriving (dialer l))) as (Ha & Hd & Hsa & Hsd & Hg & Hpa & Hpd).
  { unfold l. rewrite (pr_id _ _ _ _ Hpr). destruct greeted; cbn; split_and!; try done.
    - exists [], (length (write_handshake i)). unfold writer_task. cbn. rewrite app_nil_r, take_ge by done.
      done.
    - by exists [], 0.
    - by exists [], 0.
    - by exists [], 0. }
  set (s1 := set_proc q _ _). assert (sys_ok w s1 ∧ quiet s s1) as [Hs1 Hq1].
  { split; [|by apply (quiet_proc q pq _ {| procs := procs s; links := _ |})].
    apply dial_in_ok; try done. intros [|]; split_and!; cbn [link_end opposite].
    - intros j c p' _ Hst. congruence.
    - intros j k. rewrite Hd, Ha. intros [= <-] [= <-]. done.
    - intros _ j. rewrite Hd. intros [= <-]. rewrite Hg. split; [apply Hpr|done].
    - intros j c p' _ Hst. congruence.
    - intros j k. rewrite Hd, Ha. intros [= <-] [= <-]. unfold handshake_before. by rewrite Hsa.
    - done. }
  destruct (procs s1 !! i) as [p1|] eqn:Hp1; [|done]. cbn [mbind option_bind]. intros [= <-].
  destruct (set_reconnecting_ok w s1 i p1 (if greeted then Greeted (length (links s)) else Idle))
    as [Hs2 Hq2]; [done..| |].
  - destruct greeted; [|done]. exists l. unfold s1. cbn.
    by rewrite lookup_app_r, Nat.sub_diag by done.
  - split; [done|]. unfold quiet in *. by rewrite Hq2.
Qed.

Lemma check_ok w s s' i : sys_ok w s → check_step i s = Some s' → sys_ok w s' ∧ quiet s s'.
Proof using Type.
  intros Hs. unfold check_step. destruct (procs s !! i) as [p|] eqn:Hp; [|done].
  cbn [mbind option_bind]. pose proof (sys_procs _ _ Hs i p Hp) as Hpr.
  destruct (reconnecting p) as [| |t|] eqn:Hr; try done.
  destruct (links s !! t) as [l|] eqn:Hl; [|done]. cbn [mbind option_bind].
  case_decide; intros [= <-].
  - destruct (set_reconnecting_ok w s i p Idle) as [Hs' Hq]; [done..|].
    split; [|exact Hq]. by apply (drop_stream_ok w (set_proc i _ s)).
  - apply set_reconnecting_ok; [done..|]. pose proof (pr_reconnecting _ _ _ _ Hpr) as Hd.
    by rewrite Hr in Hd.
Qed.

(** The tasks of a connection are spawned at [side] by node [i], for a peer
    that its other end may belong to. *)
Lemma spawn_end_ok w ps i p n side l peer e' f :
  f = link_end (opposite side) l → owner e' = Some i → stage e' = Running (next_connection n) →
  owner f = None ∨ owner f = Some peer → table_ok n →
  ps !! i = Some p → spawn_connection_tasks peer n = (Ok (), proc_net p) →
  channel_ok w ps e' f.
Proof using Type.
  intros -> Ho Hst Hf Hn Hp E. destruct (spawn_evolves w peer n _ E) as (_ & Hnext & Hch & Hq).
  intros j c pj Hj Hc Hpj. assert (j = i) as -> by congruence. rewrite Hp in Hpj.
  injection Hpj as <-. assert (c = next_connection n) as -> by congruence. split_and!; [lia| |].
  - intros q ->%Hq; done.
  - intros k q m _ Hk Hm. rewrite Hch in Hk. injection Hk as <-. by apply elem_of_nil in Hm.
Qed.

Lemma spawn_ok w s s' i : sys_ok w s → spawn_step i s = Some s' → sys_ok w s' ∧ quiet s s'.
Proof using Type.
  intros Hs. unfold spawn_step. destruct (procs s !! i) as [p|] eqn:Hp; [|done].
  cbn [mbind option_bind]. pose proof (sys_procs _ _ Hs i p Hp) as Hpr.
  destruct (reconnecting p) as [| | |t] eqn:Hr; try done.
  pose proof (pr_reconnecting _ _ _ _ Hpr) as Hd. rewrite Hr in Hd. destruct Hd as (l & Hl & Ho).
  rewrite Hl. cbn [mbind option_bind].
  destruct (on_net _ _) as [p'|] eqn:E; [|done]. cbn [mbind option_bind]. intros [= <-].
  apply on_net_inv in E as (n & E & ->). cbn [proc_net upd] in E.
  destruct (set_reconnecting_ok w s i p Idle) as [Hs1 Hq1]; [done..|].
  set (p1 := p <| reconnecting := Idle |>) in *. set (s1 := set_proc i p1 s) in *.
  assert (Hp1 : procs s1 !! i = Some p1) by apply lookup_insert_eq.
  destruct (spawn_evolves w _ _ _ E) as (Hev & _).
  assert (sys_ok w (set_proc i (p1 <| proc_net := n |>) s1)) as Hs2.
  { apply (sys_proc w w s1 i p1); [done..|]. apply proc_ok_net; [|done]. by apply (sys_procs _ _ Hs1). }
  assert (set_proc i (p1 <| proc_net := n |>) s1 = set_proc i (p1 <| proc_net := n |>) s) as E2.
  { unfold s1, set_proc. cbn. by rewrite insert_insert_eq. }
  rewrite E2 in Hs2. split; [|by apply (quiet_proc i p)].
  destruct (sys_links _ _ Hs t l Dialing Hl) as (_ & Ha & Hg).
  eapply (sys_link w (set_proc i _ s)); [done|exact Hl|done|done|by left|].
  apply (set_end_ok w _ l Dialing); [by intros side; eapply (sys_links _ _ Hs2)|done|].
  split_and!; cbn [link_end opposite set_end dialer acceptor].
  - eapply (spawn_end_ok w _ i (p1 <| proc_net := n |>) (proc_net p) Dialing l); try done.
    + right. by apply (Hg eq_refl i).
    + apply Hpr.
    + apply lookup_insert_eq.
  - intros j k Hj Hk. by apply (Ha j k).
  - intros _ j Hj. by apply (Hg eq_refl).
Qed.

(** The listener takes a connection out of its backlog. *)
Lemma backlog_ok w s i p t rest :
  sys_ok w s → procs s !! i = Some p → backlog p = t :: rest →
  sys_ok w (set_proc i (p <| backlog := rest |>) s) ∧
  (∃ l, links s !! t = Some l ∧ owner (acceptor l) = Some i ∧ stage (acceptor l) = Waiting) ∧
  ∀ j pj, procs (set_proc i (p <| backlog := rest |>) s) !! j = Some pj → t ∉ backlog pj.
Proof using Type.
  intros Hs Hp Hb. pose proof (sys_procs _ _ Hs i p Hp) as Hpr.
  pose proof (pr_backlog _ _ _ _ Hpr) as Hw. pose proof (pr_once _ _ _ _ Hpr) as Hnd.
  rewrite Hb in Hw, Hnd. apply Forall_cons in Hw as [Ht Hrest].
  apply NoDup_cons in Hnd as [Hnt Hnd]. split_and!.
  - apply (sys_proc w w s i p); [done..|apply evolves_refl|]. by destruct Hpr.
  - exact Ht.
  - intros j pj. cbn [procs set_proc]. intros [[<- <-]|[Hne Hj]]%lookup_insert_Some; [done|]. intros Hin.
    pose proof (pr_backlog _ _ _ _ (sys_procs _ _ Hs j pj Hj)) as Hwj.
    rewrite Forall_forall in Hwj. destruct (Hwj t Hin) as (m & Hm & Hom & _).
    destruct Ht as (l & Hl & Hol & _). congruence.
Qed.

Lemma accept_step_ok w s s' i : sys_ok w s → accept_step i s = Some s' → sys_ok w s' ∧ quiet s s'.
Proof using Type.
  intros Hs. unfold accept_step. destruct (procs s !! i) as [p|] eqn:Hp; [|done].
  cbn [mbind option_bind]. destruct (backlog p) as [|t rest] eqn:Hb; [done|].
  destruct (backlog_ok w s i p t rest Hs Hp Hb) as (Hs1 & (l & Hl & Ho & Hst) & Hnot).
  set (p1 := p <| backlog := rest |>) in *. rewrite Hl. cbn [mbind option_bind].
  set (e := acceptor l) in *. destruct (sys_links _ _ Hs t l Accepting Hl) as (_ & Ha & _).
  destruct (sys_links _ _ Hs t l Dialing Hl) as (_ & _ & Hg).
  destruct (read_handshake (unread (arriving e))) as [[peer b]|] eqn:Hr.
  2:{ destruct (closed (arriving e)); [|done]. intros [= <-]. split; [|by apply (quiet_proc i p)].
      by apply (drop_stream_ok w (set_proc i p1 s)). }
  destruct (on_net _ p1) as [p2|] eqn:E; [|done]. cbn [mbind option_bind]. intros [= <-].
  apply on_net_inv in E as (n & E & ->). unfold handle_incoming_connection in E. rewrite Hr in E.
  set (s1 := set_proc i p1 s) in *. assert (Hp1 : procs s1 !! i = Some p1) by apply lookup_insert_eq.
  destruct (spawn_evolves w _ _ _ E) as (Hev & _).
  assert (sys_ok w (set_proc i (p1 <| proc_net := n |>) s)) as Hs2.
  { assert (set_proc i (p1 <| proc_net := n |>) s1 = set_proc i (p1 <| proc_net := n |>) s) as <-
      by (unfold s1, set_proc; cbn; by rewrite insert_insert_eq).
    apply (sys_proc w w s1 i p1); [done..|]. apply proc_ok_net; [|done]. by apply (sys_procs _ _ Hs1). }
  split; [|by apply (quiet_proc i p)].
  assert (Hread : ∀ j, owner (dialer l) = Some j → peer = j ∧
    pipe_ok w i [] {| unread := b; closed := closed (arriving e) |}).
  { intros j Hj. pose proof (Ha i j Ho Hj) as Hpipe. cbn [link_end] in Hpipe. fold e in Hpipe.
    unfold handshake_before in Hpipe. rewrite Hst in Hpipe.
    by apply (pipe_ok_accept w i j (arriving e)); [apply (Hg eq_refl j Hj)|..]. }
  eapply (sys_link w (set_proc i _ s)); [done|exact Hl|done|done| |].
  - right. intros j pj. cbn [procs set_proc]. intros [[<- <-]|[Hne Hj]]%lookup_insert_Some;
      [by apply (Hnot i p1)|].
    apply (Hnot j). cbn. by rewrite lookup_insert_ne.
  - apply (set_end_ok w _ l Accepting); [by intros side; eapply (sys_links _ _ Hs2)|done|].
    split_and!; cbn [link_end opposite set_end dialer acceptor]; [| |done].
    + eapply (spawn_end_ok w _ i (p1 <| proc_net := n |>) (proc_net p) Accepting l); try done.
      * destruct (owner (dialer l)) as [j|] eqn:Hj; [right|by left].
        f_equal. symmetry. by apply Hread.
      * by apply (sys_procs _ _ Hs i p Hp).
      * apply lookup_insert_eq.
    + intros j k Hj Hk. assert (j = i) as -> by (unfold e in *; cbn in Hj; congruence).
      by apply (Hread k).
Qed.

(** ** The runs of the system *)

(** What may happen: the terms do not run out, the services are asked for no
    change of the membership, no message is longer than the four bytes of a
    length can say, and other programs send only what clients send. *)
Definition term_left (i : NodeId) (s : System) : Prop :=
  match procs s !! i with Some p => (current_term (proc_node p) < u64_max)%Z | None => True end.

Definition admissible (a : Action) (s : System) : Prop :=
  match a with
  | TakeMessage i _ | TickNode i _ => term_left i s
  | Serve i request _ => term_left i s ∧ incoming_ok allowed i [] (InService request)
  | WriteOne t side =>
      match running_end t side s with
      | Some (_, _, p, c) =>
          match writer_recv c (proc_net p) with Some (m, _) => frame_fits m | None => True end
      | None => True
      end
  | ReadOne t side =>
      match running_end t side s with
      | Some (l, _, _, _) =>
          match owner (link_end (opposite side) l), reader_turn (unread (arriving (link_end side l))) with
          | None, Arrived m _ => client allowed m
          | _, _ => True
          end
      | None => True
      end
  | _ => True
  end.

Definition tcp_step (s s' : System) : Prop :=
  ∃ a, admissible a s ∧ perform listens a s = Some s'.

(** Nodes that were just made and started, and know where the others listen. *)
Definition started (s : System) : Prop :=
  links s = [] ∧ fresh cluster db0 (proc_node <$> procs s) ∧
  ∀ i p, procs s !! i = Some p → in_u64 (node_id i) ∧ ∃ peers,
    p = start_process i peers (proc_node p) ∧ ∀ j a, peers !! j = Some a → listens a = Some j.

Definition tcp_reachable (s : System) : Prop := ∃ s0, started s0 ∧ rtc tcp_step s0 s.

Definition net_of (s : System) (w : sends) : Net := {| net_nodes := proc_node <$> procs s; wire := w |}.

Lemma started_ok s : started s → sys_ok [] s.
Proof using Type.
  intros (Hl & _ & Hs). split.
  - intros i p Hp. destruct (Hs i p Hp) as (Hi & peers & -> & Hr).
    split; cbn; try done; try (by apply NoDup_nil); [|by intros m Hm%elem_of_nil].
    split; cbn; intros *; rewrite ?lookup_empty; done.
  - intros t l side Ht. by rewrite Hl in Ht.
Qed.

Lemma runtime_ok w s s' i event now :
  sys_ok w s → term_left i s → incoming_ok allowed i w event →
  runtime_step i event now s = Some s' →
  ∃ w', sys_ok w' s' ∧ net_step allowed (net_of s w) (net_of s' w').
Proof using Type.
  intros Hs Ht Hin. unfold runtime_step, term_left in *.
  destruct (procs s !! i) as [p|] eqn:Hp; [|done]. cbn [mbind option_bind].
  destruct (turn event now (proc_node p)) as [[msgs|e|x] node] eqn:E; [|done..].
  destruct (sends_evolve (msgs ++ w) msgs (proc_net p)) as (n & En & Hev).
  { intros x Hx. apply elem_of_app. by left. }
  unfold on_net. cbn [proc_net upd upd_proc_node]. rewrite En. cbn [mbind option_bind].
  intros [= <-]. exists (msgs ++ w). split.
  - pose proof (sys_procs _ _ Hs i p Hp) as Hpr.
    assert (∀ x, x ∈ w → x ∈ msgs ++ w) as Hw by (intros x Hx; apply elem_of_app; by right).
    apply (sys_proc w _ s i p); [done..|].
    apply (proc_ok_net _ _ _ (p <| proc_node := node |>)); [|done].
    assert (proc_ok (msgs ++ w) (links s) i p) as [].
    { eapply (proc_ok_links w _ (length (links s)) (links s)); [done| | |done].
      - intros u l Hl. by exists l.
      - intros Hb. pose proof (pr_backlog _ _ _ _ Hpr) as Hf. rewrite Forall_forall in Hf.
        destruct (Hf _ Hb) as (l & Hl & _). apply lookup_lt_Some in Hl. lia. }
    by split.
  - unfold net_of. cbn [procs set_proc]. rewrite fmap_insert. cbn [proc_node upd upd_proc_net].
    eapply (net_turn allowed (net_of s w)); [|exact Hin|exact Ht|exact E].
    cbn. by rewrite lookup_fmap, Hp.
Qed.

Lemma take_message_ok w s s' i now :
  sys_ok w s → term_left i s → take_message i now s = Some s' →
  ∃ w', sys_ok w' s' ∧ net_step allowed (net_of s w) (net_of s' w').
Proof using Type.
  intros Hs Ht. unfold take_message. destruct (procs s !! i) as [p|] eqn:Hp; [|done].
  cbn [mbind option_bind]. destruct (queue p) as [|m q] eqn:Hq; [done|]. intros E.
  pose proof (sys_procs _ _ Hs i p Hp) as Hpr.
  assert (quiet s (set_proc i (p <| queue := q |>) s)) as Hquiet by by apply (quiet_proc i p).
  assert (net_of s w = net_of (set_proc i (p <| queue := q |>) s) w) as ->
    by (unfold net_of; by rewrite Hquiet).
  eapply runtime_ok; [| | |exact E].
  - apply (sys_proc w w s i p); [done..|apply evolves_refl|]. destruct Hpr. split; try done.
    cbn. intros m' Hm. apply pr_queue0. rewrite Hq. by right.
  - unfold term_left in *. rewrite Hp in Ht. cbn [procs set_proc]. by rewrite lookup_insert_eq.
  - cbn. destruct (pr_queue _ _ _ _ Hpr m) as [Hm|Hm]; [rewrite Hq; by left|by left|by right; left].
Qed.

Lemma perform_ok w s s' a :
  sys_ok w s → admissible a s → perform listens a s = Some s' →
  ∃ w', sys_ok w' s' ∧ rtc (net_step allowed) (net_of s w) (net_of s' w').
Proof using Type*.
  intros Hs Ha E.
  assert (Hquiet : sys_ok w s' ∧ quiet s s' →
    ∃ w', sys_ok w' s' ∧ rtc (net_step allowed) (net_of s w) (net_of s' w')).
  { intros [Hs' Hq]. exists w. split; [done|]. unfold net_of. by rewrite Hq. }
  assert (Hturn : (∃ w', sys_ok w' s' ∧ net_step allowed (net_of s w) (net_of s' w')) →
    ∃ w', sys_ok w' s' ∧ rtc (net_step allowed) (net_of s w) (net_of s' w')).
  { intros (w' & Hs' & Hn). exists w'. split; [done|by apply rtc_once]. }
  destruct a as [i now|i r now|i now|i|i q|i d|i|i|t side|t side|t side|t side k|i|t b]; cbn in Ha, E.
  - by apply Hturn, (take_message_ok _ _ _ i now).
  - apply Hturn, (runtime_ok w s s' i (InService r) now); by try apply Ha.
  - by apply Hturn, (runtime_ok w s s' i InTick now).
  - by apply Hquiet, (accept_step_ok _ _ _ i).
  - by apply Hquiet, (consider_ok _ _ _ i q).
  - by apply Hquiet, (connect_ok _ _ _ i d).
  - by apply Hquiet, (check_ok _ _ _ i).
  - by apply Hquiet, (spawn_ok _ _ _ i).
  - apply Hquiet, (write_step_ok _ _ _ t side); try done. intros l i p c m n Hr Hw.
    by rewrite Hr, Hw in Ha.
  - by apply Hquiet, (writer_ends_ok _ _ _ t side).
  - apply Hquiet, (read_ok _ _ _ t side); try done. intros l i p c m rest Hr Ho Ht.
    by rewrite Hr, Ho, Ht in Ha.
  - by apply Hquiet, (break_ok _ _ _ t side k).
  - by apply Hquiet, (stranger_connects_ok _ _ _ i).
  - by apply Hquiet, (stranger_writes_ok _ _ _ t b).
Qed.

Lemma tcp_reachable_ok s :
  tcp_reachable s → ∃ w, sys_ok w s ∧ net_reachable cluster db0 allowed (net_of s w).
Proof using Type*.
  intros (s0 & H0' & Hs). assert (∃ w, sys_ok w s0 ∧ net_reachable cluster db0 allowed (net_of s0 w)) as Hw.
  { exists []. split; [by apply started_ok|]. exists (proc_node <$> procs s0). split; [apply H0'|done]. }
  clear H0'. induction Hs as [s|s s1 s' (a & Ha & E) _ IH]; [done|]. apply IH.
  destruct Hw as (w & Hs & nodes & Hf & Hn). destruct (perform_ok w s s1 a Hs Ha E) as (w' & Hs' & Hr).
  exists w'. split; [done|]. exists nodes. split; [done|by etrans].
Qed.

(** C6: Nodes that run over TCP, with all their tasks in any order and
    connections that break anywhere and are made again, are a cluster on the
    network of [Cluster.v]: their states are reachable there, and what a node
    finds in its channel was sent to it or is the message of a client. *)
Theorem tcp_refines_network s :
  tcp_reachable s →
  ∃ c, net_reachable cluster db0 allowed c ∧
    (∀ i, net_nodes c !! i = proc_node <$> procs s !! i) ∧
    ∀ i p m, procs s !! i = Some p → m ∈ queue p → (i, m) ∈ wire c ∨ client allowed m.
Proof using Type*.
  intros (w & Hs & Hn)%tcp_reachable_ok. exists (net_of s w). split_and!; [done| |].
  - intros i. cbn. by rewrite lookup_fmap.
  - intros i p m Hp Hm. by apply (pr_queue _ _ _ _ (sys_procs _ _ Hs i p Hp)).
Qed.

(** So what is committed on two of them is the same. *)
Theorem tcp_state_machine_safety s i j p q k :
  allowed (Set_ [] (String [])) → tcp_reachable s → procs s !! i = Some p → procs s !! j = Some q →
  let a := proc_node p in let b := proc_node q in
  k ≤ commit_index a ∨ k ≤ last_applied a → k ≤ commit_index b ∨ k ≤ last_applied b →
  ∃ e, log a !! k = Some e ∧ log b !! k = Some e.
Proof using Type*.
  intros Hal (w & _ & Hn)%tcp_reachable_ok Hp Hq.
  destruct (net_reachable_inv _ _ _ _ Hal Hn) as (h & Hf & _).
  intros a b. by eapply (fits_committed_agree _ _ _ Hf i j);
    cbn; rewrite lookup_fmap, ?Hp, ?Hq.
Qed.

(** ** A listener that waits

    The first connection in the backlog of node [i] is one of another program,
    is open, and has not sent the eight bytes of its handshake. [rest] are the
    connections behind it. *)
Definition held (i : NodeId) (t : nat) (rest : list nat) (s : System) : Prop :=
  ∃ p l more, procs s !! i = Some p ∧ backlog p = t :: rest ++ more ∧
    links s !! t = Some l ∧ owner (dialer l) = None ∧ stage (acceptor l) = Waiting ∧
    closed (arriving (acceptor l)) = false ∧ length (unread (arriving (acceptor l))) < 8.

(** Neither does the program write nor does its connection break. *)
Definition leaves (t : nat) (a : Action) : Prop :=
  match a with StrangerWrites u _ => u ≠ t | Break u _ _ => u ≠ t | _ => True end.

Lemma held_proc i t rest s j p p' :
  procs s !! j = Some p → (j = i → ∃ more, backlog p' = backlog p ++ more) →
  held i t rest s → held i t rest (set_proc j p' s).
Proof using Type.
  intros Hj Hm (q & l & more & Hq & Hbq & Hl). destruct (decide (j = i)) as [->|Hne].
  - destruct (Hm eq_refl) as [more' Hb]. assert (q = p) as -> by congruence. exists p', l, (more ++ more'). cbn.
    rewrite lookup_insert_eq. split; [done|]. split; [|done].
    by rewrite Hb, Hbq, app_assoc.
  - exists q, l, more. cbn. by rewrite lookup_insert_ne.
Qed.

Lemma held_link i t rest s u l : u ≠ t → held i t rest s → held i t rest (set_link u l s).
Proof using Type.
  intros Hu (q & m & more & Hq & Hb & Hm & Hrest). exists q, m, more. cbn.
  by rewrite list_lookup_insert_ne.
Qed.

Lemma held_append i t rest s l :
  held i t rest s → held i t rest {| procs := procs s; links := links s ++ [l] |}.
Proof using Type.
  intros (q & m & more & Hq & Hb & Hm & Hrest). exists q, m, more. cbn.
  rewrite lookup_app_l by (by eapply lookup_lt_Some). done.
Qed.

(** No other task has to do with the connection. *)
Lemma held_other i t rest w s :
  sys_ok w s → held i t rest s →
  (∀ side u l j p c, running_end u side s = Some (l, j, p, c) → u ≠ t) ∧
  (∀ j p u, procs s !! j = Some p → reconnecting p = Greeted u ∨ reconnecting p = Checked u → u ≠ t) ∧
  ∀ j p u bs, procs s !! j = Some p → backlog p = u :: bs → j ≠ i → u ≠ t.
Proof using Type.
  intros Hs (q & m & more & Hq & Hb & Hm & Ho & Hst & Hrest). split_and!.
  - intros side u l j p c Hr ->. apply running_end_inv in Hr as (Hl & Hj & _ & Hc).
    assert (l = m) as -> by congruence. destruct side; cbn in *; congruence.
  - intros j p u Hp Hr ->. pose proof (pr_reconnecting _ _ _ _ (sys_procs _ _ Hs j p Hp)) as Hd.
    destruct Hr as [Hr|Hr]; rewrite Hr in Hd; destruct Hd as (l & Hl & Hj); congruence.
  - intros j p u bs Hp Hbj Hne ->. pose proof (pr_backlog _ _ _ _ (sys_procs _ _ Hs j p Hp)) as Hf.
    rewrite Hbj in Hf. apply Forall_cons in Hf as [(l & Hl & Hj & _) _].
    pose proof (pr_backlog _ _ _ _ (sys_procs _ _ Hs i q Hq)) as Hi. rewrite Hb in Hi.
    apply Forall_cons in Hi as [(l' & Hl' & Hj' & _) _]. congruence.
Qed.

Lemma on_net_backlog m (p p' : Process) : on_net m p = Some p' → backlog p' = backlog p.
Proof using Type. by intros (n & _ & ->)%on_net_inv. Qed.

Lemma held_same i t rest s j p p' :
  procs s !! j = Some p → backlog p' = backlog p → held i t rest s → held i t rest (set_proc j p' s).
Proof using Type.
  intros Hp Hb. apply (held_proc _ _ _ _ _ p); [done|]. exists []. by rewrite app_nil_r.
Qed.

Lemma held_runtime i t rest s s' j event now :
  held i t rest s → runtime_step j event now s = Some s' → held i t rest s'.
Proof using Type.
  intros Hh. unfold runtime_step. destruct (procs s !! j) as [p|] eqn:Hp; [|done].
  cbn [mbind option_bind]. destruct (turn event now (proc_node p)) as [[msgs|e|x] node]; [|done..].
  destruct (on_net _ _) as [p'|] eqn:E; [|done]. cbn [mbind option_bind]. intros [= <-].
  apply on_net_backlog in E. by eapply held_same.
Qed.

Lemma held_accept i t rest w s s' j :
  sys_ok w s → held i t rest s → accept_step j s = Some s' → held i t rest s'.
Proof using Type.
  intros Hs Hh. destruct (held_other i t rest w s Hs Hh) as (_ & _ & Hother). unfold accept_step.
  destruct (procs s !! j) as [p|] eqn:Hp; [|done]. cbn [mbind option_bind].
  destruct (backlog p) as [|u bs] eqn:Hb; [done|]. destruct (links s !! u) as [l|] eqn:Hl; [|done].
  cbn [mbind option_bind]. destruct (decide (j = i)) as [->|Hne].
  - destruct Hh as (q & m & more & Hq & Hbq & Hm & _ & _ & Hcl & H8).
    assert (u = t) as -> by congruence. assert (m = l) as -> by congruence.
    unfold read_handshake. rewrite read_exact_short by done. by rewrite Hcl.
  - pose proof (Hother j p u bs Hp Hb Hne) as Hu.
    assert (∀ p' l', backlog p' = bs → held i t rest (set_link u l' (set_proc j p' s))) as Hres.
    { intros p' l' _. apply held_link; [done|]. by eapply held_proc. }
    destruct (read_handshake _) as [[peer b]|].
    + destruct (on_net _ _) as [p'|] eqn:E; [|done]. cbn [mbind option_bind]. intros [= <-].
      apply Hres. by apply on_net_backlog in E.
    + destruct (closed _); [|done]. intros [= <-]. by apply Hres.
Qed.

Lemma held_connect i t rest w s s' j d :
  sys_ok w s → held i t rest s → connect_step listens j d s = Some s' → held i t rest s'.
Proof using Type.
  intros Hs Hh. unfold connect_step. destruct (procs s !! j) as [p|] eqn:Hp; [|done].
  cbn [mbind option_bind]. destruct (reconnecting p) as [|peer a| |]; try done.
  destruct d as [|greeted]; [intros [= <-]; by eapply held_same|].
  destruct (listens a) as [q|]; [|done]. cbn [mbind option_bind].
  destruct (procs s !! q) as [pq|] eqn:Hq; [|done]. cbn [mbind option_bind].
  set (s1 := set_proc q _ _). destruct (procs s1 !! j) as [p1|] eqn:Hp1; [|done].
  cbn [mbind option_bind]. intros [= <-]. eapply held_same; [exact Hp1|done|].
  eapply held_proc; [exact Hq|by intros _; eexists|by apply held_append].
Qed.

(** The tasks of a connection. *)
Lemma held_tasks i t rest w s s' u side :
  sys_ok w s → held i t rest s →
  write_step u side s = Some s' ∨ writer_ends u side s = Some s' ∨ read_step u side s = Some s' →
  held i t rest s'.
Proof using Type.
  intros Hs Hh E. destruct (held_other i t rest w s Hs Hh) as (Hu & _ & _).
  destruct (running_end u side s) as [[[[l j] p] c]|] eqn:Hr.
  2:{ unfold write_step, writer_ends, read_step in E. rewrite Hr in E. by destruct E as [|[]]. }
  specialize (Hu side u l j p c Hr). destruct (running_end_inv _ _ _ _ _ _ _ Hr) as (_ & _ & Hp & _).
  assert (∀ p' l', backlog p' = backlog p → held i t rest (set_link u l' (set_proc j p' s))) as Hres.
  { intros p' l' Hb. apply held_link; [done|]. by eapply held_same. }
  unfold write_step, writer_ends, read_step in E. rewrite Hr in E. cbn [mbind option_bind] in E.
  destruct E as [E|[E|E]].
  - destruct (writer_recv _ _) as [[m n]|]; [|done]. cbn [mbind option_bind] in E.
    injection E as <-. by apply Hres.
  - destruct (_ || _); [|done]. destruct (on_net _ _) as [p'|] eqn:En; [|done].
    cbn [mbind option_bind] in E. injection E as <-. by eapply Hres, on_net_backlog.
  - destruct (negb _); [done|].
    destruct (reader_turn _) as [m b|e]; [injection E as <-; by apply Hres|].
    destruct (on_net _ p) as [p'|] eqn:En.
    + apply on_net_backlog in En. destruct e; [destruct (closed _)|..]; try done;
        cbn [mbind option_bind] in E; injection E as <-; by apply Hres.
    + by destruct e; [destruct (closed _)|..].
Qed.

Lemma held_perform i t rest w s s' a :
  sys_ok w s → held i t rest s → leaves t a → perform listens a s = Some s' → held i t rest s'.
Proof using Type.
  intros Hs Hh Hl E. destruct (held_other i t rest w s Hs Hh) as (_ & Hrec & _).
  destruct a as [j now|j r now|j now|j|j q|j d|j|j|u side|u side|u side|u side k|j|u b]; cbn in Hl, E;
    try by (eapply held_tasks; eauto).
  - unfold take_message in E. destruct (procs s !! j) as [p|] eqn:Hp; [|done]. cbn in E.
    destruct (queue p) as [|m q]; [done|]. eapply held_runtime; [|exact E]. by eapply held_same.
  - by eapply held_runtime.
  - by eapply held_runtime.
  - by eapply held_accept.
  - unfold consider_peer in E. destruct (procs s !! j) as [p|] eqn:Hp; [|done].
    cbn [mbind option_bind] in E. destruct (reconnecting p); try done.
    destruct (registry _ !! q); [|done]. cbn [mbind option_bind] in E.
    case_decide; [done|]. case_decide; [done|]. injection E as <-. by eapply held_same.
  - by eapply held_connect.
  - unfold check_step in E. destruct (procs s !! j) as [p|] eqn:Hp; [|done].
    cbn [mbind option_bind] in E. destruct (reconnecting p) as [| |u|] eqn:Hr; try done.
    destruct (links s !! u) as [l|]; [|done]. cbn [mbind option_bind] in E.
    case_decide; injection E as <-; [apply held_link; [by eapply (Hrec j p u); eauto|]|]; by eapply held_same.
  - unfold spawn_step in E. destruct (procs s !! j) as [p|] eqn:Hp; [|done].
    cbn [mbind option_bind] in E. destruct (reconnecting p) as [| | |u] eqn:Hr; try done.
    destruct (links s !! u) as [l|]; [|done]. cbn [mbind option_bind] in E.
    destruct (on_net _ _) as [p'|] eqn:En; [|done]. cbn [mbind option_bind] in E. injection E as <-.
    apply on_net_backlog in En. apply held_link; [eapply Hrec; eauto|]. by eapply held_same.
  - unfold break_step in E. destruct (links s !! u) as [l|]; [|done]. injection E as <-.
    by apply held_link.
  - unfold stranger_connects in E. destruct (procs s !! j) as [p|] eqn:Hp; [|done].
    injection E as <-. eapply held_proc; [exact Hp|by intros _; eexists|by apply held_append].
  - unfold stranger_writes in E. destruct (links s !! u) as [l|]; [|done].
    cbn [mbind option_bind] in E. destruct (owner (dialer l)); [done|]. injection E as <-.
    by apply held_link.
Qed.

(** C39: A connection that stays silent makes a node deaf to all others: as long
    as the program that made it neither writes nor goes away, no connection
    behind it is accepted, whatever else happens. *)
Theorem silent_connection_blocks_listener s s' i t rest :
  tcp_reachable s → held i t rest s →
  rtc (λ s s', ∃ a, leaves t a ∧ admissible a s ∧ perform listens a s = Some s') s s' →
  held i t rest s' ∧ Forall (waits_at i (links s')) rest.
Proof using Type*.
  intros (w & Hs & _)%tcp_reachable_ok Hh Hr. revert w Hs Hh.
  induction Hr as [s|s s1 s' (a & Hl & Ha & E) _ IH]; intros w Hs Hh.
  - split; [done|]. destruct Hh as (p & l & more & Hp & Hb & _).
    pose proof (pr_backlog _ _ _ _ (sys_procs _ _ Hs i p Hp)) as Hf. rewrite Hb in Hf.
    by apply Forall_cons in Hf as [_ [Hf _]%Forall_app].
  - destruct (perform_ok w s s1 a Hs Ha E) as (w1 & Hs1 & _).
    apply (IH w1 Hs1). by apply (held_perform i t rest w s s1 a).
Qed.

(** A run of actions, each of which may happen. *)
Fixpoint all_admissible (actions : list Action) (s : System) : Prop :=
  match actions with
  | [] => True
  | a :: actions' =>
      admissible a s ∧ match perform listens a s with
                       | Some s' => all_admissible actions' s' | None => True end
  end.

Lemma run_reachable actions s s' :
  tcp_reachable s → perform_all listens actions s = Some s' → all_admissible actions s →
  tcp_reachable s'.
Proof using Type.
  intros (s0 & Hs0 & Hr). revert s Hr. induction actions as [|a actions IH]; intros s Hr; cbn.
  { intros [= <-] _. by exists s0. }
  destruct (perform listens a s) as [s1|] eqn:E; [|done]. cbn. intros Hrun [Ha Hall].
  apply (IH s1); [|done..]. eapply rtc_r; [exact Hr|by exists a].
Qed.

Lemma run_leaves t actions s s' :
  Forall (leaves t) actions → perform_all listens actions s = Some s' → all_admissible actions s →
  rtc (λ s s', ∃ a, leaves t a ∧ admissible a s ∧ perform listens a s = Some s') s s'.
Proof using Type.
  intros Hl. revert s. induction Hl as [|a actions Ha _ IH]; intros s; cbn; [by intros [= ->]|].
  destruct (perform listens a s) as [s1|] eqn:E; [|done]. cbn. intros Hrun [Had Hall].
  eapply rtc_l; [by exists a|by apply IH].
Qed.

End system.

(** A stand-in for [bincode] on the messages of a list. *)
Definition table (l : list Message) : MessageBincode := {|
  serialize_message m := '(k, _) ← list_find (eq m) l; Some [z_u8 (Z.of_nat k)];
  deserialize_message b := match b with [k] => l !! Z.to_nat (u8_z k) | _ => None end;
|}.

Lemma table_laws l : length l ≤ 256 → MessageBincodeLaws (H := table l).
Proof.
  intros Hl m buf. unfold serialize_message, deserialize_message, table.
  destruct (list_find (eq m) l) as [[k x]|] eqn:E; [|done]. cbn [mbind option_bind].
  intros [= <-]. apply list_find_Some in E as (Hk & -> & _).
  pose proof (lookup_lt_Some _ _ _ Hk) as Hlt. rewrite u8_z_of by lia.
  by rewrite Nat2Z.id.
Qed.

(** ** An example

    Node 2 and node 3 dial node 1, which is then elected with the vote of node 2:
    the request and the vote go through the channels, frames and readers of the
    connection between them. *)
Module Example.

#[local] Existing Instances number_bincode journal journal_pure bits_text fixed_millis.

Definition n1 : NodeId := MkNodeId 1.
Definition n2 : NodeId := MkNodeId 2.
Definition n3 : NodeId := MkNodeId 3.
Definition three : list NodeId := [n1; n2; n3].
Definition group : gset NodeId := list_to_set three.
Definition any_command (c : Command) : Prop := True.

(** The messages of this run. *)
Definition talk : list Message := [
  MRequestVote {| rv_term := 1; rv_candidate_id := n1; rv_last_log_index := 0; rv_last_log_term := 0 |};
  MRequestVoteResponse {| vr_term := 1; vr_voter_id := n2; vr_vote_granted := true |}].

#[local] Instance conversation : MessageBincode := table talk.

#[local] Instance conversation_laws : MessageBincodeLaws.
Proof. apply table_laws. by vm_compute; lia. Qed.

(** The address of a node. *)
Definition address (i : NodeId) : str := lit "node" ++ int_to_string (node_id i).
Definition listens (a : str) : option NodeId := snd <$> list_find (λ i, address i = a) three.

(** Three nodes that know where the others listen. *)
Definition booted_with {D} (nodes : gmap NodeId (RaftNode D)) : System D := {|
  procs := map_imap (λ i node, Some (start_process i
    (list_to_map ((λ j, (j, address j)) <$> filter (λ j, j ≠ i) three)) node)) nodes;
  links := [];
|}.

Lemma booted_with_started {D} `{!KvStore D} (db0 : D) :
  started listens group db0 (booted_with (boot db0 three)).
Proof.
  assert (NoDup three) as Hnd by (apply (bool_decide_unpack _); by vm_compute).
  assert (proc_node <$> procs (booted_with (boot db0 three)) = boot db0 three) as E.
  { apply map_eq. intros i. cbn [procs booted_with]. rewrite lookup_fmap, map_lookup_imap.
    by destruct (boot db0 three !! i). }
  destruct (boot_fresh db0 three Hnd) as [Hdom Hfresh]. split_and!; [done|rewrite E; by split|].
  intros i p Hp. cbn [procs booted_with] in Hp. rewrite map_lookup_imap in Hp.
  apply bind_Some in Hp as (node & Hi & [= <-]). split.
  - apply elem_of_dom_2 in Hi. rewrite Hdom in Hi. apply elem_of_list_to_set in Hi. unfold three in Hi.
    repeat (apply elem_of_cons in Hi as [->|Hi]; [done|]). by apply elem_of_nil in Hi.
  - eexists. split; [reflexivity|]. intros j a Ha. apply elem_of_list_to_map_2 in Ha.
    apply list_elem_of_fmap in Ha as (j' & [= -> ->] & Hj).
    apply list_elem_of_filter in Hj as [_ Hj]. unfold three in Hj.
    repeat (apply elem_of_cons in Hj as [->|Hj]; [by vm_compute|]). by apply elem_of_nil in Hj.
Qed.

Definition booted : System (list Command) := booted_with (boot [] three).

Lemma booted_started : started listens group [] booted.
Proof. apply booted_with_started. Qed.

(** Node [i] dials node [j], which accepts. *)
Definition dials (i j : NodeId) : list Action :=
  [Consider i j; Connect i (Connected true); CheckAgain i; Spawn i; AcceptOne j].

Definition election : list Action :=
  dials n2 n1 ++ dials n3 n1 ++
  [TickNode n1 200; WriteOne 0 Accepting; ReadOne 0 Dialing; TakeMessage n2 201;
   WriteOne 0 Dialing; ReadOne 0 Accepting; TakeMessage n1 202].

Definition elected : System (list Command) :=
  default booted (perform_all listens election booted).

Lemma elected_runs : perform_all listens election booted = Some elected.
Proof. by vm_compute. Qed.

Lemma elected_reachable : tcp_reachable listens group [] any_command elected.
Proof.
  eapply run_reachable; [exists booted; split; [apply booted_started|done]|apply elected_runs|].
  vm_compute. repeat split; discriminate.
Qed.

(** The election is over, by what went over the connection. *)
Theorem elected_over_tcp :
  (λ p, (role (proc_node p), current_term (proc_node p))) <$> procs elected !! n1 = Some (Leader, 1%Z) ∧
  (λ p, (role (proc_node p), current_term (proc_node p))) <$> procs elected !! n2 = Some (Follower, 1%Z).
Proof. split; by vm_compute. Qed.

Lemma tcp_refines_network_witness :
  ∃ c, net_reachable group [] any_command c ∧
    (∀ i, net_nodes c !! i = proc_node <$> procs elected !! i) ∧
    ∀ i p m, procs elected !! i = Some p → m ∈ queue p → (i, m) ∈ wire c ∨ client any_command m.
Proof.
  apply (tcp_refines_network listens group [] any_command elected), elected_reachable.
Defined.

(** A connection of another program in front of those of nodes 2 and 3. *)
Definition approach : list Action :=
  [StrangerConnects n1; StrangerWrites 0 (replicate 7 (z_u8 0));
   Consider n2 n1; Connect n2 (Connected true); CheckAgain n2; Spawn n2].

Definition approached : System (list Command) :=
  default booted (perform_all listens approach booted).

Lemma approached_reachable : tcp_reachable listens group [] any_command approached.
Proof.
  apply (run_reachable listens group [] any_command approach booted);
    [exists booted; split; [apply booted_started|done]|by vm_compute|by vm_compute; repeat split].
Qed.

Definition meanwhile : list Action :=
  [TickNode n1 200; Consider n3 n1; Connect n3 (Connected true)].

Definition later : System (list Command) :=
  default approached (perform_all listens meanwhile approached).

Lemma silent_connection_blocks_listener_witness :
  held n1 0 [1] later ∧ Forall (waits_at n1 (links later)) [1].
Proof.
  apply (silent_connection_blocks_listener listens group [] any_command approached).
  - apply approached_reachable.
  - eexists _, _, []. split; [vm_compute; reflexivity|]. split; [reflexivity|].
    split; [vm_compute; reflexivity|]. split_and!; try reflexivity. by vm_compute; lia.
  - apply (run_leaves listens any_command 0 meanwhile);
      [by repeat constructor|by vm_compute|by vm_compute; repeat split].
Defined.

End Example.
