(* ===== verification/TcpStore.v ===== *)
(** The replicated key-value store over TCP: the nodes of [Tcp.v] on the database
    of [Database.v]. *)

From S2P Require Import Prelude Wp Bytes Float LogRecord Bloom SSTable Database DatabaseSpec.
From S2P Require Import DatabaseRefine RaftTypes LogStore RaftNode Protocol RaftSim Journal.
From S2P Require Import Runtime Cluster RaftSafety ReplicatedStore Network Tcp TcpSpec.

Section store.
Context `{HT : F64Text} `{HM : F64Math} `{HX : Xxh3}
  `{!F64TextLaws HT} `{!F64MathLaws HM} `{!BloomDims} `{!Bincode} `{!RandomMillis}.
Context `{HB : MessageBincode} `{!MessageBincodeLaws}.
Context (listens : str → option NodeId) (cluster : gset NodeId) (db0 : Database).
Context (cfg : Config) (fs : FS).

(** C2: The whole store: nodes on their databases, with all the tasks of the
    runtime and the network, over connections that break anywhere, are one
    key-value map. Of two nodes, one has applied a prefix of the commands that
    the other one has applied, and a read on a node, through its memtable and
    its tables, answers what these commands say. *)
Theorem store_over_tcp s i j p q :
  open_in_dir cfg ∅ = (Ok db0, fs) → cfg_sstable_level cfg ≠ 0 →
  tcp_reachable listens cluster db0 command_ok s →
  procs s !! i = Some p → procs s !! j = Some q →
  let a := proc_node p in let b := proc_node q in
  last_applied a ≤ last_applied b →
  (Z.of_nat (commands_weight (applied_commands b)) ≤ 2 ^ 60)%Z →
  (Z.of_nat (length (applied_commands b) * cfg_sstable_level cfg) ≤ u32_max)%Z →
  applied_commands a `prefix_of` applied_commands b ∧
  ∀ k, Database.get k (db b) = (Ok (foldl apply_command ∅ (applied_commands b) !! k), db b).
Proof using All.
  intros Hopen Hlev (w & _ & Hn)%tcp_reachable_ok Hp Hq a b Hle HW HN.
  by eapply (replicated_map cluster db0 cfg fs Hopen Hlev (net_of s w) Hn i j);
    cbn; rewrite ?lookup_fmap, ?Hp, ?Hq.
Qed.

End store.

(** ** An example

    Node 1 is elected by node 2, is asked to store a value, commits it with node 2
    and tells it so: the requests, votes and entries go over the connection that
    node 2 has made. *)
Module Example.
Import RaftSafety.Example ReplicatedStore.Example.

#[local] Existing Instances number_bincode bits_text micro_math fixed_millis.
#[local] Instance test_hash : Xxh3 := from_le.

Definition set_request : ServiceRequest :=
  {| svc_operation := SvcSet (lit "k") (Int 7); response_tx := 5 |}.

(** The messages of the run, which are all that the stand-in for [bincode]
    knows. *)
Definition talk : list Message := snd <$> wire (run_script
  [Tick n1 200; Deliver 0 201; Deliver 0 202; Deliver 0 203; Deliver 0 204; Ask n1 set_request 205;
   Deliver 0 206; Deliver 0 207; Tick n1 400] {| net_nodes := boot empty_db three; wire := [] |}).

#[local] Instance conversation : MessageBincode := table talk.

#[local] Instance conversation_laws : MessageBincodeLaws.
Proof. apply table_laws. by vm_compute; lia. Qed.

Definition booted : System Database := TcpSpec.Example.booted_with (boot empty_db three).

(** One message from node 1 to node 2, and one back. *)
Definition there (now : Instant) : list Action :=
  [WriteOne 0 Accepting; ReadOne 0 Dialing; TakeMessage n2 now].
Definition back (now : Instant) : list Action :=
  [WriteOne 0 Dialing; ReadOne 0 Accepting; TakeMessage n1 now].

Definition session : list Action :=
  TcpSpec.Example.dials n2 n1 ++ [TickNode n1 200] ++ there 201 ++ back 202 ++ there 203 ++ back 204 ++
  [Serve n1 set_request 205] ++ there 206 ++ back 207 ++ [TickNode n1 400] ++ there 408.

Definition finished : System Database :=
  default booted (perform_all TcpSpec.Example.listens session booted).

Lemma session_runs : perform_all TcpSpec.Example.listens session booted = Some finished.
Proof. by vm_compute. Qed.

Lemma finished_reachable :
  tcp_reachable TcpSpec.Example.listens group empty_db command_ok finished.
Proof.
  eapply run_reachable; [|apply session_runs|].
  - exists booted. split; [apply TcpSpec.Example.booted_with_started|done].
  - vm_compute. repeat split; discriminate.
Qed.

(** Node 1 has told its client, and node 2 has applied the command too. *)
Theorem stored_over_tcp :
  (λ p, (role (proc_node p), last_applied (proc_node p), (λ r, (r.1, sr_success r.2)) <$> replies (proc_node p)))
    <$> procs finished !! n1 = Some (Leader, 1, [(5, true)]) ∧
  (λ p, (role (proc_node p), last_applied (proc_node p))) <$> procs finished !! n2 = Some (Follower, 1).
Proof. split; by vm_compute. Qed.

Lemma store_over_tcp_witness :
  ∃ p q, procs finished !! n2 = Some p ∧ procs finished !! n1 = Some q ∧
    applied_commands (proc_node q) = [put 7] ∧
    applied_commands (proc_node p) `prefix_of` applied_commands (proc_node q) ∧
    ∀ k, Database.get k (db (proc_node q)) =
      (Ok (foldl apply_command ∅ (applied_commands (proc_node q)) !! k), db (proc_node q)).
Proof.
  eexists _, _. split; [vm_compute; reflexivity|]. split; [vm_compute; reflexivity|].
  split; [vm_compute; reflexivity|].
  eapply (store_over_tcp (HT := bits_text) (HM := micro_math) (HX := from_le)
    (F64TextLaws0 := bits_text_laws) (F64MathLaws0 := micro_math_laws) (H := micro_dims)
    TcpSpec.Example.listens group empty_db default_config _ finished n2 n1 _ _
    (proj2_sig opened) ltac:(done) finished_reachable);
    [vm_compute; reflexivity|vm_compute; reflexivity|vm_compute; lia|by vm_compute|by vm_compute].
Defined.

End Example.
