(* ===== verification/TestCluster.v ===== *)
(** [src/testing/cluster.rs]: the cluster of the integration tests, a simulation
    with one more database for each node, to which the committed entries are
    applied from outside. *)

From S2P Require Import Prelude Bytes Float LogRecord RaftTypes LogStore RaftNode Simulator.

Record TestCluster (D : Type) : Type := MkTestCluster {
  tc_sim : Simulation D;
  databases : gmap Z D;
  db_applied : gmap Z nat;
}.

Arguments MkTestCluster {D}. Arguments tc_sim {D}. Arguments databases {D}.
Arguments db_applied {D}.

Section updates.
Context {D : Type}.
#[export] Instance eta_TestCluster : Eta (TestCluster D) := λ t,
  MkTestCluster (tc_sim t) (databases t) (db_applied t).
#[export] Instance upd_tc_sim : Upd (@tc_sim D). Proof. derive_upd. Defined.
#[export] Instance upd_databases : Upd (@databases D). Proof. derive_upd. Defined.
#[export] Instance upd_db_applied : Upd (@db_applied D). Proof. derive_upd. Defined.
End updates.

(** [Result::unwrap]. *)
Definition unwrap {A} (r : res A) : res A :=
  match r with
  | Err _ => Panic "called `Result::unwrap()` on an `Err` value"
  | r => r
  end.

(** [format!("k_{:06}", i)] and [format!("v_{}", i)]. *)
Definition zero_pad (width : nat) (s : str) : str :=
  replicate (width - length s) (digit 0) ++ s.
Definition workload_key (i : nat) : str :=
  lit "k_" ++ zero_pad 6 (int_to_string (Z.of_nat i)).
Definition workload_value (i : nat) : Value :=
  String (lit "v_" ++ int_to_string (Z.of_nat i)).
Definition workload_command (i : nat) : Command := Set_ (workload_key i) (workload_value i).

Section cluster.
Context {D : Type} `{!KvStore D} `{!F64Text} `{!Bincode} `{!RandomMillis} `{!DebugPayload}.

Abbreviation Tests := (TestCluster D).
Abbreviation Node := (RaftNode D).

Definition run_sim {A} (m : M (Simulation D) A) : M Tests A := zoom tc_sim m.

(** [self.sim[id]], a panic if there is no such node. *)
Definition sim_node (id : Z) : M Tests Node :=
  t ← get; lift (expect "no such node" (nodes (tc_sim t) !! MkNodeId id)).

Definition on_sim_node (id : Z) (m : M Node ()) : M Tests () :=
  sim_node id;; run_sim (with_node (MkNodeId id) m).

(** [1..=size]. *)
Definition node_numbers (size : nat) : list Z := Z.of_nat <$> seq 1 size.

(** The databases of the loop over the ids, each in a directory of its own. *)
Fixpoint open_databases (opened : Z → res D) (ids : list Z) (dbs : gmap Z D) : res (gmap Z D) :=
  match ids with
  | [] => Ok dbs
  | id :: ids' => db ← unwrap (opened id); open_databases opened ids' (<[id := db]> dbs)
  end.

(** [new_with_config], given the databases that are opened for the nodes and for
    the tests. *)
Definition new_with_config (node_db : NodeId → res D) (test_db : Z → res D)
    (created : NodeId → Instant) (started : Instant) (size : nat) : res Tests :=
  let node_ids := node_numbers size in
  sim ← new_cluster node_db created started node_ids;
  databases ← open_databases test_db node_ids ∅;
  let t := {| tc_sim := sim; databases := databases;
              db_applied := list_to_map ((λ id, (id, 0)) <$> node_ids) |} in
  match (run_sim (sim_start_election (MkNodeId 1));;
         run_sim route_messages;;
         node ← sim_node 1;
         if decide (role node = Leader) then mret ()
         else panic "assertion `left == right` failed") t with
  | (Ok _, t) => Ok t
  | (Err e, _) => Err e
  | (Panic p, _) => Panic p
  end.

(** ** [apply_committed] *)

(** The entries of a node that are committed and not yet applied. *)
Definition newly_committed (applied : nat) (node : Node) : list (nat * EntryPayload) :=
  omap (λ index, (λ entry, (index, payload entry)) <$> log node !! index)
    (seq (S applied) (commit_index node - applied)).

Definition committed_entries (t : Tests) : res (list (Z * list (nat * EntryPayload))) :=
  mapM (λ x : NodeId * Node,
    applied ← expect "called `Option::unwrap()` on a `None` value"
                (db_applied t !! node_id x.1);
    mret (node_id x.1, newly_committed applied x.2)) (in_key_order (tc_sim t)).

Definition on_database {A} (id : Z) (m : M D A) : M Tests A := λ t,
  match databases t !! id with
  | None => (Panic "called `Option::unwrap()` on a `None` value", t)
  | Some d => let '(r, d') := m d in (unwrap r, t <| databases := <[id := d']> (databases t) |>)
  end.

Definition drain_entry (node_id : Z) (x : nat * EntryPayload) : M Tests () :=
  let '(index, payload) := x in
  match payload with
  | PCommand record =>
      match command record with
      | Set_ key value => on_database node_id (kv_insert key value)
      | Delete key => on_database node_id (kv_delete key)
      end
  | PAddNode _ _ | PRemoveNode _ => mret ()
  end;;
  modify (λ t : Tests, t <| db_applied := <[node_id := index]> (db_applied t) |>).

Definition apply_committed : M Tests () :=
  t ← get;
  committed ← lift (committed_entries t);
  for_each committed (λ '(node_id, entries),
    on_database node_id (mret ());;
    for_each entries (drain_entry node_id)).

(** ** Workloads *)

Definition workload_step (i : nat) : M Tests () :=
  on_sim_node 1 (append_command (workload_command i);; mret ());;
  run_sim route_messages;;
  apply_committed.

Definition heartbeat_step : M Tests () :=
  on_sim_node 1 send_heartbeats;;
  run_sim route_messages.

Definition execute_workload (num_ops : nat) : M Tests () :=
  for_each (seq 0 num_ops) workload_step;;
  for_each (seq 0 2) (λ _, heartbeat_step);;
  apply_committed.

(** The inner loop of [verify_correctness], over the databases. *)
Fixpoint verify_key (i : nat) (ids : list Z) : M Tests bool :=
  match ids with
  | [] => mret true
  | id :: ids' =>
      actual ← on_database id (kv_get (workload_key i));
      if match actual with Some v => value_eqb v (workload_value i) | None => false end
      then verify_key i ids' else mret false
  end.

Fixpoint verify_keys (keys : list nat) : M Tests bool :=
  match keys with
  | [] => mret true
  | i :: keys' =>
      t ← get;
      same ← verify_key i (map_to_list (databases t)).*1;
      if same : bool then verify_keys keys' else mret false
  end.

Definition verify_correctness : M Tests bool :=
  node ← sim_node 1;
  verify_keys (filter (λ i, i mod 10 = 0) (seq 0 (commit_index node))).

End cluster.
