(* ===== verification/MapStore.v ===== *)
(** What the nodes of a cluster and the test cluster rely on in a database: it
    is a map with room for more commands. [Database] is one. *)

From S2P Require Import Prelude Bytes Float LogRecord Bloom Format SSTable SSTableSpec Database.
From S2P Require Import DatabaseSpec DatabaseRefine RaftTypes RaftNode ReplicatedStore Journal.

(** [holds room d m]: the database [d] holds the map [m] and takes [room] more
    commands that fit. *)
Class MapStore (E : Type) `{!KvStore E} : Type := {
  fits : Command → Prop;
  holds : nat → E → gmap str Value → Prop;
  insert_holds room d m key value :
    holds (S room) d m → fits (Set_ key value) →
    ∃ d', kv_insert key value d = (Ok (), d') ∧ holds room d' (<[key := value]> m);
  delete_holds room d m key :
    holds (S room) d m → fits (Delete key) →
    ∃ d', kv_delete key d = (Ok (), d') ∧ holds room d' (base.delete key m);
  get_holds room d m key :
    holds room d m → kv_get key d = (Ok (m !! key), d);
}.

(** ** The database of the repository *)

Section database.
Context `{HT : F64Text} `{HM : F64Math} `{HX : Xxh3}
  `{!F64TextLaws HT} `{!F64MathLaws HM} `{!BloomDims}.

(** A command adds at most 16 GiB to the tables. *)
Lemma command_weight_bound c :
  command_ok c → (Z.of_nat (command_weight c) ≤ 2 ^ 34)%Z.
Proof using Type.
  intros [[_ Hk] Hv]. unfold command_weight, entry_weight, record_bytes. cbn [fst snd].
  unfold in_u32, in_u in *.
  destruct c as [k v|k]; cbn [command_key command_entry command_value entry_parts] in *.
  - destruct Hv as [_ Hv]. unfold value_fits, in_u32, in_u in Hv.
    rewrite !length_app. autorewrite with kvraft. cbn. lia.
  - rewrite !length_app. autorewrite with kvraft. cbn. lia.
Qed.

Definition database_holds (room : nat) (d : Database) (m : gmap str Value) : Prop :=
  ∃ W N, db_rel d m W N ∧ (Z.of_nat W + Z.of_nat room * 2 ^ 34 ≤ 2 ^ 60)%Z ∧
    (N + Z.of_nat (room * length (leveled_sstable d)) ≤ u32_max)%Z.

Lemma write_holds room d m c :
  database_holds (S room) d m → command_ok c →
  ∃ d', write c d = (Ok (), d') ∧ database_holds room d' (apply_command m c).
Proof using All.
  intros (W & N & Hd & HW & HN) Hc. pose proof (command_weight_bound c Hc).
  destruct (write_ok c d m W N Hd Hc) as (d' & E & Hd' & Hlen & _); [lia|lia|].
  exists d'. split; [done|]. do 2 eexists. split; [exact Hd'|]. rewrite Hlen. lia.
Qed.

#[export] Program Instance database_map : MapStore Database := {|
  fits := command_ok;
  holds := database_holds;
|}.
Next Obligation. intros room d m key value Hd Hc. by apply (write_holds room d m (Set_ key value)). Qed.
Next Obligation. intros room d m key Hd Hc. by apply (write_holds room d m (Delete key)). Qed.
Next Obligation. intros room d m key (W & N & Hd & _). by eapply db_rel_get. Qed.

(** A database in a new directory. *)
Lemma open_holds cfg room :
  cfg_sstable_level cfg ≠ 0 → (Z.of_nat room ≤ 2 ^ 26)%Z →
  (Z.of_nat (room * cfg_sstable_level cfg) ≤ u32_max)%Z →
  ∃ d fs, open_in_dir cfg ∅ = (Ok d, fs) ∧ holds room d ∅.
Proof using All.
  intros Hlev Hr HN.
  destruct (disk_rel_open cfg ∅ ∅ 0 0 disk_rel_empty Hlev) as (d & E & Hd & Hl & _).
  exists d, (dir_of d). split; [done|]. exists 0, 0%Z. split; [done|]. rewrite Hl. lia.
Qed.

End database.

(** ** The small database of the examples *)

Lemma journal_get c cs key :
  (x ← head (filter (λ c, command_key c = key) (c :: cs)); command_value x) =
  if decide (command_key c = key) then command_value c
  else x ← head (filter (λ c, command_key c = key) cs); command_value x.
Proof.
  destruct (decide (command_key c = key)); [by rewrite filter_cons_True|by rewrite filter_cons_False].
Qed.

Program Definition journal_map : MapStore (KvStore0 := journal) (list Command) := {|
  fits _ := True;
  holds _ cs m := ∀ key,
    (x ← head (filter (λ c, command_key c = key) cs); command_value x) = m !! key;
|}.
Next Obligation.
  intros room cs m key value Hcs _. eexists. split; [reflexivity|]. intros k. rewrite journal_get.
  cbn. case_decide as E; [subst; by rewrite lookup_insert_eq|by rewrite lookup_insert_ne].
Qed.
Next Obligation.
  intros room cs m key Hcs _. eexists. split; [reflexivity|]. intros k. rewrite journal_get.
  cbn. case_decide as E; [subst; by rewrite lookup_delete_eq|by rewrite lookup_delete_ne].
Qed.
Next Obligation. intros room cs m key Hcs. cbn. by rewrite <-Hcs. Qed.
