(* ===== verification/Progress.v ===== *)
(** What the handlers of [RaftNode.v] do when nothing goes wrong: the nodes have
    the same log, and every message is the expected one. The results are exact,
    so that the rounds of [Rounds.v] can be composed of them. *)

From S2P Require Import Prelude Wp Bytes Float LogRecord RaftTypes LogStore RaftNode Protocol.
From S2P Require Import RaftSim.

Section progress.
Context {D : Type} `{!KvStore D} `{!F64Text} `{!Bincode} `{!RandomMillis}.
Context (ids : list NodeId) (db0 : NodeId → D).

Abbreviation Node := (RaftNode D).
(** Here nothing panics. *)
Abbreviation wp := (wp (λ _ _, False)).

(** The database [d] does not panic on the command of [e]. *)
Definition runs_on (d : D) (e : LogEntry) : Prop :=
  match payload e with
  | PCommand r => ∀ msg,
      match command r with
      | Set_ key value => (kv_insert key value d).1 ≠ Panic msg
      | Delete key => (kv_delete key d).1 ≠ Panic msg
      end
  | _ => False
  end.

(** A log that every node can apply: commands on which its database does not
    panic. *)
Definition runnable (l : list LogEntry) : Prop :=
  ∀ i k e, l !! S k = Some e → runs_on (replay (db0 i) (take k (drop 1 l))) e.

Lemma runnable_app l es : runnable (l ++ es) → runnable l.
Proof using Type.
  intros Hl i k e He. specialize (Hl i k e (lookup_app_l_Some _ _ _ _ He)).
  apply lookup_lt_Some in He.
  rewrite drop_app_le, take_app_le in Hl by (rewrite ?length_drop; lia). exact Hl.
Qed.

Lemma apply_payload_eq e (n : Node) :
  runs_on (db n) e →
  ∃ r, apply_payload (payload e) n = (Ok (r, None), n <| db := apply_entry (db n) e |>).
Proof using Type.
  unfold runs_on, apply_entry. destruct (payload e) as [r| |]; [|done..].
  intros Hr. cbn [apply_payload]. destruct (command r) as [key value|key].
  - rewrite bind_eq, attempt_zoom. unfold zoom, attempt. specialize (Hr).
    destruct (kv_insert key value (db n)) as [[a|e'|msg] d]; [by eexists..|by destruct (Hr msg)].
  - rewrite bind_eq, attempt_zoom. unfold zoom, attempt.
    destruct (kv_delete key (db n)) as [[a|e'|msg] d]; [by eexists..|by destruct (Hr msg)].
Qed.

Lemma wp_entry index e (Q : LogEntry → Node → Prop) n :
  log n !! index = Some e → Q e n → wp (entry_at index) Q n.
Proof using Type. intros He HQ. unfold Wp.wp. by rewrite (entry_at_eq _ e). Qed.

Lemma wp_last_index (n : Node) (Q : nat → Node → Prop) :
  0 < length (log n) → Q (length (log n) - 1) n → wp last_index Q n.
Proof using Type.
  intros Hl HQ. unfold last_index. apply wp_bind, wp_get.
  rewrite decide_False; [by apply wp_ret|]. intros E. rewrite E in Hl. cbn in Hl. lia.
Qed.

(** The other nodes of the cluster. *)
Definition others (i : NodeId) : list NodeId :=
  filter (λ p, node_id p ≠ node_id i) ids.

(** ** Programs that only save and set timers *)

Definition alike (n n' : Node) : Prop :=
  core n' = core n ∧ pending_requests n' = pending_requests n.

Definition tame {A} (m : M Node A) : Prop := ∀ n, ∃ a n', m n = (Ok a, n') ∧ alike n n'.

Lemma reset_election_timeout_tame now : tame (reset_election_timeout now).
Proof using Type.
  intros n. unfold reset_election_timeout. rewrite bind_eq. cbn.
  destruct (election_timeout n); by eexists (), _.
Qed.

Lemma persist_meta_tame : tame persist_meta.
Proof using Type.
  intros n. unfold persist_meta. rewrite bind_eq. cbn. unfold with_store.
  destruct (meta_store n) as [s|]; by eexists (), _.
Qed.

(** ** States *)

(** Node [i] in term [t] has log [l], of which it has committed and applied the
    entries up to [c], and nobody waits for an answer of it. *)
Record stands (i : NodeId) (r : Role) (t : Z) (l : list LogEntry) (c : nat)
    (out : list (NodeId * Message)) (n : Node) : Prop := {
  st_id : id n = i;
  st_peers : peers n = others i;
  st_role : role n = r;
  st_term : current_term n = t;
  st_log : log n = l;
  st_bound : c < length l;
  st_commit : commit_index n = c;
  st_applied : last_applied n = c;
  st_db : db n = replay (db0 i) (take c (drop 1 l));
  st_match : dom (match_index n) ⊆ list_to_set (others i);
  st_pending : pending_requests n = ∅;
  st_outbox : outbox n = out;
}.

Arguments st_peers {i r t l c out n}. Arguments st_role {i r t l c out n}.
Arguments st_term {i r t l c out n}. Arguments st_log {i r t l c out n}.
Arguments st_commit {i r t l c out n}. Arguments st_applied {i r t l c out n}.
Arguments st_db {i r t l c out n}. Arguments st_match {i r t l c out n}.
Arguments st_pending {i r t l c out n}. Arguments st_outbox {i r t l c out n}.
Arguments st_id {i r t l c out n}. Arguments st_bound {i r t l c out n}.

#[local] Ltac stand := split; cbn; first [done | congruence | lia].

Lemma stands_alike i r t l c out n n' :
  alike n n' → stands i r t l c out n → stands i r t l c out n'.
Proof using Type.
  unfold alike, core, view. intros [[= E1 E2 E3 E4 E5 E6 E7 E8 E9 E10 E11 E12 E13] ?] [].
  split; try congruence. by rewrite E11.
Qed.

(** Running a tame program first. *)
Lemma wp_tame {A C} (m : M Node A) (k : A → M Node C) Q n :
  tame m → (∀ a n1, alike n n1 → wp (k a) Q n1) → wp (m ≫= k) Q n.
Proof using Type.
  intros Hm Hk. destruct (Hm n) as (a & n1 & E & S). apply wp_bind. unfold Wp.wp at 1.
  rewrite E. by apply Hk.
Qed.

Lemma stands_push i r t l c out n x :
  stands i r t l c out n → stands i r t l c (out ++ [x]) (n <| outbox := outbox n ++ [x] |>).
Proof using Type. intros []. stand. Qed.

Lemma step_down_stands i r t0 l c out n t now :
  stands i r t0 l c out n →
  wp (step_down t now) (λ _ n', stands i Follower t l c out n' ∧ voted_for n' = None) n.
Proof using Type.
  intros Hn. unfold step_down. apply wp_bind, wp_modify.
  set (n1 := _ <| leader_id := _ |>).
  assert (Hn1 : stands i Follower t l c out n1) by (by destruct Hn; split).
  apply wp_tame; [apply reset_election_timeout_tame|]. intros _ n2 S2.
  apply wp_tame; [apply persist_meta_tame|]. intros _ n3 S3.
  assert (Hv : voted_for n3 = None).
  { destruct S2 as [C2 _], S3 as [C3 _]. unfold core, view in C2, C3. injection C2. injection C3.
    intros. change None with (voted_for n1). congruence. }
  apply (stands_alike _ _ _ _ _ _ _ _ S2) in Hn1.
  apply (stands_alike _ _ _ _ _ _ _ _ S3) in Hn1.
  apply wp_bind, wp_get, wp_bind, wp_modify. rewrite (st_pending Hn1).
  rewrite map_to_list_empty. apply wp_ret. split; [|done]. by destruct Hn1; split.
Qed.

(** ** Applying and committing *)

Lemma replay_next (d : D) l k e :
  l !! S k = Some e →
  apply_entry (replay d (take k (drop 1 l))) e = replay d (take (S k) (drop 1 l)).
Proof using Type.
  intros He. rewrite (take_drop_snoc _ _ e) by done. unfold replay. by rewrite foldl_snoc.
Qed.

(** A node whose commit index may be ahead of what it has applied: it applies
    the rest. *)
Lemma apply_loop_stands i r t l c out fuel n :
  stands i r t l (last_applied n) out (n <| commit_index := last_applied n |>) →
  commit_index n = c → last_applied n ≤ c < length l → runnable l →
  c - last_applied n ≤ fuel →
  wp (apply_loop fuel) (λ _ n', stands i r t l c out n' ∧ next_index n' = next_index n ∧
    match_index n' = match_index n) n.
Proof using Type.
  revert n. induction fuel as [|fuel IH]; intros n Hn Hc Hle Hl Hf; cbn [apply_loop];
    apply wp_bind, wp_get.
  { rewrite decide_False by lia. apply wp_ret. split; [|done].
    assert (last_applied n = c) as E by lia. destruct Hn. cbn in *. stand. }
  destruct (decide (last_applied n < commit_index n)) as [Hlt|Hge]; cycle 1.
  { apply wp_ret. split; [|done].
    assert (last_applied n = c) as E by lia. destruct Hn. cbn in *. stand. }
  destruct (lookup_lt_is_Some_2 l (S (last_applied n))) as [e He]; [lia|].
  apply wp_bind. unfold apply_next. apply wp_bind, wp_get, wp_bind. eapply wp_entry.
  { rewrite <-He. f_equal. apply Hn. }
  pose proof (st_db Hn) as Hdb. cbn in Hdb.
  destruct (apply_payload_eq e n) as [res E]; [rewrite Hdb; by apply Hl|].
  apply wp_bind. unfold Wp.wp at 1. rewrite E. apply wp_bind, wp_modify. cbn [send_peer_change].
  apply wp_bind, wp_ret, wp_bind, wp_get. cbn [pending_requests upd upd_db upd_last_applied].
  rewrite (st_pending Hn : pending_requests n = ∅), lookup_empty. apply wp_ret.
  match goal with |- Wp.wp _ _ _ ?s => apply (IH s) end;
    [|done|cbn; lia|done|cbn; lia]. cbn [last_applied upd upd_db upd_last_applied].
  destruct Hn. cbn in *. split; try done; cbn; [lia|]. rewrite Hdb. by apply replay_next.
Qed.

(** The commit index is moved to [c]. *)
Lemma apply_stands i r t l c0 c out n :
  stands i r t l c0 out n → c0 ≤ c < length l → runnable l →
  ∀ n1, alike (n <| commit_index := c |>) n1 →
  wp apply_committed_entries (λ _ n', stands i r t l c out n' ∧ next_index n' = next_index n ∧
    match_index n' = match_index n) n1.
Proof using Type.
  intros Hn Hc Hl n1 [Hcore Hp]. pose proof (st_bound Hn). unfold core, view in Hcore. cbn in Hcore, Hp.
  injection Hcore as E1 E2 E3 E4 E5 E6 E7 E8 E9 E10 E11 E12 E13.
  rewrite <-E4, <-E11. apply wp_bind, wp_get. pose proof (st_applied Hn).
  apply apply_loop_stands; [|done|lia|done|lia].
  destruct Hn. split; cbn; try congruence; first [lia | by rewrite E11].
Qed.

(** ** The handlers of a follower *)

Lemma last_position (l : list LogEntry) e :
  last l = Some e → l !! (length l - 1) = Some e ∧ 0 < length l.
Proof using Type.
  intros He. split; [|by destruct l; [|cbn; lia]].
  rewrite <-He, last_lookup. f_equal. lia.
Qed.

(** New entries at the end do not count as committed. *)
Lemma stands_app i r t l c out n es ls :
  stands i r t l c out n →
  stands i r t (l ++ es) c out (n <| log := l ++ es |> <| log_store := ls |>).
Proof using Type.
  intros []. split; try done; [rewrite length_app; lia|].
  rewrite drop_app_le, take_app_le; [done|rewrite length_drop; lia|lia].
Qed.

(** It takes over the end of the leader's log and commits what the leader has. *)
Lemma append_entries_stands i r t0 t l c out n e es k leader now :
  stands i r t0 l c out n → (t0 ≤ t)%Z → last l = Some e →
  runnable (l ++ es) → c ≤ k < length (l ++ es) →
  wp (handle_message (MAppendEntries
      {| ae_term := t; ae_leader_id := leader; ae_prev_log_index := length l - 1;
         ae_prev_log_term := term e; ae_entries := es; ae_leader_commit := k |}) now)
    (λ _ n', stands i Follower t (l ++ es) k (out ++ [(leader, MAppendEntriesResponse
      {| ar_term := t; ar_follower_id := i; ar_success := true;
         ar_match_index := length l - 1 + length es |})]) n') n.
Proof using Type.
  intros Hn Ht He Hl Hk. destruct (last_position l e He) as [Hlast Hpos].
  cbn [handle_message ae_leader_id]. apply wp_bind. unfold handle_append_entries.
  apply wp_bind, wp_get. cbn [ae_term ae_leader_id ae_prev_log_index ae_prev_log_term
    ae_entries ae_leader_commit]. rewrite (st_term Hn), decide_False by lia.
  apply wp_bind.
  assert (Hw : wp (when (bool_decide (t0 < t)%Z) (step_down t now))
    (λ _ n', ∃ r', stands i r' t l c out n') n).
  { apply wp_when; [intros _; eapply wp_mono; [by eapply step_down_stands|]|].
    - intros [] n' [Hn' _]. by exists Follower.
    - intros ?%bool_decide_eq_false. exists r. assert (t0 = t) as <- by lia. done. }
  eapply wp_mono; [exact Hw|]. clear Hn Hw. intros [] n1 [r' Hn1].
  apply wp_bind, wp_modify. set (n2 := _ <| leader_id := _ |>).
  assert (Hn2 : stands i Follower t l c out n2) by (destruct Hn1; stand). clearbody n2.
  apply wp_tame; [apply reset_election_timeout_tame|]. intros _ n3 S3.
  apply (stands_alike _ _ _ _ _ _ _ _ S3) in Hn2. clear S3 Hn1.
  apply wp_bind, wp_get. rewrite (st_log Hn2), decide_False by lia.
  apply wp_bind. eapply wp_entry; [rewrite (st_log Hn2); exact Hlast|].
  rewrite decide_False by auto.
  destruct (append_loop_eq (S (length l - 1)) es n3) as [ls E].
  apply wp_bind. unfold Wp.wp at 1. rewrite E, (st_log Hn2).
  replace (S (length l - 1)) with (length l) by lia. rewrite merge_log_end. clear E.
  set (n4 := _ <| log_store := _ |>).
  assert (Hn4 : stands i Follower t (l ++ es) c out n4) by (by apply stands_app).
  clearbody n4. pose proof (st_log Hn4) as Hlog4.
  apply wp_bind, wp_last_index; [rewrite Hlog4; lia|]. rewrite Hlog4.
  apply wp_bind, wp_modify. rewrite Nat.min_l by lia.
  apply wp_tame; [apply persist_meta_tame|]. intros _ n5 S5.
  apply wp_bind. eapply wp_mono; [eapply apply_stands; [exact Hn4|done..]|].
  intros [] n6 (Hn6 & _ & _). apply wp_bind, wp_get, wp_ret, wp_modify.
  unfold append_response. rewrite (st_term Hn6), (st_id Hn6). by apply stands_push.
Qed.

(** It votes for a candidate of a later term that has the same log. *)
Lemma request_vote_stands i r t0 t l c out n e candidate now :
  stands i r t0 l c out n → (t0 < t)%Z → last l = Some e →
  wp (handle_message (MRequestVote
      {| rv_term := t; rv_candidate_id := candidate; rv_last_log_index := length l - 1;
         rv_last_log_term := term e |}) now)
    (λ _ n', stands i Follower t l c (out ++ [(candidate, MRequestVoteResponse
      {| vr_term := t; vr_voter_id := i; vr_vote_granted := true |})]) n') n.
Proof using Type.
  intros Hn Ht He. destruct (last_position l e He) as [Hlast Hpos].
  cbn [handle_message rv_candidate_id]. apply wp_bind. unfold handle_request_vote.
  apply wp_bind, wp_get. cbn [rv_term rv_candidate_id rv_last_log_index rv_last_log_term].
  rewrite (st_term Hn), decide_False by lia. rewrite bool_decide_true by done. cbn [when].
  apply wp_bind. eapply wp_mono; [by eapply step_down_stands|]. clear Hn.
  intros [] n1 [Hn Hv]. apply wp_bind, wp_get. rewrite Hv. cbn [negb].
  apply wp_bind, wp_last_index; [by rewrite (st_log Hn)|].
  apply wp_bind. eapply wp_entry; [rewrite (st_log Hn); exact Hlast|].
  rewrite (st_log Hn), (bool_decide_true (term e = term e)) by done.
  rewrite (bool_decide_true (length l - 1 ≤ length l - 1)) by done.
  rewrite orb_true_r. cbn [negb]. apply wp_bind, wp_modify.
  set (n2 := _ <| voted_for := _ |>).
  assert (Hn2 : stands i Follower t l c out n2) by (destruct Hn; stand).
  apply wp_tame; [apply persist_meta_tame|]. intros _ n3 S3.
  apply wp_tame; [apply reset_election_timeout_tame|]. intros _ n4 S4.
  apply (stands_alike _ _ _ _ _ _ _ _ S3) in Hn2.
  apply (stands_alike _ _ _ _ _ _ _ _ S4) in Hn2.
  apply wp_bind, wp_get, wp_ret, wp_modify. unfold vote_response.
  rewrite (st_term Hn2), (st_id Hn2). by apply stands_push.
Qed.

(** ** The handlers of a candidate *)

(** What [i] sends to every other node. *)
Definition to_all (i : NodeId) (m : Message) : list (NodeId * Message) :=
  (λ p, (p, m)) <$> others i.

(** The request of a leader to a node that has everything up to index [k]. *)
Definition request (i : NodeId) (t : Z) (l : list LogEntry) (k c : nat) (e : LogEntry) :
    Message :=
  MAppendEntries
    {| ae_term := t; ae_leader_id := i; ae_prev_log_index := k; ae_prev_log_term := term e;
       ae_entries := drop (S k) l; ae_leader_commit := c |}.

Definition vote_request (i : NodeId) (t : Z) (l : list LogEntry) (e : LogEntry) : Message :=
  MRequestVote {| rv_term := t; rv_candidate_id := i; rv_last_log_index := length l - 1;
                  rv_last_log_term := term e |}.

(** The other nodes are known to have the first [k] entries. *)
Definition known (i : NodeId) (next : nat) (n : Node) : Prop :=
  ∀ p, p ∈ others i → next_index n !! p = Some next.

Definition matched (i : NodeId) (m : nat) (n : Node) : Prop :=
  ∀ p, p ∈ others i → match_index n !! p = Some m.

Lemma for_each_push (ps : list NodeId) m (n : Node) :
  for_each ps (λ peer, push peer m) n =
  (Ok (), n <| outbox := outbox n ++ ((λ p, (p, m)) <$> ps) |>).
Proof using Type.
  revert n. induction ps as [|p ps IH]; intros n; cbn [for_each].
  { cbn. rewrite app_nil_r. by destruct n. }
  rewrite bind_eq. unfold push at 1. cbn [modify]. rewrite IH. cbn. by rewrite <-app_assoc.
Qed.

(** It becomes leader and sends the first heartbeat. *)
Lemma become_leader_stands i r t l c out n e now :
  stands i r t l c out n → last l = Some e →
  wp (become_leader now) (λ _ n',
    stands i Leader t l c (out ++ to_all i (request i t l (length l - 1) c e)) n' ∧
    known i (length l) n' ∧ matched i 0 n') n.
Proof using Type.
  intros Hn He. destruct (last_position l e He) as [_ Hpos].
  unfold become_leader. apply wp_bind, wp_modify, wp_bind, wp_gets, wp_bind.
  unfold Wp.wp at 1. rewrite (become_leader_loop _ e) by (cbn; by rewrite (st_log Hn)).
  apply wp_modify. cbn [log peers next_index match_index outbox upd upd_role upd_leader_id].
  rewrite (st_log Hn), (st_peers Hn), (st_outbox Hn). split; [|split].
  - pose proof (st_match Hn) as Hm. unfold probe, to_all, request.
    replace (S (length l - 1)) with (length l) by lia.
    destruct Hn. subst. split; cbn; try done.
    intros p. rewrite elem_of_dom, lookup_set_all, elem_of_list_to_set.
    destruct (decide (p ∈ _)); [done|]. rewrite <-elem_of_dom.
    intros Hp%Hm. by apply elem_of_list_to_set in Hp.
  - intros p Hp. cbn. by rewrite lookup_set_all, decide_True.
  - intros p Hp. cbn. by rewrite lookup_set_all, decide_True.
Qed.

(** It starts a campaign, or wins at once if it is alone. *)
Lemma start_election_stands i r t l c n e now :
  stands i r t l c [] n → (0 ≤ t < u64_max)%Z → last l = Some e →
  wp (start_election now) (λ _ n',
    others i = [] ∧ stands i Leader (t + 1) l c [] n' ∨
    others i ≠ [] ∧ stands i Candidate (t + 1) l c (to_all i (vote_request i (t + 1) l e)) n' ∧
      votes_received n' = {[ i ]}) n.
Proof using Type.
  intros Hn Ht He. destruct (last_position l e He) as [Hlast Hpos].
  unfold start_election. apply wp_bind, wp_modify, wp_bind, wp_modify, wp_bind, wp_modify.
  set (n1 := _ <| voted_for := _ |>).
  assert (Hn1 : stands i Candidate (t + 1) l c [] n1).
  { destruct Hn. split; cbn; try done. rewrite st_term0. apply wrap_small.
    unfold in_u, u64_max in *. lia. }
  clearbody n1. apply wp_tame; [apply persist_meta_tame|]. intros _ n2 S2.
  apply (stands_alike _ _ _ _ _ _ _ _ S2) in Hn1. clear S2 Hn.
  apply wp_bind, wp_modify, wp_bind, wp_get. set (n3 := _ <| votes_received := _ |>).
  assert (Hn3 : stands i Candidate (t + 1) l c [] n3) by (destruct Hn1; stand).
  assert (Hv : votes_received n3 = {[ i ]}) by (cbn; by rewrite (st_id Hn1)).
  clearbody n3. rewrite Hv, size_singleton, (st_peers Hn3). unfold majority.
  destruct (decide (_ ≤ 1)) as [Hle|Hgt].
  - assert (others i = []) as Ho.
    { apply length_zero_iff_nil. destruct (length (others i)) as [|k] eqn:E; [done|].
      pose proof (Nat.div_str_pos (S (S k)) 2). lia. }
    eapply wp_mono; [by eapply become_leader_stands|]. intros [] n4 (Hn4 & _ & _). left.
    split; [done|]. unfold to_all in Hn4. by rewrite Ho in Hn4.
  - assert (others i ≠ []) as Ho by (intros E; rewrite E in Hgt; cbn in Hgt; lia).
    assert (Hvotes : ∀ n4, alike n3 n4 → votes_received n4 = {[ i ]}).
    { intros n4 [Hc _]. unfold core, view in Hc. injection Hc. congruence. }
    apply wp_tame; [apply reset_election_timeout_tame|]. intros _ n4 S4.
    specialize (Hvotes n4 S4). apply (stands_alike _ _ _ _ _ _ _ _ S4) in Hn3. clear S4.
    apply wp_bind, wp_last_index; [by rewrite (st_log Hn3)|]. rewrite (st_log Hn3).
    apply wp_bind. eapply wp_entry; [rewrite (st_log Hn3); exact Hlast|].
    apply wp_bind, wp_get. unfold Wp.wp. rewrite for_each_push. right.
    rewrite (st_peers Hn3), (st_term Hn3), (st_id Hn3), (st_outbox Hn3).
    split_and!; [done| |done]. destruct Hn3. stand.
Qed.

(** ** Counting votes *)

(** The state of candidate [i] when [voters] have answered, and what it has sent
    since. *)
Definition campaign i t l c e (voters : list NodeId) (n : Node) out : Prop :=
  S (length voters) < majority (others i) ∧ stands i Candidate t l c [] n ∧
    votes_received n = {[ i ]} ∪ list_to_set voters ∧ out = [] ∨
  majority (others i) ≤ S (length voters) ∧ stands i Leader t l c [] n ∧
    known i (length l) n ∧ matched i 0 n ∧ out = to_all i (request i t l (length l - 1) c e).

Lemma stands_clear i r t l c out n :
  stands i r t l c out n → stands i r t l c [] (n <| outbox := [] |>).
Proof using Type. intros []. stand. Qed.

Lemma vote_response_stands i t l c e voters n out p now :
  campaign i t l c e voters n out → last l = Some e → NoDup (i :: voters ++ [p]) →
  wp (handle_message (MRequestVoteResponse
      {| vr_term := t; vr_voter_id := p; vr_vote_granted := true |}) now)
    (λ _ n', campaign i t l c e (voters ++ [p]) (n' <| outbox := [] |>) (out ++ outbox n')) n.
Proof using Type.
  intros Hn He Hdup. cbn [handle_message]. unfold handle_vote_response.
  cbn [vr_term vr_voter_id vr_vote_granted when]. apply wp_bind, wp_get.
  unfold campaign. rewrite length_app. cbn [length].
  destruct Hn as [(Hm & Hn & Hv & ->)|(Hm & Hn & Hk & Hz & ->)]; cycle 1.
  { rewrite (st_term Hn), decide_False, decide_False, decide_True by (lia || by rewrite (st_role Hn)).
    apply wp_ret. right. rewrite (st_outbox Hn), app_nil_r.
    split_and!; [lia|by eapply stands_clear|done..]. }
  rewrite (st_term Hn), decide_False, decide_False, decide_False
    by (lia || rewrite (st_role Hn); auto).
  apply wp_bind, wp_modify, wp_bind, wp_get. set (n1 := _ <| votes_received := _ |>).
  assert (Hn1 : stands i Candidate t l c [] n1) by (destruct Hn; stand).
  assert (Hv1 : votes_received n1 = {[ i ]} ∪ list_to_set (voters ++ [p])).
  { cbn. rewrite Hv, list_to_set_app_L. set_solver. }
  clearbody n1. rewrite Hv1, (st_peers Hn1), <-(list_to_set_cons (C := gset NodeId)).
  rewrite size_list_to_set by done. cbn [length]. rewrite length_app. cbn [length].
  destruct (decide (_ ≤ _)) as [Hle|Hgt].
  - eapply wp_mono; [by eapply become_leader_stands|]. intros [] n2 (Hn2 & Hk & Hz). right.
    rewrite (st_outbox Hn2). split_and!; [lia|by eapply stands_clear|done..].
  - apply wp_ret. left. rewrite (st_outbox Hn1).
    split_and!; [lia|by eapply stands_clear|done..].
Qed.

(** ** The handlers of a leader *)

Lemma replicate_loop ps i t l k c e (n : Node) :
  (∀ p, p ∈ ps → next_index n !! p = Some (S k)) → l !! k = Some e →
  id n = i → current_term n = t → log n = l → commit_index n = c →
  for_each ps (λ peer, entries ← make_append_entries peer; push peer (MAppendEntries entries)) n =
  (Ok (), n <| outbox := outbox n ++ ((λ p, (p, request i t l k c e)) <$> ps) |>).
Proof using Type.
  intros Hnext He Hid Ht Hl Hc. pose proof (lookup_lt_Some _ _ _ He) as Hlt.
  revert n Hnext Hid Ht Hl Hc. induction ps as [|p ps IH]; intros n Hnext Hid Ht Hl Hc.
  { cbn. rewrite app_nil_r. by destruct n. }
  cbn [for_each]. erewrite bind_Ok; cycle 1.
  { erewrite bind_Ok; cycle 1.
    { unfold make_append_entries. erewrite bind_Ok by reflexivity.
      rewrite (Hnext p) by (by left). erewrite bind_Ok by reflexivity.
      rewrite Hl, decide_False by lia. rewrite decide_False by lia.
      replace (S k - 1) with k by lia.
      erewrite bind_Ok by (apply entry_at_eq; by rewrite Hl). reflexivity. }
    reflexivity. }
  rewrite IH; [|intros q Hq; apply (Hnext q); by right|done..].
  cbn. rewrite <-app_assoc, Hid, Ht, Hc. done.
Qed.

(** Requests to all other nodes, which have the entries up to [k]. *)
Lemma replicate_all_stands i r t l k c e n :
  stands i r t l c [] n → known i (S k) n → l !! k = Some e →
  for_each (peers n) (λ peer,
    entries ← make_append_entries peer; push peer (MAppendEntries entries)) n =
  (Ok (), n <| outbox := to_all i (request i t l k c e) |>) ∧
  stands i r t l c (to_all i (request i t l k c e))
    (n <| outbox := to_all i (request i t l k c e) |>).
Proof using Type.
  intros Hn Hk He. split; [|destruct Hn; stand].
  rewrite (replicate_loop _ i t l k c e); [|by rewrite (st_peers Hn)|done|apply Hn..].
  by rewrite (st_outbox Hn), (st_peers Hn).
Qed.

Lemma send_heartbeats_stands i t l c e n :
  stands i Leader t l c [] n → known i (length l) n → last l = Some e →
  wp send_heartbeats (λ _ n',
    stands i Leader t l c (to_all i (request i t l (length l - 1) c e)) n' ∧
    match_index n' = match_index n ∧ next_index n' = next_index n) n.
Proof using Type.
  intros Hn Hk He. destruct (last_position l e He) as [Hlast Hpos].
  unfold send_heartbeats. apply wp_bind, wp_gets.
  destruct (replicate_all_stands i Leader t l (length l - 1) c e n) as [E Hn']; [done| |done|].
  { by replace (S (length l - 1)) with (length l) by lia. }
  unfold Wp.wp. by rewrite E.
Qed.

(** The commit index follows the leader's last entry when a majority has it. *)
Lemma replicated_count (n : Node) x acks :
  NoDup acks → (∀ p, p ∈ acks → is_Some (match_index n !! p)) →
  (∀ p m, match_index n !! p = Some m → x ≤ m ↔ p ∈ acks) →
  replicated n x = S (length acks).
Proof using Type.
  intros Hdup Hacks Hx. unfold replicated.
  assert ((filter (λ p : NodeId * nat, x ≤ p.2) (map_to_list (match_index n))).*1 ≡ₚ acks) as E.
  { apply NoDup_Permutation; [|done|].
    - eapply sublist_NoDup; [apply (NoDup_fst_map_to_list (match_index n))|].
      apply fmap_sublist, sublist_filter.
    - intros p. rewrite list_elem_of_fmap. split.
      + intros ([q m] & -> & [Hle Hq%elem_of_map_to_list]%list_elem_of_filter). by apply (Hx q m).
      + intros Hp. destruct (Hacks p Hp) as [m Hm]. exists (p, m). split; [done|].
        apply list_elem_of_filter. split; [by eapply Hx|by apply elem_of_map_to_list]. }
  apply Permutation_length in E. rewrite length_fmap in E. lia.
Qed.

Lemma majority_others i : majority (others i) ≤ S (length (others i)).
Proof using Type.
  unfold majority. destruct (length (others i)) as [|k]; [done|].
  pose proof (Nat.div_lt (S (S k)) 2). lia.
Qed.

Lemma commit_id (n : Node) c : commit_index n = c → n <| commit_index := c |> = n.
Proof using Type. intros <-. by destruct n. Qed.

(** [update_commit_index] when there is nothing to commit. *)
Lemma update_commit_index_stands i t l out n :
  stands i Leader t l (length l - 1) out n → runnable l →
  wp update_commit_index (λ _ n', stands i Leader t l (length l - 1) out n' ∧
    next_index n' = next_index n ∧ match_index n' = match_index n) n.
Proof using Type.
  intros Hn Hl. pose proof (st_bound Hn). unfold update_commit_index. apply wp_bind, wp_get.
  rewrite (st_commit Hn), (st_log Hn). replace (length l - S (length l - 1)) with 0 by lia.
  apply wp_bind, wp_ret. apply wp_tame; [apply persist_meta_tame|]. intros _ n1 S1.
  eapply apply_stands; [exact Hn|lia|done|].
  by rewrite (commit_id n) by apply Hn.
Qed.

(** [update_commit_index] when the last entry is not committed. *)
Lemma update_commit_index_last i t l out n e :
  stands i Leader t l (length l - 2) out n → 2 ≤ length l → last l = Some e → term e = t →
  runnable l →
  wp update_commit_index (λ _ n',
    stands i Leader t l (if decide (majority (others i) ≤ replicated n (length l - 1))
                         then length l - 1 else length l - 2) out n' ∧
    next_index n' = next_index n ∧ match_index n' = match_index n) n.
Proof using Type.
  intros Hn Hlen He Ht Hl. destruct (last_position l e He) as [Hlast _].
  unfold update_commit_index. apply wp_bind, wp_get.
  rewrite (st_commit Hn), (st_log Hn). replace (length l - S (length l - 2)) with 1 by lia.
  replace (S (length l - 2)) with (length l - 1) by lia. cbn [seq commit_loop].
  apply wp_bind, wp_bind, wp_get, wp_bind. eapply wp_entry; [rewrite (st_log Hn); exact Hlast|].
  rewrite (st_term Hn), (st_peers Hn), bool_decide_true by done. cbn [andb].
  set (c := if decide _ then _ else _).
  apply wp_bind, (wp_mono _ _ (λ _ n1, n1 = n <| commit_index := c |>)).
  { apply wp_when; [intros ?%bool_decide_eq_true|intros ?%bool_decide_eq_false].
    - apply wp_modify. unfold c. by rewrite decide_True.
    - unfold c. rewrite decide_False by done. symmetry. apply commit_id, Hn. }
  intros [] n1 ->. apply wp_ret. apply wp_tame; [apply persist_meta_tame|]. intros _ n2 S2.
  eapply apply_stands; [exact Hn| |done|exact S2]. unfold c. case_decide; lia.
Qed.

(** The entry of a command. *)
Definition command_entry_in (t : Z) (c : Command) : LogEntry :=
  {| term := t; payload := PCommand (new_record 0 c) |}.

Lemma append_command_stands i t l e c n :
  stands i Leader t l (length l - 1) [] n → known i (length l) n → last l = Some e →
  let l' := l ++ [command_entry_in t c] in
  runnable l' →
  wp (append_command c) (λ _ n',
    (others i = [] ∧ stands i Leader t l' (length l' - 1) [] n' ∨
     others i ≠ [] ∧ stands i Leader t l' (length l' - 2)
       (to_all i (request i t l' (length l - 1) (length l - 1) e)) n') ∧
    match_index n' = match_index n ∧ next_index n' = next_index n) n.
Proof using Type.
  intros Hn Hk He l' Hl. destruct (last_position l e He) as [Hlast Hpos].
  assert (Hlen : length l' = S (length l)) by (unfold l'; rewrite length_app; cbn; lia).
  unfold append_command. apply wp_bind, wp_get. rewrite decide_False by (rewrite (st_role Hn); auto).
  apply wp_bind. rewrite (st_term Hn). fold (command_entry_in t c).
  destruct (push_log_entry_eq (command_entry_in t c) n) as [ls E]. unfold Wp.wp at 1. rewrite E.
  rewrite (st_log Hn). fold l'. clear E. set (n1 := _ <| log_store := ls |>).
  assert (Hn1 : stands i Leader t l' (length l' - 2) [] n1).
  { rewrite Hlen. replace (S (length l) - 2) with (length l - 1) by lia. by apply stands_app. }
  assert (Hf : match_index n1 = match_index n ∧ next_index n1 = next_index n) by done.
  clearbody n1. destruct Hf as [Hm Hx]. apply wp_bind, wp_get.
  destruct (decide (peers n1 = [])) as [Ho|Ho]; rewrite (st_peers Hn1) in Ho.
  - apply wp_bind. eapply wp_mono.
    + eapply (update_commit_index_last i t l' [] n1); [done|lia|unfold l'; by rewrite last_snoc|done|done].
    + intros [] n2 (Hn2 & E1 & E2). apply wp_ret. split; [|split; congruence]. left.
      split; [done|]. rewrite decide_True in Hn2; [done|].
      rewrite (replicated_count _ _ []), Ho; [by apply Nat.leb_le|constructor|by intros p ?%elem_of_nil|].
      intros p m Hp. apply elem_of_dom_2 in Hp. apply (st_match Hn1) in Hp. rewrite Ho in Hp. set_solver.
  - apply wp_bind.
    destruct (replicate_all_stands i Leader t l' (length l - 1) (length l' - 2) e n1)
      as [E Hn2]; [done| |unfold l'; by rewrite lookup_app_l by lia|].
    { replace (S (length l - 1)) with (length l) by lia. intros p Hp. rewrite Hx. by apply Hk. }
    unfold Wp.wp at 1. rewrite E. apply wp_ret. split; [|done]. right. split; [done|].
    replace (length l' - 2) with (length l - 1) in * by lia. exact Hn2.
Qed.

(** The state of leader [i] when the nodes [acks] have answered the request for
    its last entry. *)
Definition gathering i t l (acks : list NodeId) (n : Node) : Prop :=
  (∀ p, p ∈ acks →
     next_index n !! p = Some (length l) ∧ match_index n !! p = Some (length l - 1)) ∧
  (stands i Leader t l (length l - 1) [] n ∨
   S (length acks) < majority (others i) ∧ stands i Leader t l (length l - 2) [] n ∧
   2 ≤ length l ∧ term <$> last l = Some t ∧
   ∀ p, p ∈ others i → p ∉ acks → ∃ m, match_index n !! p = Some m ∧ m < length l - 1).

Lemma ack_stands i t l acks n p now :
  gathering i t l acks n → NoDup (acks ++ [p]) → p ∈ others i → runnable l →
  wp (handle_message (MAppendEntriesResponse
      {| ar_term := t; ar_follower_id := p; ar_success := true;
         ar_match_index := length l - 1 |}) now)
    (λ _ n', gathering i t l (acks ++ [p]) n' ∧ outbox n' = []) n.
Proof using Type.
  intros [Hacks Hn] Hdup Hp Hl.
  assert (Hpos : 0 < length l).
  { destruct Hn as [Hn|(_ & Hn & _)]; pose proof (st_bound Hn); lia. }
  assert (Hx : ∃ c, stands i Leader t l c [] n) by (destruct Hn as [Hn|(_ & Hn & _)]; eauto).
  destruct Hx as [c0 Hx]. cbn [handle_message]. unfold handle_append_entries_response.
  cbn [ar_term ar_follower_id ar_success ar_match_index]. apply wp_bind, wp_get.
  rewrite (st_term Hx), decide_False, decide_False, decide_False
    by (lia || rewrite (st_role Hx); auto).
  clear c0 Hx. apply wp_bind, wp_modify, wp_bind, wp_modify.
  replace (S (length l - 1)) with (length l) by lia.
  set (n1 := _ <| next_index := _ |>).
  assert (Hn1 : ∀ c, stands i Leader t l c [] n → stands i Leader t l c [] n1).
  { intros c []. split; try done. cbn. rewrite dom_insert.
    apply union_subseteq. split; [|done]. apply singleton_subseteq_l. by apply elem_of_list_to_set. }
  assert (Hacks1 : ∀ q, q ∈ acks ++ [p] →
    next_index n1 !! q = Some (length l) ∧ match_index n1 !! q = Some (length l - 1)).
  { intros q [Hq| ->%list_elem_of_singleton]%elem_of_app; cbn; [|by rewrite !lookup_insert_eq].
    destruct (decide (q = p)) as [->|Hne]; [by rewrite !lookup_insert_eq|].
    rewrite !lookup_insert_ne by done. by apply Hacks. }
  destruct Hn as [Hn|(Hm & Hn & H2 & Hlast & Hrest)].
  - eapply wp_mono; [apply update_commit_index_stands; [by apply Hn1|done]|].
    intros [] n2 (Hn2 & E1 & E2). split; [|apply Hn2]. split; [|by left].
    rewrite E1, E2. done.
  - destruct (last l) as [e|] eqn:He; [|done]. injection Hlast as Ht.
    assert (Hrest1 : ∀ q, q ∈ others i → q ∉ acks ++ [p] →
      ∃ m, match_index n1 !! q = Some m ∧ m < length l - 1).
    { intros q Hq Hna. cbn. rewrite lookup_insert_ne by (intros ->; apply Hna, elem_of_app; right; by left).
      apply Hrest; [done|]. intros Hq'. apply Hna, elem_of_app. by left. }
    eapply wp_mono; [eapply update_commit_index_last; [by apply Hn1|done..]|].
    intros [] n2 (Hn2 & E1 & E2). split; [|apply Hn2]. split; [by rewrite E1, E2|].
    rewrite (replicated_count _ _ (acks ++ [p])) in Hn2; [|done| |].
    + destruct (decide (majority (others i) ≤ S (length (acks ++ [p])))) as [|Hlt]; [by left|].
      right. rewrite E2. split_and!; [lia|done|done|by rewrite He, <-Ht|done].
    + intros q Hq. by eexists; apply Hacks1.
    + intros q m Hq. split; [|intros Hin; apply Hacks1 in Hin as [_ Hin]; rewrite Hq in Hin; by injection Hin as ->].
      intros Hle. destruct (decide (q ∈ acks ++ [p])) as [|Hna]; [done|].
      destruct (Hrest1 q) as (m' & Hm' & ?); [|done|].
      * apply elem_of_dom_2 in Hq. apply (st_match (Hn1 _ Hn)) in Hq. by apply elem_of_list_to_set in Hq.
      * rewrite Hq in Hm'. injection Hm' as ->. lia.
Qed.

End progress.

Arguments st_id {D _ ids db0 i r t l c out n}.
Arguments st_peers {D _ ids db0 i r t l c out n}.
Arguments st_role {D _ ids db0 i r t l c out n}.
Arguments st_term {D _ ids db0 i r t l c out n}.
Arguments st_log {D _ ids db0 i r t l c out n}.
Arguments st_bound {D _ ids db0 i r t l c out n}.
Arguments st_commit {D _ ids db0 i r t l c out n}.
Arguments st_applied {D _ ids db0 i r t l c out n}.
Arguments st_db {D _ ids db0 i r t l c out n}.
Arguments st_match {D _ ids db0 i r t l c out n}.
Arguments st_pending {D _ ids db0 i r t l c out n}.
Arguments st_outbox {D _ ids db0 i r t l c out n}.
