(* ===== verification/Rounds.v ===== *)
(** Rounds of messages in a cluster where every message arrives, in order: an
    election, a command and a heartbeat, for any number of nodes. *)

From S2P Require Import Prelude Wp Bytes Float LogRecord RaftTypes LogStore RaftNode RaftSim.
From S2P Require Import Runtime Progress.

Section rounds.
Context {D : Type} `{!KvStore D} `{!F64Text} `{!Bincode} `{!RandomMillis}.
Context (ids : list NodeId) (db0 : NodeId → D) (now : Instant).
Hypothesis (Hids : NoDup ids).

Abbreviation Node := (RaftNode D).
Abbreviation Nodes := (gmap NodeId Node).
Abbreviation wp := (wp (λ _ _, False)).
Abbreviation runnable := (runnable db0).
Abbreviation others := (others ids).
Abbreviation stands := (stands ids db0).
Abbreviation to_all := (to_all ids).

(** ** Running *)

(** A message on the way: from, to, and what. *)
Abbreviation Packet := (NodeId * NodeId * Message)%type.

Definition stamp (from : NodeId) (out : list (NodeId * Message)) : list Packet :=
  (λ x, (from, x.1, x.2)) <$> filter (λ x, is_timeout x.2 = false) out.

Lemma stamp_app from a b : stamp from (a ++ b) = stamp from a ++ stamp from b.
Proof using Type. unfold stamp. by rewrite filter_app, fmap_app. Qed.

(** [runs k x y]: [k] deliveries, each of the oldest message, lead from the nodes
    and messages [x] to [y]. *)
Inductive runs : nat → Nodes * list Packet → Nodes * list Packet → Prop :=
  | runs_nil x : runs 0 x x
  | runs_cons k from to m ns q n n' x :
      ns !! to = Some n → handle_message m now n = (Ok (), n') →
      runs k (<[to := n' <| outbox := [] |>]> ns, q ++ stamp to (outbox n')) x →
      runs (S k) (ns, (from, to, m) :: q) x.

Lemma runs_trans j k x y z : runs j x y → runs k y z → runs (j + k) x z.
Proof using Type.
  induction 1 as [|j from to m ns q n n' y Hn Hm Hr IH]; intros Hz; [done|].
  cbn. econstructor; [done..|by apply IH].
Qed.

Lemma wp_ok {A} (m : M Node A) Q n : wp m Q n → ∃ a n', m n = (Ok a, n') ∧ Q a n'.
Proof using Type. intros Hm. by destruct (wp_result _ _ _ _ Hm) as [?|(? & ? & ? & ?)]. Qed.

(** Node [i] has sent a message to each of [todo]; each of them answers. *)
Lemma scatter (P P' : NodeId → Node → Prop) i (ask answer : NodeId → Message) todo ns rest :
  NoDup todo →
  (∀ p n, p ∈ todo → P p n → wp (handle_message (ask p) now)
    (λ _ n', P' p (n' <| outbox := [] |>) ∧ stamp p (outbox n') = [(p, i, answer p)]) n) →
  (∀ p, p ∈ todo → ∃ n, ns !! p = Some n ∧ P p n) →
  ∃ ns', runs (length todo) (ns, ((λ p, (i, p, ask p)) <$> todo) ++ rest)
      (ns', rest ++ ((λ p, (p, i, answer p)) <$> todo)) ∧
    (∀ p, p ∈ todo → ∃ n, ns' !! p = Some n ∧ P' p n) ∧
    (∀ p, p ∉ todo → ns' !! p = ns !! p).
Proof using Type.
  revert ns rest. induction todo as [|p todo IH]; intros ns rest Hdup Hm Hns.
  { exists ns. rewrite app_nil_r. split_and!; [constructor|by intros p ?%elem_of_nil|done]. }
  apply NoDup_cons in Hdup as [Hp Hdup]. destruct (Hns p) as (n & Hn & HP); [by left|].
  destruct (wp_ok _ _ _ (Hm p n ltac:(by left) HP)) as ([] & n' & E & HP' & Eout).
  destruct (IH (<[p := n' <| outbox := [] |>]> ns) (rest ++ [(p, i, answer p)]))
    as (ns' & Hr & Hin & Hout); [done|intros q m Hq; apply Hm; by right| |].
  { intros q Hq. destruct (Hns q) as (m & Hm' & HQ); [by right|]. exists m.
    by rewrite lookup_insert_ne by (by intros ->). }
  exists ns'. split_and!.
  - cbn. econstructor; [done..|]. rewrite Eout, <-app_assoc. by rewrite <-app_assoc in Hr.
  - intros q [->|Hq]%elem_of_cons; [|by apply Hin]. exists (n' <| outbox := [] |>).
    by rewrite Hout, lookup_insert_eq.
  - intros q Hq. apply not_elem_of_cons in Hq as [Hne Hq].
    by rewrite Hout, lookup_insert_ne.
Qed.

(** Each of [todo] has sent a message to node [i]. [I] relates the senders so far,
    the node and what it has sent. *)
Lemma gather (I : list NodeId → Node → list (NodeId * Message) → Prop) i answer
    senders todo ns n out rest :
  ns !! i = Some n → I senders n out →
  (∀ l p l' n out, senders ++ todo = l ++ p :: l' → I l n out →
    wp (handle_message (answer p) now)
      (λ _ n', I (l ++ [p]) (n' <| outbox := [] |>) (out ++ outbox n')) n) →
  ∃ n' out', runs (length todo) (ns, ((λ p, (p, i, answer p)) <$> todo) ++ rest)
      (<[i := n']> ns, rest ++ stamp i out') ∧ I (senders ++ todo) n' (out ++ out').
Proof using Type.
  revert senders ns n out rest.
  induction todo as [|p todo IH]; intros senders ns n out rest Hn HI Hm.
  { exists n, []. rewrite !app_nil_r, insert_id by done. split; [constructor|done]. }
  destruct (wp_ok _ _ _ (Hm senders p todo n out eq_refl HI)) as ([] & n' & E & HI').
  destruct (IH (senders ++ [p]) (<[i := n' <| outbox := [] |>]> ns) _ _
    (rest ++ stamp i (outbox n')) (lookup_insert_eq _ _ _) HI') as (n2 & out2 & Hr & HI2).
  { rewrite <-app_assoc. exact Hm. }
  exists n2, (outbox n' ++ out2). rewrite <-!app_assoc in HI2. split; [|exact HI2].
  cbn. econstructor; [done..|]. rewrite insert_insert_eq in Hr.
  rewrite <-app_assoc in Hr. by rewrite stamp_app, <-!app_assoc.
Qed.

(** ** The cluster between two rounds *)

(** Node [i] leads term [t]: it has committed its log, and all nodes have it; the
    others have committed up to [c]. *)
Definition led (i : NodeId) (t : Z) (l : list LogEntry) (c : nat) (ns : Nodes) : Prop :=
  (∃ n, ns !! i = Some n ∧ stands i Leader t l (length l - 1) [] n ∧
     known ids i (length l) n ∧ matched ids i (length l - 1) n) ∧
  (∀ p, p ∈ others i → ∃ n, ns !! p = Some n ∧ stands p Follower t l c [] n).

(** All nodes have the same log, no term is later than that of node [i], and node
    [i] has committed everything. *)
Definition settled (i : NodeId) (t : Z) (l : list LogEntry) (ns : Nodes) : Prop :=
  (∃ n r, ns !! i = Some n ∧ stands i r t l (length l - 1) [] n) ∧
  (∀ p, p ∈ others i → ∃ n r t' c, ns !! p = Some n ∧ stands p r t' l c [] n ∧ (t' ≤ t)%Z).

Lemma elem_of_others p i : p ∈ others i ↔ p ∈ ids ∧ p ≠ i.
Proof using Type.
  unfold Progress.others. rewrite list_elem_of_filter. destruct p, i. cbn. naive_solver.
Qed.

Lemma others_nodup i : NoDup (i :: others i).
Proof using Hids.
  constructor; [by rewrite elem_of_others; intros []|]. by apply NoDup_filter.
Qed.

Lemma stamp_to_all i m :
  is_timeout m = false → stamp i (to_all i m) = (λ p, (i, p, m)) <$> others i.
Proof using Type.
  intros Hm. unfold stamp, Progress.to_all.
  assert (∀ l : list NodeId, filter (λ x : NodeId * Message, is_timeout x.2 = false)
    ((λ p, (p, m)) <$> l) = (λ p, (p, m)) <$> l) as ->.
  { intros l. induction l as [|p l IH]; [done|].
    rewrite fmap_cons, filter_cons_True by done. by rewrite IH. }
  by rewrite <-list_fmap_compose.
Qed.

(** The answer of a node that has all of [l]. *)
Definition ack (t : Z) (l : list LogEntry) (p : NodeId) : Message :=
  MAppendEntriesResponse {| ar_term := t; ar_follower_id := p; ar_success := true;
                            ar_match_index := length l - 1 |}.

(** The leader has sent the end of its log to all other nodes; they take it
    over, ... *)
Lemma append_scatter i t l0 es k e ns :
  runnable (l0 ++ es) → last l0 = Some e → k < length (l0 ++ es) →
  (∀ p, p ∈ others i → ∃ n r t' c,
     ns !! p = Some n ∧ stands p r t' l0 c [] n ∧ (t' ≤ t)%Z ∧ c ≤ k) →
  ∃ ns', runs (length (others i))
      (ns, stamp i (to_all i (request i t (l0 ++ es) (length l0 - 1) k e)))
      (ns', (λ p, (p, i, ack t (l0 ++ es) p)) <$> others i) ∧
    (∀ p, p ∈ others i → ∃ n, ns' !! p = Some n ∧ stands p Follower t (l0 ++ es) k [] n) ∧
    (∀ p, p ∉ others i → ns' !! p = ns !! p).
Proof using Hids.
  intros Hl He Hk Hps. destruct (last_position l0 e He) as [_ Hpos].
  pose proof (others_nodup i) as [_ Hdup]%NoDup_cons.
  pose proof (length_app l0 es) as Hlen. set (l := l0 ++ es) in *.
  rewrite stamp_to_all by done.
  destruct (scatter
    (λ p n, ∃ r t' c, stands p r t' l0 c [] n ∧ (t' ≤ t)%Z ∧ c ≤ k)
    (λ p n, stands p Follower t l k [] n) i
    (λ _, request i t l (length l0 - 1) k e) (ack t l)
    (others i) ns []) as (ns1 & Hr & Hin & Hout); [done| |naive_solver|].
  - intros p m Hp (r & t' & c & Hm & Ht & Hc). unfold request.
    replace (S (length l0 - 1)) with (length l0) by lia. unfold l at 1. rewrite drop_app_length.
    eapply wp_mono; [by eapply append_entries_stands|].
    intros [] m' Hm'. split; [by eapply stands_clear|]. rewrite (st_outbox Hm'). cbn.
    unfold ack. replace (length l - 1) with (length l0 - 1 + length es) by lia. done.
  - rewrite app_nil_r in Hr. by exists ns1.
Qed.

(** ... and the leader commits. *)
Lemma ack_gather i t l ns n :
  ns !! i = Some n → gathering ids db0 i t l [] n → runnable l →
  ∃ n', runs (length (others i)) (ns, (λ p, (p, i, ack t l p)) <$> others i) (<[i := n']> ns, []) ∧
    stands i Leader t l (length l - 1) [] n' ∧ known ids i (length l) n' ∧
    matched ids i (length l - 1) n'.
Proof using Hids.
  intros Hn Hg Hl. pose proof (others_nodup i) as [_ Hdup]%NoDup_cons.
  destruct (gather (λ acks n out, gathering ids db0 i t l acks n ∧ out = []) i
    (ack t l) [] (others i) ns n [] []) as (n' & out & Hr & [Hacks Hn'] & Eout); [done..| |].
  { intros acks p todo m out Heq [Hm ->]. cbn in Heq. rewrite Heq in Hdup.
    eapply wp_mono; [apply ack_stands; [exact Hm| | |done]|].
    - rewrite cons_middle, app_assoc in Hdup. by apply NoDup_app in Hdup as [? _].
    - rewrite Heq. apply elem_of_app. right. by left.
    - intros [] m' [Hm' Eo]. rewrite Eo. split; [|done].
      assert (m' <| outbox := [] |> = m') as -> by (rewrite <-Eo; by destruct m'). done. }
  cbn [app] in *. subst out. rewrite !app_nil_r in Hr. exists n'. split; [exact Hr|].
  split; [|split; intros p Hp; by apply Hacks].
  destruct Hn' as [|[Hlt _]]; [done|]. pose proof (majority_others ids i). lia.
Qed.

Lemma append_round i t l0 es k e ns n :
  ns !! i = Some n → gathering ids db0 i t (l0 ++ es) [] n → runnable (l0 ++ es) →
  last l0 = Some e → k < length (l0 ++ es) →
  (∀ p, p ∈ others i → ∃ n r t' c,
     ns !! p = Some n ∧ stands p r t' l0 c [] n ∧ (t' ≤ t)%Z ∧ c ≤ k) →
  ∃ ns', runs (2 * length (others i))
      (ns, stamp i (to_all i (request i t (l0 ++ es) (length l0 - 1) k e))) (ns', []) ∧
    led i t (l0 ++ es) k ns'.
Proof using Hids.
  intros Hn Hg Hl He Hk Hps. pose proof (others_nodup i) as [Hi _]%NoDup_cons.
  destruct (append_scatter i t l0 es k e ns) as (ns1 & Hr1 & Hin & Hout); [done..|].
  destruct (ack_gather i t (l0 ++ es) ns1 n) as (n' & Hr2 & Hn' & Hk' & Hm'); [by rewrite Hout|done..|].
  exists (<[i := n']> ns1). split.
  - replace (2 * length (others i)) with (length (others i) + length (others i)) by lia.
    by eapply runs_trans.
  - split; [exists n'; by rewrite lookup_insert_eq|]. intros p Hp.
    destruct (Hin p Hp) as (m & Hm & Hst). exists m. rewrite lookup_insert_ne; [done|]. by intros ->.
Qed.

(** ** The three rounds *)

Lemma others_majority i : others i ≠ [] → 1 < majority (others i).
Proof using Type.
  unfold majority. destruct (others i) as [|p l]; [done|]. cbn [length].
  pose proof (Nat.div_str_pos (S (S (length l))) 2). lia.
Qed.

(** All nodes vote for the candidate, which becomes leader on the way. *)
Lemma vote_round i t l e ns n :
  ns !! i = Some n → stands i Candidate t l (length l - 1) [] n → votes_received n = {[ i ]} →
  last l = Some e → others i ≠ [] →
  (∀ p, p ∈ others i → ∃ n r t' c, ns !! p = Some n ∧ stands p r t' l c [] n ∧ (t' < t)%Z) →
  ∃ ns' n', runs (2 * length (others i)) (ns, stamp i (to_all i (vote_request i t l e)))
      (ns', stamp i (to_all i (request i t l (length l - 1) (length l - 1) e))) ∧
    ns' !! i = Some n' ∧ stands i Leader t l (length l - 1) [] n' ∧
    (∀ p, p ∈ others i → ∃ n r t' c, ns' !! p = Some n ∧ stands p r t' l c [] n ∧ (t' ≤ t)%Z).
Proof using Hids.
  intros Hn Hst Hv He Ho Hps. pose proof (others_nodup i) as Hdup.
  pose proof Hdup as [Hi Hdup']%NoDup_cons.
  set (answer := λ p, MRequestVoteResponse
    {| vr_term := t; vr_voter_id := p; vr_vote_granted := true |}).
  destruct (scatter (λ p n, ∃ r t' c, stands p r t' l c [] n ∧ (t' < t)%Z)
    (λ p n, ∃ c, stands p Follower t l c [] n) i (λ _, vote_request i t l e) answer
    (others i) ns []) as (ns1 & Hr1 & Hin & Hout); [done| |naive_solver|].
  { intros p m Hp (r & t' & c & Hm & Ht). unfold vote_request.
    eapply wp_mono; [by eapply request_vote_stands|]. intros [] m' Hm'.
    split; [exists c; by eapply stands_clear|]. by rewrite (st_outbox Hm'). }
  destruct (gather (λ voters n out, campaign ids db0 i t l (length l - 1) e voters n out) i
    answer [] (others i) ns1 n [] []) as (n2 & out & Hr2 & Hc); [by rewrite Hout| | |].
  { left. split_and!; [by apply others_majority|done|rewrite Hv; set_solver|done]. }
  { intros voters p todo m out Heq Hm. cbn in Heq. rewrite Heq in Hdup.
    eapply wp_mono; [apply vote_response_stands; [exact Hm|done|]|by intros []].
    rewrite cons_middle, app_assoc, app_comm_cons in Hdup. by apply NoDup_app in Hdup as [? _]. }
  cbn [app] in *. rewrite !app_nil_r in *. rewrite stamp_to_all by done.
  destruct Hc as [[Hlt _]|(_ & Hn2 & _ & _ & ->)].
  { pose proof (majority_others ids i). lia. }
  exists (<[i := n2]> ns1), n2. split_and!; [|by rewrite lookup_insert_eq|done|].
  - replace (2 * length (others i)) with (length (others i) + length (others i)) by lia.
    by eapply runs_trans.
  - intros p Hp. destruct (Hin p Hp) as (m & Hm & c & Hmst). exists m, Follower, t, c.
    rewrite lookup_insert_ne; [done|]. by intros ->.
Qed.

(** An election: the candidate becomes leader, and all nodes commit its log. *)
Lemma election_round i t l e ns :
  settled i t l ns → last l = Some e → runnable l → (0 ≤ t < u64_max)%Z →
  ∃ n n1 k ns', ns !! i = Some n ∧ start_election now n = (Ok (), n1) ∧
    runs k (<[i := n1 <| outbox := [] |>]> ns, stamp i (outbox n1)) (ns', []) ∧
    k ≤ 4 * length (others i) ∧ led i (t + 1) l (length l - 1) ns'.
Proof using Hids.
  intros [(n & r & Hn & Hst) Hps] He Hl Ht. pose proof (others_nodup i) as [Hi _]%NoDup_cons.
  destruct (wp_ok _ _ _ (start_election_stands ids db0 i r t l _ n e now Hst Ht He))
    as ([] & n1 & E & Hn1). exists n, n1.
  set (ns1 := <[i := n1 <| outbox := [] |>]> ns).
  assert (Hi1 : ns1 !! i = Some (n1 <| outbox := [] |>)) by apply lookup_insert_eq.
  assert (Hps1 : ∀ p, p ∈ others i → ns1 !! p = ns !! p).
  { intros p Hp. unfold ns1. rewrite lookup_insert_ne; [done|]. by intros ->. }
  destruct Hn1 as [[Ho Hn1]|(Ho & Hn1 & Hv)].
  - exists 0, ns1. rewrite (st_outbox Hn1). split_and!; [done|done|constructor|lia|].
    split; [|rewrite Ho; by intros p ?%elem_of_nil].
    exists (n1 <| outbox := [] |>). split_and!; [done|by eapply stands_clear|..];
      intros p; rewrite Ho; by intros ?%elem_of_nil.
  - destruct (vote_round i (t + 1) l e ns1 (n1 <| outbox := [] |>))
      as (ns2 & n2 & Hr1 & Hn2 & Hst2 & Hps2); [done|by eapply stands_clear|done..| |].
    { intros p Hp. destruct (Hps p Hp) as (m & r' & t' & c & Hm & Hmst & Hle).
      exists m, r', t', c. rewrite Hps1 by done. split_and!; [done..|lia]. }
    destruct (append_round i (t + 1) l [] (length l - 1) e ns2 n2) as (ns3 & Hr2 & Hled);
      rewrite ?app_nil_r; [done| |done..| | |].
    + split; [by intros p ?%elem_of_nil|by left].
    + apply st_bound in Hst2. lia.
    + intros p Hp. destruct (Hps2 p Hp) as (m & r' & t' & c & Hm & Hmst & Hle).
      exists m, r', t', c. apply st_bound in Hmst as Hb. split_and!; [done..|lia].
    + rewrite app_nil_r in *. exists (2 * length (others i) + 2 * length (others i)), ns3.
      rewrite (st_outbox Hn1). split_and!; [done..|by eapply runs_trans|lia|done].
Qed.

(** A command: it is copied to all nodes, and the leader commits it. *)
Lemma command_round i t l c0 e cmd ns :
  led i t l c0 ns → last l = Some e → runnable (l ++ [command_entry_in t cmd]) →
  ∃ n a n1 ns', ns !! i = Some n ∧ append_command cmd n = (Ok a, n1) ∧
    runs (2 * length (others i)) (<[i := n1 <| outbox := [] |>]> ns, stamp i (outbox n1))
      (ns', []) ∧
    led i t (l ++ [command_entry_in t cmd]) (length l - 1) ns'.
Proof using Hids.
  intros [(n & Hn & Hst & Hk & Hm) Hps] He Hl. pose proof (others_nodup i) as [Hi _]%NoDup_cons.
  destruct (wp_ok _ _ _ (append_command_stands ids db0 i t l e cmd n Hst Hk He Hl))
    as (a & n1 & E & Hn1 & E1 & E2). exists n, a, n1.
  set (ns1 := <[i := n1 <| outbox := [] |>]> ns). set (l' := l ++ [command_entry_in t cmd]) in *.
  assert (Hlen : length l' = S (length l)) by (unfold l'; rewrite length_app; cbn; lia).
  assert (Hi1 : ns1 !! i = Some (n1 <| outbox := [] |>)) by apply lookup_insert_eq.
  destruct (last_position l e He) as [_ Hpos].
  destruct Hn1 as [[Ho Hn1]|[Ho Hn1]].
  - exists ns1. rewrite (st_outbox Hn1), Ho. split_and!; [done|done|constructor|].
    split; [|rewrite Ho; by intros p ?%elem_of_nil].
    exists (n1 <| outbox := [] |>). split_and!; [done|by eapply stands_clear|..];
      intros p; rewrite Ho; by intros ?%elem_of_nil.
  - destruct (append_round i t l [command_entry_in t cmd] (length l - 1) e ns1
      (n1 <| outbox := [] |>)) as (ns2 & Hr & Hled); [done| |done..| | |].
    + split; [by intros p ?%elem_of_nil|]. right. fold l'.
      split_and!; [by apply others_majority|by eapply stands_clear|lia|by unfold l'; rewrite last_snoc|].
      intros p Hp _. exists (length l - 1). split; [|lia]. cbn. rewrite E1. by apply Hm.
    + rewrite length_app. cbn. lia.
    + intros p Hp. destruct (Hps p Hp) as (m & Hmn & Hmst). exists m, Follower, t, c0.
      unfold ns1. rewrite lookup_insert_ne by (by intros ->). apply st_bound in Hmst as Hb.
      split_and!; [done..|lia|lia].
    + exists ns2. rewrite (st_outbox Hn1). done.
Qed.

(** A heartbeat: the others learn what is committed. *)
Lemma heartbeat_round i t l c0 e ns :
  led i t l c0 ns → last l = Some e → runnable l →
  ∃ n n1 ns', ns !! i = Some n ∧ send_heartbeats n = (Ok (), n1) ∧
    runs (2 * length (others i)) (<[i := n1 <| outbox := [] |>]> ns, stamp i (outbox n1))
      (ns', []) ∧
    led i t l (length l - 1) ns'.
Proof using Hids.
  intros [(n & Hn & Hst & Hk & Hm) Hps] He Hl. pose proof (others_nodup i) as [Hi _]%NoDup_cons.
  destruct (wp_ok _ _ _ (send_heartbeats_stands ids db0 i t l _ e n Hst Hk He))
    as ([] & n1 & E & Hn1 & E1 & E2). exists n, n1.
  destruct (append_round i t l [] (length l - 1) e (<[i := n1 <| outbox := [] |>]> ns)
    (n1 <| outbox := [] |>)) as (ns2 & Hr & Hled); rewrite ?app_nil_r; [| |done..| | |].
  - by rewrite lookup_insert_eq.
  - split; [by intros p ?%elem_of_nil|]. left. by eapply stands_clear.
  - apply st_bound in Hst. lia.
  - intros p Hp. destruct (Hps p Hp) as (m & Hmn & Hmst). exists m, Follower, t, c0.
    rewrite lookup_insert_ne by (by intros ->). apply st_bound in Hmst as Hb.
    split_and!; [done..|lia|lia].
  - rewrite app_nil_r in *. exists ns2. by rewrite (st_outbox Hn1).
Qed.

End rounds.
