(* ===== verification/Healthy.v ===== *)
(** The simulator of [Simulator.v] without faults: it delivers every message in
    order, so that the rounds of [Rounds.v] are what it does. *)

From S2P Require Import Prelude Wp Bytes Float LogRecord RaftTypes LogStore RaftNode Heap.
From S2P Require Import RaftSim Runtime Fault Simulator Progress Rounds.

Section healthy.
Context {D : Type} `{!KvStore D} `{!F64Text} `{!Bincode} `{!RandomMillis} `{!DebugPayload}.
Context (now : Instant).

Abbreviation Sim := (Simulation D).
Abbreviation Node := (RaftNode D).
Abbreviation Nodes := (gmap NodeId Node).
Abbreviation Packet := (NodeId * NodeId * Message)%type.

(** ** The event queue *)

(** Events for messages that were sent now, numbered from [first] on. *)
Fixpoint numbered (first : Z) (q : list Packet) : list Event :=
  match q with
  | [] => []
  | (from, to, m) :: q' =>
      {| deliver_at := now; sequence := first; from := from; to := to; message := m |} ::
      numbered (first + 1) q'
  end.

Lemma numbered_app first q q' :
  numbered first (q ++ q') = numbered first q ++ numbered (first + Z.of_nat (length q)) q'.
Proof using Type.
  revert first. induction q as [|[[f t] m] q IH]; intros first; cbn [app numbered length].
  { f_equal. lia. }
  rewrite IH. do 3 f_equal. lia.
Qed.

Lemma numbered_later first q x :
  x ∈ numbered first q → deliver_at x = now ∧ (first ≤ sequence x)%Z.
Proof using Type.
  revert first. induction q as [|[[f t] m] q IH]; intros first; cbn [numbered].
  { by intros ?%elem_of_nil. }
  intros [->|Hx]%elem_of_cons; [cbn; split; [done|lia]|].
  destruct (IH _ Hx). split; [done|lia].
Qed.

(** The oldest event is popped. *)
Lemma pop_last h x :
  (∀ y, y ∈ h → event_cmp y x = Lt) → heap_pop event_cmp (h ++ [x]) = Some (x, h).
Proof using Type.
  induction h as [|y h IH]; intros Hlt; [done|]. cbn.
  rewrite IH by (intros z Hz; apply Hlt; by right). by rewrite (Hlt y) by (by left).
Qed.

Lemma pop_numbered first from to m q :
  heap_pop event_cmp (reverse (numbered first ((from, to, m) :: q))) =
  Some ({| deliver_at := now; sequence := first; from := from; to := to; message := m |},
        reverse (numbered (first + 1) q)).
Proof using Type.
  cbn [numbered]. rewrite reverse_cons. apply pop_last. intros y.
  rewrite elem_of_reverse. intros [Hd Hs]%numbered_later. unfold event_cmp, earlier. cbn.
  rewrite Hd, Z.compare_refl. apply Z.compare_lt_iff. lia.
Qed.

(** ** States without faults *)

(** No faults; the nodes are [ns], the messages [q] are on the way, and [c] events
    have been numbered. *)
Record waits (ns : Nodes) (q : list Packet) (c : Z) (s : Sim) : Prop := {
  wt_disabled : disabled_nodes s = ∅;
  wt_paused : paused_nodes s = ∅;
  wt_blocked : blocked_links s = ∅;
  wt_policies : link_policies s = ∅;
  wt_faults : scheduled_faults s = [];
  wt_clock : clock s = now;
  wt_nodes : nodes s = ns;
  wt_counter : sequence_counter s = c;
  wt_first : (0 ≤ c - Z.of_nat (length q))%Z;
  wt_events : events s = reverse (numbered (c - Z.of_nat (length q)) q);
}.

Lemma waits_nodes ns ns' q c s :
  waits ns q c s → waits ns' q c (s <| nodes := ns' |>).
Proof using Type. by intros []; split. Qed.

Lemma waits_eq ns q c c' s : waits ns q c s → c = c' → waits ns q c' s.
Proof using Type. by intros ? <-. Qed.

Lemma trigger_nothing ns q c s : waits ns q c s → trigger_due_faults s = (Ok (), s).
Proof using Type.
  intros Hs. unfold trigger_due_faults. rewrite bind_eq. cbn [get].
  rewrite (wt_faults _ _ _ _ Hs). cbn [length trigger_loop]. rewrite bind_eq. cbn [get].
  by rewrite (wt_faults _ _ _ _ Hs).
Qed.

(** ** Sending *)

Lemma route_ok i to m ns q c s :
  waits ns q c s → is_timeout m = false → (c < u64_max)%Z →
  ∃ s', route i now (to, m) s = (Ok (), s') ∧ waits ns (q ++ [(i, to, m)]) (c + 1) s'.
Proof using Type.
  intros Hs Hm Hc. unfold route. rewrite Hm, bind_eq. cbn [get].
  rewrite (wt_blocked _ _ _ _ Hs), (wt_disabled _ _ _ _ Hs), decide_False by set_solver.
  rewrite bind_eq. unfold link_faults. rewrite bind_eq. cbn [get].
  rewrite (wt_policies _ _ _ _ Hs), lookup_empty.
  eexists. split; [reflexivity|]. destruct Hs. split; try done; cbn.
  - rewrite wt_counter0. apply wrap_small. unfold in_u, u64_max in *. lia.
  - rewrite length_app. cbn. lia.
  - rewrite length_app, wt_events0, numbered_app, reverse_app. cbn [length numbered].
    unfold heap_push. rewrite reverse_singleton. cbn. rewrite wt_counter0. f_equal; f_equal; try lia.
    f_equal. lia.
Qed.

Lemma route_all i out ns q c s :
  waits ns q c s → (c + Z.of_nat (length (stamp i out)) ≤ u64_max)%Z →
  ∃ s', for_each out (route i now) s = (Ok (), s') ∧
    waits ns (q ++ stamp i out) (c + Z.of_nat (length (stamp i out))) s'.
Proof using Type.
  revert q c s. induction out as [|[to m] out IH]; intros q c s Hs Hc.
  { exists s. cbn. by rewrite app_nil_r, Z.add_0_r. }
  cbn [for_each]. rewrite bind_eq. destruct (is_timeout m) eqn:Em.
  - unfold stamp in *. rewrite filter_cons_False in * by (cbn; congruence).
    unfold route at 1. rewrite Em. by apply IH.
  - unfold stamp in *. rewrite filter_cons_True in * by done. rewrite fmap_cons in *.
    cbn [length fst snd] in *.
    destruct (route_ok i to m ns q c s Hs Em) as (s1 & E & Hs1); [lia|]. rewrite E.
    destruct (IH _ _ s1 Hs1) as (s2 & E2 & Hs2); [lia|]. exists s2. split; [done|].
    rewrite <-app_assoc in Hs2. cbn [app] in Hs2. eapply waits_eq; [exact Hs2|lia].
Qed.

Lemma sim_flush_ok i n ns q c s :
  waits ns q c s → ns !! i = Some n → (c + Z.of_nat (length (stamp i (outbox n))) ≤ u64_max)%Z →
  ∃ s', flush_node_outbox i s = (Ok (), s') ∧
    waits (<[i := n <| outbox := [] |>]> ns) (q ++ stamp i (outbox n))
      (c + Z.of_nat (length (stamp i (outbox n)))) s'.
Proof using Type.
  intros Hs Hn Hc. unfold flush_node_outbox. rewrite bind_eq. cbn [get].
  rewrite (wt_disabled _ _ _ _ Hs), (wt_paused _ _ _ _ Hs).
  rewrite decide_False, decide_False by set_solver. rewrite bind_eq.
  unfold with_node. rewrite (wt_nodes _ _ _ _ Hs), Hn. cbn [clear_outbox modify].
  rewrite (wt_clock _ _ _ _ Hs). apply route_all; [|done]. by eapply waits_nodes.
Qed.

(** ** Delivering *)

Lemma deliver_ok from to m ns q c s n n' :
  waits ns ((from, to, m) :: q) c s → ns !! to = Some n → handle_message m now n = (Ok (), n') →
  (c + Z.of_nat (length (stamp to (outbox n'))) ≤ u64_max)%Z →
  ∃ s', deliver_next s = (Ok true, s') ∧
    waits (<[to := n' <| outbox := [] |>]> ns) (q ++ stamp to (outbox n'))
      (c + Z.of_nat (length (stamp to (outbox n')))) s'.
Proof using Type.
  intros Hs Hn E Hc. unfold deliver_next.
  erewrite bind_Ok by (by eapply trigger_nothing). rewrite bind_eq. cbn [get].
  rewrite (wt_events _ _ _ _ Hs), pop_numbered. rewrite bind_eq. cbn [modify].
  set (s1 := s <| events := _ |>).
  assert (Hs1 : waits ns q c s1).
  { destruct Hs. cbn [length] in *. split; try done; cbn; [lia|]. do 2 f_equal. lia. }
  clearbody s1. unfold deliver. rewrite bind_eq. cbn [modify deliver_at].
  rewrite (wt_clock _ _ _ _ Hs1), Z.max_id.
  set (s2 := s1 <| clock := now |>).
  assert (Hs2 : waits ns q c s2) by (destruct Hs1; by split).
  clearbody s2. erewrite bind_Ok by (by eapply trigger_nothing). rewrite bind_eq. cbn [get].
  cbn [Simulator.from Simulator.to message].
  rewrite (wt_disabled _ _ _ _ Hs2), (wt_paused _ _ _ _ Hs2), (wt_blocked _ _ _ _ Hs2).
  rewrite decide_False, decide_False by set_solver.
  rewrite bind_eq. unfold with_node. rewrite (wt_nodes _ _ _ _ Hs2), (wt_clock _ _ _ _ Hs2), Hn, E.
  destruct (sim_flush_ok to n' (<[to := n']> ns) q c (s2 <| nodes := <[to := n']> ns |>))
    as (s3 & E3 & H3); [by eapply waits_nodes|by rewrite lookup_insert_eq|done|].
  rewrite insert_insert_eq in H3. exists s3. split; [|done]. by erewrite bind_Ok by exact E3.
Qed.

Lemma deliver_none ns c s : waits ns [] c s → deliver_next s = (Ok false, s).
Proof using Type.
  intros Hs. unfold deliver_next. erewrite bind_Ok by (by eapply trigger_nothing).
  rewrite bind_eq. cbn [get]. rewrite (wt_events _ _ _ _ Hs). cbn.
  by rewrite (wt_faults _ _ _ _ Hs).
Qed.

Lemma runs_length k x y : runs now k x y → length x.2 ≤ k + length y.2.
Proof using Type. induction 1; [done|]. cbn in *. rewrite length_app in *. lia. Qed.

(** The loop delivers everything, if the messages do not exceed its limit. *)
Lemma idle_ok k x y left s c :
  runs now k x y → y.2 = [] → waits x.1 x.2 c s → k ≤ left →
  (c + Z.of_nat k - Z.of_nat (length x.2) ≤ u64_max)%Z →
  ∃ s', idle_loop left s = (Ok (), s') ∧
    waits y.1 [] (c + Z.of_nat k - Z.of_nat (length x.2)) s'.
Proof using Type.
  intros Hr. revert left s c.
  induction Hr as [x|k from to m ns q n n' y Hn E Hr IH]; intros left s c Hy Hs Hk Hc.
  - rewrite Hy in *. exists s. split.
    + pose proof (deliver_none _ _ _ Hs) as E.
      destruct left; cbn [idle_loop]; by erewrite bind_Ok by exact E.
    + cbn [length]. eapply waits_eq; [exact Hs|lia].
  - pose proof (runs_length _ _ _ Hr) as Hlen. rewrite Hy in Hlen. cbn in Hlen, Hs, Hc.
    rewrite length_app in Hlen. destruct left as [|left]; [lia|].
    destruct (deliver_ok _ _ _ _ _ _ _ _ _ Hs Hn E) as (s1 & E1 & Hs1); [lia|].
    cbn [fst snd length] in *. rewrite length_app in IH.
    destruct (IH left s1 _ Hy Hs1) as (s2 & E2 & Hs2); [lia|lia|].
    exists s2. cbn [idle_loop]. erewrite bind_Ok by exact E1. split; [done|].
    eapply waits_eq; [exact Hs2|lia].
Qed.

(** ** All outboxes *)

Definition silent (ns : Nodes) (j : NodeId) : Prop := ∀ n, ns !! j = Some n → outbox n = [].

Lemma clear_silent (n : Node) : outbox n = [] → n <| outbox := [] |> = n.
Proof using Type. intros Ho. rewrite <-Ho. by destruct n. Qed.

Lemma flush_silent j ns q c s :
  waits ns q c s → silent ns j → (c ≤ u64_max)%Z →
  ∃ s', flush_node_outbox j s = (Ok (), s') ∧ waits ns q c s'.
Proof using Type.
  intros Hs Hj Hc. destruct (ns !! j) as [n|] eqn:Hn.
  - pose proof (Hj n Hn) as Ho.
    destruct (sim_flush_ok j n ns q c s Hs Hn) as (s1 & E & Hs1); rewrite Ho in *; cbn in *; [lia|].
    exists s1. split; [done|]. rewrite app_nil_r, Z.add_0_r in Hs1.
    by rewrite (clear_silent n Ho), insert_id in Hs1.
  - unfold flush_node_outbox. rewrite bind_eq. cbn [get].
    rewrite (wt_disabled _ _ _ _ Hs), (wt_paused _ _ _ _ Hs).
    rewrite decide_False, decide_False by set_solver.
    rewrite bind_eq. unfold with_node. rewrite (wt_nodes _ _ _ _ Hs), Hn. by exists s.
Qed.

Lemma flush_all_silent l ns q c s :
  waits ns q c s → (∀ j, j ∈ l → silent ns j) → (c ≤ u64_max)%Z →
  ∃ s', for_each l flush_node_outbox s = (Ok (), s') ∧ waits ns q c s'.
Proof using Type.
  revert s. induction l as [|j l IH]; intros s Hs Hl Hc; [by exists s|].
  destruct (flush_silent j ns q c s Hs) as (s1 & E1 & Hs1); [apply Hl; by left|done|].
  destruct (IH s1 Hs1) as (s2 & E2 & Hs2); [intros; apply Hl; by right|done|].
  exists s2. cbn [for_each]. by erewrite bind_Ok by exact E1.
Qed.

Lemma flush_all_one l i n ns c s :
  waits ns [] c s → ns !! i = Some n → (∀ j, j ≠ i → silent ns j) → i ∈ l →
  (c + Z.of_nat (length (stamp i (outbox n))) ≤ u64_max)%Z →
  ∃ s', for_each l flush_node_outbox s = (Ok (), s') ∧
    waits (<[i := n <| outbox := [] |>]> ns) (stamp i (outbox n))
      (c + Z.of_nat (length (stamp i (outbox n)))) s'.
Proof using Type.
  revert s. induction l as [|j l IH]; intros s Hs Hn Hj Hi Hc; [by apply elem_of_nil in Hi|].
  cbn [for_each]. destruct (decide (j = i)) as [->|Hne].
  - destruct (sim_flush_ok i n ns [] c s Hs Hn) as (s1 & E1 & Hs1); [done|].
    destruct (flush_all_silent l _ _ _ s1 Hs1) as (s2 & E2 & Hs2); [|done|].
    { intros j _ m. destruct (decide (j = i)) as [->|Hne].
      - rewrite lookup_insert_eq. by intros [= <-].
      - rewrite lookup_insert_ne by done. by apply Hj. }
    exists s2. by erewrite bind_Ok by exact E1.
  - apply elem_of_cons in Hi as [|Hi]; [congruence|].
    destruct (flush_silent j ns [] c s Hs) as (s1 & E1 & Hs1); [by apply Hj|lia|].
    destruct (IH s1 Hs1) as (s2 & E2 & Hs2); [done..|].
    exists s2. by erewrite bind_Ok by exact E1.
Qed.

Lemma elem_of_node_ids (s : Sim) i : i ∈ node_ids s ↔ is_Some (nodes s !! i).
Proof using Type.
  unfold node_ids, in_order. rewrite merge_sort_Permutation, elem_of_elements. apply elem_of_dom.
Qed.

(** ** [run_until_idle] *)

(** It runs the messages that are on the way. *)
Lemma run_ok k ns q ns' c s :
  waits ns q c s → (∀ j, silent ns j) → runs now k (ns, q) (ns', []) →
  (Z.of_nat k ≤ 10000)%Z → (c + Z.of_nat k - Z.of_nat (length q) ≤ u64_max)%Z →
  ∃ s', run_until_idle s = (Ok (), s') ∧
    waits ns' [] (c + Z.of_nat k - Z.of_nat (length q)) s'.
Proof using Type.
  intros Hs Hns Hr Hk Hc. pose proof (runs_length _ _ _ Hr) as Hlen. cbn in Hlen.
  destruct (flush_all_silent (node_ids s) ns q c s Hs) as (s1 & E1 & Hs1); [by intros ? _|lia|].
  destruct (idle_ok k _ _ (Z.to_nat 10000) s1 c Hr eq_refl Hs1) as (s2 & E2 & Hs2); [lia|done|].
  exists s2. split; [|done]. unfold run_until_idle, flush_all_outboxes.
  erewrite bind_Ok; [exact E2|]. by rewrite bind_eq.
Qed.

(** It first takes the messages that one of the nodes wants to send. *)
Lemma run_one k i n ns ns' c s :
  waits ns [] c s → ns !! i = Some n → (∀ j, j ≠ i → silent ns j) →
  runs now k (<[i := n <| outbox := [] |>]> ns, stamp i (outbox n)) (ns', []) →
  (Z.of_nat k ≤ 10000)%Z → (c + Z.of_nat k ≤ u64_max)%Z →
  ∃ s', run_until_idle s = (Ok (), s') ∧ waits ns' [] (c + Z.of_nat k) s'.
Proof using Type.
  intros Hs Hn Hns Hr Hk Hc. pose proof (runs_length _ _ _ Hr) as Hlen. cbn in Hlen.
  destruct (flush_all_one (node_ids s) i n ns c s) as (s1 & E1 & Hs1); [done..| |lia|].
  { rewrite elem_of_node_ids, (wt_nodes _ _ _ _ Hs). by eexists. }
  destruct (idle_ok k _ _ (Z.to_nat 10000) s1 _ Hr eq_refl Hs1) as (s2 & E2 & Hs2); [lia|cbn; lia|].
  exists s2. split; [|eapply waits_eq; [exact Hs2|cbn; lia]].
  unfold run_until_idle, flush_all_outboxes. erewrite bind_Ok; [exact E2|]. by rewrite bind_eq.
Qed.

(** The same after a program on the node. *)
Lemma run_after (m : M Node ()) i n n1 k ns ns' c s :
  waits ns [] c s → ns !! i = Some n → m n = (Ok (), n1) → (∀ j, silent ns j) →
  runs now k (<[i := n1 <| outbox := [] |>]> ns, stamp i (outbox n1)) (ns', []) →
  (Z.of_nat k ≤ 10000)%Z → (c + Z.of_nat k ≤ u64_max)%Z →
  ∃ s', (with_node i m;; run_until_idle) s = (Ok (), s') ∧
    waits ns' [] (c + Z.of_nat k) s'.
Proof using Type.
  intros Hs Hn E Hns Hr Hk Hc.
  destruct (run_one k i n1 (<[i := n1]> ns) ns' c (s <| nodes := <[i := n1]> ns |>))
    as (s1 & E1 & Hs1); [by eapply waits_nodes|by rewrite lookup_insert_eq| | |done|done|].
  - intros j Hj. unfold silent. rewrite lookup_insert_ne by done. apply Hns.
  - by rewrite insert_insert_eq.
  - exists s1. split; [|done]. rewrite bind_eq. unfold with_node.
    rewrite (wt_nodes _ _ _ _ Hs), Hn, E. done.
Qed.

Lemma run_after_flush (m : M Node ()) i n n1 k ns ns' c s :
  waits ns [] c s → ns !! i = Some n → m n = (Ok (), n1) → (∀ j, silent ns j) →
  runs now k (<[i := n1 <| outbox := [] |>]> ns, stamp i (outbox n1)) (ns', []) →
  (Z.of_nat k ≤ 10000)%Z → (c + Z.of_nat k ≤ u64_max)%Z →
  ∃ s', (with_node i m;; flush_node_outbox i;; run_until_idle) s = (Ok (), s') ∧
    waits ns' [] (c + Z.of_nat k) s'.
Proof using Type.
  intros Hs Hn E Hns Hr Hk Hc. pose proof (runs_length _ _ _ Hr) as Hlen. cbn in Hlen.
  destruct (sim_flush_ok i n1 (<[i := n1]> ns) [] c (s <| nodes := <[i := n1]> ns |>))
    as (s1 & E1 & Hs1); [by eapply waits_nodes|by rewrite lookup_insert_eq|lia|].
  rewrite insert_insert_eq in Hs1.
  destruct (run_ok k _ _ ns' _ s1 Hs1) as (s2 & E2 & Hs2); [|exact Hr|done|cbn; lia|].
  - intros j m1. destruct (decide (j = i)) as [->|Hne].
    + rewrite lookup_insert_eq. by intros [= <-].
    + rewrite lookup_insert_ne by done. apply Hns.
  - exists s2. split; [|eapply waits_eq; [exact Hs2|cbn; lia]].
    rewrite bind_eq. unfold with_node. rewrite (wt_nodes _ _ _ _ Hs), Hn, E.
    by erewrite bind_Ok by exact E1.
Qed.

End healthy.

Lemma runs_dom {D} `{!KvStore D} `{!F64Text} `{!Bincode} `{!RandomMillis} now k x y :
  runs (D := D) now k x y → dom y.1 = dom x.1.
Proof.
  induction 1 as [|k from to m ns q n n' x Hn E Hr IH]; [done|]. cbn in *.
  rewrite IH, dom_insert_L. apply elem_of_dom_2 in Hn. set_solver.
Qed.
