(* ===== verification/Liveness.v ===== *)
(** Progress of the simulated cluster without faults: a new cluster of any size
    elects the node that starts an election, and every command that the leader
    is given is committed, copied to all nodes and applied. *)

From S2P Require Import Prelude Wp Bytes Float LogRecord RaftTypes LogStore RaftNode RaftSim.
From S2P Require Import Cluster Journal Runtime Fault Simulator SimulatorSpec ChaosSafe.
From S2P Require Import DatabaseRefine MapStore Progress Rounds Healthy.

Section liveness.
Context {D : Type} `{!KvStore D} `{!F64Text} `{!Bincode} `{!RandomMillis} `{!DebugPayload}.
Context (members : list NodeId) (db0 : NodeId → D) (now : Instant).
Hypothesis (Hmembers : NoDup members).

Abbreviation Sim := (Simulation D).
Abbreviation Node := (RaftNode D).
Abbreviation others := (others members).
Abbreviation stands := (stands members db0).
Abbreviation led := (led members db0).
Abbreviation waits := (waits now).
Abbreviation runnable := (runnable db0).

(** The simulated cluster is idle, and node [i] leads it. *)
Definition sim_led (i : NodeId) (t : Z) (l : list LogEntry) (c : nat) (k : Z) (s : Sim) : Prop :=
  ∃ ns, waits ns [] k s ∧ dom ns = list_to_set members ∧ led i t l c ns.

Lemma members_others i p : p ∈ members → p = i ∨ p ∈ others i.
Proof using Type. intros Hp. rewrite elem_of_others. destruct (decide (p = i)); auto. Qed.

Lemma led_silent i t l c ns :
  dom ns = list_to_set members → led i t l c ns → ∀ j, silent ns j.
Proof using Type.
  intros Hd [(n & Hn & Hst & _) Hps] j m Hm. pose proof (elem_of_dom_2 _ _ _ Hm) as Hj.
  rewrite Hd, elem_of_list_to_set in Hj. apply (members_others i) in Hj as [->|Hj].
  - rewrite Hn in Hm. injection Hm as <-. apply (st_outbox Hst).
  - destruct (Hps j Hj) as (m' & Hm' & Hst'). rewrite Hm in Hm'. injection Hm' as <-.
    apply (st_outbox Hst').
Qed.

Lemma settled_silent i t l ns :
  dom ns = list_to_set members → settled members db0 i t l ns → ∀ j, silent ns j.
Proof using Type.
  intros Hd [(n & r & Hn & Hst) Hps] j m Hm. pose proof (elem_of_dom_2 _ _ _ Hm) as Hj.
  rewrite Hd, elem_of_list_to_set in Hj. apply (members_others i) in Hj as [->|Hj].
  - rewrite Hn in Hm. injection Hm as <-. apply (st_outbox Hst).
  - destruct (Hps j Hj) as (m' & r' & t' & c & Hm' & Hst' & _). rewrite Hm in Hm'.
    injection Hm' as <-. apply (st_outbox Hst').
Qed.

(** The number of messages of a round. *)
Definition cost (i : NodeId) : nat := length (others i).

(** ** An election *)

Lemma election_ok i t l e ns k s :
  waits ns [] k s → dom ns = list_to_set members → settled members db0 i t l ns →
  last l = Some e → runnable l → (0 ≤ t < u64_max)%Z →
  4 * cost i ≤ Z.to_nat 10000 → (k + Z.of_nat (4 * cost i) ≤ u64_max)%Z →
  ∃ s' k', (sim_start_election i;; run_until_idle) s = (Ok (), s') ∧
    sim_led i (t + 1) l (length l - 1) k' s' ∧ (k ≤ k' ≤ k + Z.of_nat (4 * cost i))%Z.
Proof using Hmembers.
  intros Hs Hd Hset He Hl Ht Hcost Hk.
  destruct (election_round members db0 now Hmembers i t l e ns Hset He Hl Ht)
    as (n & n1 & j & ns' & Hn & E & Hr & Hj & Hled).
  destruct (run_after_flush now (start_election now) i n n1 j ns ns' k s) as (s' & Es & Hs');
    [done..|by eapply settled_silent|done|unfold cost in *; lia|unfold cost in *; lia|].
  exists s', (k + Z.of_nat j)%Z. split; [|split; [|unfold cost; lia]].
  - unfold sim_start_election. rewrite bind_eq, bind_eq. cbn [get].
    rewrite (wt_disabled _ _ _ _ _ Hs), (wt_paused _ _ _ _ _ Hs), (wt_clock _ _ _ _ _ Hs).
    rewrite decide_False by set_solver. rewrite bind_eq in Es. rewrite bind_eq.
    destruct (with_node i (start_election now) s) as [[[]|?|?] s1]; [|done..].
    rewrite bind_eq in Es. by destruct (flush_node_outbox i s1) as [[[]|?|?] s2].
  - exists ns'. split_and!; [done| |done]. apply runs_dom in Hr. cbn in Hr.
    rewrite Hr, dom_insert_L, Hd. apply elem_of_dom_2 in Hn. set_solver.
Qed.

(** ** A command, a heartbeat *)

(** A program on the leader that sends one round of requests. *)
Lemma leader_round_ok (m : M Node ()) i t l l' c c' k s n n1 ns ns' :
  waits ns [] k s → dom ns = list_to_set members → led i t l c ns →
  ns !! i = Some n → m n = (Ok (), n1) →
  runs now (2 * cost i) (<[i := n1 <| outbox := [] |>]> ns, stamp i (outbox n1)) (ns', []) →
  led i t l' c' ns' →
  2 * cost i ≤ Z.to_nat 10000 → (k + Z.of_nat (2 * cost i) ≤ u64_max)%Z →
  (∃ s', (with_node i m;; run_until_idle) s = (Ok (), s') ∧
     sim_led i t l' c' (k + Z.of_nat (2 * cost i)) s') ∧
  (∃ s', (with_node i m;; flush_node_outbox i;; run_until_idle) s = (Ok (), s') ∧
     sim_led i t l' c' (k + Z.of_nat (2 * cost i)) s').
Proof using Hmembers.
  intros Hs Hd Hled Hn E Hr Hled' Hcost Hk.
  pose proof (led_silent _ _ _ _ _ Hd Hled) as Hsil.
  assert (Hd' : dom ns' = list_to_set members).
  { apply runs_dom in Hr. cbn in Hr. rewrite Hr, dom_insert_L, Hd.
    apply elem_of_dom_2 in Hn. set_solver. }
  split.
  - destruct (run_after now m i n n1 (2 * cost i) ns ns' k s) as (s' & Es & Hs'); [done..|lia|lia|].
    exists s'. split; [done|]. by exists ns'.
  - destruct (run_after_flush now m i n n1 (2 * cost i) ns ns' k s) as (s' & Es & Hs');
      [done..|lia|lia|]. exists s'. split; [done|]. by exists ns'.
Qed.

Lemma submit_ok i t l e c cmd k s :
  sim_led i t l c k s → last l = Some e → runnable (l ++ [command_entry_in t cmd]) →
  2 * cost i ≤ Z.to_nat 10000 → (k + Z.of_nat (2 * cost i) ≤ u64_max)%Z →
  (∃ s', (with_node i (append_command cmd;; mret ());; run_until_idle) s = (Ok (), s') ∧
     sim_led i t (l ++ [command_entry_in t cmd]) (length l - 1) (k + Z.of_nat (2 * cost i)) s') ∧
  (∃ s', (apply_fault (SubmitCommand i cmd);; run_until_idle) s = (Ok (), s') ∧
     sim_led i t (l ++ [command_entry_in t cmd]) (length l - 1) (k + Z.of_nat (2 * cost i)) s').
Proof using Hmembers.
  intros (ns & Hs & Hd & Hled) He Hl Hcost Hk.
  destruct (command_round members db0 now Hmembers i t l c e cmd ns Hled He Hl)
    as (n & a & n1 & ns' & Hn & E & Hr & Hled'). split.
  - assert ((append_command cmd;; mret ()) n = (Ok (), n1)) as E' by (by erewrite bind_Ok by exact E).
    by eapply leader_round_ok.
  - assert (submit_command cmd now n = (Ok (), n1)) as E'.
    { unfold submit_command. cbn [handle_message]. rewrite bind_eq. cbn [get].
      destruct Hled as [(n' & Hn' & Hst & _) _]. rewrite Hn in Hn'. injection Hn' as <-.
      rewrite (st_role Hst), decide_True by done. by erewrite bind_Ok by exact E. }
    destruct (leader_round_ok (submit_command cmd now) _ _ _ _ _ _ _ _ _ _ _ _ Hs Hd Hled Hn E' Hr
      Hled' Hcost Hk) as [_ (s' & Es & Hs')]. exists s'. split; [|done]. cbn [apply_fault]. rewrite bind_eq, bind_eq. cbn [gets].
    rewrite (wt_clock _ _ _ _ _ Hs). rewrite bind_eq in Es. rewrite bind_eq.
    destruct (with_node i (submit_command cmd now) s) as [[[]|?|?] s1]; [|done..].
    rewrite bind_eq in Es. by destruct (flush_node_outbox i s1) as [[[]|?|?] s2].
Qed.

Lemma heartbeat_ok i t l e c k s :
  sim_led i t l c k s → last l = Some e → runnable l →
  2 * cost i ≤ Z.to_nat 10000 → (k + Z.of_nat (2 * cost i) ≤ u64_max)%Z →
  ∃ s', (with_node i send_heartbeats;; run_until_idle) s = (Ok (), s') ∧
    sim_led i t l (length l - 1) (k + Z.of_nat (2 * cost i)) s'.
Proof using Hmembers.
  intros (ns & Hs & Hd & Hled) He Hl Hcost Hk.
  destruct (heartbeat_round members db0 now Hmembers i t l c e ns Hled He Hl)
    as (n & n1 & ns' & Hn & E & Hr & Hled').
  eapply (leader_round_ok send_heartbeats); done.
Qed.

(** ** Leaders *)

(** The only leader is node [i]. *)
Lemma led_leader i t l c k s :
  sim_led i t l c k s → get_leader s = Some (node_id i) ∧ leader_count s = 1.
Proof using Hmembers.
  intros (ns & Hs & Hd & [(n & Hn & Hst & _) Hps]).
  assert (Hact : active_leader s i n = true).
  { unfold active_leader. rewrite (wt_disabled _ _ _ _ _ Hs), (wt_paused _ _ _ _ _ Hs).
    rewrite !bool_decide_true; [done|apply Hst|set_solver..]. }
  assert (Hin : (i, n) ∈ in_key_order s) by (by rewrite elem_of_key_order, (wt_nodes _ _ _ _ _ Hs)).
  assert (Honly : ∀ j m, (j, m) ∈ in_key_order s → active_leader s j m = true → (j, m) = (i, n)).
  { intros j m. rewrite elem_of_key_order, (wt_nodes _ _ _ _ _ Hs). intros Hm Ha.
    pose proof (elem_of_dom_2 _ _ _ Hm) as Hj.
    rewrite Hd, elem_of_list_to_set in Hj. apply (members_others i) in Hj as [->|Hj]; [congruence|].
    destruct (Hps j Hj) as (m' & Hm' & Hst'). rewrite Hm in Hm'. injection Hm' as <-.
    unfold active_leader in Ha. apply andb_true_iff in Ha as [_ Ha%bool_decide_eq_true].
    rewrite (st_role Hst') in Ha. done. }
  split.
  - pose proof (get_leader_newest s) as Hg. destruct (get_leader s) as [j|].
    + destruct Hg as (p & m & Hp & <- & Ha & _). by injection (Honly p m Hp Ha) as -> _.
    + by rewrite (Hg i n Hin) in Hact.
  - unfold leader_count.
    assert (filter (λ x, active_leader s x.1 x.2 = true) (in_key_order s) ≡ₚ [(i, n)]) as E.
    { apply NoDup_Permutation; [apply NoDup_filter, key_order_nodup|apply NoDup_singleton|].
      intros [j m]. rewrite list_elem_of_filter, list_elem_of_singleton. cbn. split.
      - intros [Ha Hj]. by apply Honly.
      - intros [= -> ->]. done. }
    by rewrite (Permutation_length E).
Qed.

End liveness.

(** ** A new cluster *)

Section cluster.
Context {D : Type} `{!KvStore D} `{!F64Text} `{!Bincode} `{!RandomMillis} `{!DebugPayload}.
Context `{!MapStore D}.
Context (db0 : D) (created : NodeId → Instant) (started : Instant) (ids : list Z).
Hypothesis (Hids : NoDup ids).

Abbreviation opened := (λ _ : NodeId, Ok db0).
Abbreviation ms := (MkNodeId <$> ids).
Abbreviation sim_led := (sim_led ms (λ _, db0) started).

Lemma ms_nodup : NoDup ms.
Proof using Hids.
  apply NoDup_fmap_2; [|exact Hids]. intros x y E. injection E as E. exact E.
Qed.

Lemma others_ms i : i ∈ ids → length ids = S (cost ms (MkNodeId i)).
Proof using Hids.
  intros Hi. pose proof (others_nodup ms ms_nodup (MkNodeId i)) as Hd.
  assert (MkNodeId i :: others ms (MkNodeId i) ≡ₚ ms) as E.
  { apply NoDup_Permutation; [done|apply ms_nodup|]. intros p.
    rewrite elem_of_cons, elem_of_others. split.
    - intros [->|[? _]]; [by apply list_elem_of_fmap_2|done].
    - intros Hp. destruct (decide (p = MkNodeId i)); [by left|by right]. }
  apply Permutation_length in E. rewrite length_fmap in E. by unfold cost.
Qed.

Lemma fresh_stands i at_ (n n' : RaftNode D) :
  new_in_dir [] [] (Ok db0) i (others ms i) at_ = Ok n → core n' = core n →
  pending_requests n' = pending_requests n →
  stands ms (λ _, db0) i Follower 0 [sentinel] 0 [] n'.
Proof using Hids.
  unfold new_in_dir. cbn. unfold reset_election_timeout. cbn. intros [= <-].
  unfold core, view. cbn. intros [= E1 E2 E3 E4 E5 E6 E7 E8 E9 E10 E11 E12 E13] Hp.
  split; try done; [cbn; lia|]. rewrite E11. set_solver.
Qed.

(** All nodes of a new cluster are in the initial state. *)
Lemma new_cluster_settled :
  ∃ s ns, new_cluster opened created started ids = Ok s ∧ waits started ns [] 0 s ∧
    dom ns = list_to_set ms ∧ ∀ i, i ∈ ms → settled ms (λ _, db0) i 0 [sentinel] ns.
Proof using Hids.
  unfold new_cluster.
  destruct (make_nodes_ok db0 created ms ms ∅) as (nodes0 & -> & Hm & Hd).
  { intros i n. by rewrite lookup_empty. }
  cbn. destruct (set_timeouts_ok started (node_ids (sim_new started nodes0))
    (sim_new started nodes0)) as (s & -> & E & Hd' & Hn).
  rewrite dom_empty_L, union_empty_r_L in Hd. cbn in Hd', Hn.
  exists s, (nodes s). split; [done|].
  assert (Hst : ∀ p, p ∈ ms → ∃ n, nodes s !! p = Some n ∧
    stands ms (λ _, db0) p Follower 0 [sentinel] 0 [] n).
  { intros p Hp. assert (is_Some (nodes s !! p)) as [n Hp'].
    { apply elem_of_dom. rewrite Hd', Hd. by apply elem_of_list_to_set. }
    exists n. split; [done|]. destruct (Hn p n Hp') as (n0 & Hn0 & Hc & _ & Hpend).
    eapply fresh_stands; [by apply Hm|done|done]. }
  split_and!.
  - rewrite E. by split.
  - by rewrite Hd', Hd.
  - intros i Hi. split.
    + destruct (Hst i Hi) as (n & ? & ?). by exists n, Follower.
    + intros p [Hp _]%elem_of_others. destruct (Hst p Hp) as (n & ? & ?).
      exists n, Follower, 0%Z, 0. done.
Qed.

(** The entries of commands in term [t]. *)
Definition command_entries (t : Z) (cs : list Command) : list LogEntry :=
  command_entry_in t <$> cs.

(** What the commands leave in a database. *)
Lemma replay_holds room t cs d m :
  holds (length cs + room) d m → Forall fits cs →
  holds room (replay d (command_entries t cs)) (foldl apply_command m cs).
Proof using Type.
  revert d m. induction cs as [|c cs IH]; intros d m Hd Hcs; [done|].
  apply Forall_cons in Hcs as [Hc Hcs]. cbn [foldl]. apply IH; [|done].
  destruct c as [key value|key]; cbn.
  - destruct (insert_holds (length cs + room) d m key value Hd Hc) as (d' & E & Hd').
    by rewrite E.
  - destruct (delete_holds (length cs + room) d m key Hd Hc) as (d' & E & Hd'). by rewrite E.
Qed.

Lemma take_commands t cs k :
  take k (drop 1 (sentinel :: command_entries t cs)) = command_entries t (take k cs).
Proof using Type. cbn. unfold command_entries. by rewrite fmap_take. Qed.

Lemma take_holds t cs k :
  k ≤ length cs → holds (length cs) db0 ∅ → Forall fits cs →
  holds (length cs - k) (replay db0 (command_entries t (take k cs)))
    (foldl apply_command ∅ (take k cs)).
Proof using Type.
  intros Hk Hd Hcs. apply replay_holds; [|by apply Forall_take].
  rewrite length_take. by replace (_ + _) with (length cs) by lia.
Qed.

Lemma log_commands t cs :
  holds (length cs) db0 ∅ → Forall fits cs →
  runnable (λ _, db0) (sentinel :: command_entries t cs).
Proof using Type.
  intros Hd Hcs i k e He. rewrite take_commands. cbn in He. unfold command_entries in He.
  apply list_lookup_fmap_Some in He as (c & -> & Hc).
  pose proof (lookup_lt_Some _ _ _ Hc) as Hk.
  pose proof (take_holds t cs k ltac:(lia) Hd Hcs) as Hk'.
  replace (length cs - k) with (S (length cs - S k)) in Hk' by lia.
  pose proof (Forall_lookup_1 _ _ _ _ Hcs Hc) as Hf. intros msg. cbn.
  destruct c as [key value|key].
  - destruct (insert_holds _ _ _ key value Hk' Hf) as (d' & E & _). by rewrite E.
  - destruct (delete_holds _ _ _ key Hk' Hf) as (d' & E & _). by rewrite E.
Qed.

Lemma log_last t cs : ∃ e, last (sentinel :: command_entries t cs) = Some e.
Proof using Type.
  destruct (last _) as [e|] eqn:E; [by exists e|]. by apply last_None in E.
Qed.

(** After the election and a list of commands; the other nodes have not yet
    heard that the last command is committed. *)
Lemma commands_ok i cs k s :
  i ∈ ids → sim_led (MkNodeId i) 1 [sentinel] 0 k s →
  2 * (length ids - 1) ≤ Z.to_nat 10000 →
  (k + Z.of_nat (2 * (length ids - 1) * length cs) ≤ u64_max)%Z →
  runnable (λ _, db0) (sentinel :: command_entries 1 cs) →
  ∃ s', for_each cs (λ cmd, apply_fault (SubmitCommand (MkNodeId i) cmd);; run_until_idle) s
      = (Ok (), s') ∧
    sim_led (MkNodeId i) 1 (sentinel :: command_entries 1 cs) (length cs - 1)
      (k + Z.of_nat (2 * (length ids - 1) * length cs)) s'.
Proof using Hids.
  intros Hi Hs Hcost Hk Hl. rewrite (others_ms i Hi) in *. cbn [Nat.sub] in *.
  rewrite Nat.sub_0_r in *.
  induction cs as [|cmd cs IH] using rev_ind.
  { exists s. split; [done|]. rewrite Nat.mul_0_r, Z.add_0_r. exact Hs. }
  rewrite length_app in *. cbn [length] in *.
  assert (Hl' : runnable (λ _, db0) ((sentinel :: command_entries 1 cs) ++ [command_entry_in 1 cmd])).
  { unfold command_entries in *. by rewrite fmap_app in Hl. }
  destruct IH as (s1 & E1 & Hs1); [lia|by eapply runnable_app|].
  destruct (log_last 1 cs) as [e He].
  destruct (submit_ok ms (λ _, db0) started ms_nodup _ _ _ e _ cmd _ _ Hs1 He Hl')
    as [_ (s2 & E2 & Hs2)]; [lia|lia|].
  exists s2. rewrite for_each_app. erewrite bind_Ok by exact E1.
  cbn [for_each]. erewrite bind_Ok by exact E2. split; [done|].
  cbn [app length] in Hs2. unfold command_entries in *. rewrite fmap_app.
  rewrite length_fmap in Hs2. replace (S (length cs) - 1) with (length cs + 1 - 1) in Hs2 by lia.
  replace (k + Z.of_nat (2 * cost ms (MkNodeId i) * (length cs + 1)))%Z with
    (k + Z.of_nat (2 * cost ms (MkNodeId i) * length cs) +
     Z.of_nat (2 * cost ms (MkNodeId i)))%Z by lia.
  exact Hs2.
Qed.

Abbreviation elect i := (sim_start_election (MkNodeId i);; run_until_idle).

Lemma elect_ok i :
  i ∈ ids → (4 * Z.of_nat (length ids - 1) ≤ 10000)%Z →
  ∃ s s' k, new_cluster opened created started ids = Ok s ∧ elect i s = (Ok (), s') ∧
    sim_led (MkNodeId i) 1 [sentinel] 0 k s' ∧ (0 ≤ k ≤ 10000)%Z.
Proof using Hids.
  intros Hi Hcost. rewrite (others_ms i Hi) in Hcost.
  destruct new_cluster_settled as (s & ns & E & Hs & Hd & Hset).
  destruct (election_ok ms (λ _, db0) started ms_nodup (MkNodeId i) 0 [sentinel] sentinel
    ns 0 s Hs Hd) as (s' & k & E' & Hs' & Hk).
  - apply Hset. by apply list_elem_of_fmap_2.
  - done.
  - by intros j m e He%lookup_lt_Some; cbn in He; lia.
  - done.
  - lia.
  - unfold u64_max. lia.
  - exists s, s', k. split_and!; [done..|lia|lia].
Qed.

(** A healthy cluster makes progress: in a new cluster of any size up to 2501
    nodes, a node that starts an election is the one and only leader when the
    messages have been delivered, and all nodes are in its term. *)
Theorem healthy_cluster_elects i :
  i ∈ ids → (4 * Z.of_nat (length ids - 1) ≤ 10000)%Z →
  ∃ s s', new_cluster opened created started ids = Ok s ∧
    (sim_start_election (MkNodeId i);; run_until_idle) s = (Ok (), s') ∧
    get_leader s' = Some i ∧ leader_count s' = 1 ∧
    ∀ j, j ∈ ids → ∃ n, nodes s' !! MkNodeId j = Some n ∧ current_term n = 1%Z ∧
      role n = if decide (j = i) then Leader else Follower.
Proof using Hids.
  intros Hi Hcost. destruct (elect_ok i Hi Hcost) as (s & s' & k & E & E' & Hs & _).
  destruct (led_leader _ _ _ ms_nodup _ _ _ _ _ _ Hs) as [Hl Hc].
  exists s, s'. split_and!; [done..|]. intros j Hj.
  destruct Hs as (ns & Hs & _ & [(n & Hn & Hst & _) Hps]). rewrite (wt_nodes _ _ _ _ _ Hs).
  destruct (members_others ms (MkNodeId i) (MkNodeId j)) as [Eij|Ho];
    [by apply list_elem_of_fmap_2|..].
  - injection Eij as ->. exists n. rewrite decide_True by done. split_and!; [done|apply Hst..].
  - destruct (Hps _ Ho) as (m & Hm & Hst'). exists m.
    apply elem_of_others in Ho as [_ Hne]. rewrite decide_False by congruence.
    split_and!; [done|apply Hst'..].
Qed.

(** Node [j] has the commands [cs] in its log, has committed and applied the
    first [a] of them, and its database reads as they say. *)
Definition has_applied (cs : list Command) (a : nat) (s : Simulation D) (j : Z) : Prop :=
  ∃ n, nodes s !! MkNodeId j = Some n ∧ log n = sentinel :: command_entries 1 cs ∧
    commit_index n = a ∧ last_applied n = a ∧
    ∀ key, kv_get key (db n) = (Ok (foldl apply_command ∅ (take a cs) !! key), db n).

Lemma led_applied i j cs c k s :
  sim_led (MkNodeId i) 1 (sentinel :: command_entries 1 cs) c k s →
  holds (length cs) db0 ∅ → Forall fits cs → j ∈ ids →
  has_applied cs (if decide (j = i) then length cs else c) s j.
Proof using Hids.
  intros (ns & Hs & _ & [(n & Hn & Hst & _) Hps]) Hroom Hfits Hj. unfold has_applied.
  rewrite (wt_nodes _ _ _ _ _ Hs).
  assert (Hread : ∀ r p a m, stands ms (λ _, db0) p r 1 (sentinel :: command_entries 1 cs) a [] m →
    ∀ key, kv_get key (db m) = (Ok (foldl apply_command ∅ (take a cs) !! key), db m)).
  { intros r p a m Hm key. rewrite (st_db Hm), take_commands.
    pose proof (st_bound Hm) as Ha. cbn in Ha. unfold command_entries in Ha.
    rewrite length_fmap in Ha. eapply get_holds, take_holds; [lia|done..]. }
  destruct (members_others ms (MkNodeId i) (MkNodeId j)) as [Eij|Ho];
    [by apply list_elem_of_fmap_2|..].
  - injection Eij as ->. exists n. rewrite decide_True by done.
    replace (length (sentinel :: command_entries 1 cs) - 1) with (length cs) in Hst
      by (cbn; unfold command_entries; rewrite length_fmap; lia).
    split_and!; [done|apply Hst..|by eapply Hread].
  - destruct (Hps _ Ho) as (m & Hm & Hst'). exists m.
    apply elem_of_others in Ho as [_ Hne]. rewrite decide_False by congruence.
    split_and!; [done|apply Hst'..|by eapply Hread].
Qed.

(** C13: Every command that the leader of a healthy cluster is given is committed
    and applied on every node: when the messages of the commands have been
    delivered, every node has them all in its log, the leader has committed and
    applied them all, and every other node all but the last one; with the next
    heartbeat every node has committed and applied them all, and reads every key
    as the commands say. *)
Theorem healthy_cluster_commits i cs :
  i ∈ ids → (4 * Z.of_nat (length ids - 1) ≤ 10000)%Z →
  (10000 + Z.of_nat (2 * (length ids - 1) * S (length cs)) ≤ u64_max)%Z →
  holds (length cs) db0 ∅ → Forall fits cs →
  ∃ s s1 s2, new_cluster opened created started ids = Ok s ∧
    ((sim_start_election (MkNodeId i);; run_until_idle);;
     for_each cs (λ c, apply_fault (SubmitCommand (MkNodeId i) c);; run_until_idle)) s
      = (Ok (), s1) ∧
    (with_node (MkNodeId i) send_heartbeats;; run_until_idle) s1 = (Ok (), s2) ∧
    ∀ j, j ∈ ids →
      has_applied cs (if decide (j = i) then length cs else length cs - 1) s1 j ∧
      has_applied cs (length cs) s2 j.
Proof using Hids.
  intros Hi Hcost Hk Hroom Hfits. pose proof (log_commands 1 cs Hroom Hfits) as Hlog.
  destruct (elect_ok i Hi Hcost) as (s & s1 & k & E & E1 & Hs1 & Hkb).
  destruct (commands_ok i cs k s1 Hi Hs1) as (s2 & E2 & Hs2); [lia|lia|done|].
  destruct (log_last 1 cs) as [e He]. pose proof (others_ms i Hi) as Hlen.
  destruct (heartbeat_ok ms (λ _, db0) started ms_nodup _ _ _ e _ _ _ Hs2 He Hlog)
    as (s3 & E3 & Hs3); [lia|lia|].
  replace (length (sentinel :: command_entries 1 cs) - 1) with (length cs) in Hs3
    by (cbn; unfold command_entries; rewrite length_fmap; lia).
  exists s, s2, s3. split; [done|]. split; [by erewrite bind_Ok by exact E1|]. split; [done|].
  intros j Hj. split; [by eapply led_applied|].
  pose proof (led_applied i j cs _ _ _ Hs3 Hroom Hfits Hj) as Ha. by destruct (decide (j = i)).
Qed.

End cluster.

(** ** An example: five nodes, two commands *)
Module Example.

#[local] Existing Instances number_bincode journal bits_text fixed_millis.
#[local] Instance no_debug : DebugPayload := λ _, [].

Definition five : list Z := [1; 2; 3; 4; 5]%Z.
Definition two_commands : list Command :=
  [Set_ (lit "k") (Int 7); Delete (lit "k")].

Lemma five_nodup : NoDup five.
Proof. apply (bool_decide_unpack _). by vm_compute. Qed.

Lemma healthy_cluster_elects_witness :
  ∃ s s', new_cluster (λ _, Ok ([] : list Command)) (λ _, 0%Z) 0 five = Ok s ∧
    (sim_start_election (MkNodeId 3);; run_until_idle) s = (Ok (), s') ∧
    get_leader s' = Some 3%Z ∧ leader_count s' = 1 ∧
    ∀ j, j ∈ five → ∃ n, nodes s' !! MkNodeId j = Some n ∧ current_term n = 1%Z ∧
      role n = if decide (j = 3%Z) then Leader else Follower.
Proof.
  apply healthy_cluster_elects; [apply five_nodup| |].
  - by do 2 right; left.
  - by vm_compute.
Defined.

Lemma healthy_cluster_commits_witness :
  ∃ s s1 s2, new_cluster (λ _, Ok ([] : list Command)) (λ _, 0%Z) 0 five = Ok s ∧
    ((sim_start_election (MkNodeId 3);; run_until_idle);;
     for_each two_commands (λ c, apply_fault (SubmitCommand (MkNodeId 3) c);; run_until_idle)) s
      = (Ok (), s1) ∧
    (with_node (MkNodeId 3) send_heartbeats;; run_until_idle) s1 = (Ok (), s2) ∧
    ∀ j, j ∈ five →
      has_applied two_commands (if decide (j = 3%Z) then 2 else 1) s1 j ∧
      has_applied two_commands 2 s2 j.
Proof.
  apply (healthy_cluster_commits (MapStore0 := journal_map)); [apply five_nodup|..].
  - by do 2 right; left.
  - by vm_compute.
  - by vm_compute.
  - done.
  - by repeat constructor.
Defined.

End Example.
