(* ===== verification/TestClusterSpec.v ===== *)
(** The test cluster of [TestCluster.v] passes its own check: for any number of
    nodes and any workload. *)

From S2P Require Import Prelude Wp Bytes Float LogRecord Bloom SSTable Database DatabaseRefine.
From S2P Require Import RaftTypes LogStore RaftNode RaftSim Runtime Simulator SimulatorSpec ReplicatedStore.
From S2P Require Import MapStore Progress Rounds Healthy Liveness TestCluster Journal.

(** ** Keys *)

Lemma parse_zeros k s :
  parse_digits 0 u64_max 1 0 (replicate k (digit 0) ++ s) = parse_digits 0 u64_max 1 0 s.
Proof. induction k as [|k IH]; [done|]. cbn [replicate app parse_digits]. exact IH. Qed.

Lemma parse_zero_pad width i :
  (Z.of_nat i ≤ u64_max)%Z →
  parse_digits 0 u64_max 1 0 (zero_pad width (int_to_string (Z.of_nat i))) = Some (Z.of_nat i).
Proof.
  intros Hi. unfold zero_pad. rewrite parse_zeros. unfold int_to_string.
  rewrite bool_decide_true by lia. unfold u64_max in *.
  rewrite parse_dec_digits by (auto; lia). cbn. f_equal. lia.
Qed.

Lemma workload_key_inj i j :
  (Z.of_nat i ≤ u64_max)%Z → (Z.of_nat j ≤ u64_max)%Z → workload_key i = workload_key j → i = j.
Proof.
  unfold workload_key. intros Hi Hj E%(inj (app (lit "k_"))).
  pose proof (parse_zero_pad 6 i Hi) as Pi. rewrite E, parse_zero_pad in Pi by done.
  injection Pi as Pi. lia.
Qed.

(** The commands of a workload. *)
Definition workload (n : nat) : list Command := workload_command <$> seq 0 n.

Lemma length_workload n : length (workload n) = n.
Proof. unfold workload. by rewrite length_fmap, length_seq. Qed.

Lemma workload_snoc n : workload (S n) = workload n ++ [workload_command n].
Proof. unfold workload. by rewrite seq_S, fmap_app. Qed.

Lemma take_workload k n : k ≤ n → take k (workload n) = workload k.
Proof.
  intros Hk. unfold workload. rewrite <-fmap_take. f_equal. rewrite take_seq. f_equal. lia.
Qed.

Lemma lookup_workload k n : k < n → workload n !! k = Some (workload_command k).
Proof. intros Hk. unfold workload. by rewrite list_lookup_fmap, lookup_seq_lt by done. Qed.

(** What a workload leaves behind. *)
Definition workload_map (n : nat) : gmap str Value := foldl apply_command ∅ (workload n).

Lemma workload_map_S n :
  workload_map (S n) = <[workload_key n := workload_value n]> (workload_map n).
Proof. unfold workload_map. by rewrite workload_snoc, foldl_snoc. Qed.

Lemma lookup_workload_map i n :
  i < n → (Z.of_nat n ≤ u64_max)%Z → workload_map n !! workload_key i = Some (workload_value i).
Proof.
  induction n as [|n IH]; intros Hi Hn; [lia|]. rewrite workload_map_S.
  destruct (decide (i = n)) as [->|Hne]; [by rewrite lookup_insert_eq|].
  rewrite lookup_insert_ne; [apply IH; lia|]. intros E%workload_key_inj; lia.
Qed.

(** ** Draining *)

Section spec.
Context {D : Type} `{!KvStore D} `{!F64Text} `{!Bincode} `{!RandomMillis} `{!DebugPayload}.
Context `{!MapStore D} (total : nat).
Hypothesis (Hfits : ∀ i, i < total → fits (workload_command i)).

Abbreviation Tests := (TestCluster D).
Abbreviation Node := (RaftNode D).

(** The test database of node [j] has the first [a] commands. *)
Definition drained (j : Z) (a : nat) (t : Tests) : Prop :=
  db_applied t !! j = Some a ∧
  ∃ d, databases t !! j = Some d ∧ holds (total - a) d (workload_map a).

(** Only what belongs to node [j] has changed. *)
Definition other_same (j : Z) (t t' : Tests) : Prop :=
  tc_sim t' = tc_sim t ∧ dom (databases t') = dom (databases t) ∧
  ∀ i, i ≠ j → databases t' !! i = databases t !! i ∧ db_applied t' !! i = db_applied t !! i.

Lemma other_same_trans j t1 t2 t3 : other_same j t1 t2 → other_same j t2 t3 → other_same j t1 t3.
Proof using Type.
  intros (E1 & D1 & H1') (E2 & D2 & H2'). split_and!; [congruence..|].
  intros i Hi. destruct (H1' i Hi), (H2' i Hi). split; congruence.
Qed.

Lemma drain_entry_ok j a t :
  drained j a t → a < total →
  ∃ t', drain_entry j (S a, PCommand (new_record 0 (workload_command a))) t = (Ok (), t') ∧
    drained j (S a) t' ∧ other_same j t t'.
Proof using Hfits.
  intros (Ha & d & Hd & Hh) Hlt. replace (total - a) with (S (total - S a)) in Hh by lia.
  destruct (insert_holds _ _ _ (workload_key a) (workload_value a) Hh (Hfits a Hlt))
    as (d' & E & Hd').
  eexists. split.
  { unfold drain_entry. rewrite bind_eq. cbn -[workload_key workload_value]. unfold on_database.
    rewrite Hd, E. reflexivity. }
  split; [split; [cbn; by rewrite lookup_insert_eq|]|split_and!; cbn; [done| |]].
  - exists d'. split; [cbn; by rewrite lookup_insert_eq|]. by rewrite workload_map_S.
  - rewrite dom_insert_L. apply elem_of_dom_2 in Hd. set_solver.
  - intros i Hi. by rewrite !lookup_insert_ne.
Qed.

(** A node with the entries of the workload. *)
Definition node_has (k c : nat) (n : Node) : Prop :=
  log n = sentinel :: command_entries 1 (workload k) ∧ commit_index n = c ∧ c ≤ k ≤ total.

Lemma newly_committed_cons a k c n :
  node_has k c n → a < c →
  newly_committed a n =
  (S a, PCommand (new_record 0 (workload_command a))) :: newly_committed (S a) n.
Proof using Type.
  intros (Hl & Hc & Hk) Ha. unfold newly_committed. rewrite Hl, Hc.
  assert ((sentinel :: command_entries 1 (workload k)) !! S a =
    Some (command_entry_in 1 (workload_command a))) as E.
  { change ((command_entry_in 1 <$> workload k) !! a = Some (command_entry_in 1 (workload_command a))).
    by rewrite list_lookup_fmap, lookup_workload by lia. }
  replace (c - a) with (S (c - S a)) by lia. cbn [seq omap list_omap]. by rewrite E.
Qed.

Lemma drain_node_ok j k c n a t :
  node_has k c n → drained j a t → a ≤ c →
  ∃ t', for_each (newly_committed a n) (drain_entry j) t = (Ok (), t') ∧
    drained j c t' ∧ other_same j t t'.
Proof using Hfits.
  intros Hn Ht Ha. remember (c - a) as m eqn:Em. revert a t Ht Ha Em.
  induction m as [|m IH]; intros a t Ht Ha Em.
  - assert (a = c) as -> by lia. exists t. destruct Hn as (_ & Hc & _).
    unfold newly_committed. by rewrite Hc, Nat.sub_diag.
  - rewrite (newly_committed_cons a k c n) by (done || lia). cbn [for_each].
    destruct (drain_entry_ok j a t Ht) as (t1 & E1 & Ht1 & S1); [destruct Hn; lia|].
    destruct (IH (S a) t1 Ht1) as (t2 & E2 & Ht2 & S2); [lia..|].
    exists t2. erewrite bind_Ok by exact E1. split_and!; [done..|by eapply other_same_trans].
Qed.

(** The loop of [apply_committed] over nodes with different numbers. *)
Lemma drain_nodes_ok (l : list (NodeId * Node)) (k : nat) (a c : Z → nat) (t : Tests) :
  NoDup (node_id <$> l.*1) →
  (∀ p n, (p, n) ∈ l → node_has k (c (node_id p)) n ∧ a (node_id p) ≤ c (node_id p)) →
  (∀ p n, (p, n) ∈ l → drained (node_id p) (a (node_id p)) t) →
  ∃ t', for_each ((λ x : NodeId * Node,
      (node_id x.1, newly_committed (a (node_id x.1)) x.2)) <$> l)
      (λ '(node_id, entries), on_database node_id (mret ());; for_each entries (drain_entry node_id)) t
      = (Ok (), t') ∧
    tc_sim t' = tc_sim t ∧ dom (databases t') = dom (databases t) ∧
    (∀ p n, (p, n) ∈ l → drained (node_id p) (c (node_id p)) t') ∧
    (∀ j, j ∉ node_id <$> l.*1 →
       databases t' !! j = databases t !! j ∧ db_applied t' !! j = db_applied t !! j).
Proof using Hfits.
  revert t. induction l as [|[p n] l IH]; intros t Hdup Hn Ht.
  { exists t. split_and!; [done..|by intros p n ?%elem_of_nil|done]. }
  cbn in Hdup. apply NoDup_cons in Hdup as [Hp Hdup].
  destruct (Hn p n ltac:(by left)) as [Hpn Hac]. pose proof (Ht p n ltac:(by left)) as Hd.
  destruct (drain_node_ok (node_id p) k _ n _ t Hpn Hd Hac) as (t1 & E1 & Ht1 & ES & ED & Hsame).
  assert (E0 : on_database (node_id p) (mret ()) t = (Ok (), t)).
  { destruct Hd as (_ & d & Hdb & _). unfold on_database. rewrite Hdb. cbn.
    rewrite insert_id by done. by destruct t. }
  assert (Hin : ∀ q m, (q, m) ∈ l → node_id q ≠ node_id p).
  { intros q m Hq E. apply Hp. rewrite <-E. apply list_elem_of_fmap. exists q. split; [done|].
    apply list_elem_of_fmap. by exists (q, m). }
  destruct (IH t1 Hdup) as (t2 & E2 & ES2 & ED2 & Hd2 & Hsame2).
  { intros q m Hq. apply (Hn q m). by right. }
  { intros q m Hq. destruct (Hsame _ (Hin q m Hq)) as [Hs1 Hs2].
    unfold drained. rewrite Hs1, Hs2. apply (Ht q m). by right. }
  exists t2. split_and!; [|congruence|congruence| |].
  - cbn [fmap list_fmap for_each fst snd]. rewrite bind_eq. erewrite bind_Ok by exact E0. rewrite E1.
    exact E2.
  - intros q m [[= -> ->]|Hq]%elem_of_cons; [|by eapply Hd2].
    unfold drained. destruct (Hsame2 _ Hp) as [-> ->]. done.
  - cbn. intros j [Hj1 Hj2]%not_elem_of_cons. destruct (Hsame j Hj1), (Hsame2 j Hj2).
    split; congruence.
Qed.

Lemma mapM_Ok {A B} (f : A → res B) (g : A → B) l :
  (∀ x, x ∈ l → f x = Ok (g x)) → mapM f l = Ok (g <$> l).
Proof using Type.
  induction l as [|x l IH]; intros Hf; [done|]. cbn. rewrite (Hf x) by (by left). cbn.
  by rewrite IH by (intros y Hy; apply Hf; by right).
Qed.

Lemma key_order_ids (s : Simulation D) : NoDup (node_id <$> (in_key_order s).*1).
Proof using Type.
  pose proof (key_order_nodup s) as Hd.
  assert (Hk : ∀ x, x ∈ in_key_order s → nodes s !! x.1 = Some x.2).
  { intros [p n]. apply elem_of_key_order. }
  induction Hd as [|[p n] l Hp _ IH]; [constructor|]. cbn. constructor.
  - intros (q & Eq & (y & -> & Hy)%list_elem_of_fmap)%list_elem_of_fmap.
    assert (p = y.1) as Epq by (destruct p, y as [[]]; cbn in *; congruence).
    pose proof (Hk (p, n) ltac:(by left)) as Hn. pose proof (Hk y ltac:(by right)) as Hy'.
    cbn in Hn. rewrite Epq, Hy' in Hn. injection Hn as <-. apply Hp. by destruct y; cbn in *; subst.
  - apply IH. intros x Hx. apply Hk. by right.
Qed.

(** [apply_committed] brings every test database to the commit index of its
    node. *)
Lemma apply_committed_ok k (a c : Z → nat) (t : Tests) :
  (∀ p n, nodes (tc_sim t) !! p = Some n →
     node_has k (c (node_id p)) n ∧ a (node_id p) ≤ c (node_id p) ∧
     drained (node_id p) (a (node_id p)) t) →
  ∃ t', apply_committed t = (Ok (), t') ∧ tc_sim t' = tc_sim t ∧
    dom (databases t') = dom (databases t) ∧
    ∀ p n, nodes (tc_sim t) !! p = Some n → drained (node_id p) (c (node_id p)) t'.
Proof using Hfits.
  intros Hn. set (l := in_key_order (tc_sim t)).
  assert (Hl : ∀ p n, (p, n) ∈ l ↔ nodes (tc_sim t) !! p = Some n) by apply elem_of_key_order.
  assert (E : committed_entries t = Ok ((λ x : NodeId * Node,
    (node_id x.1, newly_committed (a (node_id x.1)) x.2)) <$> l)).
  { unfold committed_entries. apply mapM_Ok. intros [p n] Hp. apply Hl in Hp. cbn.
    destruct (Hn p n Hp) as (_ & _ & Ha & _). by rewrite Ha. }
  destruct (drain_nodes_ok l k a c t) as (t' & Et & ES & ED & Hd & _).
  - apply key_order_ids.
  - intros p n Hp. apply Hl in Hp. by destruct (Hn p n Hp) as (? & ? & _).
  - intros p n Hp. apply Hl in Hp. by destruct (Hn p n Hp) as (_ & _ & ?).
  - exists t'. split_and!; [|done..|].
    + unfold apply_committed. rewrite bind_eq. cbn [Prelude.get].
      rewrite bind_eq. unfold lift. by rewrite E.
    + intros p n Hp. apply Hl in Hp. by eapply Hd.
Qed.

(** ** A workload *)

Context (db0 : D) (started : Instant) (size : nat).

Abbreviation ids := (node_numbers size).
Abbreviation ms := (MkNodeId <$> ids).
Abbreviation sim_led := (Liveness.sim_led ms (λ _, db0) started (MkNodeId 1) 1).
Abbreviation commands k := (sentinel :: command_entries 1 (workload k)).

Lemma ids_nodup : NoDup ids.
Proof using Type. unfold node_numbers. apply NoDup_fmap_2; [apply _|apply NoDup_seq]. Qed.

Lemma length_ids : length ids = size.
Proof using Type. unfold node_numbers. by rewrite length_fmap, length_seq. Qed.

(** The commit indices when the leader has [k] commands and the others have heard
    of [c]. *)
Definition commits (k c : nat) (j : Z) : nat := if decide (j = 1%Z) then k else c.

(** Between two steps: [k] commands, [e] events so far. *)
Definition ready (k c : nat) (e : Z) (t : Tests) : Prop :=
  c ≤ k ≤ total ∧ sim_led (commands k) c e (tc_sim t) ∧
  dom (databases t) = list_to_set ids ∧ ∀ j, j ∈ ids → drained j (commits k c j) t.

Lemma led_node k c e s p n :
  sim_led (commands k) c e s → c ≤ k ≤ total → nodes s !! p = Some n →
  node_has k (commits k c (node_id p)) n ∧ node_id p ∈ ids.
Proof using Type.
  intros (ns & Hs & Hd & [(m & Hm & Hst & _) Hps]) Hc Hn. rewrite (wt_nodes _ _ _ _ _ Hs) in Hn.
  pose proof (elem_of_dom_2 _ _ _ Hn) as Hp. rewrite Hd, elem_of_list_to_set in Hp.
  split.
  - destruct (members_others ms (MkNodeId 1) p Hp) as [->|Ho].
    + rewrite Hm in Hn. injection Hn as <-. unfold commits. cbn [node_id].
      rewrite decide_True by done. split_and!; [apply Hst| |lia..].
      rewrite (st_commit Hst). cbn. unfold command_entries. rewrite length_fmap, length_workload. lia.
    + destruct (Hps p Ho) as (m' & Hm' & Hst'). rewrite Hm' in Hn. injection Hn as <-.
      apply elem_of_others in Ho as [_ Hne]. unfold commits.
      rewrite decide_False by (intros E; apply Hne; by destruct p; cbn in E; subst).
      split_and!; [apply Hst'..|lia|lia].
  - apply list_elem_of_fmap in Hp as (j & -> & Hj). done.
Qed.

(** After the nodes have gone on to [k'] and [c'], [apply_committed] follows. *)
Lemma follow_ok k c k' c' e t :
  sim_led (commands k') c' e (tc_sim t) → c' ≤ k' ≤ total → k ≤ k' → c ≤ c' →
  dom (databases t) = list_to_set ids → (∀ j, j ∈ ids → drained j (commits k c j) t) →
  ∃ t', apply_committed t = (Ok (), t') ∧ ready k' c' e t'.
Proof using Hfits.
  intros Hs Hc Hkk Hcc Hd Ht.
  destruct (apply_committed_ok k' (commits k c) (commits k' c') t) as (t' & E & ES & ED & Ht').
  { intros p n Hn. destruct (led_node _ _ _ _ p n Hs Hc Hn) as [Hh Hp].
    split_and!; [done|unfold commits; by case_decide|by apply Ht]. }
  exists t'. split; [done|]. split_and!; [lia|lia|by rewrite ES|congruence|].
  intros j Hj. destruct Hs as (ns & Hs & Hdn & _).
  assert (is_Some (ns !! MkNodeId j)) as [n Hn].
  { apply elem_of_dom. rewrite Hdn. apply elem_of_list_to_set. by apply list_elem_of_fmap_2. }
  apply (Ht' (MkNodeId j) n). by rewrite (wt_nodes _ _ _ _ _ Hs).
Qed.

(** A program on the leader, and the messages it causes. *)
Lemma on_leader_ok (m : M Node ()) k c e t s' :
  sim_led (commands k) c e (tc_sim t) →
  (with_node (MkNodeId 1) m;; run_until_idle) (tc_sim t) = (Ok (), s') →
  (on_sim_node 1 m;; run_sim route_messages) t = (Ok (), t <| tc_sim := s' |>).
Proof using Type.
  intros (ns & Hs & _ & [(n & Hn & _) _]) E. rewrite bind_eq in E. rewrite bind_eq.
  unfold on_sim_node. rewrite bind_eq. unfold sim_node at 1. rewrite bind_eq. cbn [Prelude.get].
  rewrite (wt_nodes _ _ _ _ _ Hs), Hn. cbn [expect lift]. unfold run_sim at 1, zoom at 1.
  destruct (with_node (MkNodeId 1) m (tc_sim t)) as [[[]|?|?] s1]; [|done..].
  unfold run_sim, zoom, route_messages. cbn [tc_sim upd upd_tc_sim]. by rewrite E.
Qed.

Lemma workload_runnable k :
  holds total db0 ∅ → k ≤ total → runnable (λ _, db0) (commands k).
Proof using Hfits.
  intros Hdb0 Hk. apply (runnable_app _ _ (command_entries 1 (drop k (workload total)))).
  change (runnable (λ _, db0) (sentinel :: (command_entries 1 (workload k) ++
    command_entries 1 (drop k (workload total))))).
  unfold command_entries. rewrite <-fmap_app, <-(take_workload k total), take_drop by done.
  apply log_commands; [by rewrite length_workload|].
  apply Forall_fmap, Forall_forall. intros i Hi%elem_of_seq. apply Hfits. lia.
Qed.

Lemma size_cost : 1 ≤ size → size = S (cost ms (MkNodeId 1)).
Proof using Type.
  intros Hs. rewrite <-(others_ms ids ids_nodup 1); [by rewrite length_ids|].
  unfold node_numbers. apply list_elem_of_fmap. exists 1. split; [done|]. apply elem_of_seq. lia.
Qed.

Lemma workload_step_ok k c e t :
  1 ≤ size → (4 * Z.of_nat (size - 1) ≤ 10000)%Z → holds total db0 ∅ →
  ready k c e t → k < total → (e + Z.of_nat (2 * (size - 1)) ≤ u64_max)%Z →
  ∃ t', workload_step k t = (Ok (), t') ∧ ready (S k) k (e + Z.of_nat (2 * (size - 1))) t'.
Proof using Hfits.
  intros Hsize Hcost Hdb0 (Hc & Hs & Hd & Ht) Hk He.
  pose proof (size_cost Hsize) as Esize. replace (size - 1) with (cost ms (MkNodeId 1)) in * by lia.
  destruct (log_last 1 (workload k)) as [x Hx].
  assert (Elog : commands k ++ [command_entry_in 1 (workload_command k)] = commands (S k)).
  { unfold command_entries. by rewrite workload_snoc, fmap_app. }
  destruct (submit_ok ms (λ _, db0) started (ms_nodup ids ids_nodup) (MkNodeId 1) 1 (commands k)
    x c (workload_command k) e (tc_sim t) Hs Hx) as [(s' & E & Hs') _].
  { rewrite Elog. by apply workload_runnable. }
  { lia. }
  { done. }
  rewrite Elog in Hs'. cbn [length] in Hs'. unfold command_entries in Hs' at 2.
  rewrite length_fmap, length_workload in Hs'. replace (S k - 1) with k in Hs' by lia.
  destruct (follow_ok k c (S k) k (e + Z.of_nat (2 * cost ms (MkNodeId 1))) (t <| tc_sim := s' |>))
    as (t' & E' & Hr); [done|lia..|done|done|].
  exists t'. split; [|done]. unfold workload_step.
  pose proof (on_leader_ok _ _ _ _ _ _ Hs E) as E1. rewrite bind_eq in E1. rewrite bind_eq.
  destruct (on_sim_node 1 _ t) as [[[]|?|?] t1]; [|done..]. by erewrite bind_Ok by exact E1.
Qed.

Lemma heartbeat_step_ok k c e t :
  1 ≤ size → (4 * Z.of_nat (size - 1) ≤ 10000)%Z → holds total db0 ∅ → k ≤ total →
  sim_led (commands k) c e (tc_sim t) → (e + Z.of_nat (2 * (size - 1)) ≤ u64_max)%Z →
  ∃ s', heartbeat_step t = (Ok (), t <| tc_sim := s' |>) ∧
    sim_led (commands k) k (e + Z.of_nat (2 * (size - 1))) s'.
Proof using Hfits.
  intros Hsize Hcost Hdb0 Hk Hs He.
  pose proof (size_cost Hsize) as Esize. replace (size - 1) with (cost ms (MkNodeId 1)) in * by lia.
  destruct (log_last 1 (workload k)) as [x Hx].
  destruct (heartbeat_ok ms (λ _, db0) started (ms_nodup ids ids_nodup) (MkNodeId 1) 1 (commands k)
    x c e (tc_sim t) Hs Hx) as (s' & E & Hs'); [by apply workload_runnable|lia|done|].
  exists s'. split; [by eapply on_leader_ok|]. cbn [length] in Hs'. unfold command_entries in Hs' at 2.
  rewrite length_fmap, length_workload in Hs'. by replace (S k - 1) with k in Hs' by lia.
Qed.

(** All commands of the workload, one after the other. *)
Lemma workload_steps_ok m k c e t :
  1 ≤ size → (4 * Z.of_nat (size - 1) ≤ 10000)%Z → holds total db0 ∅ →
  ready k c e t → k + m ≤ total → (e + Z.of_nat (2 * (size - 1) * m) ≤ u64_max)%Z →
  ∃ t' c', for_each (seq k m) workload_step t = (Ok (), t') ∧
    ready (k + m) c' (e + Z.of_nat (2 * (size - 1) * m)) t'.
Proof using Hfits.
  intros Hsize Hcost Hdb0. revert k c e t. induction m as [|m IH]; intros k c e t Hr Hk He.
  { exists t, c. split; [done|]. by rewrite Nat.add_0_r, Nat.mul_0_r, Z.add_0_r. }
  rewrite (Nat.mul_succ_r (2 * (size - 1)) m) in *.
  pose proof (Zle_0_nat (2 * (size - 1) * m)).
  cbn [seq for_each]. destruct (workload_step_ok k c e t) as (t1 & E1 & Hr1); [done..|lia|lia|].
  destruct (IH (S k) k _ t1 Hr1) as (t2 & c2 & E2 & Hr2); [lia|lia|].
  exists t2, c2. erewrite bind_Ok by exact E1. split; [done|].
  replace (k + S m) with (S k + m) by lia. replace (e + _)%Z with
    (e + Z.of_nat (2 * (size - 1)) + Z.of_nat (2 * (size - 1) * m))%Z by lia. done.
Qed.

(** The whole workload: afterwards every test database has all of it. *)
Lemma execute_workload_ok e t :
  1 ≤ size → (4 * Z.of_nat (size - 1) ≤ 10000)%Z → holds total db0 ∅ →
  ready 0 0 e t → (e + Z.of_nat (2 * (size - 1) * (total + 2)) ≤ u64_max)%Z →
  ∃ t' e', execute_workload total t = (Ok (), t') ∧ ready total total e' t'.
Proof using Hfits.
  intros Hsize Hcost Hdb0 Hr He.
  replace (2 * (size - 1) * (total + 2)) with
    (2 * (size - 1) * total + 2 * (size - 1) + 2 * (size - 1)) in He by lia.
  pose proof (Zle_0_nat (2 * (size - 1) * total)).
  destruct (workload_steps_ok total 0 0 e t) as (t1 & c & E1 & Hc & Hs1 & Hd1 & Ht1);
    [done..|lia|]. cbn [Nat.add] in *.
  destruct (heartbeat_step_ok total c _ t1 Hsize Hcost Hdb0 ltac:(lia) Hs1) as (s2 & E2 & Hs2); [lia|].
  destruct (heartbeat_step_ok total total _ (t1 <| tc_sim := s2 |>) Hsize Hcost Hdb0 ltac:(lia) Hs2)
    as (s3 & E3 & Hs3); [lia|].
  set (t3 := t1 <| tc_sim := s2 |> <| tc_sim := s3 |>) in *.
  change s3 with (tc_sim t3) in Hs3.
  destruct (follow_ok total c total total _ t3 Hs3) as (t4 & E4 & Hr4); [lia..|done|done|].
  do 2 eexists. split; [|exact Hr4]. unfold execute_workload.
  erewrite bind_Ok by exact E1. cbn [seq for_each]. rewrite bind_eq.
  erewrite bind_Ok by exact E2. erewrite bind_Ok by exact E3. exact E4.
Qed.

(** ** Making the cluster *)

Lemma open_databases_ok (d : D) l dbs :
  ∃ dbs', open_databases (λ _, Ok d) l dbs = Ok dbs' ∧ dom dbs' = list_to_set l ∪ dom dbs ∧
    ∀ j, j ∈ l ∨ dbs !! j = Some d → dbs' !! j = Some d.
Proof using Hfits.
  revert dbs. induction l as [|i l IH]; intros dbs; cbn [open_databases].
  { exists dbs. split_and!; [done|set_solver|]. by intros j [?%elem_of_nil|]. }
  destruct (IH (<[i := d]> dbs)) as (dbs' & E & Hd & Hj). exists dbs'. split_and!; [exact E| |].
  - rewrite Hd, dom_insert_L. set_solver.
  - intros j Hj'. apply Hj. destruct (decide (j = i)) as [->|Hne]; [right; apply lookup_insert_eq|].
    rewrite lookup_insert_ne by done. destruct Hj' as [[|]%elem_of_cons|]; [done|by left|by right].
Qed.

Lemma applied_nothing (l : list Z) j :
  j ∈ l → (list_to_map ((λ id, (id, 0)) <$> l) : gmap Z nat) !! j = Some 0.
Proof using Hfits.
  induction l as [|i l IH]; [by intros ?%elem_of_nil|]. intros Hj. cbn.
  destruct (decide (j = i)) as [->|Hne]; [by rewrite lookup_insert_eq|].
  rewrite lookup_insert_ne by done. apply IH. by apply elem_of_cons in Hj as [|].
Qed.

Lemma bind_res_Ok {A B} (x : A) (k : A → res B) : (Ok x ≫= k) = k x.
Proof using Type. reflexivity. Qed.

(** The election of [new_with_config], with its assertion. *)
Lemma elect_run (t : Tests) s' l c e :
  (sim_start_election (MkNodeId 1);; run_until_idle) (tc_sim t) = (Ok (), s') →
  sim_led l c e s' →
  (run_sim (sim_start_election (MkNodeId 1));; run_sim route_messages;;
   node ← sim_node 1;
   if decide (role node = Leader) then mret () else panic "assertion `left == right` failed") t
  = (Ok (), t <| tc_sim := s' |>).
Proof using Type.
  intros E (ns & Hs & _ & [(n & Hn & Hst & _) _]).
  rewrite bind_eq in E. rewrite bind_eq. unfold run_sim at 1, zoom at 1.
  destruct (sim_start_election (MkNodeId 1) (tc_sim t)) as [[[]|?|?] s1]; [|done..].
  rewrite bind_eq. unfold run_sim, zoom, route_messages. cbn [tc_sim upd upd_tc_sim]. rewrite E.
  rewrite bind_eq. unfold sim_node. rewrite bind_eq. cbn [Prelude.get].
  cbn [tc_sim upd upd_tc_sim]. rewrite (wt_nodes _ _ _ _ _ Hs), Hn. cbn [expect lift].
  by rewrite (st_role Hst), decide_True by done.
Qed.

Lemma new_with_config_ok (test0 : D) created :
  1 ≤ size → (4 * Z.of_nat (size - 1) ≤ 10000)%Z → holds total test0 ∅ →
  ∃ t e, new_with_config (λ _, Ok db0) (λ _, Ok test0) created started size = Ok t ∧
    ready 0 0 e t ∧ (0 ≤ e ≤ 10000)%Z.
Proof using Hfits.
  intros Hsize Hcost Htest. pose proof ids_nodup as Hids.
  assert (H1in : 1%Z ∈ ids).
  { unfold node_numbers. apply list_elem_of_fmap. exists 1. split; [done|]. apply elem_of_seq. lia. }
  destruct (elect_ok db0 created started ids Hids 1 H1in) as (s & s' & e & E & E' & Hs & He);
    [by rewrite length_ids|].
  destruct (open_databases_ok test0 ids ∅) as (dbs & Edb & Hd & Hj).
  unfold new_with_config. rewrite E, bind_res_Ok, Edb, bind_res_Ok. cbv zeta.
  set (t := {| tc_sim := s; databases := dbs; db_applied := list_to_map ((λ id, (id, 0)) <$> ids) |}).
  exists (t <| tc_sim := s' |>), e.
  pose proof (elect_run t s' _ _ _ E' Hs) as Er.
  fold t. rewrite Er. split; [done|]. split; [|done]. split_and!; [lia|lia|exact Hs| |].
  - cbn. rewrite Hd. set_solver.
  - intros j Hjin. unfold commits.
    assert ((if decide (j = 1%Z) then 0 else 0) = 0) as -> by (by case_decide).
    split; [by apply applied_nothing|]. exists test0. rewrite Nat.sub_0_r.
    split; [apply Hj; by left|done].
Qed.

(** ** The check *)

Lemma on_database_same {A} j (m : M D A) (a : A) d (t : Tests) :
  databases t !! j = Some d → m d = (Ok a, d) → on_database j m t = (Ok a, t).
Proof using Type.
  intros Hd E. unfold on_database. rewrite Hd, E. cbn. rewrite insert_id by done. by destruct t.
Qed.

Lemma verify_ok i (l : list Z) (t : Tests) :
  i < total → (Z.of_nat total ≤ u64_max)%Z → (∀ j, j ∈ l → drained j total t) →
  verify_key i l t = (Ok true, t).
Proof using Type.
  intros Hi Ht Hl. induction l as [|j l IH]; [done|]. cbn [verify_key].
  destruct (Hl j ltac:(by left)) as (_ & d & Hd & Hh).
  pose proof (get_holds _ _ _ (workload_key i) Hh) as Eg.
  rewrite lookup_workload_map in Eg by done.
  erewrite bind_Ok by (by eapply on_database_same). unfold workload_value. cbn [value_eqb].
  rewrite bool_decide_true by done. apply IH. intros j' Hj'. apply Hl. by right.
Qed.

Lemma verify_keys_ok (l : list nat) (t : Tests) :
  (∀ i, i ∈ l → i < total) → (Z.of_nat total ≤ u64_max)%Z →
  (∀ j, is_Some (databases t !! j) → drained j total t) →
  verify_keys l t = (Ok true, t).
Proof using Type.
  intros Hl Ht Hd. induction l as [|i l IH]; [done|]. cbn [verify_keys].
  rewrite bind_eq. cbn [Prelude.get]. erewrite bind_Ok; cycle 1.
  { apply verify_ok; [apply Hl; by left|done|]. intros j Hj. apply Hd.
    apply list_elem_of_fmap in Hj as ([j' d] & -> & Hj%elem_of_map_to_list). by exists d. }
  apply IH. intros j Hj. apply Hl. by right.
Qed.

(** C12: The integration test passes: for any number of nodes up to 2501 and any
    workload, the test cluster starts with node 1 as its leader, executes the
    workload without a panic, every node's database then has exactly the
    commands of the workload, and [verify_correctness] answers true. *)
Theorem workload_verifies (test0 : D) created :
  1 ≤ size → (4 * Z.of_nat (size - 1) ≤ 10000)%Z →
  holds total db0 ∅ → holds total test0 ∅ → (Z.of_nat total ≤ u64_max)%Z →
  (10000 + Z.of_nat (2 * (size - 1) * (total + 2)) ≤ u64_max)%Z →
  ∃ t t', new_with_config (λ _, Ok db0) (λ _, Ok test0) created started size = Ok t ∧
    (execute_workload total;; verify_correctness) t = (Ok true, t') ∧
    ∀ j, j ∈ ids → ∃ d, databases t' !! j = Some d ∧
      ∀ key, kv_get key d = (Ok (workload_map total !! key), d).
Proof using Hfits.
  intros Hsize Hcost Hdb0 Htest Htotal Hmsgs.
  destruct (new_with_config_ok test0 created Hsize Hcost Htest) as (t & e & E & Hr & He).
  destruct (execute_workload_ok e t Hsize Hcost Hdb0 Hr) as (t' & e' & Ew & _ & Hs & Hd & Ht');
    [lia|].
  assert (Hdr : ∀ j, j ∈ ids → drained j total t').
  { intros j Hj. specialize (Ht' j Hj). unfold commits in Ht'. by destruct (decide _). }
  exists t, t'. split; [done|]. split.
  - erewrite bind_Ok by exact Ew. unfold verify_correctness. rewrite bind_eq.
    unfold sim_node. rewrite bind_eq. cbn [Prelude.get].
    destruct Hs as (ns & Hs & _ & [(n & Hn & Hst & _) _]). rewrite (wt_nodes _ _ _ _ _ Hs), Hn.
    cbn [expect lift]. rewrite (st_commit Hst). apply verify_keys_ok; [|done|].
    + intros i [_ Hi%elem_of_seq]%list_elem_of_filter. cbn in Hi. unfold command_entries in Hi.
      rewrite length_fmap, length_workload in Hi. lia.
    + intros j Hj%elem_of_dom. rewrite Hd, elem_of_list_to_set in Hj. by apply Hdr.
  - intros j Hj. destruct (Hdr j Hj) as (_ & d & Hdj & Hh). exists d. split; [done|].
    intros key. by eapply get_holds.
Qed.

End spec.

(** ** The commands of a workload fit the database *)

Abbreviation ascii := (λ b, in_range 0 127 b = true).

Lemma int_to_string_ascii i : Forall ascii (int_to_string (Z.of_nat i)).
Proof.
  unfold int_to_string. rewrite bool_decide_true by lia. apply dec_digits_ascii; [lia|constructor].
Qed.

Lemma lit_ascii (s : string) : bool_decide (Forall ascii (lit s)) = true → Forall ascii (lit s).
Proof. apply bool_decide_eq_true_1. Qed.

Section fits.
Context `{HT : F64Text}.

Lemma workload_command_ok i : command_ok (workload_command i).
Proof using Type.
  pose proof (int_to_string_ascii i) as Ha. pose proof (length_int_to_string (Z.of_nat i)) as Hl.
  split; cbn [command_key command_value workload_command].
  - split.
    + apply utf8_valid_ascii. unfold workload_key, zero_pad.
      rewrite !Forall_app. split_and!; [by apply lit_ascii; vm_compute| |done].
      apply Forall_replicate. by vm_compute.
    + unfold workload_key, zero_pad. rewrite !length_app, length_replicate.
      change (length (lit "k_")) with 2. unfold in_u32, in_u. lia.
  - split.
    + change (utf8_valid (lit "v_" ++ int_to_string (Z.of_nat i)) = true).
      apply utf8_valid_ascii. rewrite Forall_app. split; [by apply lit_ascii; vm_compute|done].
    + unfold value_fits, in_u32, in_u. cbn [as_bytes workload_value]. rewrite length_app.
      change (length (lit "v_")) with 2. lia.
Qed.

End fits.

(** ** An example: three nodes with databases in empty directories *)
Module Example.

#[local] Existing Instances number_bincode bits_text bits_text_laws micro_math micro_math_laws
  fixed_millis.
#[local] Instance test_hash : Xxh3 := from_le.
#[local] Existing Instance micro_dims.
#[local] Instance no_debug : DebugPayload := λ _, [].

(** [Config::new(3, 200, 4)]. *)
Definition test_config : Config :=
  {| cfg_sstable_level := 3; cfg_data_threshold := 200; cfg_sstable_threshold := 4 |}.

Lemma workload_verifies_witness :
  ∃ node_db test_db fs fs', open_in_dir default_config ∅ = (Ok node_db, fs) ∧
    open_in_dir test_config ∅ = (Ok test_db, fs') ∧
    ∃ t t', new_with_config (λ _, Ok node_db) (λ _, Ok test_db) (λ _, 0%Z) 0 3 = Ok t ∧
      (execute_workload 1000;; verify_correctness) t = (Ok true, t') ∧
      ∀ j, j ∈ node_numbers 3 → ∃ d, databases t' !! j = Some d ∧
        ∀ key, kv_get key d = (Ok (workload_map 1000 !! key), d).
Proof.
  destruct (open_holds default_config 1000) as (d1 & fs1 & E1 & Hd1); [done|lia|by vm_compute|].
  destruct (open_holds test_config 1000) as (d2 & fs2 & E2 & Hd2); [done|lia|by vm_compute|].
  exists d1, d2, fs1, fs2. split; [done|]. split; [done|].
  apply (workload_verifies (MapStore0 := database_map) 1000);
    [intros i _; apply workload_command_ok|lia|lia|done|done|..].
  - unfold u64_max. lia.
  - unfold u64_max. lia.
Defined.

End Example.
