(* ===== verification/Text.v ===== *)
(** Strings as the programs in [src/bin] take them apart: separators, white
    space, words, numbers. *)

From S2P Require Import Prelude Bytes.

(** [str::parse::<u64>]. *)
Definition parse_u64 : str → option Z := parse_int false 0 u64_max.

Definition colon : u8 := z_u8 58.
Definition comma : u8 := z_u8 44.
Definition slash : u8 := z_u8 47.
Definition space : u8 := z_u8 32.

(** [splitn(2, c)], if it gives two parts. *)
Fixpoint split_once (c : u8) (s : str) : option (str * str) :=
  match s with
  | [] => None
  | b :: s' =>
      if decide (b = c) then Some ([], s')
      else '(x, y) ← split_once c s'; Some (b :: x, y)
  end.

(** [split(c)]; [cur] is the part before the next separator, so far. *)
Fixpoint split_from (c : u8) (cur s : str) : list str :=
  match s with
  | [] => [cur]
  | b :: s' => if decide (b = c) then cur :: split_from c [] s' else split_from c (cur ++ [b]) s'
  end.
Definition split (c : u8) (s : str) : list str := split_from c [] s.

(** [join], with a separator of one byte. *)
Fixpoint join (c : u8) (l : list str) : str :=
  match l with
  | [] => []
  | [s] => s
  | s :: l' => s ++ c :: join c l'
  end.

(** ** White space *)

(** How many bytes the character at the start of [s] has, if it is white space
    ([char::is_whitespace], the Unicode property White_Space), otherwise 0. *)
Definition whitespace (s : str) : nat :=
  match u8_z <$> take 3 s with
  | b :: s' =>
      if bool_decide ((9 ≤ b ≤ 13) ∨ b = 32)%Z then 1 else
      match s' with
      | c :: s'' =>
          if bool_decide (b = 194 ∧ (c = 133 ∨ c = 160))%Z then 2 else
          match s'' with
          | d :: _ =>
              if bool_decide
                ((b = 225 ∧ c = 154 ∧ d = 128) ∨
                 (b = 226 ∧ c = 128 ∧ (128 ≤ d ≤ 138 ∨ d = 168 ∨ d = 169 ∨ d = 175)) ∨
                 (b = 226 ∧ c = 129 ∧ d = 159) ∨
                 (b = 227 ∧ c = 128 ∧ d = 128))%Z
              then 3 else 0
          | [] => 0
          end
      | [] => 0
      end
  | [] => 0
  end.

Definition flush_word (cur : str) : list str := match cur with [] => [] | _ => [cur] end.

(** [split_whitespace]; [skip] bytes of a separator are left to pass over, and
    [cur] is the current word. *)
Fixpoint words (skip : nat) (cur s : str) : list str :=
  match s with
  | [] => flush_word cur
  | b :: s' =>
      match skip with
      | S skip' => words skip' cur s'
      | O =>
          match whitespace s with
          | O => words 0 (cur ++ [b]) s'
          | S w => flush_word cur ++ words w [] s'
          end
      end
  end.
Definition split_whitespace (s : str) : list str := words 0 [] s.

(** [to_lowercase], for the ASCII letters. *)
Definition ascii_lowercase (s : str) : str :=
  (λ b, if in_range 65 90 b then z_u8 (u8_z b + 32) else b) <$> s.

(** * Properties *)

Lemma parse_u64_to_string z : in_u64 z → parse_u64 (int_to_string z) = Some z.
Proof. intros Hz. unfold in_u64, in_u in Hz. apply parse_int_unsigned; unfold u64_max; lia. Qed.

Lemma dec_digits_digits fuel n acc :
  (0 ≤ n)%Z → Forall (λ b, in_range 48 57 b = true) acc →
  Forall (λ b, in_range 48 57 b = true) (dec_digits fuel n acc).
Proof.
  revert n acc. induction fuel as [|fuel IH]; intros n acc Hn Hacc; [done|]. cbn.
  assert (Forall (λ b, in_range 48 57 b = true) (digit (n `mod` 10) :: acc)) as H10.
  { constructor; [|done]. unfold digit, in_range. pose proof (Z.mod_pos_bound n 10).
    rewrite u8_z_of by lia. apply bool_decide_eq_true. lia. }
  case_bool_decide; [done|]. apply IH; [|done]. by apply Z.div_pos.
Qed.

Lemma int_to_string_digits z :
  (0 ≤ z)%Z → Forall (λ b, in_range 48 57 b = true) (int_to_string z).
Proof.
  intros Hz. unfold int_to_string. rewrite bool_decide_true by done. by apply dec_digits_digits.
Qed.

(** A byte that is not a digit is not in the text of a number. *)
Lemma not_in_number z b : (0 ≤ z)%Z → in_range 48 57 b = false → b ∉ int_to_string z.
Proof.
  intros Hz Hb Hin. pose proof (int_to_string_digits z Hz) as Hd. rewrite Forall_forall in Hd.
  specialize (Hd b Hin). congruence.
Qed.

Lemma split_once_app c s t : c ∉ s → split_once c (s ++ c :: t) = Some (s, t).
Proof.
  induction s as [|b s IH]; intros Hc; cbn; [by rewrite decide_True|].
  rewrite not_elem_of_cons in Hc. destruct Hc as [Hb Hs].
  rewrite decide_False by congruence. by rewrite IH.
Qed.

Lemma split_from_app c cur s t :
  c ∉ s → split_from c cur (s ++ t) = split_from c (cur ++ s) t.
Proof.
  revert cur. induction s as [|b s IH]; intros cur Hc; cbn; [by rewrite app_nil_r|].
  rewrite not_elem_of_cons in Hc. destruct Hc as [Hb Hs].
  rewrite decide_False by congruence. rewrite IH by done. by rewrite <-app_assoc.
Qed.

(** [split] undoes [join]. *)
Lemma split_join c l : l ≠ [] → Forall (λ s, c ∉ s) l → split c (join c l) = l.
Proof.
  intros Hl Hc. unfold split. induction Hc as [|s [|s' l'] Hs _ IH]; [done| |].
  - cbn. by rewrite <-(app_nil_r s) at 1; rewrite split_from_app.
  - change (join c (s :: s' :: l')) with (s ++ c :: join c (s' :: l')).
    rewrite split_from_app by done. cbn [split_from app]. rewrite decide_True by done.
    by rewrite IH.
Qed.
