(* ===== verification/NodeMain.v ===== *)
(** [src/bin/node.rs]: the program that runs a node. Its arguments are read, and
    the node and its network are made from them. *)

From S2P Require Import Prelude Bytes Float LogRecord RaftTypes LogStore RaftNode Network Text.
From S2P Require Import RaftSim Runtime Cluster Journal Tcp TcpSpec.

(** [PathBuf::join] with a relative name. *)
Definition path_join (dir name : str) : str :=
  match last dir with
  | None => name
  | Some b => if decide (b = slash) then dir ++ name else dir ++ slash :: name
  end.

(** * Arguments *)

Record Args : Type := MkArgs {
  local_id_val : option Z;
  local_addr : option str;
  api_addr : option str;
  grpc_addr : option str;
  peer_args : list str;
  data_dir : option str;
  verbose : bool;
}.

#[export] Instance eta_Args : Eta Args := λ a,
  MkArgs (local_id_val a) (local_addr a) (api_addr a) (grpc_addr a) (peer_args a)
    (data_dir a) (verbose a).
#[export] Instance upd_local_id_val : Upd local_id_val. Proof. derive_upd. Defined.
#[export] Instance upd_local_addr : Upd local_addr. Proof. derive_upd. Defined.
#[export] Instance upd_api_addr : Upd api_addr. Proof. derive_upd. Defined.
#[export] Instance upd_grpc_addr : Upd grpc_addr. Proof. derive_upd. Defined.
#[export] Instance upd_peer_args : Upd peer_args. Proof. derive_upd. Defined.
#[export] Instance upd_data_dir : Upd data_dir. Proof. derive_upd. Defined.
#[export] Instance upd_verbose : Upd verbose. Proof. derive_upd. Defined.

Definition no_args : Args :=
  {| local_id_val := None; local_addr := None; api_addr := None; grpc_addr := None;
     peer_args := []; data_dir := None; verbose := false |}.

(** The arms of the [match] on an argument. *)
Inductive Flag : Type := FVerbose | FId | FAddr | FApiAddr | FGrpcAddr | FPeers | FDir.

Definition flag_of (arg : str) : option Flag :=
  if decide (arg = lit "--log" ∨ arg = lit "-v" ∨ arg = lit "--verbose") then Some FVerbose
  else if decide (arg = lit "--id") then Some FId
  else if decide (arg = lit "--addr") then Some FAddr
  else if decide (arg = lit "--api-addr") then Some FApiAddr
  else if decide (arg = lit "--grpc-addr") then Some FGrpcAddr
  else if decide (arg = lit "--peers") then Some FPeers
  else if decide (arg = lit "--dir" ∨ arg = lit "--data-dir") then Some FDir
  else None.

(** A flag with its value; [None] is the error of [parse()?]. *)
Definition flag_value (f : Flag) (v : str) (a : Args) : option Args :=
  match f with
  | FVerbose => Some a
  | FId => id ← parse_u64 v; Some (a <| local_id_val := Some id |>)
  | FAddr => Some (a <| local_addr := Some v |>)
  | FApiAddr => Some (a <| api_addr := Some v |>)
  | FGrpcAddr => Some (a <| grpc_addr := Some v |>)
  | FPeers => Some (a <| peer_args := peer_args a ++ split comma v |>)
  | FDir => Some (a <| data_dir := Some v |>)
  end.

(** An argument that is not a flag: the id, the address or a peer. *)
Definition positional (arg : str) (a : Args) : Args :=
  match local_id_val a, parse_u64 arg with
  | None, Some id => a <| local_id_val := Some id |>
  | _, _ =>
      match local_addr a, local_id_val a with
      | None, Some _ => a <| local_addr := Some arg |>
      | _, _ => a <| peer_args := peer_args a ++ [arg] |>
      end
  end.

(** The loop over the arguments behind the name of the program; [None] if
    [main] returns an error. *)
Fixpoint parse_args (a : Args) (args : list str) : option Args :=
  match args with
  | [] => Some a
  | arg :: args' =>
      match flag_of arg with
      | Some FVerbose => parse_args (a <| verbose := true |>) args'
      | Some f =>
          match args' with
          | [] => Some a
          | v :: args'' => a ← flag_value f v a; parse_args a args''
          end
      | None => parse_args (positional arg a) args'
      end
  end.

(** * Starting *)

(** One peer of the arguments; what is not of the form [id:addr] is skipped. *)
Definition parse_peer (peer_str : str) : option (NodeId * str) :=
  '(pid, addr) ← split_once colon peer_str;
  pid_val ← parse_u64 pid;
  Some (MkNodeId pid_val, addr).

Definition add_peer_arg (x : gmap NodeId str * list NodeId) (peer_str : str) :
    gmap NodeId str * list NodeId :=
  let '(peers_map, peer_ids) := x in
  match parse_peer peer_str with
  | Some (pid, addr) => (<[pid := addr]> peers_map, peer_ids ++ [pid])
  | None => (peers_map, peer_ids)
  end.

(** What the node is started with. *)
Record Startup : Type := MkStartup {
  st_id : NodeId;
  st_addr : str;
  st_api_addr : str;
  st_grpc_addr : str;
  st_dir : str;
  st_peers_map : gmap NodeId str;
  st_peer_ids : list NodeId;
  st_verbose : bool;
}.

Inductive Outcome : Type :=
  | InvalidId
  | Usage
  | Started (s : Startup).

(** [format!("127.0.0.1:{}", base + id_num)]. *)
Definition default_addr (base id_num : Z) : res str :=
  port ← expect "attempt to add with overflow" (checked_add_u64 base id_num);
  mret (lit "127.0.0.1:" ++ int_to_string port).

Definition unwrap_or_else {A} (o : option A) (r : res A) : res A :=
  match o with Some a => Ok a | None => r end.

(** [main] up to the start of the node; [args] with the name of the program. *)
Definition main (temp_dir : str) (args : list str) : res Outcome :=
  match parse_args no_args (tail args) with
  | None => Ok InvalidId
  | Some a =>
      match local_id_val a, local_addr a with
      | Some id_num, Some addr =>
          let '(peers_map, peer_ids) := foldl add_peer_arg (∅, []) (peer_args a) in
          api ← unwrap_or_else (api_addr a) (default_addr 7000 id_num);
          grpc ← unwrap_or_else (grpc_addr a) (default_addr 8000 id_num);
          let dir := default (path_join temp_dir (lit "kv_store_node_" ++ int_to_string id_num))
                       (data_dir a) in
          Ok (Started
            {| st_id := MkNodeId id_num; st_addr := addr; st_api_addr := api;
               st_grpc_addr := grpc; st_dir := dir; st_peers_map := peers_map;
               st_peer_ids := peer_ids; st_verbose := verbose a |})
      | _, _ => Ok Usage
      end
  end.

(** The node and its network, given the files of the data directory and the
    database that is opened in it. *)
Definition start_node {D} `{!KvStore D} `{!F64Text} `{!Bincode} `{!RandomMillis}
    (s : Startup) (log_file meta_file : bytes) (opened : res D) (now : Instant) :
    res (RaftNode D * Network) :=
  node ← new_in_dir log_file meta_file opened (st_id s) (st_peer_ids s) now;
  mret (node, network_new (st_id s) (st_peers_map s)).

(** * Properties *)

(** ** Two ways to write the arguments *)

(** What someone who starts a node wants. *)
Record Wanted : Type := MkWanted {
  w_id : Z;
  w_addr : str;
  w_api_addr : str;
  w_grpc_addr : str;
  w_dir : str;
  w_peers : list (NodeId * str);
}.

Definition peer_str (p : NodeId * str) : str := id_str p.1 ++ colon :: p.2.

(** The way of [README.md]. *)
Definition flag_args (w : Wanted) : list str :=
  [lit "--id"; int_to_string (w_id w); lit "--addr"; w_addr w;
   lit "--api-addr"; w_api_addr w; lit "--grpc-addr"; w_grpc_addr w;
   lit "--peers"; join comma (peer_str <$> w_peers w); lit "--dir"; w_dir w].

(** The way of [cluster_init.sh]. *)
Definition script_args (w : Wanted) : list str :=
  int_to_string (w_id w) :: w_addr w :: (peer_str <$> w_peers w) ++
  [lit "--api-addr"; w_api_addr w; lit "--grpc-addr"; w_grpc_addr w; lit "--log";
   lit "--dir"; w_dir w].

Definition startup (w : Wanted) (verbose : bool) : Startup :=
  {| st_id := MkNodeId (w_id w); st_addr := w_addr w; st_api_addr := w_api_addr w;
     st_grpc_addr := w_grpc_addr w; st_dir := w_dir w; st_peers_map := list_to_map (w_peers w);
     st_peer_ids := (w_peers w).*1; st_verbose := verbose |}.

Record wanted_ok (w : Wanted) : Prop := {
  w_id_ok : in_u64 (w_id w);
  w_ids_ok : Forall (λ p, in_u64 (node_id p.1)) (w_peers w);
  w_distinct : NoDup (w_peers w).*1;
}.

(** Flags begin with a minus sign, numbers do not. *)
Lemma flag_of_minus b s : b ≠ z_u8 45 → flag_of (b :: s) = None.
Proof.
  intros Hb. unfold flag_of.
  repeat (rewrite decide_False; [|intros E; repeat destruct E as [E|E]; by injection E]). done.
Qed.

Lemma flag_of_number z s : (0 ≤ z)%Z → flag_of (int_to_string z ++ s) = None.
Proof.
  intros Hz. unfold int_to_string. rewrite bool_decide_true by done.
  destruct (dec_digits_not_sign 20 z []) as (b & t & -> & _ & Hb); [done..|].
  cbn [app]. apply flag_of_minus. intros ->. by apply Hb.
Qed.

Lemma flag_of_peer (p : NodeId * str) : in_u64 (node_id p.1) → flag_of (peer_str p) = None.
Proof. intros Hp. apply flag_of_number. apply Hp. Qed.

Lemma parse_peer_str (p : NodeId * str) : in_u64 (node_id p.1) → parse_peer (peer_str p) = Some p.
Proof.
  destruct p as [[i] a]. intros Hi. unfold parse_peer, peer_str, id_str. cbn in *.
  rewrite split_once_app by (apply not_in_number; [apply Hi|done]). cbn.
  by rewrite parse_u64_to_string.
Qed.

(** Reading the peers gives the registered addresses and the ids. *)
Lemma add_peer_args ps m ids :
  Forall (λ p : NodeId * str, in_u64 (node_id p.1)) ps → NoDup ps.*1 →
  (∀ p, p ∈ ps.*1 → m !! p = None) →
  foldl add_peer_arg (m, ids) (peer_str <$> ps) = (list_to_map ps ∪ m, ids ++ ps.*1).
Proof.
  intros Hps. revert m ids. induction Hps as [|[i a] ps Hp _ IH]; intros m ids Hnd Hm.
  { cbn. by rewrite app_nil_r, (left_id_L ∅ (∪)). }
  change ((i, a) :: ps).*1 with (i :: ps.*1) in *. apply NoDup_cons in Hnd as [Hi Hnd].
  cbn [fmap list_fmap foldl]. unfold add_peer_arg at 2. rewrite parse_peer_str by done.
  rewrite IH; [|done|].
  - rewrite <-app_assoc. f_equal. cbn. rewrite <-insert_union_l, insert_union_r; [done|].
    by apply not_elem_of_list_to_map_1.
  - intros p Hin. rewrite lookup_insert_ne by (intros ->; done). apply Hm. by right.
Qed.

(** One flag with its value, and one peer, at the front. *)
Lemma parse_flag a name f v args a' :
  flag_of name = Some f → f ≠ FVerbose → flag_value f v a = Some a' →
  parse_args a (name :: v :: args) = parse_args a' args.
Proof. intros Hf Hv Ha. cbn [parse_args]. rewrite Hf. destruct f; [done|rewrite Ha; done..]. Qed.

Lemma parse_positional a arg args :
  flag_of arg = None → parse_args a (arg :: args) = parse_args (positional arg a) args.
Proof. intros Hf. cbn [parse_args]. by rewrite Hf. Qed.

Lemma parse_peers a l args :
  local_id_val a ≠ None → local_addr a ≠ None → Forall (λ s, flag_of s = None) l →
  parse_args a (l ++ args) = parse_args (a <| peer_args := peer_args a ++ l |>) args.
Proof.
  intros Hi Ha Hl. revert a Hi Ha. induction Hl as [|s l Hs _ IH]; intros a Hi Ha.
  { cbn. rewrite app_nil_r. by destruct a. }
  cbn [app]. rewrite parse_positional by done.
  assert (positional s a = a <| peer_args := peer_args a ++ [s] |>) as ->.
  { unfold positional. by destruct (local_id_val a), (local_addr a). }
  rewrite IH by done. cbn. by rewrite <-app_assoc.
Qed.

Lemma split_peers ps :
  Forall (λ p : NodeId * str, in_u64 (node_id p.1)) ps → Forall (λ p, comma ∉ p.2) ps → ps ≠ [] →
  split comma (join comma (peer_str <$> ps)) = peer_str <$> ps.
Proof.
  intros Hps Hc Hne. apply split_join; [by destruct ps|]. apply Forall_fmap.
  apply (Forall_impl _ _ _ (proj2 (Forall_and _ _) (conj Hps Hc))). intros [[i] a] [Hi Ha]. cbn in *.
  unfold peer_str, id_str. cbn. rewrite elem_of_app, elem_of_cons. intros [Hx|[Hx|Hx]].
  - revert Hx. apply not_in_number; [apply Hi|done].
  - discriminate.
  - done.
Qed.

(** The arguments end up in these fields. *)
Definition read_args (w : Wanted) (peers : list str) (v : bool) : Args :=
  {| local_id_val := Some (w_id w); local_addr := Some (w_addr w);
     api_addr := Some (w_api_addr w); grpc_addr := Some (w_grpc_addr w);
     peer_args := peers; data_dir := Some (w_dir w); verbose := v |}.

Lemma main_read tmp args w peers v :
  wanted_ok w → parse_args no_args (tail args) = Some (read_args w peers v) →
  foldl add_peer_arg (∅, []) peers = foldl add_peer_arg (∅, []) (peer_str <$> w_peers w) →
  main tmp args = Ok (Started (startup w v)).
Proof.
  intros [Hid Hids Hnd] Ha Hp. unfold main. rewrite Ha. cbn. rewrite Hp, add_peer_args by done.
  by rewrite (right_id_L ∅ (∪)).
Qed.

Lemma flag_args_read prog w :
  in_u64 (w_id w) →
  parse_args no_args (tail (prog :: flag_args w)) =
    Some (read_args w (split comma (join comma (peer_str <$> w_peers w))) false).
Proof.
  intros Hid. unfold flag_args. cbn [tail].
  erewrite parse_flag; [|reflexivity|done|cbn; by rewrite parse_u64_to_string].
  do 5 (erewrite parse_flag; [|reflexivity|done|reflexivity]). reflexivity.
Qed.

Lemma script_args_read prog w :
  wanted_ok w → flag_of (w_addr w) = None →
  parse_args no_args (tail (prog :: script_args w)) =
    Some (read_args w (peer_str <$> w_peers w) true).
Proof.
  intros [Hid Hids _] Ha. unfold script_args. cbn [tail].
  rewrite parse_positional by (rewrite <-(app_nil_r (int_to_string _)); apply flag_of_number, Hid).
  unfold positional at 1. cbn [local_id_val no_args]. rewrite parse_u64_to_string by done.
  rewrite parse_positional by done. unfold positional at 1. cbn.
  rewrite parse_peers; [|done..|].
  - reflexivity.
  - apply Forall_fmap, (Forall_impl _ _ _ Hids). intros p. apply flag_of_peer.
Qed.

(** The arguments say what they should: the flags that [README.md] shows and
    the positional form that [cluster_init.sh] uses start the same node, with
    the wanted id, addresses, directory and peers. *)
Theorem command_lines_agree tmp prog w :
  wanted_ok w → Forall (λ p, comma ∉ p.2) (w_peers w) → flag_of (w_addr w) = None →
  main tmp (prog :: flag_args w) = Ok (Started (startup w false)) ∧
  main tmp (prog :: script_args w) = Ok (Started (startup w true)).
Proof.
  intros Hw Hc Ha. split; (eapply main_read; [done| |]).
  - apply flag_args_read, Hw.
  - destruct (decide (w_peers w = [])) as [->|Hne]; [done|]. by rewrite split_peers by (done || apply Hw).
  - by apply script_args_read.
  - done.
Qed.

(** ** The cluster of [cluster_init.sh] *)

Section script.
Context (servers : nat).

Definition server_ids : list NodeId := (λ i, MkNodeId (Z.of_nat i)) <$> seq 1 servers.

Definition local_port (base : Z) (i : NodeId) : str :=
  lit "127.0.0.1:" ++ int_to_string (base + node_id i - 1).

(** The arguments of the server [i], with all the others as its peers. *)
Definition server (i : NodeId) : Wanted := {|
  w_id := node_id i; w_addr := local_port 6001 i; w_api_addr := local_port 7001 i;
  w_grpc_addr := local_port 8001 i; w_dir := lit "./data/node" ++ id_str i;
  w_peers := (λ j, (j, local_port 6001 j)) <$> filter (λ j, j ≠ i) server_ids;
|}.

Lemma server_ids_nodup : NoDup server_ids.
Proof using Type. apply NoDup_fmap; [intros i j [= ?]; lia|apply NoDup_seq]. Qed.

Lemma server_ids_range i :
  (Z.of_nat servers ≤ u64_max)%Z → i ∈ server_ids → in_u64 (node_id i).
Proof using Type.
  intros Hs (k & -> & Hk%elem_of_seq)%list_elem_of_fmap. cbn. unfold in_u64, in_u, u64_max in *. lia.
Qed.

Lemma server_peers i : (w_peers (server i)).*1 = filter (λ j, j ≠ i) server_ids.
Proof using Type. cbn. rewrite <-list_fmap_compose. apply list_fmap_id. Qed.

Lemma server_ok i : (Z.of_nat servers ≤ u64_max)%Z → i ∈ server_ids → wanted_ok (server i).
Proof using Type.
  intros Hs Hi. split.
  - by apply server_ids_range.
  - apply Forall_fmap, Forall_forall. intros j [_ Hj]%list_elem_of_filter.
    by apply server_ids_range.
  - rewrite server_peers. apply NoDup_filter, server_ids_nodup.
Qed.

Lemma collect {A} (f : NodeId → res A) ids :
  (∀ i, i ∈ ids → ∃ a, f i = Ok a) →
  ∃ m : gmap NodeId A, dom m = list_to_set ids ∧ ∀ i, i ∈ ids → ∃ a, f i = Ok a ∧ m !! i = Some a.
Proof using Type.
  induction ids as [|i ids IH]; intros Hf.
  { exists ∅. split; [by rewrite dom_empty_L|]. by intros i ?%elem_of_nil. }
  destruct IH as (m & Hd & Hm); [intros j Hj; apply Hf; by right|].
  destruct (Hf i) as [a Ha]; [by left|]. exists (<[i := a]> m).
  split; [by rewrite dom_insert_L, Hd|]. intros j Hj. destruct (decide (j = i)) as [->|Hne].
  - exists a. by rewrite lookup_insert_eq.
  - rewrite lookup_insert_ne by done. apply Hm. set_solver.
Qed.

(** Which server listens at an address. *)
Definition server_at (a : str) : option NodeId :=
  snd <$> list_find (λ i, w_addr (server i) = a) server_ids.

Lemma server_at_port i :
  (Z.of_nat servers + 6000 ≤ u64_max)%Z → i ∈ server_ids → server_at (local_port 6001 i) = Some i.
Proof using Type.
  intros Hs Hi. unfold server_at.
  destruct (list_find_elem_of (λ j, w_addr (server j) = local_port 6001 i) server_ids i Hi eq_refl)
    as [[k j] E].
  rewrite E. cbn. f_equal. apply list_find_Some in E as (Hj%list_elem_of_lookup_2 & Ep & _).
  apply app_inv_head in Ep.
  assert (∀ x, x ∈ server_ids → in_u64 (6001 + node_id x - 1)) as Hu.
  { intros x (n & -> & Hn%elem_of_seq)%list_elem_of_fmap. cbn [node_id]. unfold in_u64, in_u, u64_max in *. lia. }
  pose proof (parse_u64_to_string _ (Hu i Hi)) as Pi. rewrite <-Ep, parse_u64_to_string in Pi by auto.
  injection Pi as Pi. destruct i, j. cbn in Pi. f_equal. lia.
Qed.

(** What server [i] knows of the others. *)
Lemma server_registry i j :
  st_peers_map (startup (server i) true) !! j =
    if decide (j ∈ server_ids ∧ j ≠ i) then Some (local_port 6001 j) else None.
Proof using Type.
  cbn [startup st_peers_map]. case_decide as Hj.
  - apply elem_of_list_to_map; [rewrite server_peers; apply NoDup_filter, server_ids_nodup|].
    apply list_elem_of_fmap. exists j. split; [done|]. apply list_elem_of_filter. tauto.
  - apply not_elem_of_list_to_map. rewrite server_peers. intros [? ?]%list_elem_of_filter.
    by apply Hj.
Qed.

Context {D : Type} `{!KvStore D} `{!F64Text} `{!Bincode} `{!RandomMillis} `{!MessageBincode}.
Context (db0 : D) (allowed : Command → Prop) (now : NodeId → Instant).

(** C31: The script starts a cluster: every server gets its arguments right and
    knows the address of each of the others, and the nodes, in empty
    directories, with their networks are the start of a system for which the
    safety theorems hold, over TCP. *)
Theorem script_starts_cluster tmp prog :
  (Z.of_nat servers + 6000 ≤ u64_max)%Z →
  ∃ sys : System D,
    (∀ i, i ∈ server_ids → ∃ s n net,
      main tmp (prog :: script_args (server i)) = Ok (Started s) ∧
      start_node s [] [] (Ok db0) (now i) = Ok (n, net) ∧
      procs sys !! i = Some (MkProcess n net [] [] Idle) ∧
      ∀ j, registry net !! j =
        if decide (j ∈ server_ids ∧ j ≠ i) then Some (local_port 6001 j) else None) ∧
    tcp_reachable server_at (list_to_set server_ids) db0 allowed sys.
Proof using Type.
  intros Hs. assert (Z.of_nat servers ≤ u64_max)%Z as Hs' by lia.
  set (peers i := st_peers_map (startup (server i) true)).
  pose proof server_registry as Hreg.
  set (f i := n ← new_in_dir [] [] (Ok db0) i (filter (λ j, j ≠ i) server_ids) (now i);
              mret (start_process i (peers i) n)).
  destruct (collect f server_ids) as (ps & Hd & Hn); [by eexists|].
  exists (MkSystem ps []). split.
  - intros i Hi. destruct (Hn i Hi) as (p & Ef & En). destruct i as [z].
    exists (startup (server (MkNodeId z)) true), (proc_node p), (proc_net p).
    unfold f in Ef. destruct (new_in_dir _ _ _ _ _ _) as [n|?|?] eqn:E; [|done..].
    injection Ef as <-. split_and!; [| |exact En|by apply Hreg].
    + eapply main_read; [by apply server_ok|apply script_args_read; [by apply server_ok|]|done].
      by apply flag_of_minus.
    + unfold start_node, startup. cbn [st_id st_peer_ids w_id]. rewrite server_peers.
      change (MkNodeId (w_id (server (MkNodeId z)))) with (MkNodeId z). by rewrite E.
  - exists (MkSystem ps []). split; [|done].
    assert (Hp : ∀ i p, ps !! i = Some p → i ∈ server_ids ∧ ∃ n,
      new_in_dir [] [] (Ok db0) i (filter (λ j, j ≠ i) server_ids) (now i) = Ok n ∧
      p = start_process i (peers i) n).
    { intros i p Ep. assert (i ∈ server_ids) as Hi.
      { apply elem_of_dom_2 in Ep. rewrite Hd in Ep. by apply elem_of_list_to_set in Ep. }
      destruct (Hn i Hi) as (p' & Ef & Ep'). split; [done|]. unfold f in Ef.
      destruct (new_in_dir _ _ _ _ _ _) as [n|?|?] eqn:E; [|done..].
      exists n. split; [done|]. injection Ef as <-. congruence. }
    split_and!; [done| |].
    + split; [by rewrite dom_fmap_L|]. intros i n. cbn [procs].
      rewrite lookup_fmap. intros (p & (Hi & n' & E & ->)%Hp & ->)%fmap_Some.
      exists (filter (λ j, j ≠ i) server_ids), (now i), n'. split_and!; [| |exact E|done..].
      * apply NoDup_filter, server_ids_nodup.
      * intros p. rewrite list_elem_of_filter, elem_of_list_to_set. naive_solver.
    + intros i p (Hi & n & E & ->)%Hp. split; [by apply server_ids_range|].
      exists (peers i). split; [done|]. intros j a. unfold peers.
      rewrite Hreg. case_decide as Hj; [|done].
      intros [= <-]. apply server_at_port; [done|apply Hj].
Qed.

End script.

(** ** Examples *)
Module Example.

#[local] Existing Instances number_bincode journal bits_text fixed_millis.

(** The second node of [README.md]. *)
Definition second : Wanted := {|
  w_id := 2; w_addr := lit "127.0.0.1:6002"; w_api_addr := lit "127.0.0.1:7002";
  w_grpc_addr := lit "127.0.0.1:8002"; w_dir := lit "data";
  w_peers := [(MkNodeId 1, lit "127.0.0.1:6001"); (MkNodeId 3, lit "127.0.0.1:6003")];
|}.

Lemma command_lines_agree_witness :
  main [] (lit "node" :: flag_args second) = Ok (Started (startup second false)) ∧
  main [] (lit "node" :: script_args second) = Ok (Started (startup second true)).
Proof.
  apply (command_lines_agree [] (lit "node") second).
  - split; [by split|repeat constructor; done|]. apply (bool_decide_unpack _). by vm_compute.
  - repeat constructor; apply (bool_decide_unpack _); by vm_compute.
  - reflexivity.
Defined.

(** No message is sent before the nodes run. *)
#[local] Instance silent : MessageBincode :=
  {| serialize_message _ := None; deserialize_message _ := None |}.

Lemma script_starts_cluster_witness :
  ∃ sys : System (list Command),
    (∀ i, i ∈ server_ids 3 → ∃ s n net,
      main [] (lit "node" :: script_args (server 3 i)) = Ok (Started s) ∧
      start_node s [] [] (Ok []) 0 = Ok (n, net) ∧
      procs sys !! i = Some (MkProcess n net [] [] Idle) ∧
      ∀ j, registry net !! j =
        if decide (j ∈ server_ids 3 ∧ j ≠ i) then Some (local_port 6001 j) else None) ∧
    tcp_reachable (server_at 3) (list_to_set (server_ids 3)) [] (λ _, True) sys.
Proof. by apply (script_starts_cluster 3 [] (λ _, True) (λ _, 0%Z) [] (lit "node")). Defined.

(** The defaults for the addresses and the directory. *)
Lemma defaults :
  main (lit "/tmp") [lit "node"; lit "4"; lit "h:1"] = Ok (Started
    {| st_id := MkNodeId 4; st_addr := lit "h:1"; st_api_addr := lit "127.0.0.1:7004";
       st_grpc_addr := lit "127.0.0.1:8004"; st_dir := lit "/tmp/kv_store_node_4";
       st_peers_map := ∅; st_peer_ids := []; st_verbose := false |}).
Proof. by vm_compute. Qed.

(** A flag without its value at the end is ignored; an id that is not a number
    ends the program; without an id or an address it prints its usage. *)
Lemma other_outcomes :
  main [] [lit "node"; lit "--id"; lit "x"] = Ok InvalidId ∧
  main [] [lit "node"; lit "--id"; lit "1"; lit "--addr"] = Ok Usage ∧
  main [] [lit "node"; lit "127.0.0.1:6001"; lit "1"] = Ok Usage.
Proof. by vm_compute. Qed.

End Example.
