(* ===== verification/Client.v ===== *)
(** [src/bin/client.rs]: the interactive client, which talks to the Raft port of
    a node. A connection is what the client writes to it and the bytes that
    arrive on it; the terminal is what the client shows there. Messages on
    [stderr] are left out. *)

From S2P Require Import Prelude Bytes Float LogRecord RaftTypes Network Text.

(** * The connection *)

(** [incoming] are the bytes that arrive before the connection ends;
    [capacity] is the number of bytes that can be written, if there is an end
    to it. *)
Record Stream : Type := MkStream {
  written : bytes;
  incoming : bytes;
  capacity : option nat;
}.

#[export] Instance eta_Stream : Eta Stream := λ s,
  MkStream (written s) (incoming s) (capacity s).
#[export] Instance upd_written : Upd written. Proof. derive_upd. Defined.
#[export] Instance upd_incoming : Upd incoming. Proof. derive_upd. Defined.
#[export] Instance upd_capacity : Upd capacity. Proof. derive_upd. Defined.

Record ClusterClient : Type := MkClusterClient {
  addr : str;
  stream : option Stream;
  client_id : NodeId;
  request_counter : Z;
}.

#[export] Instance eta_ClusterClient : Eta ClusterClient := λ c,
  MkClusterClient (addr c) (stream c) (client_id c) (request_counter c).
#[export] Instance upd_stream : Upd stream. Proof. derive_upd. Defined.
#[export] Instance upd_request_counter : Upd request_counter. Proof. derive_upd. Defined.

(** [write_all]: as much as can be written is. *)
Definition write_all (b : bytes) (s : Stream) : bool * Stream :=
  match capacity s with
  | None => (true, s <| written := written s ++ b |>)
  | Some k =>
      if decide (length b ≤ k)
      then (true, s <| written := written s ++ b |> <| capacity := Some (k - length b) |>)
      else (false, s <| written := written s ++ take k b |> <| capacity := Some 0 |>)
  end.

(** [ClusterClient::connect]; [dialed] is what [TcpStream::connect] gives. *)
Definition connect (dialed : option Stream) (addr : str) (client_id : NodeId) : ClusterClient :=
  let stream :=
    s ← dialed;
    match write_all (write_handshake client_id) s with
    | (true, s) => Some s
    | (false, _) => None
    end in
  {| addr := addr; stream := stream; client_id := client_id; request_counter := 1 |}.

Definition MAX_RESPONSE_SIZE : Z := 16 * 1024 * 1024.

(** What the client shows. *)
Inductive Shown : Type :=
  | ShownStatus (resp : ClientResponse)
  | ShownValue (key : str) (val : Value)
  | ShownNotFound (key : str)
  | ShownOk (message : str)
  | ShownError (message : str)
  | ShownUsage (command : str)
  | ShownUnknown (command : str)
  | ShownConnecting (addr : str)
  | ShownHelp
  | ShownGoodbye.

Section client.
Context `{!F64Text} `{!MessageBincode}.

(** [parse_value]. *)
Definition parse_value (s : str) : Value :=
  match parse_i64 s with
  | Some i => Int i
  | None => match f64_parse s with Some f => Float f | None => String s end
  end.

Definition disconnect {A} : M ClusterClient (option A) :=
  modify (λ c, c <| stream := None |>);; mret None.

(** The response that is read from the connection [s]. *)
Definition read_response (s : Stream) : M ClusterClient (option ClientResponse) :=
  match read_exact 4 (incoming s) with
  | (Ok len_buf, rest) =>
      let resp_len := from_be len_buf in
      if decide (resp_len = 0 ∨ MAX_RESPONSE_SIZE < resp_len)%Z then disconnect else
      match read_exact (Z.to_nat resp_len) rest with
      | (Ok resp_buf, rest) =>
          modify (λ c, c <| stream := Some (s <| incoming := rest |>) |>);;
          match deserialize_message resp_buf with
          | Some (MClientResponse resp) => mret (Some resp)
          | _ => mret None
          end
      | _ => disconnect
      end
  | _ => disconnect
  end.

Definition send_message (msg : Message) : M ClusterClient (option ClientResponse) :=
  c ← get;
  match stream c with
  | None => mret None
  | Some s =>
      match serialize_message msg with
      | None => mret None
      | Some buf =>
          match write_all (u32_to_be (wrap 32 (Z.of_nat (length buf)))) s with
          | (false, _) => disconnect
          | (true, s) =>
              match write_all buf s with
              | (false, _) => disconnect
              | (true, s) => read_response s
              end
          end
      end
  end.

(** [let req_id = self.request_counter; self.request_counter += 1;]. *)
Definition next_request : M ClusterClient Z :=
  c ← get;
  let req_id := request_counter c in
  next ← lift (expect "attempt to add with overflow" (checked_add_u64 req_id 1));
  modify (λ c, c <| request_counter := next |>);;
  mret req_id.

(** ** The four requests *)

Definition send_status : M ClusterClient (list Shown) :=
  req_id ← next_request;
  c ← get;
  resp ← send_message (MStatusQuery {| sq_request_id := req_id; sq_client_id := client_id c |});
  mret match resp with
       | Some resp => [ShownStatus resp]
       | None => []
       end.

Definition get_key (key : str) : M ClusterClient (list Shown) :=
  req_id ← next_request;
  c ← get;
  resp ← send_message (MClientQuery
    {| cq_request_id := req_id; cq_client_id := client_id c; cq_key := key |});
  mret match resp with
       | Some resp =>
           match cl_value resp with
           | Some val => [ShownValue key val]
           | None => [ShownNotFound key]
           end
       | None => []
       end.

Definition shown_write (resp : option ClientResponse) : list Shown :=
  match resp with
  | Some resp =>
      [if cl_success resp then ShownOk (cl_message resp) else ShownError (cl_message resp)]
  | None => []
  end.

Definition set_key (key : str) (value : Value) : M ClusterClient (list Shown) :=
  req_id ← next_request;
  c ← get;
  resp ← send_message (MClientRequest
    {| cr_request_id := req_id; cr_client_id := client_id c; cr_command := Set_ key value |});
  mret (shown_write resp).

Definition delete_key (key : str) : M ClusterClient (list Shown) :=
  req_id ← next_request;
  c ← get;
  resp ← send_message (MClientRequest
    {| cr_request_id := req_id; cr_client_id := client_id c; cr_command := Delete key |});
  mret (shown_write resp).

(** ** The prompt *)

(** What a line says, after it is split into words. The names of the commands
    have no letter that is also the lower case of one outside of ASCII. *)
Inductive LineCommand : Type :=
  | CmdEmpty
  | CmdExit
  | CmdHelp
  | CmdStatus
  | CmdConnect (new_addr : str)
  | CmdGet (key : str)
  | CmdSet (key : str) (val : Value)
  | CmdDelete (key : str)
  | CmdUsage (command : str)
  | CmdUnknown (word : str).

Definition line_command (input : str) : LineCommand :=
  match split_whitespace input with
  | [] => CmdEmpty
  | word :: args =>
      let cmd_name := ascii_lowercase word in
      if decide (cmd_name = lit "exit" ∨ cmd_name = lit "quit") then CmdExit
      else if decide (cmd_name = lit "help") then CmdHelp
      else if decide (cmd_name = lit "status") then CmdStatus
      else if decide (cmd_name = lit "connect") then
        match args with new_addr :: _ => CmdConnect new_addr | [] => CmdUsage (lit "connect") end
      else if decide (cmd_name = lit "get") then
        match args with key :: _ => CmdGet key | [] => CmdUsage (lit "get") end
      else if decide (cmd_name = lit "set") then
        match args with
        | key :: ((_ :: _) as val) => CmdSet key (parse_value (join space val))
        | _ => CmdUsage (lit "set")
        end
      else if decide (cmd_name = lit "delete" ∨ cmd_name = lit "del") then
        match args with key :: _ => CmdDelete key | [] => CmdUsage (lit "delete") end
      else CmdUnknown word
  end.

End client.

(** The client with what it has shown and how often it has dialed. *)
Record Session : Type := MkSession {
  client : ClusterClient;
  terminal : list Shown;
  dials : nat;
}.

#[export] Instance eta_Session : Eta Session := λ s,
  MkSession (client s) (terminal s) (dials s).
#[export] Instance upd_client : Upd client. Proof. derive_upd. Defined.
#[export] Instance upd_terminal : Upd terminal. Proof. derive_upd. Defined.
#[export] Instance upd_dials : Upd dials. Proof. derive_upd. Defined.

Section prompt.
Context `{!F64Text} `{!MessageBincode}.
(** What each attempt to connect gives. *)
Context (dial : nat → str → option Stream).

Definition show (l : list Shown) : M Session () :=
  modify (λ s, s <| terminal := terminal s ++ l |>).

Definition on_client (m : M ClusterClient (list Shown)) : M Session () :=
  shown ← zoom client m; show shown.

(** One turn of the loop of [main]: does it go on? *)
Definition handle_input (input : str) : M Session bool :=
  match line_command input with
  | CmdEmpty => mret true
  | CmdExit => show [ShownGoodbye];; mret false
  | CmdHelp => show [ShownHelp];; mret true
  | CmdStatus => on_client send_status;; mret true
  | CmdConnect new_addr =>
      show [ShownConnecting new_addr];;
      modify (λ s, s <| client := connect (dial (dials s) new_addr) new_addr (client_id (client s)) |>
                     <| dials := S (dials s) |>);;
      mret true
  | CmdGet key => on_client (get_key key);; mret true
  | CmdSet key val => on_client (set_key key val);; mret true
  | CmdDelete key => on_client (delete_key key);; mret true
  | CmdUsage command => show [ShownUsage command];; mret true
  | CmdUnknown word => show [ShownUnknown word];; mret true
  end.

(** The lines that are typed, until the end of the input. *)
Fixpoint client_loop (lines : list str) : M Session () :=
  match lines with
  | [] => mret ()
  | input :: lines' =>
      more ← handle_input input;
      if more : bool then client_loop lines' else mret ()
  end.

(** [main]; [random] is the [u32] that is drawn for the client. *)
Definition client_main (random : Z) (args lines : list str) : res () * Session :=
  let target_addr := match args with
    | _ :: arg :: _ =>
        if decide (head arg = Some (z_u8 45)) then lit "127.0.0.1:6001" else arg
    | _ => lit "127.0.0.1:6001"
    end in
  client_loop lines
    {| client := connect (dial 0 target_addr) target_addr (MkNodeId (random + 10000));
       terminal := []; dials := 1 |}.

End prompt.
