(* ===== verification/ClientSpec.v ===== *)
(** What the interactive client of [Client.v] sends and shows, against the
    frames of [Network.v] and against a node. *)

From S2P Require Import Prelude Wp Bytes Float LogRecord RaftTypes Network Text Client.

(** ** Lines *)

(** No white space in a word, and nothing that starts some. *)
Fixpoint solid (w : str) : bool :=
  match w with
  | [] => true
  | b :: w' => bool_decide (whitespace w = 0) && solid w'
  end.

Definition word (w : str) : Prop := w ≠ [] ∧ solid w = true.

Lemma whitespace_space s : whitespace (space :: s) = 1.
Proof. unfold whitespace. by rewrite firstn_cons, fmap_cons. Qed.

(** A space behind a character does not make it white. *)
Lemma whitespace_before_space b t s :
  whitespace (b :: t) = 0 → whitespace (b :: t ++ space :: s) = 0.
Proof.
  destruct t as [|c [|d t]]; [| |done]; unfold whitespace; cbn -[u8_z];
    change (u8_z space) with 32%Z; case_bool_decide; try done.
  - intros _. rewrite bool_decide_false by lia. destruct s as [|x s]; cbn -[u8_z]; [done|].
    by rewrite bool_decide_false by lia.
  - case_bool_decide; [done|]. intros _. by rewrite bool_decide_false by lia.
Qed.

Lemma words_solid w cur s :
  solid w = true → words 0 cur (w ++ space :: s) = words 0 (cur ++ w) (space :: s).
Proof.
  revert cur. induction w as [|b w IH]; intros cur Hw; cbn [app]; [by rewrite app_nil_r|].
  cbn [solid] in Hw. apply andb_true_iff in Hw as [Hb%bool_decide_eq_true Hw].
  cbn [words]. rewrite (whitespace_before_space b w s) by done.
  rewrite IH by done. by rewrite <-app_assoc.
Qed.

Lemma words_end w cur : solid w = true → words 0 cur w = flush_word (cur ++ w).
Proof.
  revert cur. induction w as [|b w IH]; intros cur Hw; [cbn; by rewrite app_nil_r|].
  cbn [solid] in Hw. apply andb_true_iff in Hw as [Hb%bool_decide_eq_true Hw].
  cbn [words]. rewrite Hb, IH by done. by rewrite <-app_assoc.
Qed.

(** [split_whitespace] undoes [join] on words. *)
Lemma split_whitespace_join ws : Forall word ws → split_whitespace (join space ws) = ws.
Proof.
  unfold split_whitespace.
  intros Hws. induction Hws as [|w [|w' ws'] [Hw Hs] _ IH]; [done| |].
  - cbn [join]. rewrite words_end by done. by destruct w.
  - change (join space (w :: w' :: ws')) with (w ++ space :: join space (w' :: ws')).
    rewrite words_solid by done. cbn [app words]. rewrite whitespace_space, IH. by destruct w.
Qed.

(** ** One request and its response *)

(** What can be asked for. *)
Inductive Request : Type :=
  | AskStatus
  | AskGet (key : str)
  | AskSet (key : str) (value : Value)
  | AskDelete (key : str).

Definition request_message (client_id : NodeId) (req_id : Z) (r : Request) : Message :=
  match r with
  | AskStatus => MStatusQuery {| sq_request_id := req_id; sq_client_id := client_id |}
  | AskGet key => MClientQuery
      {| cq_request_id := req_id; cq_client_id := client_id; cq_key := key |}
  | AskSet key value => MClientRequest
      {| cr_request_id := req_id; cr_client_id := client_id; cr_command := Set_ key value |}
  | AskDelete key => MClientRequest
      {| cr_request_id := req_id; cr_client_id := client_id; cr_command := Delete key |}
  end.

(** What is shown for a response. *)
Definition shown_response (r : Request) (resp : ClientResponse) : list Shown :=
  match r with
  | AskStatus => [ShownStatus resp]
  | AskGet key =>
      [match cl_value resp with Some val => ShownValue key val | None => ShownNotFound key end]
  | AskSet _ _ | AskDelete _ => shown_write (Some resp)
  end.

Section requests.
Context `{!MessageBincode}.

Definition run_request (r : Request) : M ClusterClient (list Shown) :=
  match r with
  | AskStatus => send_status
  | AskGet key => get_key key
  | AskSet key value => set_key key value
  | AskDelete key => delete_key key
  end.

Fixpoint run_requests (rs : list Request) : M ClusterClient (list Shown) :=
  match rs with
  | [] => mret []
  | r :: rs' => a ← run_request r; b ← run_requests rs'; mret (a ++ b)
  end.

(** The messages of a list of requests, numbered from [from]. *)
Fixpoint request_messages (client_id : NodeId) (from : Z) (rs : list Request) : list Message :=
  match rs with
  | [] => []
  | r :: rs' => request_message client_id from r :: request_messages client_id (from + 1) rs'
  end.

Lemma request_messages_take id from rs j :
  request_messages id from (take j rs) = take j (request_messages id from rs).
Proof using Type.
  revert from j. induction rs as [|r rs IH]; intros from [|j]; cbn; [done..|]. by rewrite IH.
Qed.

Definition counted (k : Z) (o : option Stream) (c : ClusterClient) : ClusterClient :=
  c <| request_counter := (request_counter c + k)%Z |> <| stream := o |>.

Lemma run_request_eq r c resp o :
  (request_counter c + 1 ≤ u64_max)%Z →
  send_message (request_message (client_id c) (request_counter c) r) (counted 1 (stream c) c)
    = (Ok resp, counted 1 o c) →
  run_request r c =
    (Ok (match resp with Some resp => shown_response r resp | None => [] end), counted 1 o c).
Proof using Type.
  intros Hc E.
  assert (next_request c = (Ok (request_counter c), counted 1 (stream c) c)) as En.
  { unfold next_request. rewrite bind_eq. cbn [get]. unfold checked_add_u64.
    rewrite decide_True by done. destruct c. reflexivity. }
  destruct r; cbn [run_request]; unfold send_status, get_key, set_key, delete_key;
    (erewrite bind_Ok by exact En); rewrite bind_eq; cbn [get];
    (erewrite bind_Ok by exact E); destruct resp as [resp|]; try reflexivity.
  cbn. by destruct (cl_value resp).
Qed.

(** A response that [bincode] can write and read back, in a frame that the
    client accepts. *)
Definition answerable (resp : ClientResponse) : Prop :=
  ∃ buf, serialize_message (MClientResponse resp) = Some buf ∧
    deserialize_message buf = Some (MClientResponse resp) ∧ buf ≠ [] ∧
    (Z.of_nat (length buf) ≤ MAX_RESPONSE_SIZE)%Z.

(** What the node sends for the responses. *)
Definition response_bytes (resps : list ClientResponse) : bytes :=
  writer_task (MClientResponse <$> resps).

Lemma response_bytes_cons resp resps :
  response_bytes (resp :: resps) = write_message (MClientResponse resp) ++ response_bytes resps.
Proof using Type. done. Qed.

Definition asked (s : Stream) (m : Message) : Stream :=
  s <| written := written s ++ write_message m |>.

Lemma send_message_eq msg c s :
  deliverable msg → stream c = Some s → capacity s = None →
  send_message msg c = read_response (asked s msg) c.
Proof using Type.
  intros (buf & Es & _ & Hb) Hs Hcap. unfold send_message. rewrite bind_eq. cbn [get].
  rewrite Hs, Es. unfold write_all at 1. rewrite Hcap. unfold write_all. cbn [capacity upd].
  unfold asked, write_message. rewrite Es. destruct s as [w i cap]. cbn in *. subst cap.
  by rewrite <-app_assoc.
Qed.

Lemma send_closed msg c : stream c = None → send_message msg c = (Ok None, c).
Proof using Type. intros Hs. unfold send_message. rewrite bind_eq. cbn [get]. by rewrite Hs. Qed.

Lemma response_length (buf : bytes) :
  buf ≠ [] → (Z.of_nat (length buf) ≤ MAX_RESPONSE_SIZE)%Z →
  (Z.of_nat (length buf) ≤ u32_max)%Z ∧
  ¬ (Z.of_nat (length buf) = 0 ∨ MAX_RESPONSE_SIZE < Z.of_nat (length buf))%Z.
Proof using Type.
  intros Hne Hb. assert (length buf ≠ 0) by (by destruct buf).
  unfold MAX_RESPONSE_SIZE, u32_max in *. lia.
Qed.

(** A response that has arrived is read, and only it. *)
Lemma read_response_ok resp rest s c :
  answerable resp → incoming s = write_message (MClientResponse resp) ++ rest →
  read_response s c = (Ok (Some resp), c <| stream := Some (s <| incoming := rest |>) |>).
Proof using Type.
  intros (buf & Es & Ed & Hne & Hb) Hi. destruct (response_length buf Hne Hb) as [H32 Hr].
  unfold read_response. rewrite Hi, (write_message_eq _ buf), <-app_assoc by done.
  rewrite read_exact_app by (by rewrite length_u32_to_be).
  rewrite from_u32_to_be by (unfold in_u32, in_u, u32_max in *; lia). rewrite decide_False by done.
  rewrite read_exact_app by (by rewrite Nat2Z.id). rewrite bind_eq. cbn. by rewrite Ed.
Qed.

(** A connection that ends before the whole response has arrived is given up. *)
Lemma read_response_cut resp k s c :
  answerable resp → incoming s = take k (write_message (MClientResponse resp)) →
  k < length (write_message (MClientResponse resp)) →
  read_response s c = (Ok None, c <| stream := None |>).
Proof using Type.
  intros (buf & Es & Ed & Hne & Hb) Hi. destruct (response_length buf Hne Hb) as [H32 Hr].
  pose proof (length_u32_to_be (Z.of_nat (length buf))) as H4.
  unfold read_response. rewrite Hi, (write_message_eq _ buf) by done.
  rewrite length_app, H4. intros Hk. destruct (decide (k < 4)) as [Hk4|Hk4].
  { by rewrite read_exact_short by (rewrite length_take, length_app; lia). }
  rewrite take_app_ge, H4 by lia. rewrite read_exact_app by done.
  rewrite from_u32_to_be by (unfold in_u32, in_u, u32_max in *; lia). rewrite decide_False by done.
  by rewrite read_exact_short by (rewrite length_take, Nat2Z.id; lia).
Qed.

(** A request to which nothing can be read any more. *)
Lemma run_closed rs c :
  stream c = None → (request_counter c + Z.of_nat (length rs) ≤ u64_max)%Z →
  ∃ c', run_requests rs c = (Ok [], c') ∧ stream c' = None.
Proof using Type.
  revert c. induction rs as [|r rs IH]; intros c Hs Hc; [by exists c|]. cbn [length] in Hc.
  cbn [run_requests]. erewrite bind_Ok; [|apply (run_request_eq r c None None); [lia|]].
  - destruct (IH (counted 1 None c)) as (c' & E & Hs'); [done|cbn; lia|].
    exists c'. by erewrite bind_Ok by exact E.
  - by rewrite send_closed, Hs.
Qed.

(** The answers to the requests, as they are shown. *)
Definition shown_responses (rs : list Request) (resps : list ClientResponse) : list Shown :=
  mjoin (zip_with shown_response rs resps).

Lemma run_answered r resp rest c s :
  deliverable (request_message (client_id c) (request_counter c) r) → answerable resp →
  stream c = Some s → capacity s = None →
  incoming s = write_message (MClientResponse resp) ++ rest →
  (request_counter c + 1 ≤ u64_max)%Z →
  run_request r c = (Ok (shown_response r resp),
    counted 1 (Some ((asked s (request_message (client_id c) (request_counter c) r))
                       <| incoming := rest |>)) c).
Proof using Type.
  intros Hm Hr Hs Hcap Hi Hc. apply (run_request_eq r c (Some resp)); [done|].
  rewrite (send_message_eq _ _ s) by done. by rewrite (read_response_ok resp rest).
Qed.

Lemma run_cut r resp k c s :
  deliverable (request_message (client_id c) (request_counter c) r) → answerable resp →
  stream c = Some s → capacity s = None →
  incoming s = take k (write_message (MClientResponse resp)) →
  k < length (write_message (MClientResponse resp)) →
  (request_counter c + 1 ≤ u64_max)%Z →
  run_request r c = (Ok [], counted 1 None c).
Proof using Type.
  intros Hm Hr Hs Hcap Hi Hk Hc. apply (run_request_eq r c None); [done|].
  rewrite (send_message_eq _ _ s) by done. by rewrite (read_response_cut resp k).
Qed.

(** [j] is the number of responses that are whole in the first [k] bytes. *)
Definition arrived (k j : nat) (resps : list ClientResponse) : Prop :=
  j ≤ length resps ∧ length (response_bytes (take j resps)) ≤ k ∧
  (j < length resps → k < length (response_bytes (take (S j) resps))).

Lemma arrived_all k j resps : arrived k j resps → length (response_bytes resps) ≤ k → j = length resps.
Proof using Type.
  intros (Hj & _ & Hlt) Hk. destruct (decide (j < length resps)) as [Hj'|]; [|lia].
  specialize (Hlt Hj'). rewrite <-(take_drop (S j) resps) in Hk. unfold response_bytes in *.
  rewrite fmap_app in Hk. unfold writer_task in Hk. rewrite fmap_app, join_app, length_app in Hk.
  unfold writer_task in Hlt. lia.
Qed.

Lemma run_prefix rs resps k c s :
  length rs = length resps →
  Forall deliverable (request_messages (client_id c) (request_counter c) rs) →
  Forall answerable resps → stream c = Some s → capacity s = None → incoming s = take k (response_bytes resps) →
  (request_counter c + Z.of_nat (length rs) ≤ u64_max)%Z →
  ∃ j c' c'' s', arrived k j resps ∧
    run_requests rs c = (Ok (shown_responses (take j rs) resps), c') ∧
    run_requests (take j rs) c = (Ok (shown_responses (take j rs) resps), c'') ∧
    (j = length rs → c' = c'') ∧ stream c'' = Some s' ∧
    incoming s' = take (k - length (response_bytes (take j resps))) (response_bytes (drop j resps)) ∧
    written s' = written s ++
      writer_task (request_messages (client_id c) (request_counter c) (take j rs)).
Proof using Type.
  intros Hlen Hm Hresps. revert rs k c s Hlen Hm.
  induction Hresps as [|resp resps Hr _ IH]; intros [|r rs] k c s Hlen Hm Hs Hcap Hi Hc;
    try discriminate.
  { exists 0, c, c, s. unfold arrived. cbn [length take firstn drop skipn].
    change (response_bytes []) with (@nil u8) in *. rewrite app_nil_r, Nat.sub_0_r.
    split_and!; done || (cbn; lia). }
  cbn [length] in Hc. injection Hlen as Hlen. rewrite response_bytes_cons in *.
  cbn [request_messages] in Hm. apply Forall_cons in Hm as [Hd Hm]. cbn [run_requests].
  destruct (decide (k < length (write_message (MClientResponse resp)))) as [Hk|Hk].
  - rewrite take_app_le in Hi by lia.
    destruct (run_closed rs (counted 1 None c)) as (c' & E & _); [done|cbn; lia|].
    exists 0, c', c, s. unfold arrived. cbn [take firstn drop skipn length].
    rewrite !response_bytes_cons, app_nil_r, Nat.sub_0_r. change (response_bytes []) with (@nil u8).
    rewrite app_nil_r, take_app_le by lia.
    split_and!; try done; try (cbn; lia).
    erewrite bind_Ok; [|apply (run_cut r resp k c s); try done; lia].
    by erewrite bind_Ok by exact E.
  - rewrite take_app_ge in Hi by lia.
    assert (run_request r c = (Ok (shown_response r resp), _)) as Er
      by (eapply (run_answered r resp); try done; lia).
    match type of Er with context [counted 1 (Some ?s1) c] => set (s1' := s1) in * end.
    destruct (IH rs (k - length (write_message (MClientResponse resp))) (counted 1 (Some s1') c) s1')
      as (j & c' & c'' & s' & (Hj & Hle & Hlt) & E & E' & Heq & Hs' & Hi' & Hw); [done..|cbn; lia|].
    exists (S j), c', c'', s'. unfold arrived. cbn [take firstn drop skipn length].
    cbn [take firstn] in Hlt. rewrite !response_bytes_cons, !length_app in *.
    split_and!; try done; try lia.
    + erewrite bind_Ok by exact Er. by erewrite bind_Ok by exact E.
    + cbn [run_requests]. erewrite bind_Ok by exact Er. by erewrite bind_Ok by exact E'.
    + intros [= Hj']. by apply Heq.
    + by rewrite Nat.sub_add_distr.
    + rewrite Hw. cbn. by rewrite <-app_assoc.
Qed.

(** What the client has written is read as the id and the messages. *)
Lemma session_heard id ms s :
  in_u64 (node_id id) → Forall deliverable ms →
  written s = write_handshake id ++ writer_task ms →
  ∃ rest, read_handshake (written s) = Some (id, rest) ∧ reader_task rest = Ok (ms, Disconnected).
Proof using Type.
  intros Hid Hm ->. exists (writer_task ms). split; [by apply read_write_handshake|].
  destruct (reader_loop_prefix ms (length (writer_task ms)) (S (length (writer_task ms))) [])
    as (i & Ei & Hi); [done|rewrite length_take; lia|].
  rewrite take_ge in Ei by done. unfold reader_task. rewrite Ei. by rewrite take_ge by auto.
Qed.

(** C30: A client and its node understand each other, wherever the connection
    breaks off on the way back. The client shows what belongs to the responses
    that have arrived whole, all of these and nothing else; and when the last of
    them is shown, a node that reads what the client has written so far finds
    the id of the client and exactly the requests they answer, in order and
    numbered from 1. *)
Theorem client_session address id rs resps k :
  length rs = length resps → Forall deliverable (request_messages id 1 rs) →
  Forall answerable resps → in_u64 (node_id id) → (1 + Z.of_nat (length rs) ≤ u64_max)%Z →
  let c := connect (Some {| written := []; incoming := take k (response_bytes resps);
                            capacity := None |}) address id in
  ∃ j c' c'' s rest, arrived k j resps ∧
    run_requests rs c = (Ok (shown_responses (take j rs) resps), c') ∧
    run_requests (take j rs) c = (Ok (shown_responses (take j rs) resps), c'') ∧
    stream c'' = Some s ∧ read_handshake (written s) = Some (id, rest) ∧
    reader_task rest = Ok (request_messages id 1 (take j rs), Disconnected).
Proof using Type.
  intros Hlen Hm Hresps Hid Hc c.
  destruct (run_prefix rs resps k c (MkStream (write_handshake id) (take k (response_bytes resps)) None))
    as (j & c' & c'' & s & Hj & E & E' & _ & Hs & _ & Hw); [done..|].
  destruct (session_heard id (request_messages id 1 (take j rs)) s Hid) as (rest & Hh & Hr);
    [|exact Hw|by exists j, c', c'', s, rest].
  rewrite request_messages_take. by apply Forall_take.
Qed.

End requests.

(** ** The prompt *)

(** Lines as someone types them. *)
Inductive Typed : Type :=
  | TypeStatus
  | TypeGet (key : str)
  | TypeSet (key : str) (val : list str)
  | TypeDelete (key : str).

Definition typed_words (t : Typed) : list str :=
  match t with
  | TypeStatus => [lit "status"]
  | TypeGet key => [lit "get"; key]
  | TypeSet key val => lit "set" :: key :: val
  | TypeDelete key => [lit "delete"; key]
  end.

Definition typed_ok (t : Typed) : Prop :=
  match t with
  | TypeStatus => True
  | TypeGet key | TypeDelete key => word key
  | TypeSet key val => word key ∧ Forall word val ∧ val ≠ []
  end.

Definition typed_line (t : Typed) : str := join space (typed_words t).

Section prompt.
Context `{!F64Text} `{!MessageBincode} (dial : nat → str → option Stream).

Definition typed_request (t : Typed) : Request :=
  match t with
  | TypeStatus => AskStatus
  | TypeGet key => AskGet key
  | TypeSet key val => AskSet key (parse_value (join space val))
  | TypeDelete key => AskDelete key
  end.

Lemma word_lit (w : str) : bool_decide (w ≠ []) && solid w = true → word w.
Proof using Type. by intros [Hw%bool_decide_eq_true Hs]%andb_true_iff. Qed.

Lemma handle_typed t :
  typed_ok t →
  handle_input dial (typed_line t) = (on_client (run_request (typed_request t));; mret true).
Proof using Type.
  intros Ht. unfold handle_input, line_command, typed_line.
  rewrite split_whitespace_join.
  - destruct t as [|key|key [|v val]|key]; try reflexivity. by destruct Ht as (_ & _ & []).
  - destruct t as [|key|key val|key]; cbn [typed_words typed_ok] in *; constructor;
      try (by apply word_lit; vm_compute); [done|by constructor|naive_solver|by constructor].
Qed.

(** What is typed is what is asked: the prompt on lines for requests, with
    any words as keys and values, does exactly the requests and shows their
    answers in order. *)
Theorem typed_requests ts s out c' :
  Forall typed_ok ts →
  run_requests (typed_request <$> ts) (client s) = (Ok out, c') →
  client_loop dial (typed_line <$> ts) s =
    (Ok (), s <| client := c' |> <| terminal := terminal s ++ out |>).
Proof using Type.
  intros Hts. revert s out. induction Hts as [|t ts Ht _ IH]; intros s out.
  { intros [= <- <-]. destruct s. cbn. by rewrite app_nil_r. }
  cbn [fmap list_fmap run_requests client_loop]. rewrite handle_typed by done.
  intros (a & c1 & E1 & (b & c2 & E2 & [= <- <-])%bind_inv)%bind_inv.
  assert (on_client (run_request (typed_request t)) s =
    (Ok (), s <| client := c1 |> <| terminal := terminal s ++ a |>)) as E.
  { unfold on_client, zoom. rewrite bind_eq, E1. reflexivity. }
  rewrite bind_eq. erewrite bind_Ok by exact E. cbn [mret M_ret].
  destruct s as [c0 shown n].
  etrans; [exact (IH (MkSession c1 (shown ++ a) n) b E2)|]. cbn. by rewrite <-app_assoc.
Qed.

(** *** Nothing that arrives stops the client *)

(** It ends normally and changes nothing but the connection. *)
Definition client_steady {A} (m : M ClusterClient A) : Prop :=
  ∀ c, ∃ a o, m c = (Ok a, c <| stream := o |>).

Lemma read_response_steady s : client_steady (read_response s).
Proof using Type.
  intros c. unfold read_response, disconnect.
  destruct (read_exact 4 _) as [[lb|e|p] rest]; [|by do 2 eexists..].
  case_decide; [by do 2 eexists|].
  destruct (read_exact _ rest) as [[rb|e|p] rest']; [|by do 2 eexists..].
  destruct (deserialize_message rb) as [[]|]; by do 2 eexists.
Qed.

Lemma send_message_steady m : client_steady (send_message m).
Proof using Type.
  intros c. unfold send_message. rewrite bind_eq. cbn [get].
  destruct (stream c) as [s|] eqn:Hs; [|exists None, None; by destruct c; cbn in *; subst].
  destruct (serialize_message m); [|exists None, (Some s); by destruct c; cbn in *; subst].
  destruct (write_all _ _) as [[] s1]; [|by do 2 eexists].
  destruct (write_all _ s1) as [[] s2]; [apply read_response_steady|by do 2 eexists].
Qed.

Lemma run_request_total r c :
  (request_counter c + 1 ≤ u64_max)%Z →
  ∃ out o, run_request r c = (Ok out, counted 1 o c).
Proof using Type.
  intros Hc.
  destruct (send_message_steady (request_message (client_id c) (request_counter c) r)
    (counted 1 (stream c) c)) as (resp & o & E).
  do 2 eexists. by apply (run_request_eq r c resp o).
Qed.

(** A turn of the prompt: what it shows, and the numbers it takes. *)
Definition turn_ok (s : Session) (r : res bool * Session) : Prop :=
  ∃ more s' out, r = (Ok more, s') ∧ terminal s' = terminal s ++ out ∧
    (0 ≤ request_counter (client s') ≤ 1 + request_counter (client s))%Z.

Lemma request_turn r s :
  (0 ≤ request_counter (client s))%Z → (request_counter (client s) + 1 ≤ u64_max)%Z →
  turn_ok s ((on_client (run_request r);; mret true) s).
Proof using Type.
  intros H0' Hc. destruct (run_request_total r (client s)) as (out & o & E); [lia|].
  exists true. do 2 eexists. unfold on_client, zoom. rewrite bind_eq, bind_eq, E.
  split_and!; [reflexivity|reflexivity|cbn; lia|cbn; lia].
Qed.

Lemma handle_input_total l s :
  (0 ≤ request_counter (client s))%Z → (request_counter (client s) + 1 ≤ u64_max)%Z →
  turn_ok s (handle_input dial l s).
Proof using Type.
  intros H0' Hc. unfold handle_input.
  destruct (line_command l) as [| | | |a|key|key v|key|c|w];
    try (do 3 eexists; split_and!; [reflexivity|reflexivity|cbn; lia|cbn; lia]).
  - exists true, s, []. rewrite app_nil_r. split_and!; [done..|lia|lia].
  - by apply (request_turn AskStatus).
  - by apply (request_turn (AskGet key)).
  - by apply (request_turn (AskSet key v)).
  - by apply (request_turn (AskDelete key)).
Qed.

(** Nothing stops the client: whatever arrives on its connections, however
    they break, and whatever is typed, the prompt goes on to the end of the
    input, as long as it has a number for every request. *)
Theorem prompt_total lines s :
  (0 ≤ request_counter (client s))%Z →
  (request_counter (client s) + Z.of_nat (length lines) ≤ u64_max)%Z →
  ∃ s', client_loop dial lines s = (Ok (), s') ∧
    ∃ out, terminal s' = terminal s ++ out.
Proof using Type.
  revert s. induction lines as [|l lines IH]; intros s H0' Hc; cbn [length] in Hc.
  { exists s. split; [done|]. exists []. by rewrite app_nil_r. }
  destruct (handle_input_total l s) as (more & s1 & out & E & Ht & H1); [lia|lia|].
  cbn [client_loop]. erewrite bind_Ok by exact E.
  destruct more; [|exists s1; split; [done|by exists out]].
  destruct (IH s1) as (s' & E' & out' & Ht'); [lia|lia|]. exists s'. split; [done|].
  exists (out ++ out'). by rewrite Ht', Ht, <-app_assoc.
Qed.

End prompt.

(** ** Examples *)

(** A stand-in for [bincode] that knows the messages of one conversation. *)
Definition table_bincode (table : list Message) : MessageBincode := {|
  serialize_message m :=
    '(k, _) ← list_find (eq m) table; Some [z_u8 (Z.of_nat k)];
  deserialize_message b :=
    match b with [k] => table !! Z.to_nat (u8_z k) | _ => None end;
|}.

Module Example.

#[local] Existing Instance bits_text.

Definition me : NodeId := MkNodeId 10007.
Definition asked_for : list Request := [AskSet (lit "k") (Int 7); AskGet (lit "k")].

Definition answer (req_id : Z) (value : option Value) (message : str) : ClientResponse :=
  {| cl_request_id := req_id; cl_success := true; cl_value := value; cl_message := message;
     cl_leader_id := None; cl_node_id := MkNodeId 1; cl_role := lit "Leader"; cl_term := 1;
     cl_peers := [] |}.

Definition answers : list ClientResponse :=
  [answer 1 None (lit "written"); answer 2 (Some (Int 7)) (lit "read")].

#[local] Instance conversation : MessageBincode :=
  table_bincode (request_messages me 1 asked_for ++ (MClientResponse <$> answers)).

Lemma requests_deliverable : Forall deliverable (request_messages me 1 asked_for).
Proof.
  repeat constructor; [exists [z_u8 0]|exists [z_u8 1]]; split; try done; by vm_compute.
Qed.

Lemma answers_answerable : Forall answerable answers.
Proof.
  repeat constructor; [exists [z_u8 2]|exists [z_u8 3]]; split; try done; by vm_compute.
Qed.

Lemma client_session_witness :
  let c := connect (Some {| written := []; incoming := take 9 (response_bytes answers);
                            capacity := None |}) (lit "127.0.0.1:6001") me in
  (run_requests asked_for c).1 = Ok [ShownOk (lit "written")] ∧
  ∃ j c' c'' s rest, arrived 9 j answers ∧
    run_requests asked_for c = (Ok (shown_responses (take j asked_for) answers), c') ∧
    run_requests (take j asked_for) c = (Ok (shown_responses (take j asked_for) answers), c'') ∧
    stream c'' = Some s ∧ read_handshake (written s) = Some (me, rest) ∧
    reader_task rest = Ok (request_messages me 1 (take j asked_for), Disconnected).
Proof.
  split; [by vm_compute|].
  apply client_session; [done|apply requests_deliverable|apply answers_answerable|by vm_compute..].
Defined.

Definition typed : list Typed := [TypeSet (lit "k") [lit "7"]; TypeGet (lit "k")].

Definition fresh_session : Session := {|
  client := connect (Some {| written := []; incoming := response_bytes answers;
                             capacity := None |}) (lit "127.0.0.1:6001") me;
  terminal := []; dials := 1;
|}.

Lemma typed_requests_witness :
  ∃ out c', run_requests asked_for (client fresh_session) = (Ok out, c') ∧
    out = [ShownOk (lit "written"); ShownValue (lit "k") (Int 7)] ∧
    client_loop (λ _ _, None) [lit "set k 7"; lit "get k"] fresh_session =
      (Ok (), fresh_session <| client := c' |> <| terminal := terminal fresh_session ++ out |>).
Proof.
  do 2 eexists. split; [vm_compute; reflexivity|]. split; [reflexivity|].
  apply (typed_requests (λ _ _, None) typed fresh_session).
  - repeat constructor; by vm_compute.
  - vm_compute. reflexivity.
Defined.

Lemma prompt_total_witness :
  ∃ s', client_loop (λ _ _, None) [lit "get"; lit " SET k 7 "; lit "what"] fresh_session = (Ok (), s') ∧
    ∃ out, terminal s' = terminal fresh_session ++ out.
Proof. by apply prompt_total. Defined.

End Example.
