(* ===== verification/ClientNode.v ===== *)
(** The interactive client and a node that is a cluster of its own: what the
    client shows are the answers of one key-value map. *)

From S2P Require Import Prelude Wp Bytes Float LogRecord RaftTypes LogStore.
From S2P Require Import Network Text Client RaftNode RaftSim Cluster.
From S2P Require Import Runtime Journal DatabaseRefine MapStore Progress Rounds Liveness ClientSpec.

(** ** What should be shown *)

(** The number of commands and the map after a request. *)
Definition after_request (x : nat * gmap str Value) (r : Request) : nat * gmap str Value :=
  match r with
  | AskStatus | AskGet _ => x
  | AskSet key value => (S x.1, <[key := value]> x.2)
  | AskDelete key => (S x.1, base.delete key x.2)
  end.

(** Node [i], which has applied [x.1] commands that make up the map [x.2], is
    asked [r], and [s] is shown. *)
Definition shows (i : NodeId) (x : nat * gmap str Value) (r : Request) (s : Shown) : Prop :=
  match r with
  | AskStatus => ∃ resp, s = ShownStatus resp ∧ cl_success resp = true ∧
      cl_role resp = lit "Leader" ∧ cl_node_id resp = i
  | AskGet key =>
      s = match x.2 !! key with Some val => ShownValue key val | None => ShownNotFound key end
  | AskSet _ _ | AskDelete _ =>
      s = ShownOk (lit "Write committed and applied at log index " ++ index_str (S x.1))
  end.

Fixpoint session_shows (i : NodeId) (x : nat * gmap str Value) (rs : list Request)
    (out : list Shown) : Prop :=
  match rs, out with
  | [], [] => True
  | r :: rs', s :: out' => shows i x r s ∧ session_shows i (after_request x r) rs' out'
  | _, _ => False
  end.

(** The commands among the requests. *)
Definition request_command (r : Request) : option Command :=
  match r with
  | AskStatus | AskGet _ => None
  | AskSet key value => Some (Set_ key value)
  | AskDelete key => Some (Delete key)
  end.

Section node.
Context {D : Type} `{!KvStore D} `{!F64Text} `{!Bincode} `{!RandomMillis} `{!MapStore D}.

Abbreviation Node := (RaftNode D).

(** The node handles messages, one turn each; what it sends. *)
Fixpoint serve (ms : list Message) (now : Instant) : M Node (list (NodeId * Message)) :=
  match ms with
  | [] => mret []
  | m :: ms' => a ← turn (InMessage m) now; b ← serve ms' now; mret (a ++ b)
  end.

Lemma append_command_index c (n n' : Node) a :
  append_command c n = (Ok a, n') → a = length (log n).
Proof using Type.
  unfold append_command. rewrite bind_eq. cbn [get]. case_decide; [done|].
  intros (? & n1 & _ & E)%bind_inv. rewrite bind_eq in E. cbn [get] in E.
  apply bind_inv in E as (? & n2 & _ & E). by injection E.
Qed.

Context (i : NodeId) (db0 : D) (cs : list Command).
Hypothesis (Hdb : holds (length cs) db0 ∅).
Hypothesis (Hcs : Forall fits cs).

(** The log after the first [a] commands. *)
Definition log_of (a : nat) : list LogEntry := sentinel :: command_entries 1 (take a cs).

(** The node leads itself, and has committed and applied the first [a] commands. *)
Definition ready (a : nat) (n : Node) : Prop :=
  stands [i] (λ _, db0) i Leader 1 (log_of a) a [] n.

Lemma length_log_of a : a ≤ length cs → length (log_of a) = S a.
Proof using Type.
  intros Ha. unfold log_of, command_entries. cbn. rewrite length_fmap, length_take. lia.
Qed.

Lemma log_of_S a c : cs !! a = Some c → log_of (S a) = log_of a ++ [command_entry_in 1 c].
Proof using Type.
  intros Hc. unfold log_of, command_entries. by rewrite (take_S_r _ _ _ Hc), fmap_app.
Qed.

Lemma alone : others [i] i = [].
Proof using Type. unfold others. by rewrite filter_cons_False by auto. Qed.

Lemma log_of_runnable a : runnable (λ _, db0) (log_of a).
Proof using Hdb Hcs.
  pose proof (log_commands db0 1 cs Hdb Hcs) as Hl. unfold log_of.
  rewrite <-(take_drop a cs) in Hl. unfold command_entries in *. rewrite fmap_app in Hl.
  change (sentinel :: ?x ++ ?y) with ((sentinel :: x) ++ y) in Hl. by eapply runnable_app.
Qed.

(** The map after [a] commands is in the database. *)
Lemma ready_get a n key :
  a ≤ length cs → ready a n →
  kv_get key (db n) = (Ok (foldl apply_command ∅ (take a cs) !! key), db n).
Proof using Hdb Hcs.
  intros Ha Hn. rewrite (st_db Hn). unfold log_of. rewrite take_commands, take_take, Nat.min_id.
  eapply get_holds. by apply (take_holds db0 1 cs a).
Qed.

Lemma append_alone a c n :
  ready a n → cs !! a = Some c →
  ∃ n', append_command c n = (Ok (S a), n') ∧ ready (S a) n'.
Proof using Hdb Hcs.
  intros Hn Hc. pose proof (lookup_lt_Some _ _ _ Hc) as Ha.
  pose proof (length_log_of a) as Hlen. destruct (log_last 1 (take a cs)) as [e He].
  pose proof (append_command_stands [i] (λ _, db0) i 1 (log_of a) e c n) as Hw.
  cbn zeta in Hw. rewrite <-log_of_S in Hw by done. rewrite !length_log_of in Hw by lia.
  replace (S a - 1) with a in Hw by lia.
  assert (Hk : known [i] i (S a) n).
  { intros p Hp. rewrite alone in Hp. by apply elem_of_nil in Hp. }
  destruct (wp_ok _ _ _ (Hw Hn Hk He (log_of_runnable (S a)))) as (k & n' & E & [[_ Hn']|[[] _]] & _);
    [|by apply alone].
  pose proof (append_command_index _ _ _ _ E) as ->. rewrite (st_log Hn), Hlen in E by lia.
  exists n'. split; [done|]. by replace (S (S a) - 1) with (S a) in Hn' by lia.
Qed.

(** An answer to the client is all that is sent. *)
Definition answering (id : NodeId) (a : nat) (m : M Node ()) (resp : ClientResponse) (n : Node) :
    Prop :=
  ∃ n', m n = (Ok (), n' <| outbox := [(id, MClientResponse resp)] |>) ∧ ready a n'.

Lemma answering_turn id a m resp now n msg :
  handle_message msg now = m → answering id a m resp n →
  ∃ n', turn (InMessage msg) now n = (Ok [(id, MClientResponse resp)], n') ∧ ready a n'.
Proof using Type.
  intros Hm (n' & E & Hn'). exists (n' <| outbox := [] |>). unfold turn. rewrite Hm.
  erewrite bind_Ok by exact E. split; [reflexivity|]. by eapply stands_clear.
Qed.

Lemma outbox_eq (n : Node) out a :
  ready a n → n <| outbox := outbox n ++ out |> = n <| outbox := out |>.
Proof using Type. intros Hn. by rewrite (st_outbox Hn). Qed.

Lemma write_answered id k a c n :
  ready a n → cs !! a = Some c →
  ∃ resp, answering id (S a) (submit_store_write c (RaftClient id k)) resp n ∧
    shown_write (Some resp) =
      [ShownOk (lit "Write committed and applied at log index " ++ index_str (S a))].
Proof using Hdb Hcs.
  intros Hn Hc. destruct (append_alone a c n Hn Hc) as (n1 & E & Hn1).
  pose proof (lookup_lt_Some _ _ _ Hc) as Ha.
  assert (is_Some (log n1 !! S a)) as [e He].
  { apply lookup_lt_is_Some. rewrite (st_log Hn1), length_log_of by lia. lia. }
  unfold submit_store_write. eexists. split.
  - exists n1. split; [|exact Hn1]. rewrite bind_eq. cbn [get].
    rewrite decide_False by (rewrite (st_role Hn); auto). erewrite bind_Ok by exact E.
    erewrite bind_Ok by exact (entry_at_eq _ e _ He). rewrite bind_eq. cbn [get].
    rewrite decide_True by (rewrite (st_applied Hn1); lia).
    unfold send. cbn [response]. unfold push, modify. by erewrite outbox_eq.
  - reflexivity.
Qed.

(** The write that a request is for. *)
Lemma write_request r c id k now x :
  request_command r = Some c →
  handle_message (request_message id k r) now = submit_store_write c (RaftClient id k) ∧
  (∀ resp, shown_response r resp = shown_write (Some resp)) ∧
  after_request x r = (S x.1, apply_command x.2 c) ∧
  shows i x r (ShownOk (lit "Write committed and applied at log index " ++ index_str (S x.1))).
Proof using Type. by destruct r; intros [= <-]. Qed.

(** A request that only reads. *)
Lemma read_answered id k r a now n :
  ready a n → a ≤ length cs → request_command r = None →
  ∃ resp, answering id a (handle_message (request_message id k r) now) resp n ∧
    ∃ s, shown_response r resp = [s] ∧ shows i (a, foldl apply_command ∅ (take a cs)) r s.
Proof using Hdb Hcs.
  intros Hn Ha Hr. destruct r as [|key| |]; try done.
  - eexists. split.
    + exists n. split; [|done]. cbn [handle_message request_message].
      unfold handle_store_request. cbn [operation responder]. rewrite bind_eq. cbn [get].
      unfold send. cbn [response]. unfold push, modify. by erewrite outbox_eq.
    + eexists. split; [reflexivity|]. eexists. split; [reflexivity|]. cbn.
      by rewrite (st_role Hn), (st_id Hn).
  - eexists. split.
    + exists n. split; [|done]. cbn [handle_message request_message].
      unfold handle_store_request. cbn [operation responder].
      rewrite bind_eq, attempt_zoom. unfold zoom, attempt. cbn [cq_key].
      rewrite (ready_get a n key Ha Hn).
      rewrite bind_eq. cbn [get]. unfold send. cbn [response]. unfold push, modify.
      replace (n <| db := db n |>) with n by (by destruct n). by erewrite outbox_eq.
    + by eexists.
Qed.

(** Where the node and the client are: the first [x.1] commands have been
    applied, and give the map [x.2]. *)
Definition at_point (x : nat * gmap str Value) (n : Node) : Prop :=
  ready x.1 n ∧ x.1 ≤ length cs ∧ x.2 = foldl apply_command ∅ (take x.1 cs).

Lemma request_answered id k r x now n :
  at_point x n → (∀ c, request_command r = Some c → cs !! x.1 = Some c) →
  ∃ resp n', turn (InMessage (request_message id k r)) now n = (Ok [(id, MClientResponse resp)], n') ∧
    at_point (after_request x r) n' ∧ ∃ s, shown_response r resp = [s] ∧ shows i x r s.
Proof using Hdb Hcs.
  intros (Hn & Ha & Hm) Hr. destruct (request_command r) as [c|] eqn:Ec.
  - specialize (Hr c eq_refl). pose proof (lookup_lt_Some _ _ _ Hr) as Hlt.
    destruct (write_request r c id k now x Ec) as (E & Es & Ex & Hs).
    destruct (write_answered id k _ c n Hn Hr) as (resp & Hw & Er).
    destruct (answering_turn _ _ _ _ now n _ E Hw) as (n' & Et & Hn'). exists resp, n'.
    split; [exact Et|]. rewrite Ex, Es, Er.
    split; [|eexists; split; [reflexivity|exact Hs]].
    split; [exact Hn'|]. split; [cbn; lia|]. cbn. by rewrite (take_S_r _ _ _ Hr), foldl_snoc, Hm.
  - destruct x as [a m]. cbn [fst snd] in *. subst m.
    destruct (read_answered id k r a now n Hn Ha Ec) as (resp & Hw & Hs).
    destruct (answering_turn _ _ _ _ now n _ eq_refl Hw) as (n' & Et & Hn'). exists resp, n'.
    split; [exact Et|]. split; [|exact Hs]. destruct r; try discriminate; (split; [exact Hn'|by split]).
Qed.

(** All the requests of a session. *)
Lemma serve_answers id k rs x now n :
  at_point x n → drop x.1 cs = omap request_command rs →
  ∃ resps n', serve (request_messages id k rs) now n =
      (Ok ((λ resp, (id, MClientResponse resp)) <$> resps), n') ∧
    length resps = length rs ∧
    ∃ out, shown_responses rs resps = out ∧ session_shows i x rs out.
Proof using Hdb Hcs.
  revert k x n. induction rs as [|r rs IH]; intros k x n Hx Hd.
  { exists [], n. split_and!; [done..|]. by exists []. }
  destruct (request_answered id k r x now n Hx) as (resp & n1 & E & Hx1 & s & Er & Hs).
  { intros c Hc. cbn in Hd. rewrite Hc in Hd.
    rewrite <-(Nat.add_0_r x.1), <-lookup_drop, Hd. done. }
  destruct (IH (k + 1)%Z (after_request x r) n1 Hx1) as (resps & n' & E' & Hl & out & Eo & Ho).
  { destruct r; cbn in *; try exact Hd;
      by rewrite <-(Nat.add_1_r x.1), <-drop_drop, Hd. }
  exists (resp :: resps), n'. cbn [request_messages serve]. erewrite bind_Ok by exact E.
  erewrite bind_Ok by exact E'. split_and!; [done|cbn; by rewrite Hl|].
  exists (s :: out). split; [|done].
  unfold shown_responses in *. cbn [zip_with mjoin list_join]. by rewrite Er, <-Eo.
Qed.

End node.

(** A node with an id of its own and no peers, just started. *)
Section alone.
Context {D : Type} `{!KvStore D} `{!F64Text} `{!Bincode} `{!RandomMillis} `{!MapStore D}.
Context `{!MessageBincode}.

(** Its first tick after the election timeout makes it the leader. *)
Lemma tick_alone i (db0 : D) started now n :
  new_in_dir [] [] (Ok db0) i [] started = Ok n → (election_deadline n ≤ now)%Z →
  ∃ n', turn InTick now n = (Ok [], n') ∧ ready i db0 [] 0 n'.
Proof using Type.
  intros Hn Hnow. destruct i as [z].
  assert (stands [MkNodeId z] (λ _, db0) (MkNodeId z) Follower 0 [sentinel] 0 [] n) as Hst.
  { apply (fresh_stands db0 [z] (NoDup_singleton z) (MkNodeId z) started n n); [|done..].
    change (MkNodeId <$> [z]) with [MkNodeId z]. by rewrite alone. }
  pose proof (start_election_stands [MkNodeId z] (λ _, db0) _ _ _ _ _ n sentinel now Hst
    ltac:(done) eq_refl) as Hw.
  destruct (wp_ok _ _ _ Hw) as ([] & n1 & E & [[_ Hn1]|[[] _]]); [|by apply alone].
  exists (n1 <| outbox := [] |>). unfold turn, tick. rewrite bind_eq, bind_eq. cbn [get].
  rewrite (st_role Hst), bool_decide_true by done. cbn [when]. rewrite E.
  unfold flush_outbox. rewrite bind_eq. cbn. rewrite (st_outbox Hn1). split; [done|].
  by eapply stands_clear.
Qed.

(** C14: A node without peers is a key-value store for its clients: it makes
    itself the leader, and whatever requests a client types, the client shows
    the answers of one map, to which the commands are applied in order, with
    one log index for each; and the node reads exactly the requests it is
    taken to serve. *)
Theorem client_on_node i (db0 : D) started now n id address rs :
  new_in_dir [] [] (Ok db0) i [] started = Ok n → (election_deadline n ≤ now)%Z →
  holds (length (omap request_command rs)) db0 ∅ → Forall fits (omap request_command rs) →
  Forall deliverable (request_messages id 1 rs) → in_u64 (node_id id) →
  (1 + Z.of_nat (length rs) ≤ u64_max)%Z →
  ∃ resps n', (turn InTick now;; serve (request_messages id 1 rs) now) n =
      (Ok ((λ resp, (id, MClientResponse resp)) <$> resps), n') ∧
    (Forall answerable resps →
     ∃ out c', run_requests rs (connect (Some {| written := []; incoming := response_bytes resps;
                                                 capacity := None |}) address id) = (Ok out, c') ∧
       session_shows i (0, ∅) rs out ∧
       ∃ s' rest, stream c' = Some s' ∧ read_handshake (written s') = Some (id, rest) ∧
         reader_task rest = Ok (request_messages id 1 rs, Disconnected)).
Proof using Type.
  intros Hn Hnow Hdb Hcs Hm Hid Hc.
  destruct (tick_alone i db0 started now n Hn Hnow) as (n1 & E1 & Hn1).
  destruct (serve_answers i db0 _ Hdb Hcs id 1 rs (0, ∅) now n1) as (resps & n' & E & Hl & out & Eo & Ho).
  { split_and!; [|cbn; lia|done]. exact Hn1. }
  { done. }
  exists resps, n'. split; [by erewrite bind_Ok by exact E1|]. intros Hr.
  set (c := connect _ _ _).
  destruct (run_prefix rs resps (length (response_bytes resps)) c
    (MkStream (write_handshake id) (response_bytes resps) None))
    as (j & c' & c'' & s' & Hj & Er & _ & Heq & Hs' & _ & Hw); [done..|by rewrite take_ge|done|].
  apply arrived_all in Hj as ->; [|done]. rewrite take_ge in Er, Hw by lia.
  rewrite <-Heq in Hs' by done.
  destruct (session_heard id _ s' Hid Hm Hw) as (rest & ? & ?).
  subst out. eexists _, c'. split_and!; [exact Er|done|]. by exists s', rest.
Qed.

End alone.

(** ** Examples *)
Module Example.

#[local] Existing Instances number_bincode journal bits_text fixed_millis journal_map.

Definition me : NodeId := MkNodeId 10007.
Definition one : NodeId := MkNodeId 1.

Definition to_me (x : NodeId * Message) : option ClientResponse :=
  match x.2 with
  | MClientResponse resp => if decide (x.1 = me) then Some resp else None
  | _ => None
  end.

Fixpoint turns (events : list Incoming) (now : Instant) :
    M (RaftNode (list Command)) (list (NodeId * Message)) :=
  match events with
  | [] => mret []
  | e :: es => a ← turn e now; b ← turns es now; mret (a ++ b)
  end.

Definition run_turns (events : list Incoming) (peers : list NodeId) (d : list Command) :
    res (list ClientResponse) :=
  n ← new_in_dir [] [] (Ok d) one peers 0;
  match turns events 1000 n with
  | (Ok out, _) => Ok (omap to_me out)
  | (Err e, _) => Err e
  | (Panic p, _) => Panic p
  end.

Definition session : list Request :=
  [AskGet (lit "k"); AskSet (lit "k") (Int 7); AskGet (lit "k"); AskDelete (lit "k");
   AskGet (lit "k")].

Definition session_answers : list ClientResponse :=
  match run_turns (InTick :: (InMessage <$> request_messages me 1 session)) [] [] with
  | Ok l => l
  | _ => []
  end.

#[local] Instance conversation : MessageBincode :=
  table_bincode (request_messages me 1 session ++ (MClientResponse <$> session_answers)).

Lemma session_deliverable : Forall deliverable (request_messages me 1 session).
Proof.
  repeat constructor; match goal with |- deliverable ?m =>
    let b := eval vm_compute in (default [] (serialize_message m)) in exists b end;
    split; try done; by vm_compute.
Qed.

Lemma client_on_node_witness :
  ∃ n, new_in_dir [] [] (Ok ([] : list Command)) one [] 0 = Ok n ∧ ∃ resps n',
    (turn InTick 1000;; serve (request_messages me 1 session) 1000) n =
      (Ok ((λ resp, (me, MClientResponse resp)) <$> resps), n') ∧
    (Forall answerable resps →
     ∃ out c', run_requests session (connect (Some {| written := []; incoming := response_bytes resps;
                                                      capacity := None |}) [] me) = (Ok out, c') ∧
       session_shows one (0, ∅) session out ∧
       ∃ s' rest, stream c' = Some s' ∧ read_handshake (written s') = Some (me, rest) ∧
         reader_task rest = Ok (request_messages me 1 session, Disconnected)).
Proof.
  eexists. split; [vm_compute; reflexivity|].
  apply (client_on_node one ([] : list Command) 0 1000 _ me [] session);
    [reflexivity|by vm_compute|done|by repeat constructor|apply session_deliverable|by vm_compute..].
Defined.

(** What that client sees. *)
Lemma session_seen :
  (run_requests session (connect (Some {| written := []; incoming := response_bytes session_answers;
                                          capacity := None |}) [] me)).1 =
  Ok [ShownNotFound (lit "k");
      ShownOk (lit "Write committed and applied at log index 1"); ShownValue (lit "k") (Int 7);
      ShownOk (lit "Write committed and applied at log index 2"); ShownNotFound (lit "k")].
Proof. by vm_compute. Qed.

End Example.

(** *** An answer that comes too late *)
Module Late.

#[local] Existing Instances number_bincode journal bits_text fixed_millis.
Import Example.

Definition two : NodeId := MkNodeId 2.

(** Node 1 of three, whose database has 7 for [x], is made the leader by node 2.
    A client sets [k] and loses its connection; it connects again and asks for
    [x], but first node 2 acknowledges the entry of the write. *)
Definition lost : Request := AskSet (lit "k") (Int 8).
Definition asked_again : Request := AskGet (lit "x").

Definition events : list Incoming :=
  [InTick;
   InMessage (MRequestVoteResponse
     {| vr_term := 1; vr_voter_id := two; vr_vote_granted := true |});
   InMessage (request_message me 1 lost);
   InMessage (MAppendEntriesResponse
     {| ar_term := 1; ar_follower_id := two; ar_success := true; ar_match_index := 1 |});
   InMessage (request_message me 1 asked_again)].

Definition late_answers : list ClientResponse :=
  match run_turns events [two; MkNodeId 3] [Set_ (lit "x") (Int 7)] with
  | Ok l => l
  | _ => []
  end.

#[local] Instance late_conversation : MessageBincode :=
  table_bincode (request_message me 1 asked_again :: (MClientResponse <$> late_answers)).

(** The client does not look at which request a response is for, and numbers
    its requests from 1 again when it reconnects. So the answer to a write that
    was lost with the connection is taken for the answer to the next read: the
    node answers that [x] is 7, and the client shows that [x] is not there. *)
Theorem late_answer_is_shown :
  ∃ write read,
    run_turns events [two; MkNodeId 3] [Set_ (lit "x") (Int 7)] = Ok [write; read] ∧
    cl_request_id write = 1%Z ∧ cl_request_id read = 1%Z ∧ cl_value read = Some (Int 7) ∧
    (run_request asked_again
      (connect (Some {| written := []; incoming := response_bytes [write; read];
                        capacity := None |}) [] me)).1 = Ok [ShownNotFound (lit "x")].
Proof.
  eexists _, _. split; [vm_compute; reflexivity|]. by vm_compute.
Qed.

End Late.
