(* ===== verification/Bench.v ===== *)
(** [src/bin/bench.rs]: the workloads of the benchmark on a database and on a
    cluster, their statistics, and the tables that are printed. What is measured
    (times, and what the kernel says of the memory) are parameters. A [Duration]
    is in nanoseconds here; what is printed is a list with the text of each
    [println!]. *)

From S2P Require Import Prelude Bytes Float LogRecord Bloom SSTable Database.
From S2P Require Import RaftTypes LogStore RaftNode ReplicatedStore Simulator TestCluster Text.

(** ** Text *)

(** [{:.n}] of an [f64], and the subtraction, which nothing else uses. *)
Class F64Print : Type := {
  f64_fixed : nat → f64 → str;
  f64_sub : f64 → f64 → f64;
}.

(** The width of a text is its number of characters: the bytes that do not
    continue one. *)
Definition chars (s : str) : nat := length (filter (λ b, in_range 128 191 b = false) s).

(** [{:<n}] and [{:>n}]. *)
Definition pad_right (n : nat) (s : str) : str := s ++ replicate (n - chars s) space.
Definition pad_left (n : nat) (s : str) : str := replicate (n - chars s) space ++ s.

(** The columns of a table. *)
Definition columns (l : list str) : str :=
  match l with
  | [] => []
  | x :: l => x ++ mjoin ((λ y, lit " | " ++ y) <$> l)
  end.

Definition line_break : u8 := z_u8 10.

(** ["=".repeat(n)] and ["-".repeat(n)]. *)
Definition double_rule (n : nat) : str := replicate n (z_u8 61).
Definition rule (n : nat) : str := replicate n (z_u8 45).

(** The digits that [fmt_decimal] writes behind the point: at most nine, none
    of the zeros at the end. *)
Fixpoint fraction_digits (fuel : nat) (part divisor : Z) : str :=
  match fuel with
  | O => []
  | S fuel' =>
      if decide (part ≤ 0)%Z then [] else
      digit (part `div` divisor) :: fraction_digits fuel' (part `mod` divisor) (divisor `div` 10)
  end.

Definition fmt_decimal (whole part divisor : Z) (suffix : str) : str :=
  int_to_string whole ++
  match fraction_digits 9 part divisor with [] => [] | ds => z_u8 46 :: ds end ++ suffix.

(** [{:?}] of a [Duration]. *)
Definition debug_duration (d : Duration) : str :=
  let secs := (d `div` 10 ^ 9)%Z in
  let nanos := (d `mod` 10 ^ 9)%Z in
  if decide (0 < secs)%Z then fmt_decimal secs nanos (10 ^ 8) (lit "s")
  else if decide (10 ^ 6 ≤ nanos)%Z then
    fmt_decimal (nanos `div` 10 ^ 6) (nanos `mod` 10 ^ 6) (10 ^ 5) (lit "ms")
  else if decide (10 ^ 3 ≤ nanos)%Z then
    fmt_decimal (nanos `div` 10 ^ 3) (nanos `mod` 10 ^ 3) (10 ^ 2) [z_u8 194; z_u8 181; z_u8 115]
  else fmt_decimal nanos 0 1 (lit "ns").

(** ** System metrics *)

(** [get_memory_rss_bytes], given what reading [/proc/self/statm] gives. *)
Definition get_memory_rss_bytes (statm : option bytes) : res Z :=
  match statm with
  | Some s =>
      if utf8_valid s then
        match split_whitespace s with
        | _ :: second :: _ =>
            match parse_u64 second with
            | Some rss_pages =>
                if decide (rss_pages * 4096 ≤ u64_max)%Z then Ok (rss_pages * 4096)%Z
                else Panic "attempt to multiply with overflow"
            | None => Ok 0%Z
            end
        | _ => Ok 0%Z
        end
      else Ok 0%Z
  | None => Ok 0%Z
  end.

Section bytes_text.
Context `{!F64Math} `{!F64Print}.

Definition format_bytes (bytes : Z) : str :=
  if decide (1024 * 1024 ≤ bytes)%Z then
    f64_fixed 2 (f64_div (f64_of_usize bytes)
      (f64_mul (f64_of_decimal 1024 0) (f64_of_decimal 1024 0))) ++ lit " MB"
  else if decide (1024 ≤ bytes)%Z then
    f64_fixed 2 (f64_div (f64_of_usize bytes) (f64_of_decimal 1024 0)) ++ lit " KB"
  else int_to_string bytes ++ lit " bytes".

End bytes_text.

(** ** Statistics *)

Record LatencyStats : Type := MkLatencyStats {
  throughput : f64;
  p50 : Duration;
  p95 : Duration;
  p99 : Duration;
  lat_min : Duration;
  lat_max : Duration;
}.

Section stats.
Context `{!F64Math}.
(** [Duration::as_secs_f64]. *)
Context (as_secs_f64 : Duration → f64).

(** [latencies[((n as f64 * p) as usize).min(n - 1)]], for [p] percent. *)
Definition percentile (latencies : list Duration) (p : Z) : res Duration :=
  let n := length latencies in
  let k := f64_as_usize (f64_mul (f64_of_usize (Z.of_nat n)) (f64_of_decimal p (-2))) in
  expect "index out of bounds" (latencies !! (Z.to_nat k `min` (n - 1))).

Definition calculate_latency_stats (latencies : list Duration) (total_time : Duration) :
    res LatencyStats :=
  let latencies := merge_sort Z.le latencies in
  let n := length latencies in
  if decide (n = 0) then Panic "Cannot calculate statistics for zero operations" else
  let throughput := f64_div (f64_of_usize (Z.of_nat n)) (as_secs_f64 total_time) in
  p50 ← percentile latencies 50;
  p95 ← percentile latencies 95;
  p99 ← percentile latencies 99;
  lo ← expect "index out of bounds" (latencies !! 0);
  hi ← expect "index out of bounds" (latencies !! (n - 1));
  mret {| throughput := throughput; p50 := p50; p95 := p95; p99 := p99;
          lat_min := lo; lat_max := hi |}.

End stats.

(** ** Experiments *)

Record Experiment : Type := MkExperiment { name : str; config : Config }.

Definition experiments : list Experiment :=
  (λ '(name, (a, b, c)), MkExperiment (lit name) (config_new a b c)) <$>
  [("baseline_3_levels"%string, (3, 100, 100)); ("levels_4"%string, (4, 100, 100));
   ("levels_5"%string, (5, 100, 100)); ("data_threshold_50"%string, (4, 50, 100));
   ("data_threshold_200"%string, (4, 200, 100)); ("sstable_threshold_50"%string, (4, 100, 50));
   ("sstable_threshold_200"%string, (4, 100, 200))].

Record ExperimentResult : Type := MkExperimentResult {
  er_name : str;
  er_config : Config;
  er_insert : LatencyStats;
  er_read_hit : LatencyStats;
  er_read_miss : LatencyStats;
  er_update : LatencyStats;
  er_delete : LatencyStats;
  er_memory_bytes : Z;
  er_disk_bytes : Z;
  er_compaction_count : Z;
  er_compaction_time : Duration;
}.

(** [format!("{prefix}{:06}", i)] and [format!("{prefix}{}", i)]. *)
Definition bench_key (prefix : string) (i : nat) : str :=
  lit prefix ++ zero_pad 6 (int_to_string (Z.of_nat i)).
Definition bench_value (prefix : string) (i : nat) : Value :=
  String (lit prefix ++ int_to_string (Z.of_nat i)).

Definition num_ops : nat := Z.to_nat 10000.

(** What is printed, and the database of an experiment. *)
Record Run : Type := MkRun { printed : list str; run_db : Database }.
#[export] Instance eta_Run : Eta Run := λ r, MkRun (printed r) (run_db r).
#[export] Instance upd_printed : Upd printed. Proof. derive_upd. Defined.
#[export] Instance upd_run_db : Upd run_db. Proof. derive_upd. Defined.

(** [println!], for every text of a list. *)
Definition print_lines (lines : list str) : M (list str) () := modify (λ out, out ++ lines).

(** What is measured in one experiment: the time of each operation and of each
    workload, by its number, the memory, and the microseconds that the
    compactions have taken. *)
Record Measured : Type := MkMeasured {
  op_time : nat → nat → Duration;
  total_time : nat → Duration;
  statm : option bytes;
  compaction_micros : Z;
}.

(** [Database::compaction_stats], the time from what was measured. *)
Definition compaction_stats (m : Measured) (d : Database) : Z * Duration :=
  (total_compactions d, 1000 * compaction_micros m)%Z.

(** The workloads, by number: inserts, read hits, read misses, updates, deletes. *)
Section standalone.
Context `{!F64Text} `{!F64Math} `{!Xxh3}.
Context (as_secs_f64 : Duration → f64) (measured : Measured).

(** The loop of workload [w] over the numbers [todo]. *)
Fixpoint timed_loop (w : nat) (op : nat → M Database ()) (todo : list nat) :
    M Database (list Duration) :=
  match todo with
  | [] => mret []
  | i :: todo' =>
      (λ d, let '(r, d') := op i d in (unwrap r, d'));;
      lats ← timed_loop w op todo';
      mret (op_time measured w i :: lats)
  end.

(** A workload with its title and its statistics. *)
Definition workload (title : string) (w n : nat) (op : nat → M Database ()) : M Run LatencyStats :=
  zoom printed (print_lines [lit title]);;
  lats ← zoom run_db (timed_loop w op (seq 0 n));
  lift (calculate_latency_stats as_secs_f64 lats (total_time measured w)).

Definition run_workloads (experiment : Experiment) : M Run ExperimentResult :=
  set_stats ← workload "  Running inserts..." 0 num_ops
    (λ i, insert (bench_key "key_" i) (bench_value "val_" i));
  get_hit_stats ← workload "  Running read hits..." 1 num_ops
    (λ i, Database.get (bench_key "key_" i);; mret ());
  get_miss_stats ← workload "  Running read misses..." 2 num_ops
    (λ i, Database.get (bench_key "missing_" i);; mret ());
  update_stats ← workload "  Running updates..." 3 num_ops
    (λ i, insert (bench_key "key_" i) (bench_value "new_val_" i));
  delete_stats ← workload "  Running deletes..." 4 (num_ops / 2)
    (λ i, delete (bench_key "key_" i));
  memory_bytes ← lift (get_memory_rss_bytes (statm measured));
  db ← gets run_db;
  let '(compaction_count, compaction_time) := compaction_stats measured db in
  mret {| er_name := name experiment; er_config := config experiment;
          er_insert := set_stats; er_read_hit := get_hit_stats; er_read_miss := get_miss_stats;
          er_update := update_stats; er_delete := delete_stats;
          er_memory_bytes := memory_bytes; er_disk_bytes := disk_usage_bytes db;
          er_compaction_count := compaction_count; er_compaction_time := compaction_time |}.

(** [run_standalone], in a new directory; with the database it leaves. *)
Definition run_standalone (experiment : Experiment) :
    M (list str) (ExperimentResult * Database) := λ out,
  match unwrap (run_on (open_in_dir (config experiment)) ∅) with
  | Ok (db, _) =>
      let '(r, s) := run_workloads experiment {| printed := out; run_db := db |} in
      ((λ x, (x, run_db s)) <$> r, printed s)
  | Err e => (Err e, out)
  | Panic p => (Panic p, out)
  end.

End standalone.

(** [benchmark_cluster], on a new test cluster: the steps of
    [TestCluster.execute_workload], timed. *)
Section cluster.
Context {D : Type} `{!KvStore D} `{!F64Text} `{!F64Math} `{!Bincode} `{!RandomMillis} `{!DebugPayload}.
Context (as_secs_f64 : Duration → f64) (op_time : nat → Duration) (total_time : Duration).

Definition benchmark_cluster (num_ops : nat) : M (TestCluster D) LatencyStats :=
  for_each (seq 0 num_ops) workload_step;;
  for_each (seq 0 2) (λ _, heartbeat_step);;
  apply_committed;;
  lift (calculate_latency_stats as_secs_f64 (op_time <$> seq 0 num_ops) total_time).

End cluster.

(** ** The tables *)

Section tables.
Context `{!F64Math} `{!F64Print}.

(** [{:?}] of a [Config], which derives it. *)
Definition debug_config (c : Config) : str :=
  lit "Config { sstable_level: " ++ int_to_string (Z.of_nat (cfg_sstable_level c)) ++
  lit ", data_threshold: " ++ int_to_string (Z.of_nat (cfg_data_threshold c)) ++
  lit ", sstable_threshold: " ++ int_to_string (Z.of_nat (cfg_sstable_threshold c)) ++ lit " }".

Definition print_workload (title : string) (s : LatencyStats) : str :=
  columns [pad_right 25 (lit title); pad_left 12 (f64_fixed 0 (throughput s));
           pad_left 10 (debug_duration (p50 s)); pad_left 10 (debug_duration (p95 s));
           pad_left 10 (debug_duration (p99 s)); pad_left 10 (debug_duration (lat_max s))].

Definition print_experiment_result (r : ExperimentResult) : list str :=
  [line_break :: double_rule 100;
   lit "EXPERIMENT: " ++ er_name r;
   lit "CONFIG: " ++ debug_config (er_config r);
   rule 100;
   columns [pad_right 25 (lit "Workload"); pad_left 12 (lit "Ops/s"); pad_left 10 (lit "p50");
            pad_left 10 (lit "p95"); pad_left 10 (lit "p99"); pad_left 10 (lit "Max")];
   rule 100;
   print_workload "Insert (10k)" (er_insert r);
   print_workload "Read hit (10k)" (er_read_hit r);
   print_workload "Read miss (10k)" (er_read_miss r);
   print_workload "Update (10k)" (er_update r);
   print_workload "Delete (5k)" (er_delete r);
   line_break :: lit "System and storage metrics:";
   lit "Process RSS:          " ++ format_bytes (er_memory_bytes r);
   lit "On-disk storage:      " ++ format_bytes (er_disk_bytes r);
   lit "Compaction passes:    " ++ int_to_string (er_compaction_count r);
   lit "Compaction time:      " ++ debug_duration (er_compaction_time r)].

(** One row of the first table. *)
Definition comparison_row (r : ExperimentResult) : str :=
  let rate s := pad_left 10 (f64_fixed 0 (throughput s)) in
  columns [pad_right 25 (er_name r); rate (er_insert r); rate (er_read_hit r);
           rate (er_read_miss r); rate (er_update r); rate (er_delete r);
           pad_left 10 (f64_fixed 2 (f64_div (f64_of_usize (er_disk_bytes r)) (f64_of_decimal 1024 0)));
           pad_left 10 (int_to_string (er_compaction_count r))].

(** The closure [change]: the difference in percent, nothing for a base of
    zero. *)
Definition change (current base : f64) : f64 :=
  if f64_eqb base (f64_of_decimal 0 0) then f64_of_decimal 0 0
  else f64_mul (f64_sub (f64_div current base) (f64_of_decimal 1 0)) (f64_of_decimal 100 0).

(** One row of the second table. *)
Definition change_row (baseline r : ExperimentResult) : str :=
  let percent (f : ExperimentResult → LatencyStats) :=
    pad_left 9 (f64_fixed 2 (change (throughput (f r)) (throughput (f baseline)))) ++ [z_u8 37] in
  columns [pad_right 25 (er_name r); percent er_insert; percent er_read_hit;
           percent er_read_miss; percent er_update; percent er_delete].

Definition print_comparison (results : list ExperimentResult) : list str :=
  [line_break :: line_break :: double_rule 125;
   lit "                    CONFIGURATION COMPARISON";
   double_rule 125;
   columns [pad_right 25 (lit "Experiment"); pad_left 10 (lit "Insert/s"); pad_left 10 (lit "Hit/s");
            pad_left 10 (lit "Miss/s"); pad_left 10 (lit "Update/s"); pad_left 10 (lit "Delete/s");
            pad_left 10 (lit "Disk KB"); pad_left 10 (lit "Compacts")];
   rule 125] ++
  (comparison_row <$> results) ++
  [double_rule 125] ++
  match head results with
  | Some baseline =>
      [line_break :: lit "Throughput change relative to baseline: " ++ er_name baseline;
       columns [pad_right 25 (lit "Experiment"); pad_left 10 (lit "Insert %");
                pad_left 10 (lit "Hit %"); pad_left 10 (lit "Miss %");
                pad_left 10 (lit "Update %"); pad_left 10 (lit "Delete %")];
       rule 90] ++
      (change_row baseline <$> results)
  | None => []
  end.

End tables.

(** ** [main] *)

Section main.
Context `{!F64Text} `{!F64Math} `{!F64Print} `{!Xxh3} `{!Bincode} `{!RandomMillis} `{!DebugPayload}.
Context (as_secs_f64 : Duration → f64).
(** What is measured in each experiment and for each size of a cluster, and when
    the clusters are made. *)
Context (measured : nat → Measured) (cluster_op_time : nat → nat → Duration).
Context (cluster_time : nat → Duration) (created : NodeId → Instant) (started : Instant).

(** What is printed before an experiment and before a cluster, and the row of a
    cluster. *)
Definition experiment_head (x : nat * Experiment) : list str :=
  [line_break :: z_u8 91 :: int_to_string (Z.of_nat (x.1 + 1)) ++ z_u8 47 ::
     int_to_string (Z.of_nat (length experiments)) ++ lit "] Running experiment: " ++ name x.2;
   lit "Configuration: " ++ debug_config (config x.2)].

Definition cluster_head (size : nat) : str :=
  line_break :: lit "Running " ++ int_to_string (Z.of_nat size) ++ lit "-node Raft cluster...".

Definition cluster_row (size : nat) (stats : LatencyStats) : str :=
  columns
    [pad_left 2 (int_to_string (Z.of_nat size)) ++ lit "-node cluster";
     lit "Throughput: " ++ pad_left 10 (f64_fixed 2 (throughput stats)) ++ lit " ops/s";
     lit "p50: " ++ pad_left 10 (debug_duration (p50 stats));
     lit "p95: " ++ pad_left 10 (debug_duration (p95 stats));
     lit "p99: " ++ pad_left 10 (debug_duration (p99 stats));
     lit "max: " ++ pad_left 10 (debug_duration (lat_max stats))].

Definition banner : list str :=
  [line_break :: double_rule 100;
   lit "             KV-STORE CONFIGURATION EXPERIMENT RUNNER"; double_rule 100].

Definition cluster_banner : list str :=
  [line_break :: line_break :: double_rule 100;
   lit "             RAFT CLUSTER BENCHMARKS (DEFAULT CONFIGURATION)"; double_rule 100].

(** An experiment of [main]. *)
Definition run_experiment (x : nat * Experiment) : M (list str) ExperimentResult :=
  print_lines (experiment_head x);;
  '(result, _) ← run_standalone as_secs_f64 (measured x.1) x.2;
  print_lines (print_experiment_result result);;
  mret result.

Fixpoint run_experiments (l : list (nat * Experiment)) : M (list str) (list ExperimentResult) :=
  match l with
  | [] => mret []
  | x :: l' =>
      result ← run_experiment x;
      results ← run_experiments l';
      mret (result :: results)
  end.

(** [Database::open_in_dir(..).expect(..)], in a new directory. *)
Definition fresh_database (c : Config) : res Database :=
  unwrap (database_new c).

(** [TestCluster::new]. *)
Definition test_cluster_new (size : nat) : res (TestCluster Database) :=
  new_with_config (λ _, fresh_database default_config) (λ _, fresh_database (config_new 3 200 4))
    created started size.

Definition cluster_ops : nat := Z.to_nat 2000.

Definition run_cluster (size : nat) : M (list str) () :=
  print_lines [cluster_head size];;
  cluster ← lift (test_cluster_new size);
  stats ← lift (fst (benchmark_cluster as_secs_f64 (cluster_op_time size) (cluster_time size)
                       cluster_ops cluster));
  print_lines [cluster_row size stats].

Definition main : M (list str) () :=
  print_lines banner;;
  results ← run_experiments (imap pair experiments);
  print_lines (print_comparison results);;
  print_lines cluster_banner;;
  for_each [1; 3; 5] run_cluster;;
  print_lines [line_break :: lit "Benchmark suite completed."].

End main.
