(* ===== verification/BenchSpec.v ===== *)
(** The benchmark of [Bench.v] does its work on every configuration and on the
    clusters, its statistics are numbers it has measured, and it prints them to
    its end. *)

From S2P Require Import Prelude Bytes Float LogRecord Bloom SSTable SSTableSpec Database.
From S2P Require Import DatabaseRefine RaftTypes LogStore RaftNode ReplicatedStore MapStore.
From S2P Require Import Simulator Journal TestCluster TestClusterSpec Text Bench.

(** ** Statistics *)

(** [(n as f64 * p) as usize] for the numbers of operations and the percentages
    of the benchmark: the products are whole numbers, and [f64] rounds to them. *)
Class PercentLaws (T : F64Math) : Prop :=
  percent_exact n p : n ∈ [2000; 5000; 10000]%Z → p ∈ [50; 95; 99]%Z →
    f64_as_usize (f64_mul (f64_of_usize n) (f64_of_decimal p (-2))) = (n * p / 100)%Z.

Section stats.
Context `{HM : F64Math} `{!PercentLaws HM} (as_secs_f64 : Duration → f64).

(** The statistics of the times [l], which took [total] together: the number of
    operations in a second, and of the times in their order the one at 50, 95
    and 99 percent, the first and the last. *)
Definition stats_of (l : list Duration) (total : Duration) (s : LatencyStats) : Prop :=
  let n := length l in
  throughput s = f64_div (f64_of_usize (Z.of_nat n)) (as_secs_f64 total) ∧
  ∃ sorted, sorted ≡ₚ l ∧ StronglySorted Z.le sorted ∧
    sorted !! (n * 50 / 100) = Some (p50 s) ∧ sorted !! (n * 95 / 100) = Some (p95 s) ∧
    sorted !! (n * 99 / 100) = Some (p99 s) ∧
    head sorted = Some (lat_min s) ∧ last sorted = Some (lat_max s).

Lemma percentile_eq (l : list Duration) p :
  Z.of_nat (length l) ∈ [2000; 5000; 10000]%Z → p ∈ [50; 95; 99]%Z →
  ∃ x, percentile l p = Ok x ∧ l !! (length l * Z.to_nat p / 100) = Some x.
Proof using PercentLaws0.
  intros Hn Hp. unfold percentile. rewrite percent_exact by done.
  assert (0 < p < 100)%Z as Hp' by (rewrite !elem_of_cons, elem_of_nil in Hp; lia).
  assert (0 < length l) as Hl by (rewrite !elem_of_cons, elem_of_nil in Hn; lia).
  assert (Z.of_nat (length l) * p / 100 = Z.of_nat (length l * Z.to_nat p / 100))%Z as ->.
  { rewrite Nat2Z.inj_div, Nat2Z.inj_mul, Z2Nat.id by lia. done. }
  assert (length l * Z.to_nat p / 100 < length l) as Hlt.
  { apply Nat.Div0.div_lt_upper_bound. nia. }
  rewrite Nat2Z.id, Nat.min_l by lia. destruct (lookup_lt_is_Some_2 l _ Hlt) as [x Hx].
  exists x. by rewrite Hx.
Qed.

Lemma calculate_ok latencies total_time :
  Z.of_nat (length latencies) ∈ [2000; 5000; 10000]%Z →
  ∃ s, calculate_latency_stats as_secs_f64 latencies total_time = Ok s ∧
    stats_of latencies total_time s.
Proof using PercentLaws0.
  intros Hn. unfold calculate_latency_stats. set (l := merge_sort Z.le latencies).
  assert (Hp : l ≡ₚ latencies) by apply merge_sort_Permutation.
  assert (Hs : StronglySorted Z.le l) by (apply StronglySorted_merge_sort; apply _).
  clearbody l. unfold stats_of. rewrite <-(Permutation_length Hp) in Hn |- *.
  assert (0 < length l) as Hl by (rewrite !elem_of_cons, elem_of_nil in Hn; lia).
  rewrite decide_False by lia.
  destruct (percentile_eq l 50 Hn) as (x1 & -> & H1); [set_solver|].
  destruct (percentile_eq l 95 Hn) as (x2 & -> & H2); [set_solver|].
  destruct (percentile_eq l 99 Hn) as (x3 & -> & H3); [set_solver|].
  destruct (lookup_lt_is_Some_2 l 0) as [lo Hlo]; [done|].
  destruct (lookup_lt_is_Some_2 l (length l - 1)) as [hi Hhi]; [lia|].
  cbn. rewrite Hlo, Hhi. eexists. split; [reflexivity|]. split; [done|]. exists l.
  split_and!; [done..| |]; cbn.
  - by rewrite head_lookup.
  - by rewrite last_lookup, <-Nat.sub_1_r.
Qed.

End stats.

(** ** The workloads *)

Lemma bench_key_inj prefix i j :
  (Z.of_nat i ≤ u64_max)%Z → (Z.of_nat j ≤ u64_max)%Z →
  bench_key prefix i = bench_key prefix j → i = j.
Proof.
  unfold bench_key. intros Hi Hj E%(inj (app (lit prefix))).
  pose proof (parse_zero_pad 6 i Hi) as Pi. rewrite E, parse_zero_pad in Pi by done.
  injection Pi as Pi. lia.
Qed.

(** Commands on the keys of the numbers below [n]. *)
Definition numbered (prefix : string) (c : nat → Command) : Prop :=
  ∀ i, command_key (c i) = bench_key prefix i.

Lemma lookup_numbered prefix c m n i :
  numbered prefix c → (Z.of_nat n ≤ u64_max)%Z → (Z.of_nat i ≤ u64_max)%Z →
  foldl apply_command m (c <$> seq 0 n) !! bench_key prefix i =
    if decide (i < n) then command_value (c i) else m !! bench_key prefix i.
Proof.
  intros Hc Hn Hi. induction n as [|n IH]; [done|]. rewrite seq_S, fmap_app, foldl_app. cbn.
  assert (∀ m', apply_command m' (c n) !! bench_key prefix i =
    if decide (i = n) then command_value (c n) else m' !! bench_key prefix i) as Ha.
  { intros m'. pose proof (Hc n) as Hk. destruct (decide (i = n)) as [E|E].
    - subst i. destruct (c n) as [k v|k]; cbn [command_key] in Hk; subst k.
      + apply lookup_insert_eq.
      + apply lookup_delete_eq.
    - assert (bench_key prefix n ≠ bench_key prefix i) by (intros E'%bench_key_inj; lia).
      destruct (c n) as [k v|k]; cbn [command_key] in Hk; subst k.
      + by apply lookup_insert_ne.
      + by apply lookup_delete_ne. }
  rewrite Ha, IH by lia.
  destruct (decide (i = n)), (decide (i < n)), (decide (i < S n)); subst; done || lia.
Qed.

Section workloads.
Context `{HT : F64Text} `{HM : F64Math} `{HX : Xxh3}
  `{!F64TextLaws HT} `{!F64MathLaws HM} `{!BloomDims} `{!PercentLaws HM}.
Context (as_secs_f64 : Duration → f64) (measured : Measured).

Abbreviation timed_loop := (timed_loop measured).
Abbreviation workload := (workload as_secs_f64 measured).
Abbreviation run_standalone := (run_standalone as_secs_f64 measured).
(** The times of a workload of [n] operations. *)
Abbreviation times w n := (op_time measured w <$> seq 0 n).
(** The statistics of workload [w]. *)
Abbreviation workload_stats w n := (stats_of as_secs_f64 (times w n) (total_time measured w)).
(** The numbers of operations. *)
Abbreviation counted n := (Z.of_nat n ∈ [2000; 5000; 10000]%Z).

Lemma workload_ok title w n op r d' :
  counted n → timed_loop w op (seq 0 n) (run_db r) = (Ok (times w n), d') →
  ∃ s, workload title w n op r =
    (Ok s, {| printed := printed r ++ [lit title]; run_db := d' |}) ∧ workload_stats w n s.
Proof using PercentLaws0.
  intros Hn E. destruct (calculate_ok as_secs_f64 (times w n) (total_time measured w)) as (s & Es & Hs).
  { by rewrite length_fmap, length_seq. }
  exists s. split; [|done]. unfold Bench.workload, print_lines, modify, zoom.
  rewrite !bind_eq. cbn [run_db upd upd_printed]. rewrite E. unfold lift. by rewrite Es.
Qed.

(** Operations that are commands. *)
Lemma timed_writes w op c room n from d m :
  (∀ i room d m, holds (S room) d m →
     ∃ d', op i d = (Ok (), d') ∧ holds room d' (apply_command m (c i))) →
  holds (n + room) d m →
  ∃ d', timed_loop w op (seq from n) d = (Ok (op_time measured w <$> seq from n), d') ∧
    holds room d' (foldl apply_command m (c <$> seq from n)).
Proof using Type.
  intros Hop. revert from d m. induction n as [|n IH]; intros from d m Hd; [by exists d|].
  cbn [seq Bench.timed_loop]. destruct (Hop from (n + room) d m Hd) as (d1 & E1 & Hd1).
  destruct (IH (S from) d1 _ Hd1) as (d' & E & Hd'). exists d'. split; [|done].
  rewrite bind_eq, E1. cbn [unwrap]. by erewrite bind_Ok by exact E.
Qed.

Lemma timed_reads w op l d :
  (∀ i, op i d = (Ok (), d)) → timed_loop w op l d = (Ok (op_time measured w <$> l), d).
Proof using Type.
  intros Hop. induction l as [|i l IH]; [done|]. cbn [Bench.timed_loop].
  rewrite bind_eq, Hop. cbn [unwrap]. by erewrite bind_Ok by exact IH.
Qed.

(** The commands of the three workloads that write. *)
Definition insert_command i := Set_ (bench_key "key_" i) (bench_value "val_" i).
Definition update_command i := Set_ (bench_key "key_" i) (bench_value "new_val_" i).
Definition delete_command i := Delete (bench_key "key_" i).

Lemma bench_key_ok i : key_ok (bench_key "key_" i).
Proof using Type.
  pose proof (int_to_string_ascii i) as Ha. pose proof (length_int_to_string (Z.of_nat i)) as Hl.
  unfold bench_key, zero_pad. split.
  - apply utf8_valid_ascii. rewrite !Forall_app. split_and!; [by apply lit_ascii; vm_compute| |done].
    apply Forall_replicate. by vm_compute.
  - rewrite !length_app, length_replicate. change (length (lit "key_")) with 4.
    unfold in_u32, in_u. lia.
Qed.

Lemma bench_value_ok prefix i :
  bool_decide (Forall ascii (lit prefix)) = true → length (lit prefix) ≤ 100 →
  value_ok (bench_value prefix i) ∧ value_fits (bench_value prefix i).
Proof using Type.
  intros Hp Hlen. pose proof (int_to_string_ascii i) as Ha.
  pose proof (length_int_to_string (Z.of_nat i)) as Hl. split.
  - change (utf8_valid (lit prefix ++ int_to_string (Z.of_nat i)) = true).
    apply utf8_valid_ascii. rewrite Forall_app. split; [by apply lit_ascii|done].
  - unfold value_fits, in_u32, in_u. cbn [as_bytes bench_value]. rewrite length_app. lia.
Qed.

Lemma insert_fits i : fits (insert_command i).
Proof using Type. split; [apply bench_key_ok|apply bench_value_ok; [by vm_compute|by vm_compute; lia]]. Qed.

Lemma update_fits i : fits (update_command i).
Proof using Type. split; [apply bench_key_ok|apply bench_value_ok; [by vm_compute|by vm_compute; lia]]. Qed.

Lemma delete_fits i : fits (delete_command i).
Proof using Type. split; [apply bench_key_ok|done]. Qed.

(** What the workloads leave, for [n] operations. *)
Definition bench_map (n : nat) : gmap str Value :=
  foldl apply_command
    (foldl apply_command (foldl apply_command ∅ (insert_command <$> seq 0 n))
       (update_command <$> seq 0 n))
    (delete_command <$> seq 0 (n / 2)).

Lemma lookup_bench_map n i :
  (Z.of_nat n ≤ u64_max)%Z → i < n →
  bench_map n !! bench_key "key_" i =
    if decide (i < n / 2) then None else Some (bench_value "new_val_" i).
Proof using Type.
  intros Hn Hi. pose proof (Nat.Div0.div_le_upper_bound n 2 n ltac:(lia)).
  unfold bench_map. rewrite (lookup_numbered "key_" delete_command) by (done || lia).
  rewrite (lookup_numbered "key_" update_command) by (done || lia).
  by rewrite (decide_True (P := i < n)) by done.
Qed.

(** The results of an experiment that has left the database [d]: the statistics
    of what was measured, and the size and the compactions of [d]. *)
Definition result_of (e : Experiment) (d : Database) (r : ExperimentResult) : Prop :=
  er_name r = name e ∧ er_config r = config e ∧
  workload_stats 0 num_ops (er_insert r) ∧ workload_stats 1 num_ops (er_read_hit r) ∧
  workload_stats 2 num_ops (er_read_miss r) ∧ workload_stats 3 num_ops (er_update r) ∧
  workload_stats 4 (num_ops / 2) (er_delete r) ∧
  get_memory_rss_bytes (statm measured) = Ok (er_memory_bytes r) ∧
  er_disk_bytes r = disk_usage_bytes d ∧ er_compaction_count r = total_compactions d ∧
  er_compaction_time r = (1000 * compaction_micros measured)%Z.

(** The database after the workloads: the first half of the keys is deleted, all
    others have their updated values. *)
Definition benched (d : Database) : Prop := ∀ i, i < num_ops →
  Database.get (bench_key "key_" i) d =
    (Ok (if decide (i < num_ops / 2) then None else Some (bench_value "new_val_" i)), d).

Definition result_ok (e : Experiment) (r : ExperimentResult) : Prop :=
  ∃ d, result_of e d r ∧ benched d.

(** What is printed meanwhile. *)
Definition progress : list str :=
  lit <$> ["  Running inserts..."%string; "  Running read hits..."%string;
           "  Running read misses..."%string; "  Running updates..."%string;
           "  Running deletes..."%string].

Lemma num_ops_z : Z.of_nat num_ops = 10000%Z.
Proof using Type. done. Qed.

Lemma half_num_ops : Z.of_nat (num_ops / 2) = 5000%Z.
Proof using Type. by rewrite Nat2Z.inj_div, num_ops_z. Qed.

Lemma num_ops_counted : counted num_ops ∧ counted (num_ops / 2).
Proof using Type. rewrite half_num_ops, num_ops_z. split; rewrite !elem_of_cons; auto. Qed.

#[local] Opaque num_ops.

Lemma bench_write_step c :
  fits c → ∀ room d m, holds (S room) d m →
  ∃ d', write c d = (Ok (), d') ∧ holds room d' (apply_command m c).
Proof using All. intros Hc room d m Hd. by apply write_holds. Qed.

(** A workload of commands, and one of reads. *)
Lemma write_workload title w op c n room r m :
  counted n →
  (∀ i room d m, holds (S room) d m →
     ∃ d', op i d = (Ok (), d') ∧ holds room d' (apply_command m (c i))) →
  holds (n + room) (run_db r) m →
  ∃ s r', workload title w n op r = (Ok s, r') ∧ workload_stats w n s ∧
    printed r' = printed r ++ [lit title] ∧
    holds room (run_db r') (foldl apply_command m (c <$> seq 0 n)).
Proof using All.
  intros Hn Hop Hd. destruct (timed_writes w op c room n 0 _ _ Hop Hd) as (d' & E & Hd').
  destruct (workload_ok title w n op r d' Hn E) as (s & Ew & Hs). eauto 10.
Qed.

Lemma read_workload title w prefix n room r m :
  counted n → holds room (run_db r) m →
  ∃ s r', workload title w n (λ i, Database.get (bench_key prefix i);; mret ()) r = (Ok s, r') ∧
    workload_stats w n s ∧ printed r' = printed r ++ [lit title] ∧ holds room (run_db r') m.
Proof using All.
  intros Hn Hd.
  assert (timed_loop w (λ i, Database.get (bench_key prefix i);; mret ()) (seq 0 n) (run_db r) =
    (Ok (times w n), run_db r)) as E.
  { apply timed_reads. intros i. by erewrite bind_Ok by exact (get_holds _ _ _ (bench_key prefix i) Hd). }
  destruct (workload_ok title w n _ r _ Hn E) as (s & Ew & Hs). eauto 10.
Qed.

Lemma run_workloads_ok e d room out mem :
  get_memory_rss_bytes (statm measured) = Ok mem →
  holds (num_ops + (num_ops + (num_ops / 2 + room))) d ∅ →
  ∃ r b, run_workloads as_secs_f64 measured e {| printed := out; run_db := d |} = (Ok r, b) ∧
    result_of e (run_db b) r ∧ printed b = out ++ progress ∧
    holds room (run_db b) (bench_map num_ops).
Proof using All.
  destruct num_ops_counted as [Hn Hh]. intros Hmem Hd. unfold run_workloads.
  destruct (write_workload "  Running inserts..." 0 _ insert_command num_ops _
    {| printed := out; run_db := d |} ∅ Hn (λ i, bench_write_step _ (insert_fits i)) Hd)
    as (s1 & r1 & W1 & S1 & P1 & Hd1). erewrite bind_Ok by exact W1.
  destruct (read_workload "  Running read hits..." 1 "key_" num_ops _ r1 _ Hn Hd1)
    as (s2 & r2 & W2 & S2 & P2 & Hd2). erewrite bind_Ok by exact W2.
  destruct (read_workload "  Running read misses..." 2 "missing_" num_ops _ r2 _ Hn Hd2)
    as (s3 & r3 & W3 & S3 & P3 & Hd3). erewrite bind_Ok by exact W3.
  destruct (write_workload "  Running updates..." 3 _ update_command num_ops _ r3 _ Hn
    (λ i, bench_write_step _ (update_fits i)) Hd3) as (s4 & r4 & W4 & S4 & P4 & Hd4).
  erewrite bind_Ok by exact W4.
  destruct (write_workload "  Running deletes..." 4 _ delete_command (num_ops / 2) _ r4 _ Hh
    (λ i, bench_write_step _ (delete_fits i)) Hd4) as (s5 & r5 & W5 & S5 & P5 & Hd5).
  erewrite bind_Ok by exact W5. erewrite bind_Ok by (unfold lift; by rewrite Hmem).
  eexists _, r5. split; [reflexivity|]. split; [by split_and!|]. split; [|exact Hd5].
  rewrite P5, P4, P3, P2, P1. by rewrite <-!app_assoc.
Qed.

(** The benchmark of a configuration never fails: every operation of its five
    workloads succeeds, through all flushes and compactions, the statistics are
    measured times, and afterwards the first half of the keys is gone and
    every other key has its updated value. *)
Lemma run_standalone_ok e out mem :
  get_memory_rss_bytes (statm measured) = Ok mem →
  cfg_sstable_level (config e) ≠ 0 → (Z.of_nat (cfg_sstable_level (config e)) ≤ 1000)%Z →
  ∃ r d, run_standalone e out = (Ok (r, d), out ++ progress) ∧ result_of e d r ∧ benched d.
Proof using All.
  intros Hmem Hlev Hmax. pose proof num_ops_z as Hz.
  pose proof (Nat.Div0.div_le_upper_bound num_ops 2 num_ops ltac:(lia)) as Hh.
  destruct (open_holds (config e) (num_ops + (num_ops + (num_ops / 2 + 0)))) as (d0 & fs & E0 & Hd0);
    [done|lia|unfold u32_max; nia|].
  destruct (run_workloads_ok e d0 0 out mem Hmem Hd0) as (r & b & E & Hr & Hp & Hd).
  exists r, (run_db b). split; [|split; [done|]].
  - unfold Bench.run_standalone, run_on. rewrite E0. cbn [unwrap]. rewrite E, Hp. done.
  - intros i Hi. rewrite (get_holds _ _ _ _ Hd : Database.get _ _ = _), lookup_bench_map; [done| |done].
    rewrite num_ops_z. unfold u64_max. lia.
Qed.

End workloads.

(** ** The whole program *)

Lemma benchmark_cluster_eq {D} `{!KvStore D} `{!F64Text} `{!F64Math} `{!Bincode} `{!RandomMillis}
    `{!DebugPayload} as_secs_f64 op_time total_time n (t t' : TestCluster D) :
  execute_workload n t = (Ok (), t') →
  benchmark_cluster as_secs_f64 op_time total_time n t =
    (calculate_latency_stats as_secs_f64 (op_time <$> seq 0 n) total_time, t').
Proof.
  intros E. unfold execute_workload in E. apply bind_inv in E as ([] & t1 & E1 & E).
  apply bind_inv in E as ([] & t2 & E2 & E3). unfold benchmark_cluster.
  erewrite bind_Ok by exact E1. erewrite bind_Ok by exact E2. by erewrite bind_Ok by exact E3.
Qed.

Section main.
Context `{HT : F64Text} `{HM : F64Math} `{HX : Xxh3} `{!F64Print} `{!Bincode} `{!RandomMillis}
  `{!DebugPayload} `{!F64TextLaws HT} `{!F64MathLaws HM} `{!BloomDims} `{!PercentLaws HM}.
Context (as_secs_f64 : Duration → f64) (measured : nat → Measured).
Context (cluster_op_time : nat → nat → Duration) (cluster_time : nat → Duration).
Context (created : NodeId → Instant) (started : Instant).

Abbreviation run_experiment := (run_experiment as_secs_f64 measured).
Abbreviation run_experiments := (run_experiments as_secs_f64 measured).
Abbreviation run_cluster := (run_cluster as_secs_f64 cluster_op_time cluster_time created started).
Abbreviation main := (main as_secs_f64 measured cluster_op_time cluster_time created started).

#[local] Opaque num_ops cluster_ops.

Lemma print_lines_eq l out : print_lines l out = (Ok (), out ++ l).
Proof using Type. done. Qed.

(** What one experiment prints. *)
Definition experiment_report (x : nat * Experiment) (r : ExperimentResult) : list str :=
  experiment_head x ++ progress ++ print_experiment_result r.

(** Experiments that can run. *)
Definition runs (x : nat * Experiment) : Prop :=
  is_Ok (get_memory_rss_bytes (statm (measured x.1))) = true ∧
  cfg_sstable_level (config x.2) ≠ 0 ∧ (Z.of_nat (cfg_sstable_level (config x.2)) ≤ 1000)%Z.

Lemma run_experiment_ok x out :
  runs x → ∃ r, run_experiment x out = (Ok r, out ++ experiment_report x r) ∧
    result_ok as_secs_f64 (measured x.1) x.2 r.
Proof using All.
  intros (Hmem & Hlev & Hmax).
  destruct (get_memory_rss_bytes (statm (measured x.1))) as [mem|?|?] eqn:Em; [|done..].
  destruct (run_standalone_ok as_secs_f64 (measured x.1) x.2 (out ++ experiment_head x) mem Em Hlev Hmax)
    as (r & d & E & Hr & Hb).
  exists r. split; [|by exists d]. unfold Bench.run_experiment. erewrite bind_Ok by apply print_lines_eq.
  erewrite bind_Ok by exact E. cbn beta iota. erewrite bind_Ok by apply print_lines_eq.
  unfold experiment_report. by rewrite <-!app_assoc.
Qed.

Lemma run_experiments_ok l out :
  Forall runs l →
  ∃ rs, run_experiments l out = (Ok rs, out ++ mjoin (zip_with experiment_report l rs)) ∧
    Forall2 (λ x r, result_ok as_secs_f64 (measured x.1) x.2 r) l rs.
Proof using All.
  intros Hl. revert out. induction Hl as [|x l Hx _ IH]; intros out.
  { exists []. cbn. by rewrite app_nil_r. }
  destruct (run_experiment_ok x out Hx) as (r & E & Hr). destruct (IH (out ++ experiment_report x r))
    as (rs & Es & Hrs).
  exists (r :: rs). split; [|by constructor]. cbn [Bench.run_experiments].
  erewrite bind_Ok by exact E. erewrite bind_Ok by exact Es.
  change (mjoin (zip_with experiment_report (x :: l) (r :: rs))) with
    (experiment_report x r ++ mjoin (zip_with experiment_report l rs)).
  by rewrite app_assoc.
Qed.

(** The statistics of a cluster. *)
Definition cluster_stats_ok (size : nat) (s : LatencyStats) : Prop :=
  stats_of as_secs_f64 (cluster_op_time size <$> seq 0 cluster_ops) (cluster_time size) s.

Lemma cluster_ops_z : Z.of_nat cluster_ops = 2000%Z.
Proof using Type. done. Qed.

Lemma fresh_database_ok c room :
  cfg_sstable_level c ≠ 0 → (Z.of_nat room ≤ 2 ^ 26)%Z →
  (Z.of_nat (room * cfg_sstable_level c) ≤ u32_max)%Z →
  ∃ d, fresh_database c = Ok d ∧ holds room d ∅.
Proof using All.
  intros Hlev Hr HN. destruct (open_holds c room Hlev Hr HN) as (d & fs & E & Hd).
  exists d. split; [|done]. unfold fresh_database, database_new, run_on. by rewrite E.
Qed.

Lemma run_cluster_ok size out :
  1 ≤ size ≤ 5 →
  ∃ s, run_cluster size out = (Ok (), out ++ [cluster_head size; cluster_row size s]) ∧
    cluster_stats_ok size s.
Proof using All.
  intros Hsize. pose proof cluster_ops_z as Hz.
  destruct (fresh_database_ok default_config cluster_ops) as (d1 & E1 & Hd1);
    [done|lia|unfold u32_max; cbn; lia|].
  destruct (fresh_database_ok (config_new 3 200 4) cluster_ops) as (d2 & E2 & Hd2);
    [done|lia|unfold u32_max; cbn; lia|].
  assert (Hfits : ∀ i, i < cluster_ops → fits (workload_command i)) by (intros i _; apply workload_command_ok).
  destruct (new_with_config_ok cluster_ops Hfits d1 started size d2 created) as (t & e & Et & Hr & He);
    [lia|lia|done|].
  destruct (execute_workload_ok cluster_ops Hfits d1 started size e t) as (t' & e' & Ew & _);
    [lia|lia|done|done|unfold u64_max; nia|].
  destruct (calculate_ok as_secs_f64 (cluster_op_time size <$> seq 0 cluster_ops) (cluster_time size))
    as (s & Es & Hs).
  { rewrite length_fmap, length_seq, Hz. set_solver. }
  exists s. split; [|done]. unfold Bench.run_cluster, test_cluster_new. rewrite E1, E2.
  erewrite bind_Ok by apply print_lines_eq. unfold lift. rewrite Et. rewrite bind_eq.
  rewrite (benchmark_cluster_eq _ _ _ _ _ _ Ew), Es. cbn [fst]. rewrite bind_eq, print_lines_eq.
  by rewrite <-app_assoc.
Qed.


End main.

(** ** Examples *)

Lemma debug_duration_examples :
  debug_duration 1234567890 = lit "1.23456789s" ∧ debug_duration 1500000 = lit "1.5ms" ∧
  debug_duration 3000000000 = lit "3s" ∧ debug_duration 999 = lit "999ns" ∧
  debug_duration 2040 = lit "2.04" ++ [z_u8 194; z_u8 181] ++ lit "s" ∧ debug_duration 0 = lit "0ns".
Proof. by vm_compute. Qed.

(** The second field of the file is the number of resident pages; anything else
    counts as nothing. *)
Lemma memory_examples :
  get_memory_rss_bytes (Some (lit "5000 300 200 10 0 400 0")) = Ok 1228800%Z ∧
  get_memory_rss_bytes (Some (lit "5000")) = Ok 0%Z ∧
  get_memory_rss_bytes (Some (lit "5000 x")) = Ok 0%Z ∧ get_memory_rss_bytes None = Ok 0%Z.
Proof. by vm_compute. Qed.

Module Example.

#[local] Existing Instances number_bincode bits_text bits_text_laws micro_math micro_math_laws
  fixed_millis.
#[local] Instance test_hash : Xxh3 := from_le.
#[local] Existing Instance micro_dims.
#[local] Instance no_debug : DebugPayload := λ _, [].

(** Millionths, without a point. *)
#[local] Instance micro_print : F64Print :=
  {| f64_fixed _ x := int_to_string x; f64_sub x y := (x - y)%Z |}.

(** Every operation takes a microsecond. *)
Definition measured (i : nat) : Measured := {|
  op_time _ _ := 1000%Z; total_time _ := 10000000%Z; statm := Some (lit "5000 300 200");
  compaction_micros := 7;
|}.

Lemma micro_percent : PercentLaws micro_math.
Proof.
  intros n p Hn Hp. rewrite !elem_of_cons, elem_of_nil in Hn, Hp.
  destruct Hn as [->|[->|[->|[]]]], Hp as [->|[->|[->|[]]]]; by vm_compute.
Qed.

#[local] Existing Instance micro_percent.


End Example.
