(* ===== verification/Concurrent.v ===== *)
(** The database of [src/database] under several threads. What a thread does
    while it holds a lock is one step, and the steps of the threads interleave
    in any way that the locks allow.

    The flush lock and the write lock of the memtable are held from the
    beginning of a flush to its end, so one of them stands for both. The lock
    of the log, the lock of the levels and the read lock of the memtable are
    released before any other lock is taken or within the same step. Steps
    that overlap in time without a common lock write and remove only files
    that no other thread uses. *)

From S2P Require Import Prelude Bytes Float LogRecord Logger Format Bloom Index.
From S2P Require Import SSTable Heap Merge Database DatabaseRefine.

(** Where a thread is. *)
Inductive Pc : Type :=
  (* insert and delete: the log, the memtable *)
  | PcLog (c : Command)
  | PcData (c : Command)
  (* flushing; the last three hold the memtable *)
  | PcCheckFlush
  | PcFlush
  | PcPublish (sstable : SSTable)
  | PcTruncate
  | PcClear
  (* compaction; all but the first hold the compaction lock *)
  | PcCheckCompact
  | PcLevels (todo : list (nat * bool))
  | PcSnapshot (level : nat) (todo : list (nat * bool))
  | PcMerge (level : nat) (current_level next_level : list SSTable) (todo : list (nat * bool))
  | PcSwap (level : nat) (current_level next_level : list SSTable) (compacted : SSTable)
      (todo : list (nat * bool))
  | PcRemove (old_paths : list bytes) (todo : list (nat * bool))
  (* get: the memtable, the levels *)
  | PcGetData (key : str)
  | PcGetLevels (key : str)
  | PcDone (r : res (option Value)).

Section sections.
Context `{F64Text} `{F64Math} `{Xxh3}.

(** ** What a thread does while it holds a lock, and where it is then *)

(** [insert] and [delete]: the log, *)
Definition log_section (c : Command) : M Database Pc :=
  zoom log (Logger.log c);; mret (PcData c).

(** and the memtable. *)
Definition data_section (c : Command) : M Database Pc :=
  modify (λ d, d <| data := replay (data d) c |>);; mret PcCheckFlush.

(** [maybe_flush]. *)
Definition check_flush_section : M Database Pc :=
  d ← Prelude.get;
  mret (if bool_decide (data_threshold d ≤ size (data d)) then PcFlush else PcCheckCompact).

(** [flush_memory_to_disk] up to the finished file. *)
Definition flush_section : M Database Pc :=
  o ← flush_write;
  mret match o with None => PcCheckCompact | Some sstable => PcPublish sstable end.

Definition publish_section (sstable : SSTable) : M Database Pc :=
  levels ← gets leveled_sstable;
  match levels with
  | [] => mret PcCheckCompact
  | level0 :: levels' =>
      modify (λ d, d <| leveled_sstable := (level0 ++ [sstable]) :: levels' |>);;
      mret PcTruncate
  end.

Definition truncate_section : M Database Pc := zoom log truncate;; mret PcClear.

Definition clear_section : M Database Pc :=
  modify (λ d, d <| data := ∅ |>);; mret PcCheckCompact.

(** [maybe_compact]. *)
Definition check_compact_section : M Database Pc :=
  levels ← gets leveled_sstable;
  if decide (length levels < 2) then mret (PcDone (Ok None)) else
  threshold ← gets sstable_threshold;
  mret (PcLevels (should_compact threshold levels)).

Definition levels_section (todo : list (nat * bool)) : M Database Pc :=
  mret match todo with
       | [] => PcDone (Ok None)
       | (level, true) :: todo' => PcSnapshot level todo'
       | (_, false) :: todo' => PcLevels todo'
       end.

(** [compact_level]: reading the levels, *)
Definition snapshot_section (level : nat) (todo : list (nat * bool)) : M Database Pc :=
  o ← snapshot_levels level;
  mret match o with
       | None => PcLevels todo
       | Some (current_level, next_level) => PcMerge level current_level next_level todo
       end.

(** merging their files, without any lock on the levels, *)
Definition merge_section (level : nat) (current_level next_level : list SSTable)
    (todo : list (nat * bool)) : M Database Pc :=
  compacted ← write_compacted current_level next_level;
  mret (PcSwap level current_level next_level compacted todo).

(** publishing the new table, *)
Definition swap_section (level : nat) (current_level next_level : list SSTable)
    (compacted : SSTable) (todo : list (nat * bool)) : M Database Pc :=
  b ← swap_levels level (length current_level) (length next_level) compacted;
  mret (if b : bool then PcRemove (file_name <$> current_level ++ next_level) todo
        else PcLevels todo).

(** and removing the old files. *)
Definition remove_section (old_paths : list bytes) (todo : list (nat * bool)) : M Database Pc :=
  remove_files old_paths;;
  modify (λ d, d <| total_compactions := wrap 64 (total_compactions d + 1) |>);;
  mret (PcLevels todo).

(** [get]: the memtable, *)
Definition get_data_section (key : str) : M Database Pc :=
  d ← Prelude.get;
  mret match data d !! key with
       | Some entry => PcDone (Ok (entry_value entry))
       | None => PcGetLevels key
       end.

(** and the levels; the files are read under their lock. *)
Definition get_levels_section (key : str) : M Database Pc :=
  d ← Prelude.get;
  o ← zoom dir (search (mjoin (reverse <$> leveled_sstable d)) key);
  mret (PcDone (Ok (o ≫= entry_value))).

Definition section (pc : Pc) : M Database Pc :=
  match pc with
  | PcLog c => log_section c
  | PcData c => data_section c
  | PcCheckFlush => check_flush_section
  | PcFlush => flush_section
  | PcPublish sstable => publish_section sstable
  | PcTruncate => truncate_section
  | PcClear => clear_section
  | PcCheckCompact => check_compact_section
  | PcLevels todo => levels_section todo
  | PcSnapshot level todo => snapshot_section level todo
  | PcMerge level current_level next_level todo =>
      merge_section level current_level next_level todo
  | PcSwap level current_level next_level compacted todo =>
      swap_section level current_level next_level compacted todo
  | PcRemove old_paths todo => remove_section old_paths todo
  | PcGetData key => get_data_section key
  | PcGetLevels key => get_levels_section key
  | PcDone _ => mret pc
  end.

(** An error or a panic ends the operation. (A panic would poison the locks;
    [ConcurrentSpec.v] shows that there is none.) *)
Definition next_pc (r : res Pc) : Pc :=
  match r with Ok pc => pc | Err e => PcDone (Err e) | Panic p => PcDone (Panic p) end.

(** ** Locks *)

Definition holds_data (pc : Pc) : bool :=
  match pc with PcPublish _ | PcTruncate | PcClear => true | _ => false end.
Definition wants_data (pc : Pc) : bool :=
  match pc with PcData _ | PcCheckFlush | PcFlush | PcGetData _ => true | _ => false end.
Definition holds_compaction (pc : Pc) : bool :=
  match pc with
  | PcLevels _ | PcSnapshot _ _ | PcMerge _ _ _ _ | PcSwap _ _ _ _ _ | PcRemove _ _ => true
  | _ => false
  end.
Definition wants_compaction (pc : Pc) : bool :=
  match pc with PcCheckCompact => true | _ => false end.

(** ** Threads *)

(** The database and the threads that use it. *)
Record System : Type := MkSystem { sys_db : Database; sys_threads : gmap nat Pc }.

(** The locks that the thread [i] wants at [pc] are free. *)
Definition free (ts : gmap nat Pc) (i : nat) (pc : Pc) : Prop :=
  ∀ j pc', ts !! j = Some pc' → j ≠ i →
    (wants_data pc = true → holds_data pc' = false) ∧
    (wants_compaction pc = true → holds_compaction pc' = false).

(** Calls of the database. *)
Inductive Call : Type := CallWrite (c : Command) | CallGet (key : str).

Definition start_pc (call : Call) : Pc :=
  match call with CallWrite c => PcLog c | CallGet key => PcGetData key end.

Definition is_done (pc : Pc) : bool := match pc with PcDone _ => true | _ => false end.

(** What happens: a thread calls an operation, or runs one step of it. *)
Inductive Label : Type := Called (i : nat) (call : Call) | Ran (i : nat) (pc : Pc).

Inductive cstep : System → Label → System → Prop :=
  | cstep_call d ts i call :
      (∀ pc, ts !! i = Some pc → is_done pc = true) →
      match call with CallWrite c => command_ok c | CallGet _ => True end →
      cstep (MkSystem d ts) (Called i call) (MkSystem d (<[i := start_pc call]> ts))
  | cstep_run d ts i pc r d' :
      ts !! i = Some pc → is_done pc = false → free ts i pc →
      section pc d = (r, d') →
      cstep (MkSystem d ts) (Ran i pc) (MkSystem d' (<[i := next_pc r]> ts)).

(** A run, with what happened in it. *)
Inductive csteps : System → list Label → System → Prop :=
  | csteps_refl s : csteps s [] s
  | csteps_snoc s tr s1 l s2 : csteps s tr s1 → cstep s1 l s2 → csteps s (tr ++ [l]) s2.

(** The thread runs alone for a number of steps. *)
Fixpoint run_alone (fuel : nat) (pc : Pc) : M Database Pc :=
  match fuel with
  | O => mret pc
  | S fuel' => if is_done pc then mret pc else pc ← section pc; run_alone fuel' pc
  end.

End sections.

(** Unfold the section of a place. *)
Ltac at_section :=
  cbn [section];
  unfold log_section, data_section, check_flush_section, flush_section, publish_section,
    truncate_section, clear_section, check_compact_section, levels_section, snapshot_section,
    merge_section, swap_section, remove_section, get_data_section, get_levels_section.
