(* ===== verification/ConcurrentInv.v ===== *)
(** The invariant of a database under several threads, and that every step of
    every thread keeps it. The locks make sure that the threads agree on what
    a thread relies on from one of its steps to the next: [step_ok] is what a
    step guarantees to the others, [pc_ok] what a thread relies on. *)

From S2P Require Import Prelude Bytes Float LogRecord Logger Format Bloom Index.
From S2P Require Import SSTable SSTableSpec Heap Merge MergeSpec Database DatabaseSpec.
From S2P Require Import DatabaseRefine Concurrent.

(** ** What a thread has to itself *)

(** Files of the directory that no level holds (yet, or any more). *)
Definition owned (pc : Pc) : list bytes :=
  match pc with
  | PcPublish sstable | PcSwap _ _ _ sstable _ => [file_name sstable]
  | PcRemove old_paths _ => old_paths
  | _ => []
  end.

(** The memtable is in a table of level 0, too. *)
Definition published (pc : Pc) : bool :=
  match pc with PcTruncate | PcClear => true | _ => false end.

(** What a step of a thread writes to the map. *)
Definition effect (pc : Pc) : list Command :=
  match pc with PcData c => [c] | _ => [] end.

(** The write of the thread is in the memtable. *)
Definition written (pc : Pc) : bool :=
  match pc with PcLog _ | PcData _ | PcGetData _ | PcGetLevels _ => false | _ => true end.

(** Steps until the operation is done, with [n] levels. *)
Definition steps_left (n : nat) (pc : Pc) : nat :=
  match pc with
  | PcLog _ => 5 * n + 9
  | PcData _ => 5 * n + 8
  | PcCheckFlush => 5 * n + 7
  | PcFlush => 5 * n + 6
  | PcPublish _ => 5 * n + 5
  | PcTruncate => 5 * n + 4
  | PcClear => 5 * n + 3
  | PcCheckCompact => 5 * n + 2
  | PcLevels todo => 5 * length todo + 1
  | PcSnapshot _ todo => 5 * length todo + 5
  | PcMerge _ _ _ todo => 5 * length todo + 4
  | PcSwap _ _ _ _ todo => 5 * length todo + 3
  | PcRemove _ todo => 5 * length todo + 2
  | PcGetData _ => 2
  | PcGetLevels _ => 1
  | PcDone _ => 0
  end.

Definition alone_data (ts : gmap nat Pc) (i : nat) : Prop :=
  ∀ j pc, ts !! j = Some pc → j ≠ i → holds_data pc = false.
Definition alone_compaction (ts : gmap nat Pc) (i : nat) : Prop :=
  ∀ j pc, ts !! j = Some pc → j ≠ i → holds_compaction pc = false.

Abbreviation newest_in tbls k := (newest (history tbls).*2 k).

(** ** What a thread relies on *)

(** The tables [ts_c] and [ts_n] are still where the compaction read them;
    [ts_e] were added behind the first. *)
Record merging (level : nat) (d : Database) (tbls : Tables) (ts_c ts_n : list SSTable)
    (pre : Tables) (cur extra next : list (Z * Entries)) (post : Tables)
    (ts_pre : list (list SSTable)) (ts_e : list SSTable)
    (ts_post : list (list SSTable)) : Prop := {
  mg_level : length ts_pre = level ∧ length pre = level;
  mg_tables : leveled_sstable d = ts_pre ++ (ts_c ++ ts_e) :: ts_n :: ts_post;
  mg_tbls : tbls = pre ++ (cur ++ extra) :: next :: post;
  mg_len : length ts_c = length cur;
  mg_some : ts_c ≠ [];
}.

Section invariant.
Context `{HT : F64Text} `{HX : Xxh3}.

Definition pc_ok (d : Database) (tbls : Tables) (pc : Pc) : Prop :=
  match pc with
  | PcLog c | PcData c => command_ok c
  | PcPublish t => ∃ id, table_of (dir d) t (id, sorted_entries (data d))
  | PcTruncate | PcClear => ∀ k e, data d !! k = Some e → newest_in tbls k = Some e
  | PcMerge level ts_c ts_n _ => ∃ pre cur extra next post ts_pre ts_e ts_post,
      merging level d tbls ts_c ts_n pre cur extra next post ts_pre ts_e ts_post
  | PcSwap level ts_c ts_n t _ => ∃ pre cur extra next post ts_pre ts_e ts_post id out,
      merging level d tbls ts_c ts_n pre cur extra next post ts_pre ts_e ts_post ∧
      table_of (dir d) t (id, out) ∧
      (∀ k, es_lookup out k = newest (next ++ cur).*2 k) ∧
      weight out ≤ total_weight (cur.*2 ++ next.*2)
  | PcRemove old_paths _ =>
      NoDup old_paths ∧ Forall (λ p, is_Some (dir d !! p)) old_paths
  | PcDone r => ∃ o, r = Ok o
  | _ => True
  end.

(** [m] is what the threads have written, [W] bounds the bytes of the entries
    and [N] the table ids and the records of the log. *)
Record cinv (d : Database) (ts : gmap nat Pc) (tbls : Tables)
    (m : gmap str Value) (W : nat) (N : Z) : Prop := {
  ci_tables : tables_inv d tbls;
  ci_entries : map_Forall (λ k e, key_ok k ∧ entry_ok e) (data d);
  ci_log : ∃ cs, wal_ok (log d) cs ∧ (Z.of_nat (length cs) ≤ N)%Z;
  ci_next : (next_sstable_id d ≤ N)%Z;
  ci_view k : view (data d) tbls k ≫= entry_value = m !! k;
  ci_pcs i pc : ts !! i = Some pc → pc_ok d tbls pc;
  ci_data i pc : ts !! i = Some pc → holds_data pc = true → alone_data ts i;
  ci_compaction i pc : ts !! i = Some pc → holds_compaction pc = true → alone_compaction ts i;
  ci_owned i pc name : ts !! i = Some pc → name ∈ owned pc →
    ∃ id, name = sst_name id ∧ (0 ≤ id < next_sstable_id d)%Z ∧ id ∉ (history tbls).*1;
  ci_apart i j pc pc' name : ts !! i = Some pc → ts !! j = Some pc' →
    name ∈ owned pc → name ∈ owned pc' → i = j;
  ci_weight : tables_weight tbls ≤ W ∧ mem_weight (data d) ≤ W;
  ci_fresh : (∀ i pc, ts !! i = Some pc → published pc = false) →
    tables_weight tbls + mem_weight (data d) ≤ W;
}.

(** ** What a step guarantees *)

(** The levels are as before, or have a new table. *)
Definition grown (d : Database) (tbls : Tables) (d' : Database) (tbls' : Tables) : Prop :=
  (leveled_sstable d' = leveled_sstable d ∧ tbls' = tbls) ∨
  ∃ ts0 tss t ps0 pss p,
    leveled_sstable d = ts0 :: tss ∧ leveled_sstable d' = (ts0 ++ [t]) :: tss ∧
    tbls = ps0 :: pss ∧ tbls' = (ps0 ++ [p]) :: pss.

(** Where a thread gets to, in a database that holds [m]. *)
Definition outcome (tbls : Tables) (m : gmap str Value) (pc pc' : Pc) : Prop :=
  match pc with
  | PcLog c => pc' = PcData c
  | PcGetData key =>
      (pc' = PcGetLevels key ∧ newest_in tbls key ≫= entry_value = m !! key) ∨
      pc' = PcDone (Ok (m !! key))
  | PcGetLevels key => pc' = PcDone (Ok (newest_in tbls key ≫= entry_value))
  | _ => written pc' = true
  end.

Record step_ok (d : Database) (ts : gmap nat Pc) (i : nat) (pc : Pc) (tbls : Tables)
    (m : gmap str Value) (W : nat) (N : Z)
    (d' : Database) (pc' : Pc) (tbls' : Tables) : Prop := {
  so_tables : tables_inv d' tbls';
  so_length : length tbls' = length tbls;
  so_entries : map_Forall (λ k e, key_ok k ∧ entry_ok e) (data d');
  so_log : ∃ cs, wal_ok (log d') cs ∧ (Z.of_nat (length cs) ≤ N + 1)%Z;
  so_next : (next_sstable_id d ≤ next_sstable_id d' ≤ N + 1)%Z;
  so_view k : view (data d') tbls' k ≫= entry_value = foldl apply_command m (effect pc) !! k;
  so_pc : pc_ok d' tbls' pc';
  so_outcome : outcome tbls m pc pc';
  so_measure : steps_left (length tbls) pc' < steps_left (length tbls) pc;
  so_hold : (holds_data pc' = true → alone_data ts i) ∧
            (holds_compaction pc' = true → alone_compaction ts i);
  so_owned name : name ∈ owned pc' →
    (∃ id, name = sst_name id ∧ (0 ≤ id < next_sstable_id d')%Z ∧ id ∉ (history tbls').*1) ∧
    (name ∈ owned pc ∨ name = sst_name (next_sstable_id d) ∨
     ∃ id, name = sst_name id ∧ id ∈ (history tbls).*1);
  so_live id : id ∈ (history tbls').*1 → id ∈ (history tbls).*1 ∨ sst_name id ∈ owned pc;
  so_files name : name ∉ owned pc → name ≠ sst_name (next_sstable_id d) →
    dir d' !! name = dir d !! name;
  so_data : alone_data ts i ∨
    (data d' = data d ∧ ∀ k, newest_in tbls' k = newest_in tbls k);
  so_levels : alone_compaction ts i ∨ grown d tbls d' tbls';
  so_weight : tables_weight tbls' ≤ W + commands_weight (effect pc) ∧
    mem_weight (data d') ≤ W + commands_weight (effect pc);
  so_fresh : published pc' = false →
    (∀ j pcj, ts !! j = Some pcj → j ≠ i → published pcj = false) →
    tables_weight tbls' + mem_weight (data d') ≤ W + commands_weight (effect pc);
  so_reads k : newest_in tbls' k = newest_in tbls k ∨
    newest_in tbls' k ≫= entry_value = m !! k;
}.

(** A thread that holds nothing which the step changed does not notice it. *)
Lemma merging_grown level d tbls d' tbls' ts_c ts_n pre cur extra next post ts_pre ts_e ts_post :
  grown d tbls d' tbls' →
  merging level d tbls ts_c ts_n pre cur extra next post ts_pre ts_e ts_post →
  ∃ pre' extra' ts_pre' ts_e',
    merging level d' tbls' ts_c ts_n pre' cur extra' next post ts_pre' ts_e' ts_post.
Proof using Type.
  intros [[E ->]|(ts0 & tss & t & ps0 & pss & p & E1 & E2 & E3 & ->)] [[H1 H2] El Et Hl Hs].
  { exists pre, extra, ts_pre, ts_e. split; try done. by rewrite E. }
  rewrite El in E1. rewrite Et in E3.
  destruct ts_pre as [|a ts_pre]; destruct pre as [|b pre]; cbn in *; simplify_eq.
  - exists [], (extra ++ [p]), [], (ts_e ++ [t]). split; try done; cbn;
      by rewrite ?app_assoc.
  - exists ((ps0 ++ [p]) :: pre), extra, ((ts0 ++ [t]) :: ts_pre), ts_e.
    split; try done; cbn; lia.
Qed.

Lemma pc_ok_frame d tbls d' tbls' pc :
  (∀ name, name ∈ owned pc → dir d' !! name = dir d !! name) →
  (holds_data pc = true → data d' = data d ∧ ∀ k, newest_in tbls' k = newest_in tbls k) →
  (holds_compaction pc = true → grown d tbls d' tbls') →
  pc_ok d tbls pc → pc_ok d' tbls' pc.
Proof using Type.
  intros Hfiles Hdata Hlevels.
  destruct pc as [| | | |t| | | | | | |level ts_c ts_n t todo|old todo| | |]; cbn; try done;
    try (destruct (Hdata eq_refl) as [-> Hn]).
  - intros (id & Ht). exists id. eapply table_of_frame; [|exact Ht].
    apply Hfiles. left.
  - intros Hd k e Hk. rewrite Hn. by apply Hd.
  - intros Hd k e Hk. rewrite Hn. by apply Hd.
  - intros (pre & cur & extra & next & post & ts_pre & ts_e & ts_post & Hm).
    destruct (merging_grown _ _ _ _ _ _ _ _ _ _ _ _ _ _ _ (Hlevels eq_refl) Hm)
      as (? & ? & ? & ? & ?). by do 8 eexists.
  - intros (pre & cur & extra & next & post & ts_pre & ts_e & ts_post & id & out & Hm & Ht & Ho).
    destruct (merging_grown _ _ _ _ _ _ _ _ _ _ _ _ _ _ _ (Hlevels eq_refl) Hm)
      as (? & ? & ? & ? & ?). do 10 eexists. split; [done|]. split; [|done].
    eapply table_of_frame; [|exact Ht]. apply Hfiles. left.
  - intros [Hnd Hall]. split; [done|]. rewrite Forall_forall in Hall |- *.
    intros p Hp. rewrite Hfiles by done. by apply Hall.
Qed.

(** The files of another thread are neither old nor new tables. *)
Lemma other_files d ts i pc tbls m W N j pcj name :
  cinv d ts tbls m W N → ts !! i = Some pc → ts !! j = Some pcj → j ≠ i → name ∈ owned pcj →
  name ∉ owned pc ∧ name ≠ sst_name (next_sstable_id d) ∧
  ∀ id, id ∈ (history tbls).*1 → name ≠ sst_name id.
Proof using Type.
  intros Hc Hi Hj Hne Hn. pose proof (ci_tables _ _ _ _ _ _ Hc) as Hti.
  destruct (ci_owned _ _ _ _ _ _ Hc j pcj name Hj Hn) as (id & -> & Hid & Hnot).
  pose proof (in_u32_next _ _ Hti) as Hnx. pose proof (ti_next _ _ Hti) as Hn0.
  assert (in_u32 id) by (unfold in_u32, in_u, u32_max in *; lia).
  split_and!.
  - intros Hn'. apply Hne. by eapply (ci_apart _ _ _ _ _ _ Hc).
  - intros E%sst_name_inj; [lia|done..].
  - intros id' Hid' E%sst_name_inj; [by subst|done|]. by eapply in_u32_id.
Qed.

(** A step that keeps its guarantees keeps the invariant. *)
Lemma cinv_run d ts i pc tbls m W N d' pc' tbls' :
  cinv d ts tbls m W N → ts !! i = Some pc →
  step_ok d ts i pc tbls m W N d' pc' tbls' →
  cinv d' (<[i := pc']> ts) tbls' (foldl apply_command m (effect pc))
    (W + commands_weight (effect pc)) (N + 1).
Proof using Type.
  intros Hc Hi Hs. pose proof (ci_tables _ _ _ _ _ _ Hc) as Hti.
  pose proof (λ j pcj name, other_files d ts i pc tbls m W N j pcj name Hc Hi) as Hother.
  destruct Hs. split; try done; try lia.
  - intros j pcj [[<- <-]|[Hne Hj]]%lookup_insert_Some; [done|].
    eapply pc_ok_frame; [| | |by eapply (ci_pcs _ _ _ _ _ _ Hc)].
    + intros name Hn. destruct (Hother j pcj name) as (? & ? & _); [done..|]. by apply so_files0.
    + intros Hh. destruct so_data0 as [Ha|]; [|done]. by rewrite (Ha j pcj) in Hh.
    + intros Hh. destruct so_levels0 as [Ha|]; [|done]. by rewrite (Ha j pcj) in Hh.
  - intros j pcj [[<- <-]|[Hne Hj]]%lookup_insert_Some Hh k pck
      [[<- <-]|[Hne' Hk]]%lookup_insert_Some Hkj; try done.
    + by eapply so_hold0.
    + destruct (holds_data pc') eqn:E; [|done]. destruct so_hold0 as [Ha _].
      by rewrite (Ha eq_refl j pcj) in Hh.
    + by eapply (ci_data _ _ _ _ _ _ Hc j).
  - intros j pcj [[<- <-]|[Hne Hj]]%lookup_insert_Some Hh k pck
      [[<- <-]|[Hne' Hk]]%lookup_insert_Some Hkj; try done.
    + by eapply so_hold0.
    + destruct (holds_compaction pc') eqn:E; [|done]. destruct so_hold0 as [_ Ha].
      by rewrite (Ha eq_refl j pcj) in Hh.
    + by eapply (ci_compaction _ _ _ _ _ _ Hc j).
  - intros j pcj name [[<- <-]|[Hne Hj]]%lookup_insert_Some Hn; [by apply so_owned0|].
    destruct (ci_owned _ _ _ _ _ _ Hc j pcj name Hj Hn) as (id & -> & Hid & Hnot).
    exists id. split; [done|]. split; [lia|]. intros [?|Ho]%so_live0; [done|].
    apply Hne. symmetry. by eapply (ci_apart _ _ _ _ _ _ Hc).
  - intros j k pcj pck name [[<- <-]|[Hne Hj]]%lookup_insert_Some
      [[<- <-]|[Hne' Hk]]%lookup_insert_Some Hnj Hnk; try done.
    + destruct (Hother k pck name) as (Ho1 & Ho2 & Ho3); [done..|].
      destruct (so_owned0 name Hnj) as [_ [?|[?|(id & -> & ?)]]]; [done..|]. by destruct (Ho3 id).
    + destruct (Hother j pcj name) as (Ho1 & Ho2 & Ho3); [done..|].
      destruct (so_owned0 name Hnk) as [_ [?|[?|(id & -> & ?)]]]; [done..|]. by destruct (Ho3 id).
    + by eapply (ci_apart _ _ _ _ _ _ Hc).
  - intros Hp. apply so_fresh0.
    + apply (Hp i). apply lookup_insert_eq.
    + intros j pcj Hj Hne. apply (Hp j). by rewrite lookup_insert_ne.
Qed.

(** A call starts with nothing. *)
Lemma cinv_call d ts tbls m W N i call :
  cinv d ts tbls m W N → (∀ pc, ts !! i = Some pc → is_done pc = true) →
  match call with CallWrite c => command_ok c | CallGet _ => True end →
  cinv d (<[i := start_pc call]> ts) tbls m W (N + 1).
Proof using Type.
  intros Hc Hi Hok.
  assert (Hold : ∀ pc, ts !! i = Some pc → published pc = false)
    by (intros pc H%Hi; by destruct pc).
  destruct Hc as [? ? (cs & ? & ?) ? ? ? ? ? ? ? ? Hf]. split; try done; try lia.
  - exists cs. split; [done|lia].
  - intros j pcj [[<- <-]|[Hne Hj]]%lookup_insert_Some; [by destruct call|by eauto].
  - intros j pcj [[<- <-]|[Hne Hj]]%lookup_insert_Some; [by destruct call|].
    intros Hh k pck [[<- <-]|[Hne' Hk]]%lookup_insert_Some Hkj; [by destruct call|].
    by eapply (ci_data0 j).
  - intros j pcj [[<- <-]|[Hne Hj]]%lookup_insert_Some; [by destruct call|].
    intros Hh k pck [[<- <-]|[Hne' Hk]]%lookup_insert_Some Hkj; [by destruct call|].
    by eapply (ci_compaction0 j).
  - intros j pcj name [[<- <-]|[Hne Hj]]%lookup_insert_Some; [|by eauto].
    by destruct call; intros ?%elem_of_nil.
  - intros j k pcj pck name [[<- <-]|[Hne Hj]]%lookup_insert_Some
      [[<- <-]|[Hne' Hk]]%lookup_insert_Some; try done; try by eauto.
    + by destruct call; intros ?%elem_of_nil.
    + by destruct call; intros ? ?%elem_of_nil.
  - intros Hp. apply Hf. intros j pcj Hj. destruct (decide (j = i)) as [->|Hne]; [by apply Hold|].
    apply (Hp j). by rewrite lookup_insert_ne.
Qed.

End invariant.
