(* ===== verification/ConcurrentStep.v ===== *)
(** What every step of a thread does, and that it keeps its guarantees
    ([step_ok] of [ConcurrentInv.v]). *)

From S2P Require Import Prelude Bytes Float LogRecord Logger Format Bloom Index.
From S2P Require Import SSTable SSTableSpec Heap Merge MergeSpec Database DatabaseSpec.
From S2P Require Import DatabaseRefine Concurrent ConcurrentInv.

Section steps.
Context `{HT : F64Text} `{HM : F64Math} `{HX : Xxh3}
  `{!F64TextLaws HT} `{!F64MathLaws HM} `{!BloomDims}.

Context {d : Database} {ts : gmap nat Pc} {i : nat} {pc : Pc} {tbls : Tables}
  {m : gmap str Value} {W : nat} {N : Z}.
Hypothesis (Hc : cinv d ts tbls m W N) (Hi : ts !! i = Some pc).

Lemma current_pc_ok : pc_ok d tbls pc.
Proof using All. by eapply (ci_pcs _ _ _ _ _ _ Hc). Qed.

(** Steps that change nothing but the log. *)
Lemma quiet_step lg pc' :
  effect pc = [] → owned pc' = [] →
  (∃ cs, wal_ok lg cs ∧ (Z.of_nat (length cs) ≤ N + 1)%Z) →
  (holds_data pc' = true → holds_data pc = true) →
  (holds_compaction pc' = true → holds_compaction pc = true ∨ alone_compaction ts i) →
  (published pc' = false → published pc = false) →
  pc_ok d tbls pc' → outcome tbls m pc pc' →
  steps_left (length tbls) pc' < steps_left (length tbls) pc →
  step_ok d ts i pc tbls m W N (d <| log := lg |>) pc' tbls.
Proof using Hc Hi.
  intros He Ho Hlg Hd Hcp Hpub Hpc Hout Hm.
  pose proof (ci_weight _ _ _ _ _ _ Hc). pose proof (ci_next _ _ _ _ _ _ Hc).
  split; rewrite ?He; unfold commands_weight; cbn [dir data log next_sstable_id upd upd_log
    foldl sum_list_with]; try done; try lia.
  - by destruct (ci_tables _ _ _ _ _ _ Hc).
  - apply Hc.
  - apply Hc.
  - apply (pc_ok_frame d tbls); [done| |by left|done]. done.
  - split; intros Hh; [by apply (ci_data _ _ _ _ _ _ Hc i pc), Hd|].
    destruct (Hcp Hh); [by apply (ci_compaction _ _ _ _ _ _ Hc i pc)|done].
  - rewrite Ho. by intros ? ?%elem_of_nil.
  - by left.
  - by right.
  - right. by left.
  - intros Hp Hall. rewrite Nat.add_0_r. apply (ci_fresh _ _ _ _ _ _ Hc).
    intros j pcj Hj. destruct (decide (j = i)) as [->|Hne]; [|by apply (Hall j)].
    rewrite Hi in Hj. simplify_eq. by apply Hpub.
  - by left.
Qed.

(** Steps that change nothing. *)
Lemma same_step pc' :
  effect pc = [] → owned pc' = [] →
  (holds_data pc' = true → holds_data pc = true) →
  (holds_compaction pc' = true → holds_compaction pc = true ∨ alone_compaction ts i) →
  (published pc' = false → published pc = false) →
  pc_ok d tbls pc' → outcome tbls m pc pc' →
  steps_left (length tbls) pc' < steps_left (length tbls) pc →
  step_ok d ts i pc tbls m W N d pc' tbls.
Proof using Hc Hi.
  intros. replace d with (d <| log := log d |>) at 2 by by destruct d.
  apply quiet_step; try done.
  destruct (ci_log _ _ _ _ _ _ Hc) as (cs & ? & ?). exists cs. split; [done|lia].
Qed.

(** ** insert and delete *)

Lemma step_log c :
  pc = PcLog c → (N < u32_max)%Z →
  ∃ d' tbls', section pc d = (Ok (PcData c), d') ∧
    step_ok d ts i pc tbls m W N d' (PcData c) tbls'.
Proof using All.
  intros Epc HN. pose proof current_pc_ok as Hpc. rewrite Epc in Hpc. cbn in Hpc.
  destruct (ci_log _ _ _ _ _ _ Hc) as (cs & Hl & Hlen).
  destruct (log_ok c cs (log d) Hl Hpc) as (lg & El & Hlg); [unfold u32_max, u64_max in *; lia|].
  eexists _, tbls. split.
  { rewrite Epc. at_section. by erewrite bind_Ok by (apply zoom_Ok; exact El). }
  apply quiet_step; rewrite ?Epc; try done; [|cbn; lia].
  exists (cs ++ [c]). split; [done|]. rewrite length_app. cbn. lia.
Qed.

Lemma step_data c :
  pc = PcData c → free ts i pc →
  ∃ d' tbls', section pc d = (Ok PcCheckFlush, d') ∧
    step_ok d ts i pc tbls m W N d' PcCheckFlush tbls'.
Proof using All.
  intros Epc Hfree. pose proof current_pc_ok as Hpc. rewrite Epc in Hpc. cbn in Hpc.
  assert (Halone : alone_data ts i).
  { intros j pcj Hj Hne. rewrite Epc in Hfree. by apply (Hfree j pcj Hj Hne). }
  assert (Hfresh : tables_weight tbls + mem_weight (data d) ≤ W).
  { apply (ci_fresh _ _ _ _ _ _ Hc). intros j pcj Hj.
    destruct (decide (j = i)) as [->|Hne]; [rewrite Hi in Hj; by simplify_eq|].
    specialize (Halone j pcj Hj Hne). by destruct pcj. }
  pose proof (ci_next _ _ _ _ _ _ Hc).
  eexists _, tbls. split; [by rewrite Epc|].
  pose proof (mem_weight_insert (data d) (command_key c) (command_entry c)) as Hmw.
  fold (command_weight c) in Hmw.
  split; rewrite ?Epc; unfold commands_weight; cbn [effect dir data log next_sstable_id upd upd_data
    foldl sum_list_with holds_data holds_compaction owned steps_left]; rewrite ?replay_insert; try done; try lia.
  - by destruct (ci_tables _ _ _ _ _ _ Hc).
  - apply map_Forall_insert_2; [|apply Hc]. destruct Hpc as [? Hv]. split; [done|].
    by destruct c.
  - destruct (ci_log _ _ _ _ _ _ Hc) as (cs & ? & ?). exists cs. split; [done|lia].
  - intros k. pose proof (ci_view _ _ _ _ _ _ Hc k) as Hv. unfold view in *.
    destruct (decide (command_key c = k)) as [<-|Hne].
    + rewrite lookup_insert_eq. by destruct c; cbn; rewrite ?lookup_insert_eq, ?lookup_delete_eq.
    + rewrite lookup_insert_ne by done. etrans; [exact Hv|].
      destruct c; cbn in *; by rewrite ?lookup_insert_ne, ?lookup_delete_ne.
  - by intros ? ?%elem_of_nil.
  - by left.
  - by left.
  - right. by left.
  - by left.
Qed.

Lemma step_check_flush :
  pc = PcCheckFlush →
  ∃ pc' d' tbls', section pc d = (Ok pc', d') ∧ step_ok d ts i pc tbls m W N d' pc' tbls'.
Proof using All.
  intros Epc. eexists _, d, tbls. split; [by rewrite Epc|].
  case_bool_decide; apply same_step; rewrite ?Epc; try done; cbn; lia.
Qed.

(** A new file is in the way of nobody. *)
Lemma new_file_tables id c n :
  id = next_sstable_id d → (n = id + 1)%Z → (n ≤ u32_max)%Z →
  tables_inv (d <| next_sstable_id := n |> <| dir := <[sst_name id := c]> (dir d) |>) tbls.
Proof using Hc.
  intros -> -> Hn. pose proof (ci_tables _ _ _ _ _ _ Hc) as Hti.
  pose proof (ti_next _ _ Hti). destruct Hti as [Ht ? ? Hids ? ?] eqn:E; clear E.
  split; cbn [dir leveled_sstable next_sstable_id upd upd_dir upd_next_sstable_id]; try done; try lia.
  - eapply tables_frame; [done|]. intros id' Hid'. eapply new_file_frame; [|done]. by destruct Hc.
  - eapply Forall_impl; [exact Hids|]. cbn. lia.
Qed.

(** [PcFlush] and [PcMerge]: a new file that the thread owns. *)
Lemma new_file_step pc' id c t es :
  id = next_sstable_id d → (N < u32_max)%Z →
  effect pc = [] → owned pc = [] → owned pc' = [file_name t] → published pc = false →
  (holds_data pc' = true → alone_data ts i) →
  (holds_compaction pc' = true → alone_compaction ts i) →
  let d' := d <| next_sstable_id := (id + 1)%Z |> <| dir := <[sst_name id := c]> (dir d) |> in
  table_of (dir d') t (id, es) → pc_ok d' tbls pc' → outcome tbls m pc pc' →
  steps_left (length tbls) pc' < steps_left (length tbls) pc →
  step_ok d ts i pc tbls m W N d' pc' tbls.
Proof using Hc Hi.
  intros Eid HN He Ho Ho' Hpub Hh1 Hh2 d' Ht Hpc Hout Hm.
  pose proof (ci_weight _ _ _ _ _ _ Hc). pose proof (ci_next _ _ _ _ _ _ Hc).
  pose proof (ci_tables _ _ _ _ _ _ Hc) as Hti.
  split; rewrite ?He; unfold commands_weight; try done;
    cbn [d' dir data log next_sstable_id upd upd_dir upd_next_sstable_id foldl sum_list_with];
    try lia.
  - apply new_file_tables; [done..|lia].
  - apply Hc.
  - destruct (ci_log _ _ _ _ _ _ Hc) as (cs & ? & ?). exists cs. split; [done|lia].
  - apply Hc.
  - intros name. rewrite Ho', list_elem_of_singleton. intros ->.
    destruct Ht as [-> _]. cbn. rewrite Eid. split; [|by right; left].
    exists (next_sstable_id d). split; [done|]. pose proof (ti_next _ _ Hti). split; [lia|].
    intros Hin. by eapply next_name_fresh.
  - by left.
  - intros name _ Hne. rewrite lookup_insert_ne; [done|]. by rewrite Eid.
  - by right.
  - right. by left.
  - intros _ Hall. rewrite Nat.add_0_r. apply (ci_fresh _ _ _ _ _ _ Hc).
    intros j pcj Hj. destruct (decide (j = i)) as [->|Hne]; [|by apply (Hall j)].
    rewrite Hi in Hj. by simplify_eq.
  - by left.
Qed.

Lemma step_flush :
  pc = PcFlush → free ts i pc → (Z.of_nat W ≤ 2 ^ 60)%Z → (N < u32_max)%Z →
  ∃ pc' d' tbls', section pc d = (Ok pc', d') ∧ step_ok d ts i pc tbls m W N d' pc' tbls'.
Proof using All.
  intros Epc Hfree HW HN. pose proof (ci_next _ _ _ _ _ _ Hc).
  pose proof (ti_next _ _ (ci_tables _ _ _ _ _ _ Hc)) as Hn0.
  destruct (decide (data d = ∅)) as [Hemp|Hne].
  { exists PcCheckCompact, d, tbls. split.
    - rewrite Epc. at_section. erewrite (bind_Ok _ _ _ _ None); [reflexivity|].
      unfold flush_write. erewrite bind_Ok by done. by rewrite Hemp, map_to_list_empty.
    - apply same_step; rewrite ?Epc; try done. cbn. lia. }
  pose proof (ci_weight _ _ _ _ _ _ Hc) as [_ Hw].
  destruct (flush_write_ok d (ci_entries _ _ _ _ _ _ Hc)) as (t & c & E & Ht); [lia|lia|done|].
  eexists (PcPublish t), _, tbls. split.
  { rewrite Epc. at_section. by erewrite bind_Ok by exact E. }
  eapply new_file_step; rewrite ?Epc; try done; [| |cbn; lia].
  - intros _ j pcj Hj Hne'. rewrite Epc in Hfree. by apply (Hfree j pcj Hj Hne').
  - by eexists.
Qed.

Lemma not_published_weight :
  published pc = false → holds_data pc = true →
  tables_weight tbls + mem_weight (data d) ≤ W.
Proof using Hc Hi.
  intros Hp Hh. apply (ci_fresh _ _ _ _ _ _ Hc). intros j pcj Hj.
  destruct (decide (j = i)) as [->|Hne]; [rewrite Hi in Hj; by simplify_eq|].
  pose proof (ci_data _ _ _ _ _ _ Hc i pc Hi Hh j pcj Hj Hne). by destruct pcj.
Qed.

Lemma step_publish t :
  pc = PcPublish t →
  ∃ d' tbls', section pc d = (Ok PcTruncate, d') ∧
    step_ok d ts i pc tbls m W N d' PcTruncate tbls'.
Proof using All.
  intros Epc. pose proof current_pc_ok as Hpc. rewrite Epc in Hpc. destruct Hpc as (id0 & Ht).
  destruct (ci_owned _ _ _ _ _ _ Hc i pc (file_name t) Hi) as (id & En & Hid & Hnew);
    [rewrite Epc; left|].
  assert (Ht' : table_of (dir d) t (id, sorted_entries (data d))) by (split; [done|apply Ht]).
  pose proof not_published_weight as Hw. rewrite Epc in Hw. specialize (Hw eq_refl eq_refl).
  pose proof (ci_next _ _ _ _ _ _ Hc).
  pose proof (ci_tables _ _ _ _ _ _ Hc) as [Htb Hlv _ _ _ _].
  assert (∃ ps0 pss, tbls = ps0 :: pss) as (ps0 & pss & Etb) by (destruct tbls; [done|eauto]).
  rewrite Etb in Htb.
  destruct (leveled_sstable d) as [|ts0 tss] eqn:El; [by inversion Htb|].
  eexists _, ((ps0 ++ [(id, sorted_entries (data d))]) :: pss). split.
  { rewrite Epc. at_section. erewrite bind_Ok by done. rewrite El. reflexivity. }
  assert (Hnewest : ∀ k, newest_in ((ps0 ++ [(id, sorted_entries (data d))]) :: pss) k =
    match data d !! k with Some e => Some e | None => newest_in tbls k end).
  { intros k. rewrite Etb, history_push, fmap_app. cbn [fmap list_fmap snd].
    by rewrite newest_snoc, sorted_entries_lookup. }
  split; rewrite ?Epc; unfold commands_weight; cbn [effect dir data log next_sstable_id upd
    upd_leveled_sstable foldl sum_list_with holds_data holds_compaction owned steps_left]; try done; try lia.
  - eapply (tables_push d); rewrite <-?Etb; try done; cbn; [apply Hc|].
    pose proof (ti_next _ _ (ci_tables _ _ _ _ _ _ Hc)). lia.
  - by rewrite Etb.
  - apply Hc.
  - destruct (ci_log _ _ _ _ _ _ Hc) as (cs & ? & ?). exists cs. split; [done|lia].
  - intros k. rewrite <-(ci_view _ _ _ _ _ _ Hc k). unfold view. rewrite Hnewest.
    by destruct (data d !! k).
  - intros k e Hk. cbn in Hk. by rewrite Hnewest, Hk.
  - split; [|done]. intros _. apply (ci_data _ _ _ _ _ _ Hc i pc Hi). by rewrite Epc.
  - by intros ? ?%elem_of_nil.
  - intros id'. rewrite history_push, <-Etb, fmap_app, elem_of_app. intros [?|Hin]; [by left|].
    right. cbn in Hin. apply list_elem_of_singleton in Hin as ->. rewrite En.
    by apply list_elem_of_singleton.
  - left. apply (ci_data _ _ _ _ _ _ Hc i pc Hi). by rewrite Epc.
  - right. right. by do 6 eexists.
  - unfold tables_weight in *. rewrite history_push, <-Etb, sum_list_with_app. cbn [sum_list_with snd].
    rewrite sorted_entries_weight. lia.
  - intros k. rewrite Hnewest. pose proof (ci_view _ _ _ _ _ _ Hc k) as Hv. unfold view in Hv.
    destruct (data d !! k); [by right|by left].
Qed.

Lemma step_truncate :
  pc = PcTruncate →
  ∃ d' tbls', section pc d = (Ok PcClear, d') ∧ step_ok d ts i pc tbls m W N d' PcClear tbls'.
Proof using All.
  intros Epc. pose proof current_pc_ok as Hpc. rewrite Epc in Hpc.
  destruct (truncate_ok (log d)) as (lg & El & Hlg).
  pose proof (ci_next _ _ _ _ _ _ Hc).
  pose proof (ti_next _ _ (ci_tables _ _ _ _ _ _ Hc)) as Hn0.
  eexists _, tbls. split.
  { rewrite Epc. at_section. by erewrite bind_Ok by (apply zoom_Ok; exact El). }
  apply quiet_step; rewrite ?Epc; try done; [|cbn; lia].
  exists []. split; [done|]. cbn. lia.
Qed.

Lemma step_clear :
  pc = PcClear →
  ∃ d' tbls', section pc d = (Ok PcCheckCompact, d') ∧
    step_ok d ts i pc tbls m W N d' PcCheckCompact tbls'.
Proof using All.
  intros Epc. pose proof current_pc_ok as Hpc. rewrite Epc in Hpc. cbn in Hpc.
  pose proof (ci_next _ _ _ _ _ _ Hc). pose proof (ci_weight _ _ _ _ _ _ Hc).
  eexists _, tbls. split; [by rewrite Epc|].
  assert (Hz : mem_weight ∅ = 0) by (unfold mem_weight; by rewrite map_to_list_empty).
  split; rewrite ?Epc; unfold commands_weight; cbn [effect dir data log next_sstable_id upd
    upd_data foldl sum_list_with holds_data holds_compaction owned steps_left]; rewrite ?Hz;
    try done; try lia.
  - by destruct (ci_tables _ _ _ _ _ _ Hc).
  - destruct (ci_log _ _ _ _ _ _ Hc) as (cs & ? & ?). exists cs. split; [done|lia].
  - intros k. rewrite <-(ci_view _ _ _ _ _ _ Hc k). unfold view. rewrite lookup_empty.
    destruct (data d !! k) as [e|] eqn:E; [|done]. by rewrite (Hpc k e E).
  - by intros ? ?%elem_of_nil.
  - by left.
  - left. apply (ci_data _ _ _ _ _ _ Hc i pc Hi). by rewrite Epc.
  - right. by left.
  - by left.
Qed.

(** ** Compaction *)

Lemma levels_length : length (leveled_sstable d) = length tbls.
Proof using Hc. eapply Forall2_length, ti_tables, Hc. Qed.

Lemma step_check_compact :
  pc = PcCheckCompact → free ts i pc →
  ∃ pc' d' tbls', section pc d = (Ok pc', d') ∧ step_ok d ts i pc tbls m W N d' pc' tbls'.
Proof using All.
  intros Epc Hfree. pose proof levels_length as Hl.
  assert (Halone : alone_compaction ts i).
  { intros j pcj Hj Hne. rewrite Epc in Hfree. by apply (Hfree j pcj Hj Hne). }
  eexists (if decide (length (leveled_sstable d) < 2) then PcDone (Ok None)
           else PcLevels (should_compact (sstable_threshold d) (leveled_sstable d))), d, tbls.
  split.
  - rewrite Epc. at_section. erewrite bind_Ok by done.
    destruct (decide (length (leveled_sstable d) < 2)); [done|]. by erewrite bind_Ok by done.
  - destruct (decide _); apply same_step; rewrite ?Epc; try done; cbn; try lia.
    + by eexists.
    + by right.
    + rewrite length_should_compact. lia.
Qed.

Lemma step_levels todo :
  pc = PcLevels todo →
  ∃ pc' d' tbls', section pc d = (Ok pc', d') ∧ step_ok d ts i pc tbls m W N d' pc' tbls'.
Proof using All.
  intros Epc.
  eexists _, d, tbls. split; [by rewrite Epc|].
  destruct todo as [|[level [|]] todo]; apply same_step; rewrite ?Epc; try done; cbn; try lia;
    [by eexists|by left..].
Qed.

Lemma step_snapshot level todo :
  pc = PcSnapshot level todo →
  ∃ pc' d' tbls', section pc d = (Ok pc', d') ∧ step_ok d ts i pc tbls m W N d' pc' tbls'.
Proof using All.
  intros Epc. pose proof (ci_tables _ _ _ _ _ _ Hc) as Hti.
  assert (Hskip : snapshot_levels level d = (Ok None, d) → ∃ pc' d' tbls',
    section pc d = (Ok pc', d') ∧ step_ok d ts i pc tbls m W N d' pc' tbls').
  { intros E. exists (PcLevels todo), d, tbls. split.
    - rewrite Epc. at_section. by rewrite (bind_Ok _ _ _ _ _ E).
    - apply same_step; rewrite ?Epc; try done; cbn; [by left|lia]. }
  destruct (decide (length (leveled_sstable d) ≤ level + 1)) as [Hl|Hl];
    [apply Hskip, snapshot_levels_skip; auto|].
  destruct (compacting_intro level d tbls Hti) as
    (pre & cur & next & post & ts_pre & ts_post & ts_c & ts_n & Hcp); [lia|].
  destruct Hcp as [[Hl1 Hl2] El Etb Hpre Hin Hpost [Hlc Hln] Hfew].
  destruct (decide (ts_c = [])) as [->|Hne].
  { apply Hskip, snapshot_levels_skip. right. rewrite El. by rewrite list_lookup_middle. }
  exists (PcMerge level ts_c ts_n todo), d, tbls. split.
  - rewrite Epc. at_section.
    by rewrite (bind_Ok _ _ _ _ _ (snapshot_levels_ok _ _ _ _ _ _ El Hl1 Hne)).
  - apply same_step; rewrite ?Epc; try done; cbn; [by left| |lia].
    exists pre, cur, [], next, post, ts_pre, [], ts_post. split; try done; by rewrite app_nil_r.
Qed.

(** The tables that a compaction has taken. *)
Lemma merging_tables level ts_c ts_n pre cur extra next post ts_pre ts_e ts_post :
  merging level d tbls ts_c ts_n pre cur extra next post ts_pre ts_e ts_post →
  Forall2 (Forall2 (table_of (dir d))) ts_pre pre ∧
  Forall2 (table_of (dir d)) (ts_c ++ ts_n) (cur ++ next) ∧
  Forall2 (table_of (dir d)) ts_e extra ∧
  Forall2 (Forall2 (table_of (dir d))) ts_post post ∧
  length next ≤ 1 ∧ total_weight (cur.*2 ++ next.*2) ≤ tables_weight tbls.
Proof using Hc.
  intros [[Hl1 Hl2] El Etb Hlc Hne].
  pose proof (ci_tables _ _ _ _ _ _ Hc) as [Htb _ Hdeep _ _ _].
  rewrite El, Etb in Htb. apply Forall2_app_inv in Htb as [Hpre Hrest]; [|lia].
  inversion Hrest as [|? ? ? ? Hce Hrest']; subst.
  inversion Hrest' as [|? ? ? ? Hn Hpost]; subst.
  apply Forall2_app_inv in Hce as [Hcur He]; [|done].
  split_and!; try done; [by apply Forall2_app| |].
  - destruct pre; cbn in Hdeep; [by inversion Hdeep|].
    apply Forall_app in Hdeep as [_ Hdeep]. inversion_clear Hdeep as [|? ? _ H2]. by inversion H2.
  - rewrite <-fmap_app, total_weight_tables. unfold tables_weight.
    rewrite history_at, !sum_list_with_app. lia.
Qed.

Lemma step_merge level ts_c ts_n todo :
  pc = PcMerge level ts_c ts_n todo → (Z.of_nat W ≤ 2 ^ 60)%Z → (N < u32_max)%Z →
  ∃ pc' d' tbls', section pc d = (Ok pc', d') ∧ step_ok d ts i pc tbls m W N d' pc' tbls'.
Proof using All.
  intros Epc HW HN. pose proof current_pc_ok as Hpc. rewrite Epc in Hpc.
  destruct Hpc as (pre & cur & extra & next & post & ts_pre & ts_e & ts_post & Hm).
  destruct (merging_tables _ _ _ _ _ _ _ _ _ _ _ Hm) as (_ & Hin & _ & _ & Hfew & Hw).
  pose proof (ci_next _ _ _ _ _ _ Hc). pose proof (ci_weight _ _ _ _ _ _ Hc).
  pose proof (ti_next _ _ (ci_tables _ _ _ _ _ _ Hc)) as Hn0.
  destruct (write_compacted_ok d ts_c ts_n cur next Hin (mg_len _ _ _ _ _ _ _ _ _ _ _ _ _ Hm)
    (mg_some _ _ _ _ _ _ _ _ _ _ _ _ _ Hm) Hfew) as (t & c & out & E & Ht & Hout & Hwt); [lia..|].
  eexists (PcSwap level ts_c ts_n t todo), _, tbls. split.
  { rewrite Epc. at_section. by erewrite bind_Ok by exact E. }
  eapply new_file_step; rewrite ?Epc; try done; [| |cbn; lia].
  - intros _. apply (ci_compaction _ _ _ _ _ _ Hc i pc Hi). by rewrite Epc.
  - exists pre, cur, extra, next, post, ts_pre, ts_e, ts_post, (next_sstable_id d), out.
    split; [|done]. by destruct Hm.
Qed.

Lemma step_swap level ts_c ts_n t todo :
  pc = PcSwap level ts_c ts_n t todo →
  ∃ pc' d' tbls', section pc d = (Ok pc', d') ∧ step_ok d ts i pc tbls m W N d' pc' tbls'.
Proof using All.
  intros Epc. pose proof current_pc_ok as Hpc. rewrite Epc in Hpc.
  destruct Hpc as (pre & cur & extra & next & post & ts_pre & ts_e & ts_post & id0 & out &
    Hm & Ht & Hout & Hwt).
  destruct (merging_tables _ _ _ _ _ _ _ _ _ _ _ Hm) as (Hpre & Hin & He & Hpost & Hfew & _).
  destruct Hm as [[Hl1 Hl2] El Etb Hlc Hne].
  destruct (ci_owned _ _ _ _ _ _ Hc i pc (file_name t) Hi) as (id & En & Hid & Hnew);
    [rewrite Epc; left|].
  assert (Ht' : table_of (dir d) t (id, out)) by (split; [done|apply Ht]). clear id0 Ht.
  pose proof (ci_tables _ _ _ _ _ _ Hc) as Hti0.
  set (tbls' := pre ++ extra :: [(id, out)] :: post) in *.
  assert (Hh : history tbls = history post ++ (next ++ cur ++ extra) ++ history pre)
    by by rewrite Etb, history_at.
  assert (Hh' : history tbls' = history post ++ ((id, out) :: extra) ++ history pre)
    by by unfold tbls'; rewrite history_at.
  assert (Hnewest : ∀ k, newest_in tbls' k = newest_in tbls k)
    by (intros k; rewrite Etb; by apply swapped_newest).
  assert (Hw : tables_weight tbls' ≤ tables_weight tbls)
    by (rewrite Etb; by apply swapped_weight).
  destruct (table_files _ _ _ Hin) as [Enames Hfiles].
  pose proof (ci_next _ _ _ _ _ _ Hc). pose proof (ci_weight _ _ _ _ _ _ Hc).
  eexists (PcRemove (file_name <$> ts_c ++ ts_n) todo), _, tbls'. split.
  { rewrite Epc. at_section. by erewrite bind_Ok by (by eapply swap_levels_ok). }
  split; rewrite ?Epc; unfold commands_weight; cbn [effect dir data log next_sstable_id upd
    upd_leveled_sstable foldl sum_list_with holds_data holds_compaction owned steps_left];
    try done; try lia.
  - pose proof (ti_next _ _ Hti0). eapply (tables_swap d); try done; cbn; lia.
  - rewrite Etb. unfold tbls'. rewrite !length_app. cbn. lia.
  - apply Hc.
  - destruct (ci_log _ _ _ _ _ _ Hc) as (cs & ? & ?). exists cs. split; [done|lia].
  - intros k. rewrite <-(ci_view _ _ _ _ _ _ Hc k). unfold view. by rewrite Hnewest.
  - split; [|done]. rewrite Enames. apply (taken_names _ _ _ _ _ _ _ Hti0 Etb).
  - split; [done|]. intros _. apply (ci_compaction _ _ _ _ _ _ Hc i pc Hi). by rewrite Epc.
  - intros name. rewrite Enames. intros (id' & -> & Hin')%list_elem_of_fmap.
    destruct (taken_ids _ _ _ _ _ _ _ _ Hti0 Etb Hin') as (T1 & T2 & T3).
    split; [|right; right; by exists id']. exists id'. split; [done|]. split; [done|].
    rewrite history_app, history_cons, !fmap_app, !elem_of_app in T3.
    rewrite Hh', !fmap_app. cbn [fmap list_fmap fst app]. rewrite elem_of_app, elem_of_cons, elem_of_app.
    intros [?|[->|?]]; [tauto|done|tauto].
  - intros id'. rewrite Hh', Hh, !fmap_app. cbn [fmap list_fmap fst app].
    rewrite !elem_of_app, elem_of_cons, elem_of_app. intros [?|[->|?]]; [tauto| |tauto].
    right. rewrite En. by apply list_elem_of_singleton.
  - by right.
  - left. apply (ci_compaction _ _ _ _ _ _ Hc i pc Hi). by rewrite Epc.
  - intros _ Hall. rewrite Nat.add_0_r.
    assert (tables_weight tbls + mem_weight (data d) ≤ W); [|lia].
    apply (ci_fresh _ _ _ _ _ _ Hc). intros j pcj Hj.
    destruct (decide (j = i)) as [->|Hne']; [|by apply (Hall j)].
    rewrite Hi in Hj. simplify_eq. done.
  - intros k. left. apply Hnewest.
Qed.

Lemma step_remove old_paths todo :
  pc = PcRemove old_paths todo →
  ∃ pc' d' tbls', section pc d = (Ok pc', d') ∧ step_ok d ts i pc tbls m W N d' pc' tbls'.
Proof using All.
  intros Epc. pose proof current_pc_ok as Hpc. rewrite Epc in Hpc. destruct Hpc as [Hnd Hex].
  destruct (remove_all_ok old_paths d Hnd Hex) as (fs & E & _ & Hkept).
  pose proof (ci_tables _ _ _ _ _ _ Hc) as Hti.
  pose proof (ci_next _ _ _ _ _ _ Hc). pose proof (ci_weight _ _ _ _ _ _ Hc).
  eexists (PcLevels todo), _, tbls. split.
  { rewrite Epc. at_section. erewrite bind_Ok by exact E. by erewrite bind_Ok by done. }
  split; rewrite ?Epc; unfold commands_weight; cbn [effect dir data log next_sstable_id upd
    upd_dir upd_total_compactions foldl sum_list_with holds_data holds_compaction owned steps_left];
    try done; try lia.
  - destruct Hti as [Htb ? ? ? ? ?]. split; try done. cbn [dir leveled_sstable upd upd_dir
      upd_total_compactions]. eapply tables_frame; [done|]. intros id Hin. apply Hkept.
    intros Ho. destruct (ci_owned _ _ _ _ _ _ Hc i pc (sst_name id) Hi) as (id' & E' & Hid & Hnew);
      [by rewrite Epc|]. pose proof (ci_tables _ _ _ _ _ _ Hc) as Hti.
    apply sst_name_inj in E'; [by subst|by eapply in_u32_id|].
    unfold in_u32, in_u, u32_max in *. lia.
  - apply Hc.
  - destruct (ci_log _ _ _ _ _ _ Hc) as (cs & ? & ?). exists cs. split; [done|lia].
  - apply Hc.
  - split; [done|]. intros _. apply (ci_compaction _ _ _ _ _ _ Hc i pc Hi). by rewrite Epc.
  - by intros ? ?%elem_of_nil.
  - by left.
  - intros name Hn _. by apply Hkept.
  - by right.
  - left. apply (ci_compaction _ _ _ _ _ _ Hc i pc Hi). by rewrite Epc.
  - intros _ Hall. rewrite Nat.add_0_r. apply (ci_fresh _ _ _ _ _ _ Hc). intros j pcj Hj.
    destruct (decide (j = i)) as [->|Hne']; [|by apply (Hall j)].
    rewrite Hi in Hj. by simplify_eq.
  - by left.
Qed.

(** ** get *)

Lemma step_get_data key :
  pc = PcGetData key →
  ∃ pc' d' tbls', section pc d = (Ok pc', d') ∧ step_ok d ts i pc tbls m W N d' pc' tbls'.
Proof using All.
  intros Epc. pose proof (ci_view _ _ _ _ _ _ Hc key) as Hv. unfold view in Hv.
  eexists _, d, tbls. split; [by rewrite Epc|].
  destruct (data d !! key) as [e|] eqn:E; apply same_step; rewrite ?Epc; try done; cbn; try lia.
  - by eexists.
  - right. by rewrite <-Hv.
  - left. split; [done|exact Hv].
Qed.

Lemma step_get_levels key :
  pc = PcGetLevels key →
  ∃ pc' d' tbls', section pc d = (Ok pc', d') ∧ step_ok d ts i pc tbls m W N d' pc' tbls'.
Proof using All.
  intros Epc. pose proof (ci_tables _ _ _ _ _ _ Hc) as Hti.
  exists (PcDone (Ok (newest_in tbls key ≫= entry_value))), d, tbls. split.
  - rewrite Epc. at_section. erewrite bind_Ok by done. rewrite join_reverse_levels.
    erewrite bind_Ok by (apply zoom_Ok, search_ok, Forall2_history, Hti). by destruct d.
  - apply same_step; rewrite ?Epc; try done; cbn; try lia. by eexists.
Qed.

End steps.

(** Every step ends well and keeps its guarantees. *)
Lemma step_of_thread `{HT : F64Text} `{HM : F64Math} `{HX : Xxh3}
    `{!F64TextLaws HT} `{!F64MathLaws HM} `{!BloomDims} d ts i pc tbls m W N :
  cinv d ts tbls m W N → ts !! i = Some pc →
  is_done pc = false → free ts i pc → (Z.of_nat W ≤ 2 ^ 60)%Z → (N < u32_max)%Z →
  ∃ pc' d' tbls', section pc d = (Ok pc', d') ∧ step_ok d ts i pc tbls m W N d' pc' tbls'.
Proof.
  intros Hc Hi Hd Hfree HW HN. destruct pc; [..|done].
  - destruct (step_log Hc Hi _ eq_refl HN) as (d' & tbls' & ?). eauto.
  - destruct (step_data Hc Hi _ eq_refl Hfree) as (d' & tbls' & ?). eauto.
  - by apply (step_check_flush Hc Hi).
  - by apply (step_flush Hc Hi).
  - destruct (step_publish Hc Hi _ eq_refl) as (d' & tbls' & ?). eauto.
  - destruct (step_truncate Hc Hi eq_refl) as (d' & tbls' & ?). eauto.
  - destruct (step_clear Hc Hi eq_refl) as (d' & tbls' & ?). eauto.
  - by apply (step_check_compact Hc Hi).
  - by eapply (step_levels Hc Hi).
  - by eapply (step_snapshot Hc Hi).
  - by eapply (step_merge Hc Hi).
  - by eapply (step_swap Hc Hi).
  - by eapply (step_remove Hc Hi).
  - by eapply (step_get_data Hc Hi).
  - by eapply (step_get_levels Hc Hi).
Qed.
