(* ===== verification/ConcurrentSpec.v ===== *)
(** What threads that share a database can count on: a thread alone runs the
    operations of [Database.v]; the threads see one map; every call ends, and
    no two of them wait for each other. And what they cannot: the log and the
    memtable are locked one after the other. *)

From S2P Require Import Prelude Bytes Float LogRecord Logger Format Bloom Index.
From S2P Require Import SSTable SSTableSpec Heap Merge MergeSpec Database DatabaseSpec.
From S2P Require Import DatabaseRefine Concurrent ConcurrentInv ConcurrentStep.

(** * One thread alone *)

Section alone.
Context `{HT : F64Text} `{HM : F64Math} `{HX : Xxh3}.

Definition perform (call : Call) : M Database (option Value) :=
  match call with
  | CallWrite c => write c;; mret None
  | CallGet key => get key
  end.

Definition compact_rest (todo : list (nat * bool)) : M Database (option Value) :=
  for_each todo (λ '(level, should), when should (compact_level level));; mret None.

Definition remove_rest (old_paths : list bytes) (todo : list (nat * bool))
    : M Database (option Value) :=
  remove_files old_paths;;
  modify (λ d, d <| total_compactions := wrap 64 (total_compactions d + 1) |>);;
  compact_rest todo.

Definition swap_rest (level : nat) (cur next : list SSTable) (t : SSTable)
    (todo : list (nat * bool)) : M Database (option Value) :=
  b ← swap_levels level (length cur) (length next) t;
  if b : bool then remove_rest (file_name <$> cur ++ next) todo else compact_rest todo.

(** What is left of the operation at a place, in the words of [Database.v]. *)
Definition finish (pc : Pc) : M Database (option Value) :=
  match pc with
  | PcLog c => write c;; mret None
  | PcData c =>
      modify (λ d, d <| data := replay (data d) c |>);;
      maybe_flush;; maybe_compact;; mret None
  | PcCheckFlush => maybe_flush;; maybe_compact;; mret None
  | PcFlush => flush_memory_to_disk;; maybe_compact;; mret None
  | PcPublish sstable => flush_publish sstable;; maybe_compact;; mret None
  | PcTruncate =>
      zoom log truncate;; modify (λ d, d <| data := ∅ |>);; maybe_compact;; mret None
  | PcClear => modify (λ d, d <| data := ∅ |>);; maybe_compact;; mret None
  | PcCheckCompact => maybe_compact;; mret None
  | PcLevels todo => compact_rest todo
  | PcSnapshot level todo => compact_level level;; compact_rest todo
  | PcMerge level cur next todo => t ← write_compacted cur next; swap_rest level cur next t todo
  | PcSwap level cur next t todo => swap_rest level cur next t todo
  | PcRemove old_paths todo => remove_rest old_paths todo
  | PcGetData key => get key
  | PcGetLevels key =>
      d ← Prelude.get;
      o ← zoom dir (search (mjoin (reverse <$> leveled_sstable d)) key);
      mret (o ≫= entry_value)
  | PcDone r => lift r
  end.

Lemma bind_cong {S A B} (m : M S A) (k k' : A → M S B) s :
  (∀ a s', k a s' = k' a s') → (m ≫= k) s = (m ≫= k') s.
Proof using Type. intros H. rewrite !bind_eq. by destruct (m s) as [[] ?]. Qed.

Lemma bind_assoc {S A B C} (m : M S A) (k : A → M S B) (l : B → M S C) s :
  ((m ≫= k) ≫= l) s = (m ≫= λ a, k a ≫= l) s.
Proof using Type. rewrite !bind_eq. by destruct (m s) as [[] ?]. Qed.

Lemma ret_bind {S A B} (a : A) (k : A → M S B) s : (mret a ≫= k) s = k a s.
Proof using Type. done. Qed.

(** The sections of an operation, one after the other, are the operation. *)
Lemma finish_section pc d :
  is_done pc = false → finish pc d = (section pc ≫= finish) d.
Proof using Type.
  intros Hd. destruct pc; [..|done]; cbn [finish]; at_section.
  - rewrite (bind_assoc (zoom log _)). by destruct c; cbn [write]; unfold insert, Database.delete;
      rewrite !bind_assoc; apply bind_cong; intros _ s; rewrite (ret_bind (PcData _)); cbn [finish replay];
      rewrite !bind_assoc; apply bind_cong; intros _ s1; rewrite !bind_assoc.
  - by rewrite bind_assoc.
  - unfold maybe_flush. rewrite !bind_assoc. apply bind_cong. intros a s. by case_bool_decide.
  - unfold flush_memory_to_disk. rewrite !bind_assoc. apply bind_cong. intros [t|] s; [|done].
    done.
  - unfold flush_publish. rewrite !bind_assoc. apply bind_cong.
    intros [|l0 ls] s; [done|]. cbn [finish]. rewrite !bind_assoc.
    apply bind_cong. intros _ s1. by rewrite bind_assoc.
  - by rewrite !bind_assoc.
  - by rewrite bind_assoc.
  - unfold maybe_compact. rewrite !bind_assoc. apply bind_cong. intros levels s.
    case_decide; [done|]. rewrite !bind_assoc. by apply bind_cong.
  - destruct todo as [|[level [|]] todo]; [done| |done].
    unfold compact_rest. cbn [for_each when]. by rewrite bind_assoc.
  - unfold compact_level, compact_publish. rewrite !bind_assoc. apply bind_cong.
    intros [[cur next]|] s; [|done]. rewrite (ret_bind (PcMerge _ _ _ _)). cbn [finish].
    rewrite !bind_assoc. apply bind_cong. intros t s1.
    unfold swap_rest. rewrite !bind_assoc. apply bind_cong. intros [|] s2; [|done].
    unfold remove_rest. rewrite ret_bind, !bind_assoc. by apply bind_cong.
  - rewrite !bind_assoc. by apply bind_cong.
  - unfold swap_rest. rewrite !bind_assoc. apply bind_cong. by intros [|] s.
  - unfold remove_rest. rewrite !bind_assoc. apply bind_cong. intros _ s. by rewrite !bind_assoc.
  - unfold get. rewrite bind_assoc, !(bind_Ok Prelude.get _ d d d eq_refl).
    by destruct (data d !! key).
  - rewrite !bind_assoc. apply bind_cong. intros a s. by rewrite !bind_assoc.
Qed.

(** How a run of [run_alone] ended ([None]: it ran out of fuel). *)
Definition ended (x : res Pc * Database) : option (res (option Value) * Database) :=
  match x with
  | (Ok (PcDone r), d) => Some (r, d)
  | (Ok _, _) => None
  | (Err e, d) => Some (Err e, d)
  | (Panic p, d) => Some (Panic p, d)
  end.

Definition settles (pc : Pc) (d : Database) : Prop :=
  ∃ fuel, ended (run_alone fuel pc d) = Some (finish pc d).

Lemma settles_section pc d :
  (∀ pc' d', section pc d = (Ok pc', d') → settles pc' d') → settles pc d.
Proof using Type.
  destruct (is_done pc) eqn:Hd; [exists 0; by destruct pc|]. intros Hs.
  destruct (section pc d) as [[pc'|e|p] d'] eqn:E.
  - destruct (Hs pc' d' eq_refl) as (fuel & Hf). exists (S fuel). cbn [run_alone]. rewrite Hd.
    by rewrite (bind_Ok _ _ _ _ _ E), (finish_section pc d Hd), (bind_Ok _ _ _ _ _ E).
  - exists 1. cbn [run_alone]. by rewrite Hd, (finish_section pc d Hd), !bind_eq, E.
  - exists 1. cbn [run_alone]. by rewrite Hd, (finish_section pc d Hd), !bind_eq, E.
Qed.

(** Where a thread is after a section. *)
Lemma section_next pc d pc' d' :
  section pc d = (Ok pc', d') →
  match pc with
  | PcLog c => pc' = PcData c
  | PcData _ => pc' = PcCheckFlush
  | PcCheckFlush => pc' = PcFlush ∨ pc' = PcCheckCompact
  | PcFlush => (∃ t, pc' = PcPublish t) ∨ pc' = PcCheckCompact
  | PcPublish _ => pc' = PcTruncate ∨ pc' = PcCheckCompact
  | PcTruncate => pc' = PcClear
  | PcClear => pc' = PcCheckCompact
  | PcCheckCompact => (∃ todo, pc' = PcLevels todo) ∨ ∃ r, pc' = PcDone r
  | PcLevels [] | PcGetLevels _ => ∃ r, pc' = PcDone r
  | PcLevels ((level, should) :: todo) => pc' = if should then PcSnapshot level todo else PcLevels todo
  | PcSnapshot level todo => (∃ cur next, pc' = PcMerge level cur next todo) ∨ pc' = PcLevels todo
  | PcMerge level cur next todo => ∃ t, pc' = PcSwap level cur next t todo
  | PcSwap _ _ _ _ todo => (∃ paths, pc' = PcRemove paths todo) ∨ pc' = PcLevels todo
  | PcRemove _ todo => pc' = PcLevels todo
  | PcGetData key => pc' = PcGetLevels key ∨ ∃ r, pc' = PcDone r
  | PcDone _ => pc' = pc
  end.
Proof using Type.
  destruct pc; at_section; rewrite ?bind_eq; intros E;
    repeat (case_match || rewrite bind_eq in E); simplify_eq; eauto;
    unfold gets, Prelude.get, modify, mret, M_ret in *; simplify_eq; eauto.
Qed.

Lemma settles_done r d : settles (PcDone r) d.
Proof using Type. by exists 0. Qed.

Ltac section_of :=
  apply settles_section; intros ? ? E%section_next; cbn in E; destruct_or? E;
  repeat match type of E with ∃ _, _ => destruct E as [? E] end; subst; eauto using settles_done.

Lemma settles_levels todo d : settles (PcLevels todo) d.
Proof using Type.
  revert d. induction todo as [|[level [|]] todo IH]; intros d; section_of.
  section_of. section_of. section_of. section_of.
Qed.

Lemma settles_check_compact d : settles PcCheckCompact d.
Proof using Type. section_of. apply settles_levels. Qed.

Lemma settles_check_flush d : settles PcCheckFlush d.
Proof using Type.
  section_of; [|apply settles_check_compact]. section_of; [|apply settles_check_compact].
  section_of; [|apply settles_check_compact]. section_of. section_of.
  apply settles_check_compact.
Qed.

(** Whatever the database looks like, a thread that runs alone does what the
    operations of [Database.v] do, errors included. *)
Theorem alone_is_sequential call d :
  ∃ fuel, ended (run_alone fuel (start_pc call) d) = Some (perform call d).
Proof using Type.
  destruct call as [c|key].
  - change (settles (PcLog c) d). section_of. section_of. apply settles_check_flush.
  - change (settles (PcGetData key) d). section_of. section_of.
Qed.

End alone.

(** * Runs *)

(** The writes of a run, in the order in which they reached the memtable. *)
Definition commands_of (tr : list Label) : list Command :=
  tr ≫= λ l, match l with Called _ _ => [] | Ran _ pc => effect pc end.

(** Those of one thread, and the number of its steps. *)
Definition writes_by (i : nat) (tr : list Label) : list Command :=
  tr ≫= λ l, match l with
             | Called _ _ => []
             | Ran j pc => if decide (j = i) then effect pc else []
             end.
Definition steps_by (i : nat) (tr : list Label) : nat :=
  sum_list_with (λ l, match l with
                      | Called _ _ => 0
                      | Ran j _ => if decide (j = i) then 1 else 0
                      end) tr.

(** What the map holds after a run. *)
Definition map_of (m : gmap str Value) (tr : list Label) : gmap str Value :=
  foldl apply_command m (commands_of tr).

(** [Called i call] is the last call of the thread [i] in the run. *)
Definition last_call (i : nat) (call : Call) (before after tr : list Label) : Prop :=
  tr = before ++ Called i call :: after ∧ ∀ call', Called i call' ∉ after.

(** At some moment since the call, [key] had the value [v]. *)
Definition seen (m : gmap str Value) (before after : list Label) (key : str)
    (v : option Value) : Prop :=
  ∃ after1 after2, after = after1 ++ after2 ∧ v = map_of m (before ++ after1) !! key.

(** How far a call is. *)
Definition call_ok (m : gmap str Value) (tbls : Tables) (i : nat) (call : Call)
    (before after : list Label) (pc : Pc) : Prop :=
  match call with
  | CallWrite c =>
      match pc with
      | PcLog c' | PcData c' => c' = c ∧ writes_by i after = []
      | PcGetData _ | PcGetLevels _ => False
      | _ => writes_by i after = [c]
      end
  | CallGet key =>
      match pc with
      | PcGetData key' => key' = key
      | PcGetLevels key' => key' = key ∧ seen m before after key (newest_in tbls key ≫= entry_value)
      | PcDone r => ∃ v, r = Ok v ∧ seen m before after key v
      | _ => False
      end
  end.

Definition trace_ok (m : gmap str Value) (tbls : Tables) (ts : gmap nat Pc)
    (tr : list Label) : Prop :=
  ∀ i call before after, last_call i call before after tr →
    ∃ pc, ts !! i = Some pc ∧ call_ok m tbls i call before after pc ∧
      steps_by i after + steps_left (length tbls) pc ≤ 5 * length tbls + 9.

Section runs.
Context `{HT : F64Text} `{HM : F64Math} `{HX : Xxh3}
  `{!F64TextLaws HT} `{!F64MathLaws HM} `{!BloomDims}.

Lemma commands_of_snoc tr l :
  commands_of (tr ++ [l]) =
  commands_of tr ++ match l with Called _ _ => [] | Ran _ pc => effect pc end.
Proof using Type. unfold commands_of. rewrite bind_app. cbn. by rewrite app_nil_r. Qed.

Lemma writes_by_snoc i tr l :
  writes_by i (tr ++ [l]) = writes_by i tr ++
    match l with Called _ _ => [] | Ran j pc => if decide (j = i) then effect pc else [] end.
Proof using Type. unfold writes_by. rewrite bind_app. cbn. by rewrite app_nil_r. Qed.

Lemma steps_by_snoc i tr l :
  steps_by i (tr ++ [l]) = steps_by i tr +
    match l with Called _ _ => 0 | Ran j _ => if decide (j = i) then 1 else 0 end.
Proof using Type. unfold steps_by. rewrite sum_list_with_app. cbn. lia. Qed.

Lemma map_of_call m before after i call :
  map_of m (before ++ Called i call :: after) = map_of m (before ++ after).
Proof using Type. unfold map_of, commands_of. by rewrite !bind_app. Qed.

(** The last call of a run that goes one step further. *)
Lemma last_call_snoc i call before after tr l :
  last_call i call before after (tr ++ [l]) →
  (l = Called i call ∧ before = tr ∧ after = []) ∨
  (∃ after', after = after' ++ [l] ∧ last_call i call before after' tr ∧
   ∀ call', l ≠ Called i call').
Proof using Type.
  intros [E Hno]. destruct (exists_last (l := Called i call :: after)) as (x & y & Ex); [done|].
  rewrite Ex, app_assoc in E. apply app_inj_tail in E as [-> <-].
  destruct x as [|z x]; cbn in Ex; simplify_eq.
  - left. by rewrite app_nil_r.
  - right. exists x. split; [done|]. split; [split; [done|]|].
    + intros call' Hin. apply (Hno call'). apply elem_of_app. by left.
    + intros call' ->. apply (Hno call'). apply elem_of_app. right. left.
Qed.

Lemma seen_snoc m before after key v l :
  seen m before after key v → seen m before (after ++ [l]) key v.
Proof using Type.
  intros (a1 & a2 & -> & ->). exists a1, (a2 ++ [l]). by rewrite app_assoc.
Qed.

Lemma seen_now m before after key tr i call :
  last_call i call before after tr → seen m before after key (map_of m tr !! key).
Proof using Type.
  intros [-> _]. exists after, []. rewrite app_nil_r. by rewrite map_of_call.
Qed.

(** The same for a value that a table gave: if a flush changed it, then to what
    the map holds now. *)
Lemma seen_newest m tbls tbls' before after key tr i call l :
  last_call i call before after tr →
  newest_in tbls' key = newest_in tbls key ∨
    newest_in tbls' key ≫= entry_value = map_of m tr !! key →
  seen m before after key (newest_in tbls key ≫= entry_value) →
  seen m before (after ++ [l]) key (newest_in tbls' key ≫= entry_value).
Proof using Type.
  intros Hl [->| ->] Hs; apply seen_snoc; [done|]. by eapply seen_now.
Qed.

Lemma call_ok_written m tbls i c before after pc :
  written pc = true → call_ok m tbls i (CallWrite c) before after pc ↔ writes_by i after = [c].
Proof using Type. by destruct pc. Qed.

(** A call does not notice the steps of other threads, *)
Lemma call_ok_other m tbls tbls' i call before after pc tr l :
  last_call i call before after tr → writes_by i (after ++ [l]) = writes_by i after →
  (∀ key, newest_in tbls' key = newest_in tbls key ∨
          newest_in tbls' key ≫= entry_value = map_of m tr !! key) →
  call_ok m tbls i call before after pc →
  call_ok m tbls' i call before (after ++ [l]) pc.
Proof using Type.
  intros Hl Hw Hr. destruct call as [c|key]; cbn [call_ok].
  - rewrite Hw. by destruct pc.
  - destruct pc; try done.
    + intros [-> Hs]. split; [done|]. by eapply seen_newest.
    + intros (v & -> & Hs). exists v. split; [done|]. by apply seen_snoc.
Qed.

(** and gets on with its own. *)
Lemma call_ok_own m d ts i pc tbls tr W N d' pc' tbls' call before after :
  last_call i call before after tr → is_done pc = false →
  step_ok d ts i pc tbls (map_of m tr) W N d' pc' tbls' →
  call_ok m tbls i call before after pc →
  call_ok m tbls' i call before (after ++ [Ran i pc]) pc'.
Proof using Type.
  intros Hl Hd [_ _ _ _ _ _ _ Hout _ _ _ _ _ _ _ _ _ Hr] Hok.
  assert (Hw : writes_by i (after ++ [Ran i pc]) = writes_by i after ++ effect pc)
    by by rewrite writes_by_snoc, decide_True.
  destruct call as [c|key].
  - destruct (written pc) eqn:Hwr.
    + apply call_ok_written in Hok; [|done]. apply call_ok_written; [by destruct pc|].
      rewrite Hw, Hok. by destruct pc.
    + destruct pc as [c'|c'| | | | | | | | | | | | | |]; cbn in Hok, Hout; try done;
        destruct Hok as [-> Hok].
      * subst pc'. cbn. split; [done|]. by rewrite Hw, Hok.
      * apply call_ok_written; [done|]. by rewrite Hw, Hok.
  - destruct pc as [| | | | | | | | | | | | |key'|key'|]; cbn in Hok, Hout; try done.
    + subst key'. destruct Hout as [[-> E]| ->]; cbn.
      * split; [done|]. eapply seen_newest; [done|apply Hr|]. rewrite E. by eapply seen_now.
      * eexists. split; [done|]. apply seen_snoc. by eapply seen_now.
    + destruct Hok as [-> Hs]. subst pc'. cbn. eexists. split; [done|]. by apply seen_snoc.
Qed.

Lemma trace_call m tbls ts tr i call :
  trace_ok m tbls ts tr → trace_ok m tbls (<[i := start_pc call]> ts) (tr ++ [Called i call]).
Proof using Type.
  intros Ht j call' before after [(E & -> & ->)|(after' & -> & Hl & Hne)]%last_call_snoc.
  - simplify_eq. exists (start_pc call'). rewrite lookup_insert_eq. split; [done|].
    destruct call'; cbn; split; (done || lia).
  - assert (i ≠ j) as Hij by (intros ->; by destruct (Hne call)).
    destruct (Ht j call' before after' Hl) as (pc & Hj & Hok & Hn).
    exists pc. rewrite lookup_insert_ne by done. split; [done|]. split.
    + eapply call_ok_other; [done| |by left|done]. by rewrite writes_by_snoc, app_nil_r.
    + rewrite steps_by_snoc. lia.
Qed.

Lemma trace_run m d ts i pc tbls tr W N d' pc' tbls' :
  trace_ok m tbls ts tr → ts !! i = Some pc → is_done pc = false →
  step_ok d ts i pc tbls (map_of m tr) W N d' pc' tbls' →
  trace_ok m tbls' (<[i := pc']> ts) (tr ++ [Ran i pc]).
Proof using Type.
  intros Ht Hi Hd Hs j call before after [(E & _)|(after' & -> & Hl & _)]%last_call_snoc; [done|].
  destruct (Ht j call before after' Hl) as (pc0 & Hj & Hok & Hn).
  rewrite (so_length _ _ _ _ _ _ _ _ _ _ _ Hs), steps_by_snoc.
  destruct (decide (i = j)) as [->|Hij].
  - rewrite Hi in Hj. simplify_eq. exists pc'. rewrite lookup_insert_eq. split; [done|]. split.
    + by eapply call_ok_own.
    + pose proof (so_measure _ _ _ _ _ _ _ _ _ _ _ Hs). lia.
  - exists pc0. rewrite lookup_insert_ne by done. split; [done|]. split; [|lia].
    eapply call_ok_other; [done| |apply Hs|done].
    by rewrite writes_by_snoc, decide_False, app_nil_r.
Qed.

(** ** The invariant of a run *)

(** A database at rest holds a map. *)
Lemma cinv_start d m W N :
  db_rel d m W N → ∃ tbls, cinv d ∅ tbls m W N ∧ length tbls = length (leveled_sstable d).
Proof using All.
  intros (cs & tbls & Hd & Hv & Hw & Hn & Hcs & _). exists tbls. split.
  - pose proof (db_inv_tables _ _ _ Hd). split; try done; try lia.
    + by eapply db_inv_entries.
    + exists cs. split; [apply Hd|done].
  - symmetry. eapply Forall2_length, Hd.
Qed.

Lemma run_inv d0 m W N tr s :
  db_rel d0 m W N → csteps (MkSystem d0 ∅) tr s →
  (Z.of_nat (W + commands_weight (commands_of tr)) ≤ 2 ^ 60)%Z →
  (N + Z.of_nat (length tr) ≤ u32_max)%Z →
  ∃ tbls, cinv (sys_db s) (sys_threads s) tbls (map_of m tr)
      (W + commands_weight (commands_of tr)) (N + Z.of_nat (length tr)) ∧
    length tbls = length (leveled_sstable d0) ∧ trace_ok m tbls (sys_threads s) tr.
Proof using All.
  intros Hd0 Hrun. remember (MkSystem d0 ∅) as s0 eqn:Es0.
  induction Hrun as [s|s tr s1 l s2 Hrun IH Hstep]; intros HW HN; subst.
  { destruct (cinv_start d0 m W N Hd0) as (tbls & Hc & Hl). exists tbls. cbn.
    unfold commands_weight. cbn. rewrite Nat.add_0_r, Z.add_0_r. split_and!; try done.
    intros i call before after [E _]. by destruct before. }
  rewrite commands_of_snoc in HW |- *. rewrite length_app in HN |- *. cbn [length] in HN |- *.
  unfold commands_weight in HW |- *. rewrite sum_list_with_app in HW |- *.
  destruct IH as (tbls & Hc & Hl & Ht); [done|unfold commands_weight; lia|lia|].
  replace (map_of m (tr ++ [l])) with (foldl apply_command (map_of m tr)
    match l with Called _ _ => [] | Ran _ pc => effect pc end)
    by by unfold map_of; rewrite commands_of_snoc, foldl_app.
  rewrite Nat2Z.inj_add, Z.add_assoc, Nat.add_assoc.
  inversion Hstep as [d ts i call Hi Hok|d ts i pc r d' Hi Hd Hfree E]; subst; cbn in *.
  - exists tbls. rewrite Nat.add_0_r. split; [by apply cinv_call|]. split; [done|].
    by apply trace_call.
  - destruct (step_of_thread _ _ _ _ _ _ _ _ Hc Hi Hd Hfree) as (pc' & d1 & tbls' & E' & Hs);
      [unfold commands_weight; lia|lia|].
    rewrite E in E'. simplify_eq. cbn. exists tbls'. split; [by eapply cinv_run|].
    split; [by rewrite <-Hl, <-(so_length _ _ _ _ _ _ _ _ _ _ _ Hs)|]. by eapply trace_run.
Qed.

End runs.

(** * Schedules *)

(** What happens next. *)
Inductive Move : Type := Start (i : nat) (call : Call) | Go (i : nat).

Definition freeb (ts : gmap nat Pc) (i : nat) (pc : Pc) : bool :=
  forallb (λ '(j, pc'), bool_decide (j = i) ||
    (negb (wants_data pc && holds_data pc') &&
     negb (wants_compaction pc && holds_compaction pc'))) (map_to_list ts).

Section schedules.
Context `{HT : F64Text} `{HM : F64Math} `{HX : Xxh3}.

Definition move_ok (mv : Move) : Prop :=
  match mv with Start _ (CallWrite c) => command_ok c | _ => True end.

Definition move (mv : Move) (s : System) : option (Label * System) :=
  let '(MkSystem d ts) := s in
  match mv with
  | Start i call =>
      if from_option is_done true (ts !! i)
      then Some (Called i call, MkSystem d (<[i := start_pc call]> ts)) else None
  | Go i =>
      pc ← ts !! i;
      if negb (is_done pc) && freeb ts i pc
      then let '(r, d') := section pc d in Some (Ran i pc, MkSystem d' (<[i := next_pc r]> ts))
      else None
  end.

Fixpoint run_moves (ms : list Move) (tr : list Label) (s : System)
    : option (list Label * System) :=
  match ms with
  | [] => Some (tr, s)
  | mv :: ms' => '(l, s') ← move mv s; run_moves ms' (tr ++ [l]) s'
  end.

Lemma freeb_spec ts i pc : freeb ts i pc = true → free ts i pc.
Proof using Type.
  unfold freeb. rewrite forallb_forall. intros Hf j pc' Hj Hne.
  specialize (Hf (j, pc')). cbn in Hf. rewrite bool_decide_false in Hf by done. cbn in Hf.
  rewrite andb_true_iff, !negb_true_iff, !andb_false_iff in Hf.
  destruct Hf as [Hd Hcp]; [by apply list_elem_of_In, elem_of_map_to_list|].
  split; intros Hw; rewrite Hw in *; naive_solver.
Qed.

Lemma move_cstep mv s l s' : move mv s = Some (l, s') → move_ok mv → cstep s l s'.
Proof using Type.
  destruct s as [d ts], mv as [i call|i]; cbn; intros E Hok.
  - destruct (from_option _ _ _) eqn:Hi; [|done]. simplify_eq. constructor.
    + intros pc Hpc. by rewrite Hpc in Hi.
    + by destruct call.
  - apply bind_Some in E as (pc & Hi & E).
    destruct (is_done pc) eqn:Hd; [done|]. cbn in E.
    destruct (freeb ts i pc) eqn:Hf; [|done]. destruct (section pc d) as [r d'] eqn:Es.
    simplify_eq. constructor; try done. by apply freeb_spec.
Qed.

Lemma run_moves_csteps ms s0 tr s tr' s' :
  csteps s0 tr s → Forall move_ok ms → run_moves ms tr s = Some (tr', s') → csteps s0 tr' s'.
Proof using Type.
  intros Hrun Hms. revert tr s Hrun.
  induction Hms as [|mv ms Hmv _ IH]; intros tr s Hrun E; cbn in E; [by simplify_eq|].
  apply bind_Some in E as ([l s1] & Em & E). eapply IH; [|exact E].
  econstructor; [done|]. by eapply move_cstep.
Qed.

(** Run the schedule in a new directory, then restart on what is on disk:
    where the threads are, and what a key reads as before and after. *)
Definition crash_test (cfg : Config) (ms : list Move) (key : str)
    : option (list (nat * Pc) * res (option Value) * res (option Value)) :=
  match open_in_dir cfg ∅ with
  | (Ok d0, _) =>
      '(_, s) ← run_moves ms [] (MkSystem d0 ∅);
      match open_in_dir cfg (dir_of (sys_db s)) with
      | (Ok d', _) =>
          Some (map_to_list (sys_threads s), fst (get key (sys_db s)), fst (get key d'))
      | _ => None
      end
  | _ => None
  end.

Lemma crash_test_run cfg ms key threads before after :
  Forall move_ok ms → crash_test cfg ms key = Some (threads, before, after) →
  ∃ d0 fs tr d ts d' fs', open_in_dir cfg ∅ = (Ok d0, fs) ∧
    csteps (MkSystem d0 ∅) tr (MkSystem d ts) ∧ map_to_list ts = threads ∧
    fst (get key d) = before ∧
    open_in_dir cfg (dir_of d) = (Ok d', fs') ∧ fst (get key d') = after.
Proof using Type.
  intros Hms. unfold crash_test. destruct (open_in_dir cfg ∅) as [[d0|e|p] fs] eqn:E0; [|done..].
  intros ([tr s] & Er & E)%bind_Some. destruct s as [d ts]. cbn -[dir_of] in E.
  destruct (open_in_dir cfg (dir_of d)) as [[d'|e|p] fs'] eqn:E1; [|done..]. simplify_eq.
  exists d0, fs, tr, d, ts, d', fs'. split_and!; try done.
  eapply run_moves_csteps; [apply csteps_refl|done|exact Er].
Qed.

End schedules.

(** * Properties *)

Section properties.
Context `{HT : F64Text} `{HM : F64Math} `{HX : Xxh3}
  `{!F64TextLaws HT} `{!F64MathLaws HM} `{!BloomDims}.

(** Threads on a database that was opened on the directory of earlier runs
    [ss] of the program; the limits are as for those. *)
Record threads_run (ss : list (Config * list Command)) (cfg : Config)
    (m0 : gmap str Value) (d0 : Database) (tr : list Label) (d : Database)
    (ts : gmap nat Pc) : Prop := {
  tr_sessions : Forall (λ s, config_ok s.1 ∧ Forall command_ok s.2) ss;
  tr_levels : cfg_sstable_level cfg ≠ 0;
  tr_map : m0 = foldl apply_command ∅ (mjoin ss.*2);
  tr_open : ∃ fs fs', run_sessions ss ∅ = (Ok (), fs) ∧ open_in_dir cfg fs = (Ok d0, fs');
  tr_steps : csteps (MkSystem d0 ∅) tr (MkSystem d ts);
  tr_weight : (Z.of_nat (sum_list_with (λ s, commands_weight s.2) ss +
                 commands_weight (commands_of tr)) ≤ 2 ^ 60)%Z;
  tr_tables : (Z.of_nat (sum_list_with session_tables ss + length tr) ≤ u32_max)%Z;
}.

Lemma threads_run_inv ss cfg m0 d0 tr d ts :
  threads_run ss cfg m0 d0 tr d ts →
  ∃ tbls W N, cinv d ts tbls (map_of m0 tr) W N ∧
    length tbls = cfg_sstable_level cfg ∧ trace_ok m0 tbls ts tr.
Proof using All.
  intros [Hss Hlev -> (fs & fs' & E & Eo) Hrun HW HN].
  destruct (run_sessions_ok ss ∅ ∅ 0 0 disk_rel_empty Hss) as (fs1 & E1 & Hfs); [lia|lia|].
  rewrite E in E1. simplify_eq.
  destruct (disk_rel_open cfg fs1 _ _ _ Hfs Hlev) as (d1 & Ed & Hd & Hl & _).
  rewrite Eo in Ed. simplify_eq.
  destruct (run_inv _ _ _ _ _ _ Hd Hrun) as (tbls & Hc & Hlen & Ht); [lia|lia|].
  exists tbls. do 2 eexists. split; [exact Hc|]. split; [by rewrite Hlen|done].
Qed.

(** C10: However the threads interleave, no call fails, a write reaches the map
    exactly once between its call and its return, a get returns what the map
    held at a moment between its call and its return, and a get that runs
    now on its own reads the map. *)
Theorem database_linearizable ss cfg m0 d0 tr d ts :
  threads_run ss cfg m0 d0 tr d ts →
  (∀ i call before after r, last_call i call before after tr → ts !! i = Some (PcDone r) →
     match call with
     | CallWrite c => is_Ok r = true ∧ writes_by i after = [c]
     | CallGet key => ∃ after1 after2, after = after1 ++ after2 ∧
         r = Ok (map_of m0 (before ++ after1) !! key)
     end) ∧
  ∀ key, get key d = (Ok (map_of m0 tr !! key), d).
Proof using All.
  intros Hrun. destruct (threads_run_inv _ _ _ _ _ _ _ Hrun) as (tbls & W & N & Hc & _ & Ht).
  split.
  - intros i call before after r Hl Hi. destruct (Ht i call before after Hl) as (pc & Hpc & Hok & _).
    rewrite Hi in Hpc. simplify_eq. destruct call as [c|key]; cbn in Hok.
    + destruct (ci_pcs _ _ _ _ _ _ Hc i _ Hi) as (o & ->). by split.
    + destruct Hok as (v & -> & a1 & a2 & -> & ->). by exists a1, a2.
  - intros key. rewrite (get_ok d tbls key (ci_tables _ _ _ _ _ _ Hc)).
    by rewrite (ci_view _ _ _ _ _ _ Hc).
Qed.

Lemma somebody_can_run (ts : gmap nat Pc) :
  (∃ i pc, ts !! i = Some pc ∧ is_done pc = false) →
  ∃ j pc, ts !! j = Some pc ∧ is_done pc = false ∧ free ts j pc.
Proof using Type.
  intros (i & pc & Hi & Hd).
  destruct (decide (map_Forall (λ _ pc, holds_data pc = false) ts)) as [Hdata|Hdata]; cycle 1.
  { apply map_not_Forall in Hdata as (j & pcj & Hj & Hh); [|apply _].
    exists j, pcj. split; [done|]. by destruct pcj. }
  destruct (decide (map_Forall (λ _ pc, holds_compaction pc = false) ts)) as [Hcp|Hcp]; cycle 1.
  { apply map_not_Forall in Hcp as (j & pcj & Hj & Hh); [|apply _].
    exists j, pcj. split; [done|]. by destruct pcj. }
  exists i, pc. split; [done|]. split; [done|]. intros j pcj Hj _.
  split; intros _; [by apply (Hdata j)|by apply (Hcp j)].
Qed.

(** C11: With [n] levels a call takes at most 5 n + 9 steps of its thread, and as
    long as some call is on the way, some thread can take a step: the threads
    never wait for each other in a circle, and every run that goes on as long
    as it can finishes every call. *)
Theorem calls_terminate ss cfg m0 d0 tr d ts :
  threads_run ss cfg m0 d0 tr d ts →
  (∀ i call before after, last_call i call before after tr →
     ∃ pc, ts !! i = Some pc ∧ steps_by i after ≤ 5 * cfg_sstable_level cfg + 9 ∧
       (steps_by i after = 5 * cfg_sstable_level cfg + 9 → is_done pc = true)) ∧
  ((∃ i pc, ts !! i = Some pc ∧ is_done pc = false) →
   ∃ j pc s', cstep (MkSystem d ts) (Ran j pc) s').
Proof using All.
  intros Hrun. destruct (threads_run_inv _ _ _ _ _ _ _ Hrun) as (tbls & W & N & Hc & Hl & Ht).
  split.
  - intros i call before after Hlast.
    destruct (Ht i call before after Hlast) as (pc & Hpc & _ & Hs). rewrite Hl in Hs.
    exists pc. split; [done|]. split; [lia|]. intros E.
    assert (steps_left (cfg_sstable_level cfg) pc = 0) by lia. destruct pc; cbn in *; (done || lia).
  - intros (j & pc & Hj & Hd & Hf)%somebody_can_run.
    destruct (section pc d) as [r d'] eqn:E. exists j, pc. eexists. by econstructor.
Qed.

(** A run up to one of its labels. *)
Lemma csteps_prefix s0 tr1 l tr2 s :
  csteps s0 (tr1 ++ l :: tr2) s → ∃ s1 s2, csteps s0 tr1 s1 ∧ cstep s1 l s2.
Proof using Type.
  intros Hrun. remember (tr1 ++ l :: tr2) as tr eqn:Etr. revert tr2 Etr.
  induction Hrun as [s|s tr s1 l1 s2 Hrun IH Hstep]; intros tr2 Etr.
  { by destruct tr1. }
  destruct (exists_last (l := l :: tr2)) as (x & y & Ex); [done|].
  rewrite Ex, app_assoc in Etr. apply app_inj_tail in Etr as [-> <-].
  destruct x as [|z x]; cbn in Ex; simplify_eq.
  - rewrite app_nil_r in Hrun. by exists s1, s2.
  - by eapply IH.
Qed.

Lemma threads_run_prefix ss cfg m0 d0 tr1 l tr2 d ts :
  threads_run ss cfg m0 d0 (tr1 ++ l :: tr2) d ts →
  ∃ d1 ts1 s2, threads_run ss cfg m0 d0 tr1 d1 ts1 ∧ cstep (MkSystem d1 ts1) l s2.
Proof using Type.
  intros [Hss Hlev Hm Ho Hrun HW HN].
  destruct (csteps_prefix _ _ _ _ _ Hrun) as ([d1 ts1] & s2 & Hrun1 & Hstep).
  exists d1, ts1, s2. split; [|done]. split; try done.
  - unfold commands_of in HW. rewrite bind_app in HW. unfold commands_weight in *.
    rewrite sum_list_with_app in HW. unfold commands_of. lia.
  - rewrite length_app in HN. cbn in HN. lia.
Qed.

(** One command on a key decides its value. *)
Lemma lookup_commands m cs c :
  c ∈ cs → (∀ c', c' ∈ cs → command_key c' = command_key c → c' = c) →
  foldl apply_command m cs !! command_key c = command_value c.
Proof using Type.
  assert (Happ : ∀ m c', apply_command m c' !! command_key c =
    if decide (command_key c' = command_key c) then command_value c' else m !! command_key c).
  { intros m' [k v|k]; cbn; case_decide as E; subst;
      rewrite ?E, ?lookup_insert_eq, ?lookup_delete_eq, ?lookup_insert_ne, ?lookup_delete_ne; done. }
  revert m. induction cs as [|c' cs IH] using rev_ind; intros m Hin Hall;
    [by apply not_elem_of_nil in Hin|].
  rewrite foldl_snoc, Happ. case_decide as E.
  - rewrite (Hall c'); [done|apply elem_of_app; right; left|done].
  - apply IH.
    + apply elem_of_app in Hin as [?| ->%list_elem_of_singleton]; done.
    + intros c2 Hc2. apply Hall, elem_of_app. by left.
Qed.

Lemma writes_by_commands i tr c : c ∈ writes_by i tr → c ∈ commands_of tr.
Proof using Type.
  unfold writes_by, commands_of. rewrite !list_elem_of_bind.
  intros (l & Hc & Hl). exists l. split; [|done]. destruct l as [|j pc]; [done|].
  by case_decide; [|apply not_elem_of_nil in Hc].
Qed.

(** A thread that writes a key and then reads it gets what it wrote, whatever
    the other threads do, if none of them gives the key another value: what
    the test of concurrent accesses relies on. *)
Theorem own_write_is_read ss cfg m0 d0 tr d ts i c before between after r :
  threads_run ss cfg m0 d0 tr d ts →
  tr = before ++ Called i (CallWrite c) :: between ++ Called i (CallGet (command_key c)) :: after →
  (∀ call, Called i call ∉ between ++ after) →
  (∀ c', c' ∈ commands_of tr → command_key c' = command_key c → c' = c) →
  ts !! i = Some (PcDone r) → r = Ok (command_value c).
Proof using All.
  intros Hrun -> Hno Hall Hi.
  set (first := before ++ Called i (CallWrite c) :: between) in *.
  assert (Etr : before ++ Called i (CallWrite c) :: between ++
      Called i (CallGet (command_key c)) :: after =
    first ++ Called i (CallGet (command_key c)) :: after)
    by by unfold first; rewrite <-app_assoc.
  rewrite Etr in *.
  (* the write was over when the get began *)
  assert (Hin : c ∈ commands_of first).
  { destruct (threads_run_prefix _ _ _ _ _ _ _ _ _ Hrun) as (d1 & ts1 & s2 & Hrun1 & Hstep).
    destruct (threads_run_inv _ _ _ _ _ _ _ Hrun1) as (tbls & W & N & Hc & _ & Ht).
    destruct (Ht i (CallWrite c) before between) as (pc & Hpc & Hok & _).
    { split; [done|]. intros call' Hin. apply (Hno call'), elem_of_app. by left. }
    inversion Hstep as [? ? ? ? Hd|]; subst. specialize (Hd pc Hpc).
    destruct pc; try done. cbn in Hok. unfold first, commands_of. rewrite bind_app.
    apply elem_of_app. right. cbn. apply (writes_by_commands i). rewrite Hok. left. }
  destruct (threads_run_inv _ _ _ _ _ _ _ Hrun) as (tbls & W & N & Hc & _ & Ht).
  destruct (Ht i (CallGet (command_key c)) first after) as (pc & Hpc & Hok & _).
  { split; [done|]. intros call' Hin'. apply (Hno call'), elem_of_app. by right. }
  rewrite Hi in Hpc. simplify_eq. cbn in Hok. destruct Hok as (v & -> & a1 & a2 & -> & ->).
  f_equal. unfold map_of. apply lookup_commands.
  - unfold commands_of. rewrite bind_app, elem_of_app. by left.
  - intros c' Hc'. apply Hall. unfold commands_of in *. rewrite !bind_app, !elem_of_app in *.
    cbn. rewrite bind_app, elem_of_app. tauto.
Qed.

End properties.

(** * Concrete schedules *)

Module Example.

#[local] Existing Instance bits_text.
#[local] Existing Instance micro_math.
#[local] Existing Instance bits_text_laws.
#[local] Existing Instance micro_math_laws.
#[local] Existing Instance micro_dims.
#[local] Instance test_hash : Xxh3 := from_le.

Definition put (k : string) (v : Z) : Call := CallWrite (Set_ (lit k) (Int v)).

(** The thread [i] takes [n] steps. *)
Definition go (i n : nat) : list Move := replicate n (Go i).

(** The thread 1 has logged its write when the thread 2 fills the memtable,
    flushes it and cuts the log. *)
Definition cut_log : list Move :=
  [Start 1 (put "a" 1)] ++ go 1 1 ++
  [Start 2 (put "b" 1)] ++ go 2 6 ++
  [Start 2 (put "c" 1)] ++ go 2 10 ++
  go 1 5.

(** Two threads write one key: the thread 1 is first in the log and last in the
    memtable. *)
Definition swap_writes : list Move :=
  [Start 1 (put "a" 1)] ++ go 1 1 ++
  [Start 2 (put "a" 2)] ++ go 2 6 ++ go 1 5.

(** [x] and [y] are flushed three times; the thread 1 is about to compact them
    when the thread 3 writes [x] and the thread 2 flushes it: its table has an
    id below that of the compaction. *)
Definition overtake : list Move :=
  [Start 1 (put "x" 1)] ++ go 1 6 ++ [Start 1 (put "y" 1)] ++ go 1 10 ++
  [Start 1 (put "x" 2)] ++ go 1 6 ++ [Start 1 (put "y" 2)] ++ go 1 10 ++
  [Start 1 (put "x" 3)] ++ go 1 6 ++ [Start 1 (put "y" 3)] ++ go 1 7 ++
  [Start 3 (put "x" 4)] ++ go 3 3 ++ [Start 2 (put "y" 4)] ++ go 2 4 ++
  go 1 7 ++ go 2 6 ++ go 3 3.

Ltac moves_ok := repeat constructor; vm_compute; intuition congruence.

Lemma cut_log_ok : Forall move_ok cut_log. Proof. moves_ok. Qed.
Lemma swap_writes_ok : Forall move_ok swap_writes. Proof. moves_ok. Qed.
Lemma overtake_ok : Forall move_ok overtake. Proof. moves_ok. Qed.

(** Each insert writes the log under one lock and the memtable under another.
    If a flush of another thread comes in between, it cuts the log with the
    record of the first thread in it, whose value is not in the flushed table:
    the insert is acknowledged and read, and a crash loses it. *)
Theorem flush_cuts_foreign_record :
  ∃ d0 fs tr d ts d' fs', open_in_dir default_config ∅ = (Ok d0, fs) ∧
    csteps (MkSystem d0 ∅) tr (MkSystem d ts) ∧
    map_to_list ts = [(2, PcDone (Ok None)); (1, PcDone (Ok None))] ∧
    fst (get (lit "a") d) = Ok (Some (Int 1)) ∧
    open_in_dir default_config (dir_of d) = (Ok d', fs') ∧
    fst (get (lit "a") d') = Ok None.
Proof. apply (crash_test_run _ cut_log); [apply cut_log_ok|by vm_compute]. Qed.

(** Two writes of one key may reach the log in one order and the memtable in
    the other: a restart changes the value. *)
Theorem log_and_memtable_disagree :
  ∃ d0 fs tr d ts d' fs', open_in_dir default_config ∅ = (Ok d0, fs) ∧
    csteps (MkSystem d0 ∅) tr (MkSystem d ts) ∧
    map_to_list ts = [(2, PcDone (Ok None)); (1, PcDone (Ok None))] ∧
    fst (get (lit "a") d) = Ok (Some (Int 1)) ∧
    open_in_dir default_config (dir_of d) = (Ok d', fs') ∧
    fst (get (lit "a") d') = Ok (Some (Int 2)).
Proof. apply (crash_test_run _ swap_writes); [apply swap_writes_ok|by vm_compute]. Qed.

(** A flush that takes its table id before a compaction and publishes its table
    after the compaction has read the levels has newer values under a lower id.
    [load_sstables] takes the higher id for the newer: an older value is back
    after a clean restart. *)
Theorem restart_revives_compacted_value :
  ∃ d0 fs tr d ts d' fs', open_in_dir default_config ∅ = (Ok d0, fs) ∧
    csteps (MkSystem d0 ∅) tr (MkSystem d ts) ∧
    map_to_list ts =
      [(2, PcDone (Ok None)); (3, PcDone (Ok None)); (1, PcDone (Ok None))] ∧
    fst (get (lit "x") d) = Ok (Some (Int 4)) ∧
    open_in_dir default_config (dir_of d) = (Ok d', fs') ∧
    fst (get (lit "x") d') = Ok (Some (Int 3)).
Proof. apply (crash_test_run _ overtake); [apply overtake_ok|by vm_compute]. Qed.

(** ** The theorems on these schedules *)

(** The thread 4 does not find [x] in the memtable; before it looks into the
    tables, the thread 1 writes [x] and the thread 2 flushes it. *)
Definition late_get : list Move :=
  [Start 4 (CallGet (lit "x"))] ++ go 4 1 ++
  [Start 1 (put "x" 1)] ++ go 1 6 ++ [Start 2 (put "y" 1)] ++ go 2 5 ++
  go 4 1.

(** The thread 1 writes [x] and reads it while the thread 2 writes [y]. *)
Definition own_write : list Move :=
  [Start 1 (put "x" 1)] ++ go 1 1 ++ [Start 2 (put "y" 1)] ++ go 2 1 ++ go 1 5 ++
  [Start 1 (CallGet (lit "x"))] ++ go 2 1 ++ go 1 1.

Definition opened_run (ms : list Move) : option (Database * list Label * System) :=
  match open_in_dir default_config ∅ with
  | (Ok d0, _) => '(tr, s) ← run_moves ms [] (MkSystem d0 ∅); Some (d0, tr, s)
  | _ => None
  end.

Lemma opened_runs ms i o :
  Forall move_ok ms →
  match opened_run ms with
  | Some (_, tr, s) =>
      bool_decide (Z.of_nat (commands_weight (commands_of tr)) ≤ 1000)%Z &&
      bool_decide (length tr ≤ 1000) &&
      match sys_threads s !! i with
      | Some (PcDone (Ok v)) => bool_decide (v = o)
      | _ => false
      end
  | None => false
  end = true →
  ∃ d0 tr d ts, threads_run [] default_config ∅ d0 tr d ts ∧
    ts !! i = Some (PcDone (Ok o)) ∧ opened_run ms = Some (d0, tr, MkSystem d ts).
Proof.
  intros Hms Hrun. destruct (opened_run ms) as [[[d0 tr] [d ts]]|] eqn:E; [|done].
  rewrite !andb_true_iff, !bool_decide_eq_true in Hrun. destruct Hrun as [[Hw Hl] Hd].
  exists d0, tr, d, ts. split; [|split; [|done]]; cycle 1.
  { cbn in Hd. repeat case_match; try done. apply bool_decide_eq_true in Hd. by subst. }
  unfold opened_run in E.
  destruct (open_in_dir default_config ∅) as [[d1|e|p] fs] eqn:E0; [|done..].
  apply bind_Some in E as ([tr1 s1] & Er & E). simplify_eq.
  split; try done; cbn [sum_list_with]; try lia.
  - exists ∅, fs. by split.
  - eapply run_moves_csteps; [apply csteps_refl|done|exact Er].
  - unfold u32_max. lia.
Qed.

Lemma database_linearizable_witness :
  ∃ d0 tr d ts, threads_run [] default_config ∅ d0 tr d ts ∧
    ts !! 4 = Some (PcDone (Ok (Some (Int 1)))) ∧
    (∀ i call before after r, last_call i call before after tr → ts !! i = Some (PcDone r) →
       match call with
       | CallWrite c => is_Ok r = true ∧ writes_by i after = [c]
       | CallGet key => ∃ after1 after2, after = after1 ++ after2 ∧
           r = Ok (map_of ∅ (before ++ after1) !! key)
       end) ∧
    ∀ key, get key d = (Ok (map_of ∅ tr !! key), d).
Proof.
  destruct (opened_runs late_get 4 (Some (Int 1))) as (d0 & tr & d & ts & Hrun & Hd & _);
    [moves_ok|by vm_compute|].
  exists d0, tr, d, ts.
  split; [done|]. split; [done|].
  exact (database_linearizable [] default_config ∅ d0 tr d ts Hrun).
Defined.

Lemma calls_terminate_witness :
  ∃ d0 tr d ts, threads_run [] default_config ∅ d0 tr d ts ∧
    (∀ i call before after, last_call i call before after tr →
       ∃ pc, ts !! i = Some pc ∧ steps_by i after ≤ 5 * 2 + 9 ∧
         (steps_by i after = 5 * 2 + 9 → is_done pc = true)) ∧
    ((∃ i pc, ts !! i = Some pc ∧ is_done pc = false) →
     ∃ j pc s', cstep (MkSystem d ts) (Ran j pc) s').
Proof.
  destruct (opened_runs late_get 4 (Some (Int 1))) as (d0 & tr & d & ts & Hrun & _);
    [moves_ok|by vm_compute|].
  exists d0, tr, d, ts.
  split; [done|]. exact (calls_terminate [] default_config ∅ d0 tr d ts Hrun).
Defined.

Lemma own_write_is_read_witness :
  let c := Set_ (lit "x") (Int 1) in
  ∃ d0 tr d ts before between after, threads_run [] default_config ∅ d0 tr d ts ∧
    tr = before ++ Called 1 (CallWrite c) :: between ++ Called 1 (CallGet (command_key c)) :: after ∧
    ∀ r, ts !! 1 = Some (PcDone r) → r = Ok (command_value c).
Proof.
  intros c.
  destruct (opened_runs own_write 1 (Some (Int 1))) as (d0 & tr & d & ts & Hrun & Hd & E);
    [moves_ok|by vm_compute|].
  set (other := Set_ (lit "y") (Int 1)).
  set (between := [Ran 1 (PcLog c); Called 2 (CallWrite other); Ran 2 (PcLog other);
    Ran 1 (PcData c); Ran 1 PcCheckFlush; Ran 1 PcCheckCompact;
    Ran 1 (PcLevels [(0, false)]); Ran 1 (PcLevels [])]).
  set (after := [Ran 2 (PcData other); Ran 1 (PcGetData (lit "x"))]).
  assert (Etr : tr = [] ++ Called 1 (CallWrite c) :: between ++
    Called 1 (CallGet (command_key c)) :: after).
  { assert (Some tr = (λ x, x.1.2) <$> opened_run own_write) as E' by by rewrite E.
    enough ((λ x, x.1.2) <$> opened_run own_write = Some ([] ++ Called 1 (CallWrite c) ::
      between ++ Called 1 (CallGet (command_key c)) :: after)) as E2 by congruence.
    by vm_compute. }
  exists d0, tr, d, ts, [], between, after. split; [done|]. split; [done|]. intros r Hr.
  apply (own_write_is_read [] default_config ∅ d0 tr d ts 1 c [] between after r Hrun Etr).
  - intros call Hin. unfold between, after in Hin. cbn [app] in Hin.
    repeat (apply elem_of_cons in Hin as [?|Hin]; [done|]). by apply not_elem_of_nil in Hin.
  - intros c'. rewrite Etr. change (commands_of _) with [c; other].
    rewrite !elem_of_cons, elem_of_nil.
    intros [->|[->|[]]]; [done|]. intros Ek. by vm_compute in Ek.
  - done.
Defined.

End Example.
