(* ===== verification/ConcurrentCrash.v ===== *)
(** What is left of the promises of a database when the program stops while
    threads use it, at any point between two steps: the directory opens again,
    and nothing is read that was not written. (That the value need not be the
    last one is shown in [ConcurrentSpec.Example].) *)

From S2P Require Import Prelude Bytes Float LogRecord Logger Format Bloom Index.
From S2P Require Import SSTable SSTableSpec Heap Merge MergeSpec Database DatabaseSpec.
From S2P Require Import DatabaseRefine Concurrent ConcurrentInv ConcurrentStep ConcurrentSpec.

Section crash.
Context `{HT : F64Text} `{HM : F64Math} `{HX : Xxh3}
  `{!F64TextLaws HT} `{!F64MathLaws HM} `{!BloomDims}.

(** ** Where entries come from *)

(** One of the commands [P] wrote this entry. *)
Definition from (P : Command → Prop) (k : str) (e : Entry) : Prop :=
  ∃ c, P c ∧ command_key c = k ∧ command_entry c = e.

Definition all_from (P : Command → Prop) (es : Entries) : Prop :=
  ∀ k e, es_lookup es k = Some e → from P k e.

(** Every table file of the directory is complete, whether a level holds it or
    not, and nothing but commands of [P] is in the files and the memtable. *)
Record disk_inv (P : Command → Prop) (d : Database) (N : Z) : Prop := {
  dk_log : ∃ cs, wal_ok (log d) cs ∧ Forall P cs ∧ (Z.of_nat (length cs) ≤ N)%Z;
  dk_data k e : data d !! k = Some e → from P k e;
  dk_files name id : is_Some (dir d !! name) → sst_id name = Some id →
    ∃ id' es, name = sst_name id' ∧ (0 ≤ id' < next_sstable_id d)%Z ∧
      table_on_disk (dir d) (id', es) ∧ all_from P es;
  dk_no_log : dir d !! log_name = None;
}.

Definition pc_from (P : Command → Prop) (pc : Pc) : Prop :=
  match pc with PcLog c | PcData c => P c | _ => True end.

Lemma from_mono (P Q : Command → Prop) k e : (∀ c, P c → Q c) → from P k e → from Q k e.
Proof using Type. intros HPQ (c & ? & ?). exists c. auto. Qed.

Lemma disk_inv_mono (P Q : Command → Prop) d N N' :
  (∀ c, P c → Q c) → (N ≤ N')%Z → disk_inv P d N → disk_inv Q d N'.
Proof using Type.
  intros HPQ HN [(cs & Hcs & HP & Hlen) Hd Hf Hl]. split; [| | |done].
  - exists cs. split; [done|]. split; [by eapply Forall_impl|lia].
  - intros k e Hk. by eapply from_mono, Hd.
  - intros name id Hn Hid. destruct (Hf name id Hn Hid) as (id' & es & ? & ? & ? & Hes).
    exists id', es. split_and!; try done; try lia. intros k e Hk. by eapply from_mono, Hes.
Qed.

Lemma disk_inv_same P d d' N :
  dir d' = dir d → data d' = data d → log d' = log d →
  next_sstable_id d' = next_sstable_id d → disk_inv P d N → disk_inv P d' (N + 1).
Proof using Type.
  intros E1 E2 E3 E4 [(cs & Hcs & HP & Hlen) Hd Hf Hl]. split; rewrite ?E1, ?E2, ?E3, ?E4; try done.
  exists cs. split; [done|]. split; [done|lia].
Qed.

(** A file holds one list of entries. *)
Lemma table_on_disk_unique fs id es es' :
  table_on_disk fs (id, es) → table_on_disk fs (id, es') → es = es'.
Proof using All.
  intros (c & b & Hc & Htf) (c' & b' & Hc' & Htf'). cbn in *.
  pose proof (load_entries_ok _ _ _ _ _ Hc Htf) as E.
  rewrite (load_entries_ok _ _ _ _ _ Hc' Htf') in E. by simplify_eq.
Qed.

(** The tables of the levels are files of the directory. *)
Lemma live_tables_from P d N tbls p :
  disk_inv P d N → tables_inv d tbls → p ∈ history tbls → all_from P p.2.
Proof using All.
  intros Hk Hti Hp. pose proof (tables_on_disk _ _ _ (ti_tables _ _ Hti)) as Hdisk.
  rewrite Forall_forall in Hdisk. specialize (Hdisk p Hp).
  assert (Hid : p.1 ∈ (history tbls).*1) by by apply list_elem_of_fmap_2.
  pose proof (in_u32_id _ _ _ Hti Hid) as [Hu _].
  destruct Hdisk as (c & b & Hc & Htf).
  destruct (dk_files _ _ _ Hk (sst_name p.1) p.1) as (id' & es & E & Hlt & Hes & Hf);
    [by eexists|by apply sst_id_name|].
  apply sst_name_inj in E; [|done|].
  - rewrite <-E in Hes. destruct p as [id es']. cbn in *.
    rewrite (table_on_disk_unique (dir d) id es' es); [done|by exists c, b|done].
  - pose proof (ti_next _ _ Hti). unfold in_u32, in_u, u32_max in *. lia.
Qed.

Lemma newest_from P (ss : list Entries) k e :
  Forall (all_from P) ss → newest ss k = Some e → from P k e.
Proof using Type.
  intros Hss (i & s & Hi & Hl & _)%newest_Some. by eapply (Forall_lookup_1 _ _ _ _ Hss Hi).
Qed.

(** A new complete file. *)
Lemma disk_inv_new_file P d N c t es :
  let id := next_sstable_id d in
  disk_inv P d N → table_of (<[sst_name id := c]> (dir d)) t (id, es) → all_from P es →
  (0 ≤ id)%Z → (N < u32_max)%Z → (id ≤ N)%Z →
  disk_inv P (d <| next_sstable_id := (id + 1)%Z |> <| dir := <[sst_name id := c]> (dir d) |>)
    (N + 1).
Proof using Type.
  intros id [(cs & Hcs & HP & Hlen) Hd Hf Hl] Ht Hes H0' HN Hid.
  split; cbn [log data dir next_sstable_id upd upd_dir upd_next_sstable_id]; try done.
  - exists cs. split; [done|]. split; [done|lia].
  - intros name id1 Hn Hid1. destruct (decide (name = sst_name id)) as [->|Hne].
    + exists id, es. split_and!; try done; try lia. by eapply table_of_on_disk.
    + rewrite lookup_insert_ne in Hn by done.
      destruct (Hf name id1 Hn Hid1) as (id' & es' & -> & Hlt & Hon & Hes').
      exists id', es'. split_and!; try done; try lia.
      eapply table_on_disk_frame; [|done]. by rewrite lookup_insert_ne.
  - rewrite lookup_insert_ne by apply sst_name_ne_log. done.
Qed.

(** ** Steps *)

Lemma snapshot_levels_state level d : snd (snapshot_levels level d) = d.
Proof using Type.
  unfold snapshot_levels, level_at. rewrite !bind_eq. cbn. case_decide; [done|].
  rewrite !bind_eq. cbn. destruct (leveled_sstable d !! level) as [l|]; [|done]. cbn.
  case_decide; [done|]. rewrite !bind_eq. cbn.
  by destruct (leveled_sstable d !! (level + 1)).
Qed.

(** Sections that leave the files, the log, the memtable and the ids alone. *)
Definition quiet (pc : Pc) : bool :=
  match pc with
  | PcCheckFlush | PcPublish _ | PcCheckCompact | PcLevels _ | PcSnapshot _ _
  | PcSwap _ _ _ _ _ | PcGetData _ => true
  | _ => false
  end.

Lemma quiet_section pc d r d' :
  quiet pc = true → section pc d = (r, d') →
  dir d' = dir d ∧ data d' = data d ∧ log d' = log d ∧
  next_sstable_id d' = next_sstable_id d.
Proof using Type.
  intros Hq E. destruct pc; try done; revert E; at_section.
  - intros [= <- <-]. done.
  - rewrite bind_eq. cbn. destruct (leveled_sstable d) as [|l0 ls]; cbn; by intros [= <- <-].
  - rewrite bind_eq. cbn. case_decide; cbn; by intros [= <- <-].
  - by intros [= <- <-].
  - rewrite bind_eq. pose proof (snapshot_levels_state level d) as Es.
    destruct (snapshot_levels level d) as [[o|e|p] d1]; cbn in *; subst; by intros [= <- <-].
  - rewrite bind_eq. unfold swap_levels. rewrite bind_eq. cbn.
    case_decide; [cbn; by intros [= <- <-]|]. rewrite bind_eq. unfold lift.
    destruct (drain_front _ level _); cbn; [|by intros [= <- <-]..]. rewrite bind_eq.
    destruct (drain_front _ (level + 1) _); cbn; by intros [= <- <-].
  - by intros [= <- <-].
Qed.

Section one_step.
Context {d : Database} {ts : gmap nat Pc} {i : nat} {pc : Pc} {tbls : Tables}
  {m : gmap str Value} {W : nat} {N : Z} {P : Command → Prop} {r : res Pc} {d' : Database}.
Hypothesis (Hc : cinv d ts tbls m W N) (Hi : ts !! i = Some pc)
  (E : section pc d = (r, d')) (HW : (Z.of_nat W ≤ 2 ^ 60)%Z) (HN : (N < u32_max)%Z)
  (Hk : disk_inv P d N) (Hp : pc_from P pc).

Lemma disk_flush : pc = PcFlush → disk_inv P d' (N + 1).
Proof using All.
  intros Epc. subst pc. revert E. at_section. pose proof (ci_next _ _ _ _ _ _ Hc).
  pose proof (ti_next _ _ (ci_tables _ _ _ _ _ _ Hc)) as Hn0.
  pose proof (ci_weight _ _ _ _ _ _ Hc) as [_ Hw].
  destruct (decide (data d = ∅)) as [Hemp|Hne].
  - erewrite (bind_Ok _ _ _ _ None); [|unfold flush_write; erewrite bind_Ok by done;
      by rewrite Hemp, map_to_list_empty].
    intros [= <- <-]. by eapply disk_inv_same.
  - destruct (flush_write_ok d (ci_entries _ _ _ _ _ _ Hc)) as (t & c & E' & Ht); [lia|lia|done|].
    erewrite bind_Ok by exact E'. intros [= <- <-].
    eapply disk_inv_new_file; try done; [|lia].
    intros k e. rewrite sorted_entries_lookup. apply Hk.
Qed.

Lemma disk_merge level ts_c ts_n todo :
  pc = PcMerge level ts_c ts_n todo → disk_inv P d' (N + 1).
Proof using All.
  intros Epc. pose proof (ci_pcs _ _ _ _ _ _ Hc i pc Hi) as Hpc. rewrite Epc in Hpc, E.
  destruct Hpc as (pre & cur & extra & next & post & ts_pre & ts_e & ts_post & Hm).
  destruct (merging_tables Hc _ _ _ _ _ _ _ _ _ _ _ Hm) as (_ & Hin & _ & _ & Hfew & Hw).
  pose proof (ci_next _ _ _ _ _ _ Hc). pose proof (ci_weight _ _ _ _ _ _ Hc).
  pose proof (ci_tables _ _ _ _ _ _ Hc) as Hti. pose proof (ti_next _ _ Hti) as Hn0.
  destruct (write_compacted_ok d ts_c ts_n cur next Hin (mg_len _ _ _ _ _ _ _ _ _ _ _ _ _ Hm)
    (mg_some _ _ _ _ _ _ _ _ _ _ _ _ _ Hm) Hfew) as (t & c & out & E' & Ht & Hout & Hwt); [lia..|].
  revert E. at_section. erewrite bind_Ok by exact E'. intros [= <- <-].
  eapply disk_inv_new_file; try done; [|lia].
  intros k e. rewrite Hout. apply newest_from. apply Forall_forall.
  intros es (p & -> & Hp')%list_elem_of_fmap. eapply live_tables_from; [done..|].
  rewrite (mg_tbls _ _ _ _ _ _ _ _ _ _ _ _ _ Hm), history_at, !elem_of_app in *. tauto.
Qed.

Lemma disk_remove old_paths todo :
  pc = PcRemove old_paths todo → disk_inv P d' (N + 1).
Proof using All.
  intros Epc. pose proof (ci_pcs _ _ _ _ _ _ Hc i pc Hi) as Hpc. rewrite Epc in Hpc, E.
  destruct Hpc as [Hnd Hex].
  destruct (remove_all_ok old_paths d Hnd Hex) as (fs & E' & Hgone & Hkept).
  revert E. at_section. erewrite bind_Ok by exact E'. erewrite bind_Ok by done.
  intros [= <- <-]. destruct Hk as [(cs & Hcs & HP & Hlen) Hd Hf Hl].
  split; cbn [log data dir next_sstable_id upd upd_dir upd_total_compactions]; try done.
  - exists cs. split; [done|]. split; [done|lia].
  - intros name id Hn Hid. destruct (decide (name ∈ old_paths)) as [Ho|Ho].
    { rewrite Hgone in Hn by done. by destruct Hn. }
    rewrite Hkept in Hn by done.
    destruct (Hf name id Hn Hid) as (id' & es & -> & Hlt & Hon & Hes).
    exists id', es. split_and!; try done; try lia.
    eapply table_on_disk_frame; [|done]. by apply Hkept.
  - destruct (decide (log_name ∈ old_paths)); [by apply Hgone|by rewrite Hkept].
Qed.

Lemma disk_log c : pc = PcLog c → disk_inv P d' (N + 1).
Proof using All.
  intros Epc. pose proof (ci_pcs _ _ _ _ _ _ Hc i pc Hi) as Hpc. subst pc.
  destruct Hk as [(cs & Hcs & HP & Hlen) Hd Hf Hl].
  destruct (log_ok c cs (log d) Hcs Hpc) as (lg & El & Hlg); [unfold u32_max, u64_max in *; lia|].
  revert E. at_section. erewrite bind_Ok by (apply zoom_Ok; exact El). intros [= <- <-].
  split; cbn [log data dir next_sstable_id upd upd_log]; try done.
  exists (cs ++ [c]). split; [done|]. rewrite length_app. cbn. split; [|lia].
  apply Forall_app. split; [done|]. by apply Forall_singleton.
Qed.

End one_step.

Lemma disk_step d ts i pc tbls m W N P r d' :
  cinv d ts tbls m W N → ts !! i = Some pc → section pc d = (r, d') →
  (Z.of_nat W ≤ 2 ^ 60)%Z → (N < u32_max)%Z → disk_inv P d N → pc_from P pc →
  disk_inv P d' (N + 1).
Proof using All.
  intros Hc Hi E HW HN Hk Hp. destruct (quiet pc) eqn:Hq.
  { destruct (quiet_section pc d r d' Hq E) as (E1 & E2 & E3 & E4). by eapply disk_inv_same. }
  destruct pc as [c|c| | |t| | | |todo|level todo|level cl nl todo|
    level cl nl t todo|old todo|key|key|r0]; try done.
  - by eapply disk_log.
  - revert E. at_section. intros [= <- <-]. destruct Hk as [(cs & Hcs & HP & Hlen) Hd Hf Hl].
    split; cbn [log data dir next_sstable_id upd upd_data]; try done.
    + exists cs. split; [done|]. split; [done|lia].
    + intros k e. rewrite replay_insert.
      intros [[<- <-]|[_ Hke]]%lookup_insert_Some; [by exists c|by apply Hd].
  - by eapply disk_flush.
  - destruct (truncate_ok (log d)) as (lg & El & Hlg). revert E. at_section.
    erewrite bind_Ok by (apply zoom_Ok; exact El). intros [= <- <-].
    destruct Hk as [(cs & Hcs & HP & Hlen) Hd Hf Hl]. split; try done.
    exists []. split; [done|]. split; [done|cbn; lia].
  - revert E. at_section. intros [= <- <-]. destruct Hk as [(cs & Hcs & HP & Hlen) Hd Hf Hl].
    split; try done. exists cs. split; [done|]. split; [done|lia].
  - by eapply disk_merge.
  - by eapply disk_remove.
  - revert E. at_section. erewrite bind_Ok by done. rewrite join_reverse_levels.
    erewrite bind_Ok by (apply zoom_Ok, search_ok, Forall2_history, (ci_tables _ _ _ _ _ _ Hc)).
    intros [= <- <-]. by apply (disk_inv_same P d).
  - revert E. at_section. intros [= <- <-]. by eapply disk_inv_same.
Qed.

(** ** Runs *)

Definition called (tr : list Label) (c : Command) : Prop := ∃ i, Called i (CallWrite c) ∈ tr.

Lemma called_app tr tr' c : called tr c → called (tr ++ tr') c.
Proof using Type. intros (i & Hi). exists i. apply elem_of_app. by left. Qed.

Lemma disk_inv_start P d : db_rel d ∅ 0 0 → disk_inv P d 0.
Proof using Type.
  intros (cs & tbls & Hd & _ & _ & Hn & Hcs & _).
  assert (cs = []) as -> by (destruct cs; [done|cbn in Hcs; lia]).
  split.
  - exists []. split; [apply Hd|]. split; [done|cbn; lia].
  - intros k e. rewrite (di_data _ _ _ Hd). cbn. by rewrite lookup_empty.
  - intros name id Hf Hid. destruct (di_files _ _ _ Hd name id Hf Hid) as (id' & Hin & _).
    pose proof (di_ids _ _ _ Hd) as Hids. rewrite Forall_forall in Hids.
    specialize (Hids id' Hin). lia.
  - apply Hd.
Qed.

Lemma section_from P pc d pc' d' :
  section pc d = (Ok pc', d') → pc_from P pc → pc_from P pc'.
Proof using Type.
  intros E%section_next Hp. destruct pc as [| | | | | | | |[|[level [|]] todo]| | | | | | |];
    cbn in *; destruct_or? E; repeat match type of E with ∃ _, _ => destruct E as [? E] end;
    by subst.
Qed.

Lemma run_disk d0 tr s :
  db_rel d0 ∅ 0 0 → csteps (MkSystem d0 ∅) tr s →
  (Z.of_nat (commands_weight (commands_of tr)) ≤ 2 ^ 60)%Z →
  (Z.of_nat (length tr) ≤ u32_max)%Z →
  disk_inv (called tr) (sys_db s) (Z.of_nat (length tr)) ∧
  ∀ i pc, sys_threads s !! i = Some pc → pc_from (called tr) pc.
Proof using All.
  intros Hd0 Hrun. remember (MkSystem d0 ∅) as s0 eqn:Es0.
  induction Hrun as [s|s tr s1 l s2 Hrun IH Hstep]; intros HW HN; subst.
  { split; [by apply disk_inv_start|done]. }
  rewrite commands_of_snoc in HW. rewrite length_app in HN |- *. cbn [length] in HN |- *.
  unfold commands_weight in HW. rewrite sum_list_with_app in HW.
  destruct IH as [Hk Hp]; [done|unfold commands_weight; lia|lia|].
  destruct (run_inv d0 ∅ 0 0 tr s1 Hd0 Hrun) as (tbls & Hc & _);
    [unfold commands_weight; lia|lia|].
  inversion Hstep as [d ts i call Hi Hok|d ts i pc r d' Hi Hd Hfree E]; subst; cbn in *.
  - split; [eapply disk_inv_mono; [apply called_app| |exact Hk]; lia|].
    intros j pc [[<- <-]|[_ Hj]]%lookup_insert_Some.
    + destruct call as [c|key]; [|done]. exists i. apply elem_of_app. right. left.
    + specialize (Hp j pc Hj). destruct pc; try done; by apply called_app.
  - split.
    + eapply disk_inv_mono; [apply called_app| |eapply disk_step; [exact Hc|exact Hi|exact E|..]];
        [lia|unfold commands_weight; lia|lia|done|by eapply Hp].
    + intros j pcj [[<- <-]|[_ Hj]]%lookup_insert_Some.
      * specialize (Hp i pc Hi). destruct r as [pc'|e|p]; cbn; try done.
        apply (section_from _ _ _ _ _ E) in Hp. destruct pc'; try done; by apply called_app.
      * specialize (Hp j pcj Hj). destruct pcj; try done; by apply called_app.
Qed.

(** ** Opening the directory again *)

Lemma replay_from P cs k e :
  Forall P cs → foldl replay ∅ cs !! k = Some e → from P k e.
Proof using Type.
  induction cs as [|c cs IH] using rev_ind; [intros _; cbn; by rewrite lookup_empty|].
  rewrite foldl_snoc, replay_insert. intros [HP Hc]%Forall_app.
  intros [[<- <-]|[_ Hk]]%lookup_insert_Some; [|by apply IH].
  exists c. split; [by apply Forall_singleton|done].
Qed.

Lemma choose_tables (Q : Z * Entries → Prop) ids :
  (∀ id, id ∈ ids → ∃ es, Q (id, es)) → ∃ hist : list (Z * Entries), hist.*1 = ids ∧ Forall Q hist.
Proof using Type.
  induction ids as [|id ids IH]; intros Hids; [by exists []|].
  destruct IH as (hist & <- & Hhist); [intros id' Hid'; apply Hids; by right|].
  destruct (Hids id) as (es & Hes); [left|]. exists ((id, es) :: hist). split; [done|].
  by constructor.
Qed.

Lemma sorted_lt ids : NoDup ids → StronglySorted Z.le ids → StronglySorted Z.lt ids.
Proof using Type.
  induction 1 as [|id ids Hid _ IH]; intros Hs; [constructor|].
  inversion_clear Hs as [|? ? Hs' Hall]. constructor; [by apply IH|].
  rewrite Forall_forall in Hall |- *. intros x Hx. specialize (Hall x Hx).
  assert (x ≠ id) by (intros ->; done). lia.
Qed.

(** The tables of a directory, by their ids. *)
Lemma directory_tables P d N :
  disk_inv P d N → (next_sstable_id d ≤ u32_max)%Z →
  ∃ hist, StronglySorted Z.lt hist.*1 ∧
    Forall (λ p, table_on_disk (dir d) p ∧ (0 ≤ p.1 < next_sstable_id d)%Z ∧ all_from P p.2) hist ∧
    ∀ name id, is_Some (dir d !! name) → sst_id name = Some id →
      ∃ id', id' ∈ hist.*1 ∧ name = sst_name id'.
Proof using Type.
  intros Hk Hn.
  set (found := omap sst_id (map_to_list (dir d)).*1).
  set (ids := merge_sort Z.le (elements (list_to_set found : gset Z))).
  assert (Hin : ∀ id, id ∈ ids ↔ ∃ name, is_Some (dir d !! name) ∧ sst_id name = Some id).
  { intros id. unfold ids, found. rewrite merge_sort_Permutation, elem_of_elements,
      elem_of_list_to_set, list_elem_of_omap. split.
    - intros (name & (p & -> & Hp)%list_elem_of_fmap & Hid). exists p.1. split; [|done].
      destruct p as [name c]. apply elem_of_map_to_list in Hp. by exists c.
    - intros (name & [c Hc] & Hid). exists name. split; [|done].
      apply list_elem_of_fmap. exists (name, c). by rewrite elem_of_map_to_list. }
  assert (Hname : ∀ name id, is_Some (dir d !! name) → sst_id name = Some id →
    name = sst_name id ∧ ∃ es, table_on_disk (dir d) (id, es) ∧
      (0 ≤ id < next_sstable_id d)%Z ∧ all_from P es).
  { intros name id Hf Hid. destruct (dk_files _ _ _ Hk name id Hf Hid) as (id' & es & -> & Hlt & Hes & Ha).
    rewrite sst_id_name in Hid by (unfold in_u32, in_u, u32_max in *; lia). simplify_eq.
    split; [done|]. by exists es. }
  destruct (choose_tables (λ p, table_on_disk (dir d) p ∧ (0 ≤ p.1 < next_sstable_id d)%Z ∧
    all_from P p.2) ids) as (hist & Ehist & Hhist).
  { intros id (name & Hf & Hid)%Hin. by destruct (Hname name id Hf Hid) as [_ H']. }
  exists hist. rewrite Ehist. split; [|split; [done|]].
  - apply sorted_lt; [|apply StronglySorted_merge_sort; apply _].
    unfold ids. rewrite merge_sort_Permutation. apply NoDup_elements.
  - intros name id Hf Hid. destruct (Hname name id Hf Hid) as [-> _]. exists id.
    split; [|done]. apply Hin. by exists (sst_name id).
Qed.

Lemma files_complete P d N name id :
  disk_inv P d N → is_Some (dir_of d !! name) → sst_id name = Some id →
  ∃ id' es, name = sst_name id' ∧ table_on_disk (dir_of d) (id', es).
Proof using Type.
  intros Hk. unfold dir_of. destruct (decide (name = log_name)) as [->|Hne]; [done|].
  rewrite lookup_insert_ne by done. intros Hf Hid.
  destruct (dk_files _ _ _ Hk name id Hf Hid) as (id' & es & -> & _ & Hes & _).
  exists id', es. split; [done|]. eapply table_on_disk_frame; [apply log_not_sst|done].
Qed.

Lemma reopen_ok P d N cfg :
  disk_inv P d N → (0 ≤ next_sstable_id d ≤ u32_max)%Z → cfg_sstable_level cfg ≠ 0 →
  ∃ d', open_in_dir cfg (dir_of d) = (Ok d', dir_of d') ∧
    ∀ key, ∃ v, get key d' = (Ok v, d') ∧ ∀ x, v = Some x → P (Set_ key x).
Proof using All.
  intros Hk Hn Hlev. destruct (directory_tables P d N Hk) as (hist & Hs & Hhist & Hfiles); [lia|].
  pose proof (dk_log _ _ _ Hk) as (cs & Hwal & HP & _).
  destruct (open_in_dir_ok cfg (dir_of d) (log d) cs hist (next_sstable_id d)) as
    (d' & E & _ & Hd & _); try done.
  { unfold dir_of. by rewrite lookup_insert_eq. }
  { eapply Forall_impl; [exact Hhist|]. intros p [Hp _].
    eapply table_on_disk_frame; [apply log_not_sst|done]. }
  { eapply Forall_impl; [exact Hhist|]. by intros p (_ & Hp & _). }
  { intros name id. unfold dir_of. destruct (decide (name = log_name)) as [->|Hne]; [done|].
    rewrite lookup_insert_ne by done. apply Hfiles. }
  exists d'. split; [done|]. intros key.
  rewrite (get_ok d' _ key (db_inv_tables _ _ _ Hd)). eexists. split; [done|].
  intros x Hx. unfold view in Hx. rewrite (di_data _ _ _ Hd), history_open in Hx.
  assert (Hfrom : ∀ e, entry_value e = Some x → from P key e → P (Set_ key x)).
  { intros e He (c & Hc & <- & <-). destruct c; cbn in *; by simplify_eq. }
  destruct (foldl replay ∅ cs !! key) as [e|] eqn:Ek.
  - eapply Hfrom; [exact Hx|]. by eapply replay_from.
  - apply bind_Some in Hx as (e & He & Hx). eapply Hfrom; [exact Hx|].
    eapply newest_from; [|exact He]. apply Forall_fmap.
    eapply Forall_impl; [exact Hhist|]. by intros p (_ & _ & Ha).
Qed.

(** C20: If the program is stopped between two steps of the threads that use a
    database that began empty (a step is a lock section and writes a table file
    whole, so a stop within a write is not meant here), every table file
    of the directory is complete, the directory opens again, and every key reads
    as missing or as a value that some call was to give it. *)
Theorem stopped_under_threads cfg d0 tr d ts cfg' :
  threads_run [] cfg ∅ d0 tr d ts → cfg_sstable_level cfg' ≠ 0 →
  (∀ name id, is_Some (dir_of d !! name) → sst_id name = Some id →
     ∃ id' es, name = sst_name id' ∧ table_on_disk (dir_of d) (id', es)) ∧
  ∃ d', open_in_dir cfg' (dir_of d) = (Ok d', dir_of d') ∧
    ∀ key, ∃ v, get key d' = (Ok v, d') ∧
      ∀ x, v = Some x → ∃ i, Called i (CallWrite (Set_ key x)) ∈ tr.
Proof using All.
  intros Hrun Hlev'. pose proof Hrun as [_ Hlev _ (fs & fs' & E & Eo) Hsteps HW HN].
  cbn [sum_list_with] in HW, HN. injection E as <-.
  destruct (disk_rel_open cfg ∅ ∅ 0 0 disk_rel_empty Hlev) as (d1 & Ed & Hd & _).
  rewrite Eo in Ed. simplify_eq.
  destruct (run_disk d1 tr _ Hd Hsteps) as [Hk _]; [done|done|].
  destruct (threads_run_inv _ _ _ _ _ _ _ Hrun) as (tbls & W & N & Hc & _).
  split; [intros name id; exact (files_complete _ _ _ name id Hk)|].
  destruct (reopen_ok _ _ _ cfg' Hk (ti_next _ _ (ci_tables _ _ _ _ _ _ Hc)) Hlev') as (d' & Eop & Hget).
  by exists d'.
Qed.

End crash.

Module Example.
Import ConcurrentSpec.Example.

#[local] Existing Instance bits_text.
#[local] Existing Instance micro_math.
#[local] Existing Instance bits_text_laws.
#[local] Existing Instance micro_math_laws.
#[local] Existing Instance micro_dims.
#[local] Instance test_hash : Xxh3 := from_le.

(** Stopped when a flush has published its table and not yet cut the log. *)
Lemma stopped_under_threads_witness :
  ∃ d0 tr d ts, threads_run [] default_config ∅ d0 tr d ts ∧
    (∀ name id, is_Some (dir_of d !! name) → sst_id name = Some id →
       ∃ id' es, name = sst_name id' ∧ table_on_disk (dir_of d) (id', es)) ∧
    ∃ d', open_in_dir default_config (dir_of d) = (Ok d', dir_of d') ∧
      ∀ key, ∃ v, get key d' = (Ok v, d') ∧
        ∀ x, v = Some x → ∃ i, Called i (CallWrite (Set_ key x)) ∈ tr.
Proof.
  destruct (opened_runs late_get 4 (Some (Int 1))) as (d0 & tr & d & ts & Hrun & _);
    [moves_ok|by vm_compute|].
  exists d0, tr, d, ts. split; [done|].
  apply (stopped_under_threads default_config d0 tr d ts default_config Hrun). done.
Defined.

End Example.
